(** * Load generation and redline feedback core of OpenSearch Benchmark

    A shallow embedding of [osbenchmark/worker_coordinator/worker_coordinator.py]
    and the properties of its redline controller, scheduler primitives,
    allocator, request executor and throughput calculator.

    Conventions of the embedding:
    - Python [int] is [Z]; counts that index lists are [nat].
    - Python [float] (clock readings, percentages, throughput) is [Q]: exact
      rational arithmetic stands in for IEEE doubles. Where the code derives
      an integer from a float product ([math.ceil] in [scale_down]) the
      product is rounded to double precision ([Double.mul]).
    - A [dict] whose iteration order is observable (the shared client states,
      the per-task grouping of samples) is an insertion-ordered association
      list; a [dict] used only through lookups is a [gmap].
    - [random], clocks and the external collaborators (runner, metrics store)
      are explicit arguments of the functions that consult them. *)

From Stdlib Require Import ZArith QArith Qround Lia Lqa.
From stdpp Require Import base list sorting gmap strings.

Local Open Scope Z_scope.

(** ** Python values and helpers *)

Definition Qlt_bool (x y : Q) : bool := negb (Qle_bool y x).

(** [int(x)] on a float truncates towards zero. *)
Definition py_int (x : Q) : Z := Z.quot (Qnum x) (Z.pos (Qden x)).

(** Insertion-ordered dictionaries: assignment overwrites in place or appends. *)
Module PyDict.
Section ops.
Context {K V : Type} `{EqDecision K}.

Fixpoint get (k : K) (d : list (K * V)) : option V :=
  match d with
  | [] => None
  | (k0, v0) :: r => if decide (k0 = k) then Some v0 else get k r
  end.

Fixpoint set (k : K) (v : V) (d : list (K * V)) : list (K * V) :=
  match d with
  | [] => [(k, v)]
  | (k0, v0) :: r =>
      if decide (k0 = k) then (k, v) :: r else (k0, v0) :: set k v r
  end.

(** [d[k].update(f)] for a key that is present; absent keys are left alone. *)
Fixpoint update (k : K) (f : V → V) (d : list (K * V)) : list (K * V) :=
  match d with
  | [] => []
  | (k0, v0) :: r =>
      if decide (k0 = k) then (k0, f v0) :: r else (k0, v0) :: update k f r
  end.

Definition keys (d : list (K * V)) : list K := d.*1.

Definition wf (d : list (K * V)) : Prop := NoDup (keys d).
End ops.
End PyDict.

(** The [random] module, as far as the controller consults it. One value of
    this record is one state of the generator: what [random.sample(range(n), k)],
    [random.random()] and [random.shuffle] of a list of length [n] (given as
    the order in which the old positions appear) return in that state. *)
Record Random := {
  random_sample : nat → nat → list nat;
  random_random : Q;
  random_shuffle : nat → list nat
}.

Definition is_random_sample (n k : nat) (idx : list nat) : Prop :=
  length idx = k ∧ NoDup idx ∧ Forall (λ i, (i < n)%nat) idx.

Definition is_shuffle (n : nat) (idx : list nat) : Prop := idx ≡ₚ seq 0 n.

(** What the library guarantees of its results. *)
Record genuine (r : Random) : Prop := {
  genuine_sample : ∀ n k, (k ≤ n)%nat → is_random_sample n k (random_sample r n k);
  genuine_random : (0 <= random_random r)%Q ∧ (random_random r < 1)%Q;
  genuine_shuffle : ∀ n, is_shuffle n (random_shuffle r n)
}.

(** A generator that always answers with the first indices, in order, and
    with [r] for [random.random()]. *)
Definition first_indices (r : Q) : Random :=
  {| random_sample := λ _ k, seq 0 k;
     random_random := r;
     random_shuffle := λ n, seq 0 n |}.

(** [[l[i] for i in idx]]; [None] stands for [IndexError]. *)
Definition pick {A} (l : list A) (idx : list nat) : option (list A) :=
  mapM (λ i, l !! i) idx.

(** ** Double-precision arithmetic

    A finite [float] is the rational it stands for. [round] takes a rational
    to the nearest one with 53 significant bits, a tie to the one whose last
    bit is even, as IEEE 754 binary64 arithmetic does in its normal range;
    overflow (magnitudes from about 1.8e308) and the reduced precision of
    subnormal numbers are not modelled. *)

Module Double.

(** [N / D] rounded to the nearest integer, a tie to the even one, for
    [0 <= N] and [0 < D]. *)
Definition nearest_even (N D : Z) : Z :=
  let q := N / D in
  let r := N mod D in
  if 2 * r <? D then q
  else if D <? 2 * r then q + 1
  else if Z.even q then q else q + 1.

(** [m * 2^e] *)
Definition scaled (m e : Z) : Q :=
  if 0 <=? e then inject_Z (m * 2 ^ e) else Qmake m (Z.to_pos (2 ^ (- e))).

(** [n / d], for positive [n] and [d], rounded to 53 significant bits: the
    exponent [e] is the one that puts [n / d / 2^e] between [2^52] and
    [2^53]. *)
Definition round_pos (n d : Z) : Q :=
  let e0 := Z.log2 n - Z.log2 d - 52 in
  let N0 := if 0 <=? e0 then n else n * 2 ^ (- e0) in
  let D0 := if 0 <=? e0 then d * 2 ^ e0 else d in
  if N0 / D0 <? 2 ^ 52
  then scaled (nearest_even (2 * N0) D0) (e0 - 1)
  else scaled (nearest_even N0 D0) e0.

Definition round (x : Q) : Q :=
  match Qnum x with
  | 0 => 0%Q
  | Z.pos n => round_pos (Z.pos n) (Z.pos (Qden x))
  | Z.neg n => (- round_pos (Z.pos n) (Z.pos (Qden x)))%Q
  end.

(** [float(k)] of an [int], and a decimal literal such as [0.07]. *)
Definition of_int (k : Z) : Q := round (inject_Z k).
Definition literal (x : Q) : Q := round x.

(** [x * y] of two floats. *)
Definition mul (x y : Q) : Q := round (x * y).

(** [k * y] of an [int] and a [float]: the [int] is converted first. *)
Definition int_mul (k : Z) (y : Q) : Q := mul (of_int k) y.
End Double.

(** ** The feedback actor (redline controller) *)

Module Feedback.

Inductive FeedbackState := NEUTRAL | SCALING_DOWN | SLEEP | SCALING_UP | DISABLED.

(** [max_error_threshold] is an [int], or [float('inf')] after
    [ResetErrorThreshold]. *)
Inductive threshold := Finite (n : Z) | Infinite.

Inductive error_record :=
| RequestError (client_id : Z) (task : string)
| CpuThresholdExceeded (node_name : string) (value : Q).

(** [worker_id -> client_id -> active], in insertion order. *)
Definition client_states := list (Z * bool).
Definition shared_states := list (Z * client_states).

Record FeedbackActor := mkFeedbackActor {
  state : FeedbackState;
  shared_client_states : shared_states;
  total_client_count : Z;
  total_active_client_count : Z;
  num_clients_to_scale_up : Z;
  percentage_clients_to_scale_down : Q;
  POST_SCALEDOWN_SECONDS : Q;
  sleep_start_time : Q;
  last_error_time : Q;
  last_scaleup_time : Q;
  max_stable_clients : Z;
  error_queue : list error_record;
  max_error_threshold : threshold;
  probe_probability : Q;
  probe_interval : Z;
  cycles_since_probe : Z;
  last_cpu_check : Q;
  max_cpu_threshold : option Q;
  cpu_check_interval : option Q
}.

Definition WAKEUP_INTERVAL : Q := 1.

(** Capacity of the coordinator's [manager.Queue(maxsize=1000)]. *)
Definition ERROR_QUEUE_MAXSIZE : nat := 1000.

(** Field assignments. *)
Definition with_state v s :=
  mkFeedbackActor v (shared_client_states s) (total_client_count s)
    (total_active_client_count s) (num_clients_to_scale_up s)
    (percentage_clients_to_scale_down s) (POST_SCALEDOWN_SECONDS s)
    (sleep_start_time s) (last_error_time s) (last_scaleup_time s)
    (max_stable_clients s) (error_queue s) (max_error_threshold s)
    (probe_probability s) (probe_interval s) (cycles_since_probe s)
    (last_cpu_check s) (max_cpu_threshold s) (cpu_check_interval s).
Definition with_shared_client_states v s :=
  mkFeedbackActor (state s) v (total_client_count s)
    (total_active_client_count s) (num_clients_to_scale_up s)
    (percentage_clients_to_scale_down s) (POST_SCALEDOWN_SECONDS s)
    (sleep_start_time s) (last_error_time s) (last_scaleup_time s)
    (max_stable_clients s) (error_queue s) (max_error_threshold s)
    (probe_probability s) (probe_interval s) (cycles_since_probe s)
    (last_cpu_check s) (max_cpu_threshold s) (cpu_check_interval s).
Definition with_total_client_count v s :=
  mkFeedbackActor (state s) (shared_client_states s) v
    (total_active_client_count s) (num_clients_to_scale_up s)
    (percentage_clients_to_scale_down s) (POST_SCALEDOWN_SECONDS s)
    (sleep_start_time s) (last_error_time s) (last_scaleup_time s)
    (max_stable_clients s) (error_queue s) (max_error_threshold s)
    (probe_probability s) (probe_interval s) (cycles_since_probe s)
    (last_cpu_check s) (max_cpu_threshold s) (cpu_check_interval s).
Definition with_total_active_client_count v s :=
  mkFeedbackActor (state s) (shared_client_states s) (total_client_count s)
    v (num_clients_to_scale_up s)
    (percentage_clients_to_scale_down s) (POST_SCALEDOWN_SECONDS s)
    (sleep_start_time s) (last_error_time s) (last_scaleup_time s)
    (max_stable_clients s) (error_queue s) (max_error_threshold s)
    (probe_probability s) (probe_interval s) (cycles_since_probe s)
    (last_cpu_check s) (max_cpu_threshold s) (cpu_check_interval s).
Definition with_scaling_config step pct sleep_s cpu_interval cpu_max s :=
  mkFeedbackActor (state s) (shared_client_states s) (total_client_count s)
    (total_active_client_count s) step pct sleep_s
    (sleep_start_time s) (last_error_time s) (last_scaleup_time s)
    (max_stable_clients s) (error_queue s) (max_error_threshold s)
    (probe_probability s) (probe_interval s) (cycles_since_probe s)
    (last_cpu_check s) cpu_max cpu_interval.
Definition with_sleep_start_time v s :=
  mkFeedbackActor (state s) (shared_client_states s) (total_client_count s)
    (total_active_client_count s) (num_clients_to_scale_up s)
    (percentage_clients_to_scale_down s) (POST_SCALEDOWN_SECONDS s)
    v (last_error_time s) (last_scaleup_time s)
    (max_stable_clients s) (error_queue s) (max_error_threshold s)
    (probe_probability s) (probe_interval s) (cycles_since_probe s)
    (last_cpu_check s) (max_cpu_threshold s) (cpu_check_interval s).
Definition with_last_error_time v s :=
  mkFeedbackActor (state s) (shared_client_states s) (total_client_count s)
    (total_active_client_count s) (num_clients_to_scale_up s)
    (percentage_clients_to_scale_down s) (POST_SCALEDOWN_SECONDS s)
    (sleep_start_time s) v (last_scaleup_time s)
    (max_stable_clients s) (error_queue s) (max_error_threshold s)
    (probe_probability s) (probe_interval s) (cycles_since_probe s)
    (last_cpu_check s) (max_cpu_threshold s) (cpu_check_interval s).
Definition with_last_scaleup_time v s :=
  mkFeedbackActor (state s) (shared_client_states s) (total_client_count s)
    (total_active_client_count s) (num_clients_to_scale_up s)
    (percentage_clients_to_scale_down s) (POST_SCALEDOWN_SECONDS s)
    (sleep_start_time s) (last_error_time s) v
    (max_stable_clients s) (error_queue s) (max_error_threshold s)
    (probe_probability s) (probe_interval s) (cycles_since_probe s)
    (last_cpu_check s) (max_cpu_threshold s) (cpu_check_interval s).
Definition with_max_stable_clients v s :=
  mkFeedbackActor (state s) (shared_client_states s) (total_client_count s)
    (total_active_client_count s) (num_clients_to_scale_up s)
    (percentage_clients_to_scale_down s) (POST_SCALEDOWN_SECONDS s)
    (sleep_start_time s) (last_error_time s) (last_scaleup_time s)
    v (error_queue s) (max_error_threshold s)
    (probe_probability s) (probe_interval s) (cycles_since_probe s)
    (last_cpu_check s) (max_cpu_threshold s) (cpu_check_interval s).
Definition with_error_queue v s :=
  mkFeedbackActor (state s) (shared_client_states s) (total_client_count s)
    (total_active_client_count s) (num_clients_to_scale_up s)
    (percentage_clients_to_scale_down s) (POST_SCALEDOWN_SECONDS s)
    (sleep_start_time s) (last_error_time s) (last_scaleup_time s)
    (max_stable_clients s) v (max_error_threshold s)
    (probe_probability s) (probe_interval s) (cycles_since_probe s)
    (last_cpu_check s) (max_cpu_threshold s) (cpu_check_interval s).
Definition with_max_error_threshold v s :=
  mkFeedbackActor (state s) (shared_client_states s) (total_client_count s)
    (total_active_client_count s) (num_clients_to_scale_up s)
    (percentage_clients_to_scale_down s) (POST_SCALEDOWN_SECONDS s)
    (sleep_start_time s) (last_error_time s) (last_scaleup_time s)
    (max_stable_clients s) (error_queue s) v
    (probe_probability s) (probe_interval s) (cycles_since_probe s)
    (last_cpu_check s) (max_cpu_threshold s) (cpu_check_interval s).
Definition with_cycles_since_probe v s :=
  mkFeedbackActor (state s) (shared_client_states s) (total_client_count s)
    (total_active_client_count s) (num_clients_to_scale_up s)
    (percentage_clients_to_scale_down s) (POST_SCALEDOWN_SECONDS s)
    (sleep_start_time s) (last_error_time s) (last_scaleup_time s)
    (max_stable_clients s) (error_queue s) (max_error_threshold s)
    (probe_probability s) (probe_interval s) v
    (last_cpu_check s) (max_cpu_threshold s) (cpu_check_interval s).
Definition with_last_cpu_check v s :=
  mkFeedbackActor (state s) (shared_client_states s) (total_client_count s)
    (total_active_client_count s) (num_clients_to_scale_up s)
    (percentage_clients_to_scale_down s) (POST_SCALEDOWN_SECONDS s)
    (sleep_start_time s) (last_error_time s) (last_scaleup_time s)
    (max_stable_clients s) (error_queue s) (max_error_threshold s)
    (probe_probability s) (probe_interval s) (cycles_since_probe s)
    v (max_cpu_threshold s) (cpu_check_interval s).

(** [FeedbackActor.__init__]; [t1 .. t4] are its four clock readings. *)
Definition init (t1 t2 t3 t4 : Q) : FeedbackActor :=
  {| state := DISABLED;
     shared_client_states := [];
     total_client_count := 0;
     total_active_client_count := 0;
     num_clients_to_scale_up := 5;
     percentage_clients_to_scale_down := Double.literal (1 # 10);
     POST_SCALEDOWN_SECONDS := 30;
     sleep_start_time := t1;
     last_error_time := t2 - 30;
     last_scaleup_time := t3 - 30;
     max_stable_clients := 0;
     error_queue := [];
     max_error_threshold := Finite 10000;
     probe_probability := 5 # 100;
     probe_interval := 10;
     cycles_since_probe := 0;
     last_cpu_check := t4;
     max_cpu_threshold := None;
     cpu_check_interval := None |}.

(** *** The shared pause map *)

(** [start_benchmark], lines 1112-1135: one dictionary per worker that has
    clients, every client entered as [False]; [worker_id] counts the
    workers created so far. *)
Definition new_client_dict (clients : list Z) : client_states :=
  foldl (λ d client_id, PyDict.set client_id false d) [] clients.

Fixpoint build_shared_client_dict (worker_id : Z) (workers : list (list Z))
    (shared : shared_states) : shared_states :=
  match workers with
  | [] => shared
  | clients :: rest =>
      if (0 <? length clients)%nat
      then build_shared_client_dict (worker_id + 1) rest
             (PyDict.set worker_id (new_client_dict clients) shared)
      else build_shared_client_dict worker_id rest shared
  end.

Definition coordinator_shared_client_dict (workers : list (list Z)) : shared_states :=
  build_shared_client_dict 0 workers [].

(** [self.shared_client_states[worker_id][client_id] = status]. The pairs the
    actor assigns to are read off the same dictionary, so the worker is
    present; an absent worker ([KeyError]) leaves the map as it is. *)
Definition set_client_state (worker_id client_id : Z) (status : bool)
    (shared : shared_states) : shared_states :=
  PyDict.update worker_id (PyDict.set client_id status) shared.

(** The two comprehensions over [shared_client_states.items()]. *)
Definition clients_with_status (status : bool) (shared : shared_states) : list (Z * Z) :=
  '(worker_id, states) ← shared;
  '(client_id, active) ← states;
  if bool_decide (active = status) then [(worker_id, client_id)] else [].

Definition all_active_clients := clients_with_status true.
Definition inactive_clients := clients_with_status false.

(** [sum(len(state) for state in shared_client_states.values())] *)
Definition count_clients (shared : shared_states) : Z :=
  foldr (λ ws acc, Z.of_nat (length ws.2) + acc) 0 shared.

(** *** Message handlers *)

Definition receiveMsg_StartFeedbackActor (shared : shared_states)
    (queue : list error_record) (s : FeedbackActor) : FeedbackActor :=
  let s := with_shared_client_states shared s in
  let s := with_total_client_count (count_clients (shared_client_states s)) s in
  with_error_queue queue s.

Definition receiveMsg_EnableFeedbackScaling (s : FeedbackActor) : FeedbackActor :=
  with_state SCALING_UP (with_cycles_since_probe 0 (with_max_error_threshold (Finite 10000) s)).

Definition receiveMsg_DisableFeedbackScaling (s : FeedbackActor) : FeedbackActor :=
  with_state DISABLED s.

Definition receiveMsg_ConfigureFeedbackScaling (scale_step : Z) (scale_down_pct : Q)
    (sleep_seconds : Z) (cpu_check_interval : Z) (cpu_max : option Q)
    (s : FeedbackActor) : FeedbackActor :=
  let cpu_max' :=
    match cpu_max with
    | Some m => if Qeq_bool m 0 then max_cpu_threshold s else Some m
    | None => max_cpu_threshold s
    end in
  with_scaling_config scale_step scale_down_pct (inject_Z sleep_seconds)
    (Some (inject_Z cpu_check_interval)) cpu_max' s.

Definition receiveMsg_ResetErrorThreshold (s : FeedbackActor) : FeedbackActor :=
  with_max_error_threshold Infinite s.

(** [receiveMsg_ActorExitRequest]: the number printed after "Maximum stable
    client number reached", and the actor with its pause map cleared. *)
Definition receiveMsg_ActorExitRequest (s : FeedbackActor) : Z * FeedbackActor :=
  (total_active_client_count s, with_shared_client_states [] s).

(** *** Scaling *)

Definition pause_client (s : FeedbackActor) (wc : Z * Z) : FeedbackActor :=
  let s := with_shared_client_states
             (set_client_state wc.1 wc.2 false (shared_client_states s)) s in
  with_total_active_client_count (total_active_client_count s - 1) s.

(** The [finally] block of [scale_down]. *)
Definition scale_down_finally (now : Q) (s : FeedbackActor) : FeedbackActor :=
  with_last_scaleup_time now
    (with_sleep_start_time now (with_error_queue [] (with_state SLEEP s))).

(** [math.ceil(self.total_active_client_count *
    self.percentage_clients_to_scale_down)]: the ceiling of the
    double-precision product of the count and the percentage. *)
Definition ceiling_of_percentage (s : FeedbackActor) : Z :=
  Qceiling (Double.int_mul (total_active_client_count s)
                           (percentage_clients_to_scale_down s)).

(** [scale_down]; [now] is the clock reading of the [finally] block. [None]
    is an escaping exception. *)
Definition scale_down (rng : Random) (now : Q) (s : FeedbackActor)
    : option FeedbackActor :=
  let s := with_max_error_threshold (Finite (total_active_client_count s)) s in
  let clients_to_pause := ceiling_of_percentage s in
  if clients_to_pause <=? 0 then Some (scale_down_finally now s)
  else
    let all_active := all_active_clients (shared_client_states s) in
    let clients_to_pause := Z.min clients_to_pause (Z.of_nat (length all_active)) in
    let clients_to_pause_indices :=
      random_sample rng (length all_active) (Z.to_nat clients_to_pause) in
    clients_to_pause_list ← pick all_active clients_to_pause_indices;
    Some (scale_down_finally now (foldl pause_client s clients_to_pause_list)).

(** [min(num_clients_to_scale_up, max_error_threshold - total_active)] *)
Definition max_clients_to_add (s : FeedbackActor) : Z :=
  match max_error_threshold s with
  | Finite t => Z.min (num_clients_to_scale_up s) (t - total_active_client_count s)
  | Infinite => num_clients_to_scale_up s
  end.

(** The activation loop of [scale_up], with its [break]. *)
Fixpoint activate_clients (inactive : list (Z * Z)) (max_to_add clients_activated : Z)
    (s : FeedbackActor) : FeedbackActor * Z :=
  match inactive with
  | [] => (s, clients_activated)
  | (worker_id, client_id) :: rest =>
      if max_to_add <=? clients_activated then (s, clients_activated)
      else
        let s := with_shared_client_states
                   (set_client_state worker_id client_id true (shared_client_states s)) s in
        let s := with_total_active_client_count (total_active_client_count s + 1) s in
        activate_clients rest max_to_add (clients_activated + 1) s
  end.

Definition scale_up_finally (now : Q) (s : FeedbackActor) : FeedbackActor :=
  with_state NEUTRAL (with_last_scaleup_time now s).

(** Whether the probe branch forces one client, and the cycle counter after
    it. *)
Definition probe_decision (rng : Random) (s : FeedbackActor) : bool * Z :=
  let probe := Qlt_bool (random_random rng) (probe_probability s) in
  let cycles := cycles_since_probe s + 1 in
  if probe_interval s <=? cycles then (true, 0) else (probe, cycles).

(** [scale_up]; [now] is the clock reading of the [finally] block. The second
    component is the local [clients_activated]. *)
Definition scale_up (rng : Random) (now : Q) (s : FeedbackActor)
    : option (FeedbackActor * Z) :=
  let to_add := max_clients_to_add s in
  let activate (to_add : Z) (s : FeedbackActor) :=
    let inactive := inactive_clients (shared_client_states s) in
    shuffled ← pick inactive (random_shuffle rng (length inactive));
    let '(s, activated) := activate_clients shuffled to_add 0 s in
    Some (scale_up_finally now s, activated) in
  if to_add <=? 0 then
    let '(probe, cycles) := probe_decision rng s in
    let s := with_cycles_since_probe cycles s in
    if probe then activate 1 s else Some (scale_up_finally now s, 0)
  else activate to_add s.

(** *** The wakeup handler *)

(** [queue.put_nowait] on the bounded error queue: dropped when full. *)
Definition put_nowait (e : error_record) (q : list error_record) : list error_record :=
  if (length q <? ERROR_QUEUE_MAXSIZE)%nat then q ++ [e] else q.

(** [_check_cpu_usage]; [buckets] is the answer of the metrics store: the
    nodes whose mean CPU exceeds the threshold. One record is enough. *)
Definition check_cpu_usage (buckets : list (string * Q)) (s : FeedbackActor)
    : FeedbackActor :=
  match buckets with
  | [] => s
  | (node, value) :: _ =>
      with_error_queue (put_nowait (CpuThresholdExceeded node value) (error_queue s)) s
  end.

(** [check_for_errors] drains the queue. *)
Definition check_for_errors (s : FeedbackActor) : list error_record * FeedbackActor :=
  (error_queue s, with_error_queue [] s).

Definition truthy_threshold (t : option Q) : bool :=
  match t with Some m => negb (Qeq_bool m 0) | None => false end.

(** [self.max_cpu_threshold and current_time - self.last_cpu_check >=
    self.cpu_check_interval]; comparing with an interval that was never
    configured is a [TypeError]. *)
Definition cpu_check_due (current_time : Q) (s : FeedbackActor) : option bool :=
  if truthy_threshold (max_cpu_threshold s) then
    match cpu_check_interval s with
    | Some i => Some (Qle_bool i (current_time - last_cpu_check s))
    | None => None
    end
  else Some false.

(** [handle_state]; [current_time] is its first clock reading, [now] the one
    taken inside [scale_down] or [scale_up]. *)
Definition handle_state (current_time : Q) (buckets : list (string * Q))
    (rng : Random) (now : Q) (s : FeedbackActor) : option FeedbackActor :=
  due ← cpu_check_due current_time s;
  let s :=
    if due : bool
    then with_last_cpu_check current_time (check_cpu_usage buckets s)
    else s in
  let '(errors, s) := check_for_errors s in
  match state s with
  | DISABLED => Some s
  | SLEEP =>
      if Qle_bool (POST_SCALEDOWN_SECONDS s) (current_time - sleep_start_time s)
      then Some (with_sleep_start_time current_time (with_state NEUTRAL s))
      else Some s
  | st =>
      match errors with
      | _ :: _ =>
          s ← scale_down rng now (with_state SCALING_DOWN s);
          Some (with_last_error_time current_time s)
      | [] =>
          match st with
          | NEUTRAL =>
              let s := with_max_stable_clients
                         (Z.max (max_stable_clients s) (total_active_client_count s)) s in
              if Qle_bool (POST_SCALEDOWN_SECONDS s) (current_time - last_error_time s) &&
                 Qle_bool WAKEUP_INTERVAL (current_time - last_scaleup_time s)
              then Some (with_state SCALING_UP s)
              else Some s
          | SCALING_UP =>
              r ← scale_up rng now s;
              Some (with_state NEUTRAL r.1)
          | _ => Some s
          end
      end
  end.

(** *** Well-formedness and the accounting invariant *)

(** Keys of a Python dictionary are unique, at both levels of the map. *)
Definition wf_shared (shared : shared_states) : Prop :=
  PyDict.wf shared ∧ Forall (λ ws, PyDict.wf ws.2) shared.

(** The map read as one flat list of [((worker_id, client_id), active)]. *)
Definition entries (shared : shared_states) : list ((Z * Z) * bool) :=
  '(worker_id, states) ← shared;
  (λ cb : Z * bool, ((worker_id, cb.1), cb.2)) <$> states.

(** A client dictionary as the coordinator creates it: every client paused. *)
Definition fresh_dict (cs : client_states) : Prop :=
  PyDict.wf cs ∧ Forall (λ cb, cb.2 = false) cs.

(** The flat view of one assignment and of the two comprehensions. *)
Definition flip_entry (k : Z * Z) (b : bool) (E : list ((Z * Z) * bool))
    : list ((Z * Z) * bool) :=
  (λ e, if decide (e.1 = k) then (k, b) else e) <$> E.

Definition keys_with (b : bool) (E : list ((Z * Z) * bool)) : list (Z * Z) :=
  (filter (λ e, e.2 = b) E).*1.

(** [total_active_client_count] is the number of [True] entries, and
    [total_client_count] the number of entries. *)
Record accounted (s : FeedbackActor) : Prop := {
  accounted_wf : wf_shared (shared_client_states s);
  accounted_active :
    total_active_client_count s =
    Z.of_nat (length (all_active_clients (shared_client_states s)));
  accounted_total :
    total_client_count s = Z.of_nat (length (entries (shared_client_states s)))
}.

(** The pairs switched off, and those switched on, between two states. *)
Definition paused_between (s s' : FeedbackActor) : list (Z * Z) :=
  filter (λ wc, wc ∈ inactive_clients (shared_client_states s'))
         (all_active_clients (shared_client_states s)).

Definition activated_between (s s' : FeedbackActor) : list (Z * Z) :=
  filter (λ wc, wc ∈ all_active_clients (shared_client_states s'))
         (inactive_clients (shared_client_states s)).

(** *** Runs of the actor *)

(** The actor as [start_benchmark] leaves it before [StartFeedbackActor]:
    created, then configured. *)
Inductive configured : FeedbackActor → Prop :=
| configured_init t1 t2 t3 t4 : configured (init t1 t2 t3 t4)
| configured_msg scale_step scale_down_pct sleep_seconds cpu_interval cpu_max s :
    configured s →
    configured (receiveMsg_ConfigureFeedbackScaling scale_step scale_down_pct
                  sleep_seconds cpu_interval cpu_max s).

(** The states of a redline run. [reach_other] stands for every handler that
    leaves the pause map and the two counters alone: configuration, enabling
    and disabling, threshold resets, errors arriving in the queue, and the
    branches of [handle_state] that do not scale. *)
Inductive reachable : FeedbackActor → Prop :=
| reach_start workers queue s :
    configured s →
    reachable (receiveMsg_StartFeedbackActor
                 (coordinator_shared_client_dict workers) queue s)
| reach_scale_down rng now s s' :
    genuine rng → reachable s → scale_down rng now s = Some s' → reachable s'
| reach_scale_up rng now s s' activated :
    genuine rng → reachable s → scale_up rng now s = Some (s', activated) →
    reachable s'
| reach_other s s' :
    reachable s →
    shared_client_states s' = shared_client_states s →
    total_client_count s' = total_client_count s →
    total_active_client_count s' = total_active_client_count s →
    reachable s'.

(** The two ways a probe comes about: the random draw falls below
    [probe_probability], or [_cycles_since_probe], incremented by this call,
    reaches [probe_interval]. *)
Definition probe_fires (rng : Random) (s : FeedbackActor) : bool :=
  Qlt_bool (random_random rng) (probe_probability s) ||
  (probe_interval s <=? cycles_since_probe s + 1).

(** *** Sample states *)

(** [report_error] of an executor: one more record in the shared queue. *)
Definition report_error (e : error_record) (s : FeedbackActor) : FeedbackActor :=
  with_error_queue (put_nowait e (error_queue s)) s.

(** A controller with default settings watching [n] clients of worker 0,
    all of them active, with [threshold] as its error threshold and
    [cycles] probe-less cycles behind it. *)
Definition all_active_actor (n : nat) (threshold : Z) (cycles : Z) : FeedbackActor :=
  {| state := SCALING_UP;
     shared_client_states := [(0, (λ c, (Z.of_nat c, true)) <$> seq 0 n)];
     total_client_count := Z.of_nat n;
     total_active_client_count := Z.of_nat n;
     num_clients_to_scale_up := 5;
     percentage_clients_to_scale_down := Double.literal (1 # 10);
     POST_SCALEDOWN_SECONDS := 30;
     sleep_start_time := 0;
     last_error_time := 0;
     last_scaleup_time := 0;
     max_stable_clients := 0;
     error_queue := [RequestError 0 "search"];
     max_error_threshold := Finite threshold;
     probe_probability := 5 # 100;
     probe_interval := 10;
     cycles_since_probe := cycles;
     last_cpu_check := 0;
     max_cpu_threshold := None;
     cpu_check_interval := None |}.

(** A short redline run over ten clients of one worker: configured with the
    defaults, started and enabled; two scale-ups of five clients with a
    neutral wakeup in between, a neutral wakeup that sees all ten clients
    active, then a request error and the wakeup that scales down. *)
Definition redline_run : option FeedbackActor :=
  let rng := first_indices (1 # 2) in
  let s := receiveMsg_ConfigureFeedbackScaling 5 (Double.literal (1 # 10)) 30 30 None
             (init 0 0 0 0) in
  let s := receiveMsg_StartFeedbackActor
             (coordinator_shared_client_dict [[0; 1; 2; 3; 4; 5; 6; 7; 8; 9]]) [] s in
  let s := receiveMsg_EnableFeedbackScaling s in
  s ← handle_state 100 [] rng 100 s;
  s ← handle_state 101 [] rng 101 s;
  s ← handle_state 102 [] rng 102 s;
  s ← handle_state 103 [] rng 103 s;
  handle_state 104 [] rng 104 (report_error (RequestError 3 "search") s).

End Feedback.

(** ** Exceptions *)

Inductive exn :=
| BenchmarkAssertionError (msg : string)
| SystemSetupError (msg : string)
| UnboundLocalError (name : string)
| AttributeError (msg : string)
| PyException (class_name : string).

Inductive result (A : Type) :=
| Ok (a : A)
| Raise (e : exn).
Arguments Ok {A} a.
Arguments Raise {A} e.

(** ** The workload, as far as this file reads it

    The workload module is not among the sources. A leaf task is the record of
    the attributes the coordinator reads; an element of the schedule is what
    iterating it yields (its leaf tasks, itself for a leaf) together with its
    own [clients] attribute. *)

Module Workload.
Record Task := {
  name : string;
  clients : nat;
  completes_parent : bool;
  warmup_iterations : option Z;
  iterations : option Z;
  warmup_time_period : option Q;
  time_period : option Q;
  ramp_up_time_period : option Q
}.

Record ScheduleElement := {
  element_clients : nat;
  sub_tasks : list Task
}.
End Workload.

(** ** The allocator *)

Module Allocator.
Import Workload.

Record JoinPoint := {
  id : nat;
  clients_executing_completing_task : list nat
}.

Record TaskAllocation := {
  task : Task;
  client_index_in_task : nat;
  global_client_index : nat;
  total_clients : nat
}.

(** An entry of the allocation matrix. *)
Inductive cell :=
| NoAllocation
| Join (jp : JoinPoint)
| Allocation (ta : TaskAllocation).

(** [Allocator.clients] *)
Definition max_clients (schedule : list ScheduleElement) : nat :=
  foldl (λ m task, m `max` element_clients task)%nat 1%nat schedule.

(** [allocations[i].append(x)] *)
Definition append_at (i : nat) (x : cell) (rows : list (list cell)) : list (list cell) :=
  alter (λ row, row ++ [x]) i rows.

(** [for client_index in indices: allocations[client_index].append(x)] *)
Definition append_all (indices : list nat) (x : cell) (rows : list (list cell))
    : list (list cell) :=
  foldl (λ rows i, append_at i x rows) rows indices.

(** The body of [for client_index in range(start, start + sub_task.clients)]. *)
Definition allocate_client (n : nat) (task : ScheduleElement) (sub_task : Task)
    (start_client_index : nat) (acc : list (list cell) * list nat) (client_index : nat)
    : list (list cell) * list nat :=
  let '(rows, completing) := acc in
  let physical_client_index := (client_index mod n)%nat in
  let completing :=
    if completes_parent sub_task then completing ++ [physical_client_index]
    else completing in
  let ta := {| task := sub_task;
               client_index_in_task := client_index - start_client_index;
               global_client_index := client_index;
               total_clients := element_clients task |} in
  (append_at physical_client_index (Allocation ta) rows, completing).

(** The body of [for sub_task in task]. *)
Definition allocate_sub_task (n : nat) (task : ScheduleElement)
    (acc : list (list cell) * list nat * nat) (sub_task : Task)
    : list (list cell) * list nat * nat :=
  let '(rows_completing, start_client_index) := acc in
  (foldl (allocate_client n task sub_task start_client_index) rows_completing
         (seq start_client_index (clients sub_task)),
   (start_client_index + clients sub_task)%nat).

(** The body of [for task in self.schedule]. *)
Definition allocate_task (n : nat) (acc : list (list cell) * nat) (task : ScheduleElement)
    : list (list cell) * nat :=
  let '(rows, join_point_id) := acc in
  let '(rows, completing, start_client_index) :=
    foldl (allocate_sub_task n task) (rows, [], 0%nat) (sub_tasks task) in
  let rows :=
    if (0 <? start_client_index mod n)%nat then
      let start_client_index := (start_client_index mod n)%nat in
      append_all (seq start_client_index (n - start_client_index)) NoAllocation rows
    else rows in
  let next_join_point :=
    {| id := join_point_id; clients_executing_completing_task := completing |} in
  (append_all (seq 0 n) (Join next_join_point) rows, S join_point_id).

(** [Allocator.allocations] *)
Definition allocations (schedule : list ScheduleElement) : list (list cell) :=
  let n := max_clients schedule in
  let rows := replicate n [] in
  let next_join_point := {| id := 0; clients_executing_completing_task := [] |} in
  let rows := append_all (seq 0 n) (Join next_join_point) rows in
  (foldl (allocate_task n) (rows, 1%nat) schedule).1.

(** *** The join-point skeleton of a row *)

(** What a row shows of its join points: their ids, at their positions. *)
Definition shown (x : cell) : option nat :=
  match x with Join jp => Some (id jp) | _ => None end.

Definition join_point_ids (row : list cell) : list (option nat) := shown <$> row.

(** The number of columns a group takes: its sub-tasks' clients dealt
    round-robin over [n] rows, the last column padded. *)
Definition group_clients (task : ScheduleElement) : nat :=
  foldr (λ sub_task acc, clients sub_task + acc)%nat 0%nat (sub_tasks task).

Definition group_width (n : nat) (task : ScheduleElement) : nat :=
  (group_clients task / n + (if 0 <? group_clients task mod n then 1 else 0))%nat.

(** Join point [first], then for each group its columns and the next join point. *)
Fixpoint skeleton_from (n first : nat) (schedule : list ScheduleElement)
    : list (option nat) :=
  match schedule with
  | [] => []
  | task :: rest =>
      replicate (group_width n task) None ++ [Some first] ++ skeleton_from n (S first) rest
  end.

Definition skeleton (schedule : list ScheduleElement) : list (option nat) :=
  Some 0%nat :: skeleton_from (max_clients schedule) 1 schedule.
(** The matrix described row by row: [n] rows, row [r] showing [F r]. *)
Definition shaped (n : nat) (F : nat → list (option nat)) (rows : list (list cell))
    : Prop :=
  length rows = n ∧ ∀ r row, rows !! r = Some row → join_point_ids row = F r.

(** How many of the first [k] clients, dealt round-robin, land on row [r]. *)
Definition dealt_to (n k r : nat) : nat :=
  (k / n + (if decide (r < k mod n) then 1 else 0))%nat.

(** The rows while a group is dealt out: on top of [F], row [r] holds as
    many task allocations as clients were dealt to it. *)
Definition dealt (n : nat) (F : nat → list (option nat)) (k : nat)
    : nat → list (option nat) :=
  λ r, F r ++ replicate (dealt_to n k r) None.

(** *** Sample schedules *)

Definition leaf (task_name : string) (task_clients : nat) (completing : bool) : Task :=
  {| name := task_name; clients := task_clients; completes_parent := completing;
     warmup_iterations := None; iterations := None;
     warmup_time_period := None; time_period := None;
     ramp_up_time_period := None |}.

(** Two parallel tasks, [T1] with two clients and [T2] with one. *)
Definition two_parallel_tasks : list ScheduleElement :=
  [{| element_clients := 3;
      sub_tasks := [leaf "T1" 2 false; leaf "T2" 1 false] |}].
End Allocator.

(** ** Progress control and the schedule factory *)

Module Scheduling.
Import Workload Allocator.

Inductive SampleType := Warmup | Normal.

Record TimePeriodBased := {
  tp_warmup_time_period : option Q;
  tp_time_period : option Q;
  tp_duration : option Q;
  tp_start : option Q;
  tp_now : option Q
}.

Record IterationBased := {
  ib_warmup_iterations : option Z;
  ib_iterations : option Z;
  ib_total_iterations : option Z;
  ib_it : option Z
}.

(** [TimePeriodBased.__init__] *)
Definition TimePeriodBased_init (warmup_time_period time_period : option Q)
    : TimePeriodBased :=
  {| tp_warmup_time_period := warmup_time_period;
     tp_time_period := time_period;
     tp_duration :=
       match warmup_time_period, time_period with
       | Some w, Some t => Some (w + t)%Q
       | _, _ => None
       end;
     tp_start := None;
     tp_now := None |}.

Definition TimePeriodBased_infinite (c : TimePeriodBased) : bool :=
  bool_decide (tp_time_period c = None).

(** [IterationBased.__init__] *)
Definition IterationBased_init (warmup_iterations iterations : option Z)
    : result IterationBased :=
  match warmup_iterations, iterations with
  | Some w, Some i =>
      let total_iterations := w + i in
      if total_iterations =? 0
      then Raise (BenchmarkAssertionError "Operation must run at least for one iteration.")
      else Ok {| ib_warmup_iterations := warmup_iterations;
                 ib_iterations := iterations;
                 ib_total_iterations := Some total_iterations;
                 ib_it := None |}
  | _, _ =>
      Ok {| ib_warmup_iterations := warmup_iterations;
            ib_iterations := iterations;
            ib_total_iterations := None;
            ib_it := None |}
  end.

Definition IterationBased_infinite (c : IterationBased) : bool :=
  bool_decide (ib_iterations c = None).

Inductive ProgressControl :=
| TimeControl (c : TimePeriodBased)
| IterationControl (c : IterationBased).

(** The runner and the partitioned parameter source, as [schedule_for] and
    [requires_time_period_schedule] read them. *)
Record Runner := {
  completed : option bool;
  percent_completed : option Q
}.

Record ParamSource := {
  infinite : bool
}.

(** [requires_time_period_schedule] *)
Definition requires_time_period_schedule (task : Task) (task_runner : Runner)
    (params : ParamSource) : bool :=
  if bool_decide (warmup_time_period task ≠ None ∨ time_period task ≠ None) then true
  else if bool_decide (warmup_iterations task ≠ None ∨ iterations task ≠ None) then false
  else if bool_decide (completed task_runner ≠ None) then true
  else negb (infinite params).

Record ScheduleHandle := {
  task_allocation : TaskAllocation;
  task_progress_control : ProgressControl;
  runner : Runner;
  params : ParamSource
}.

(** [x if x else 0] *)
Definition or_zero_Q (x : option Q) : Q :=
  match x with Some v => if Qeq_bool v 0 then 0%Q else v | None => 0%Q end.

Definition or_zero_Z (x : option Z) : Z :=
  match x with Some v => if v =? 0 then 0 else v | None => 0 end.

Definition truthy_Z (x : option Z) : bool :=
  match x with Some v => negb (v =? 0) | None => false end.

(** [schedule_for]; [runner_for_op] is [runner.runner_for(op.type)] and
    [partition] is [parameter_source.partition]. The scheduler of the task
    plays no part in the choice of the progress control. *)
Definition schedule_for (ta : TaskAllocation) (runner_for_op : Runner)
    (partition : nat → nat → ParamSource) : result ScheduleHandle :=
  let task := Allocator.task ta in
  let client_index := client_index_in_task ta in
  let params_for_op := partition client_index (clients task) in
  let loop_control :=
    if requires_time_period_schedule task runner_for_op params_for_op then
      let warmup_time_period := or_zero_Q (warmup_time_period task) in
      Ok (TimeControl (TimePeriodBased_init (Some warmup_time_period) (time_period task)))
    else
      let warmup_iterations := or_zero_Z (warmup_iterations task) in
      let iterations :=
        if truthy_Z (iterations task) then iterations task
        else if infinite params_for_op then Some 1
        else None in
      match IterationBased_init (Some warmup_iterations) iterations with
      | Ok c => Ok (IterationControl c)
      | Raise e => Raise e
      end in
  match loop_control with
  | Ok c => Ok {| task_allocation := ta;
                  task_progress_control := c;
                  runner := runner_for_op;
                  params := params_for_op |}
  | Raise e => Raise e
  end.

(** *** Sample inputs *)

(** A task that says nothing about its duration, for a single client. *)
Definition plain_task : Task :=
  {| name := "search"; clients := 1; completes_parent := false;
     warmup_iterations := None; iterations := None;
     warmup_time_period := None; time_period := None;
     ramp_up_time_period := None |}.

Definition plain_allocation : TaskAllocation :=
  {| task := plain_task; client_index_in_task := 0;
     global_client_index := 0; total_clients := 1 |}.

Definition plain_runner : Runner := {| completed := None; percent_completed := None |}.

(** A task configured with no warm-up iterations and no iterations. *)
Definition zero_iterations_task : Task :=
  {| name := "search"; clients := 1; completes_parent := false;
     warmup_iterations := Some 0; iterations := Some 0;
     warmup_time_period := None; time_period := None;
     ramp_up_time_period := None |}.

Definition zero_iterations_allocation : TaskAllocation :=
  {| task := zero_iterations_task; client_index_in_task := 0;
     global_client_index := 0; total_clients := 1 |}.

Definition constant_source (inf : bool) : nat → nat → ParamSource :=
  λ _ _, {| infinite := inf |}.
End Scheduling.

(** ** Samples *)

Module Samples.
Import Scheduling.

(** Values of request meta-data and of request parameters. *)
Inductive pyval :=
| PyNone
| PyBool (b : bool)
| PyInt (z : Z)
| PyFloat (q : Q)
| PyStr (s : string).

Definition truthy (v : pyval) : bool :=
  match v with
  | PyNone => false
  | PyBool b => b
  | PyInt z => negb (z =? 0)
  | PyFloat q => negb (Qeq_bool q 0)
  | PyStr s => negb (String.eqb s "")
  end.

(** [d.get(k)] taken as a condition. *)
Definition get_truthy (k : string) (d : gmap string pyval) : bool :=
  match d !! k with Some v => truthy v | None => false end.

(** A weight as a number; the runner interface promises an [int]. *)
Definition number_of (v : pyval) : Q :=
  match v with
  | PyInt z => inject_Z z
  | PyFloat q => q
  | PyBool b => if b then 1%Q else 0%Q
  | _ => 0%Q
  end.

Definition SampleType_lt (a b : SampleType) : bool :=
  match a, b with Warmup, Normal => true | _, _ => false end.

(** [DefaultSample], with the fields of [Sample] it inherits. *)
Record DefaultSample := {
  client_id : Z;
  absolute_time : Q;
  request_start : Q;
  task_start : Q;
  task : string;
  sample_type : SampleType;
  request_meta_data : gmap string pyval;
  latency : Q;
  service_time : Q;
  client_processing_time : Q;
  processing_time : Q;
  throughput : option pyval;
  total_ops : Q;
  total_ops_unit : string;
  time_period : Q;
  percent_completed : option Q;
  dependent_timing : option pyval
}.

(** The [relative_time] property. *)
Definition relative_time (s : DefaultSample) : Q := (request_start s - task_start s)%Q.

Record ProfileMetricsSample := {
  pm_client_id : Z;
  pm_absolute_time : Q;
  pm_request_start : Q;
  pm_task_start : Q;
  pm_task : string;
  pm_sample_type : SampleType;
  pm_request_meta_data : gmap string pyval;
  pm_time_period : Q;
  pm_percent_completed : option Q;
  pm_dependent_timing : option pyval
}.
End Samples.

(** ** The request executor *)

(** The request context holder of the client module, which is not among the
    sources: a context with four optional timings, the callbacks that the
    executor and the transport fire, and the context handed out at the start
    of a request. *)
Class RequestContextHolder := {
  request_context : Type;
  new_request_context : request_context;
  on_client_request_start : request_context → request_context;
  on_request_start : request_context → request_context;
  on_request_end : request_context → request_context;
  on_client_request_end : request_context → request_context;
  ctx_request_start : request_context → option Q;
  ctx_request_end : request_context → option Q;
  ctx_client_request_start : request_context → option Q;
  ctx_client_request_end : request_context → option Q
}.

Module Executor.
Import Samples.
Export Scheduling(SampleType, Warmup, Normal).

(** How a step of the executor ends: with a value, with an exception that
    escapes, or with [asyncio.TimeoutError]. *)
Inductive failure :=
| Exception (e : exn)
| TimeoutError.

Inductive outcome (A : Type) :=
| Returned (a : A)
| Failed (f : failure).
Arguments Returned {A} a.
Arguments Failed {A} f.

Section executor.
Context `{RequestContextHolder}.

Definition meta_data := gmap string pyval.

(** What [opensearchpy.TransportError] carries, as [execute_single] reads it. *)
Record TransportError := {
  is_connection_error : bool;
  is_connection_timeout : bool;
  status_code : option Z;
  info : option string;
  error : string
}.

(** What awaiting the runner under [asyncio.wait_for] comes to. *)
Inductive runner_outcome :=
| ReturnedTuple (weight : Q) (unit : string)
| ReturnedDict (d : meta_data)
| ReturnedOther
| RaisedTransportError (e : TransportError)
| RaisedKeyError (msg : string)
| RaisedOther (e : exn)
| TimedOut.

(** A runner for one request: what calling it does to the request context
    and how the call ends, and its two attributes read afterwards. *)
Record Runner := {
  run : option meta_data → request_context → runner_outcome * request_context;
  completed : option bool;
  percent_completed : option Q
}.

Inductive pacer_call :=
| BeforeRequest (now : Q)
| AfterRequest (now : Q) (weight : Q) (unit : string) (meta : meta_data).

Record error_info := {
  err_client_id : Z;
  err_task : string;
  err_details : meta_data
}.

(** What a request can see and change outside the executor object. *)
Record World := {
  context : request_context;
  runner_invocations : nat;
  error_queue : option (list error_info);
  sampler : list DefaultSample;
  profile_sampler : list ProfileMetricsSample;
  pacer_calls : list pacer_call;
  complete : bool
}.

Definition with_context v w :=
  {| context := v; runner_invocations := runner_invocations w;
     error_queue := error_queue w; sampler := sampler w;
     profile_sampler := profile_sampler w; pacer_calls := pacer_calls w;
     complete := complete w |}.
Definition with_runner_invocations v w :=
  {| context := context w; runner_invocations := v;
     error_queue := error_queue w; sampler := sampler w;
     profile_sampler := profile_sampler w; pacer_calls := pacer_calls w;
     complete := complete w |}.
Definition with_error_queue v w :=
  {| context := context w; runner_invocations := runner_invocations w;
     error_queue := v; sampler := sampler w;
     profile_sampler := profile_sampler w; pacer_calls := pacer_calls w;
     complete := complete w |}.
Definition with_sampler v w :=
  {| context := context w; runner_invocations := runner_invocations w;
     error_queue := error_queue w; sampler := v;
     profile_sampler := profile_sampler w; pacer_calls := pacer_calls w;
     complete := complete w |}.
Definition with_profile_sampler v w :=
  {| context := context w; runner_invocations := runner_invocations w;
     error_queue := error_queue w; sampler := sampler w;
     profile_sampler := v; pacer_calls := pacer_calls w;
     complete := complete w |}.
Definition with_pacer_calls v w :=
  {| context := context w; runner_invocations := runner_invocations w;
     error_queue := error_queue w; sampler := sampler w;
     profile_sampler := profile_sampler w; pacer_calls := v;
     complete := complete w |}.

(** *** A state and exception monad over the world *)

Definition M (A : Type) : Type := World → outcome A * World.

Definition ret {A} (a : A) : M A := λ w, (Returned a, w).
Definition bind {A B} (m : M A) (k : A → M B) : M B :=
  λ w, match m w with
       | (Returned a, w') => k a w'
       | (Failed f, w') => (Failed f, w')
       end.
Definition raise {A} (e : exn) : M A := λ w, (Failed (Exception e), w).
Definition time_out {A} : M A := λ w, (Failed TimeoutError, w).
Definition modify (f : World → World) : M () := λ w, (Returned (), f w).
Definition gets {A} (f : World → A) : M A := λ w, (Returned (f w), w).

(** [try: m except asyncio.TimeoutError: handler] *)
Definition catch_timeout {A} (m : M A) (handler : M A) : M A :=
  λ w, match m w with
       | (Failed TimeoutError, w') => handler w'
       | r => r
       end.

(** A step that leaves the part [π] of the world as it found it, however
    the step ends. *)
Definition keeps {X A} (π : World → X) (m : M A) : Prop :=
  ∀ w, π (m w).2 = π w.

#[local] Instance M_ret : MRet M := @ret.
#[local] Instance M_bind : MBind M := λ A B k m, bind m k.

Definition fire (callback : request_context → request_context) : M () :=
  modify (λ w, with_context (callback (context w)) w).

(** *** [execute_single] *)

Definition success_only : meta_data := {[ "success" := PyBool true ]}.

Definition transport_meta_data (e : TransportError) : meta_data :=
  let m : meta_data :=
    {[ "success" := PyBool false; "error-type" := PyStr "transport" ]} in
  let m := match status_code e with
           | Some code => <[ "http-status" := PyInt code ]> m
           | None => m
           end in
  let description :=
    if is_connection_timeout e then "network connection timed out"
    else match info e with
         | Some i => if String.eqb i "" then error e
                     else (error e ++ " (" ++ i ++ ")")%string
         | None => error e
         end in
  <[ "error-description" := PyStr description ]> m.

Definition error_message (m : meta_data) : string :=
  let error_type :=
    match m !! "error-type" with Some (PyStr t) => t | _ => "Unknown" end in
  let msg := ("Request returned an error. Error type: " ++ error_type)%string in
  match m !! "error-description" with
  | Some (PyStr d) =>
      if String.eqb d "" then msg else (msg ++ ", Description: " ++ d)%string
  | _ => msg
  end.

(** [list(params.keys())] on [None] *)
Definition NoneType_has_no_keys : exn :=
  AttributeError "'NoneType' object has no attribute 'keys'".

(** [execute_single]; [None] for the meta-data is the local left unbound
    when a [KeyError] is swallowed in redline mode. The message of the
    [KeyError] handler lists [params.keys()] before redline mode is looked
    at; an exception of the runner that is neither a [TransportError] nor a
    [KeyError] escapes as it is. *)
Definition execute_single (runner : Runner) (params : option meta_data)
    (on_error : string) (redline_enabled client_enabled : bool)
    : M (Q * string * meta_data) :=
  if client_enabled then
    r ← (λ w, let '(o, c) := run runner params (context w) in
              (Returned o,
               with_runner_invocations (S (runner_invocations w)) (with_context c w)));
    '(fatal_error, total_ops, total_ops_unit, request_meta_data) ←
      match r return M (bool * Q * string * option meta_data) with
      | ReturnedTuple weight unit => ret (false, weight, unit, Some success_only)
      | ReturnedDict d =>
          let total_ops := match d !! "weight" with
                           | Some v => number_of v | None => 1%Q end in
          let total_ops_unit := match d !! "unit" with
                                | Some (PyStr u) => u | _ => "ops" end in
          let d := delete "unit" (delete "weight" d) in
          let d := match d !! "success" with
                   | Some _ => d
                   | None => <[ "success" := PyBool true ]> d
                   end in
          ret (false, total_ops, total_ops_unit, Some d)
      | ReturnedOther => ret (false, 1%Q, "ops"%string, Some success_only)
      | RaisedTransportError e =>
          fire on_client_request_end;;
          ret (is_connection_error e, 0%Q, "ops"%string, Some (transport_meta_data e))
      | RaisedKeyError msg =>
          fire on_client_request_end;;
          match params with
          | None => raise NoneType_has_no_keys
          | Some _ =>
              if redline_enabled then ret (false, 0%Q, "ops"%string, None)
              else raise (SystemSetupError msg)
          end
      | RaisedOther e => raise e
      | TimedOut => time_out
      end;
    match request_meta_data with
    | None => raise (UnboundLocalError "request_meta_data")
    | Some request_meta_data =>
        if negb (get_truthy "success" request_meta_data) &&
           (String.eqb on_error "abort" || fatal_error) &&
           negb redline_enabled
        then raise (BenchmarkAssertionError (error_message request_meta_data))
        else ret (total_ops, total_ops_unit, request_meta_data)
    end
  else
    fire on_client_request_start;;
    fire on_request_start;;
    let request_meta_data : meta_data :=
      {[ "success" := PyBool true; "skipped_request" := PyBool true ]} in
    fire on_request_end;;
    fire on_client_request_end;;
    ret (0%Q, "ops"%string, request_meta_data).

(** The meta-data of a request that was not sent, and what the pacer is
    told about it. *)
Definition skipped_meta_data : meta_data :=
  {[ "success" := PyBool true; "skipped_request" := PyBool true ]}.

Definition skipped_notice : meta_data :=
  {[ "success" := PyBool false; "skipped" := PyBool true ]}.

(** *** [AsyncExecutor] *)

(** The executor object, with what it knows of its two samplers: their
    start timestamp and the capacity of their queues. *)
Record AsyncExecutor := {
  client_id : Z;
  task : string;
  task_completes_parent : bool;
  on_error : string;
  redline_enabled : bool;
  base_timeout : Z;
  sampler_start_timestamp : Q;
  sampler_buffer_size : nat
}.

(** The clock readings of one request, in the order they are taken. *)
Record readings := {
  before_sleep : Q;
  absolute_processing_start : Q;
  processing_start : Q;
  fallback_now : Q;
  processing_end : Q
}.

Record result_data := {
  rd_absolute_processing_start : Q;
  rd_processing_start : Q;
  rd_processing_end : Q;
  rd_request_start : Q;
  rd_request_end : Q;
  rd_client_request_start : Q;
  rd_client_request_end : Q;
  rd_total_ops : Q;
  rd_total_ops_unit : string;
  rd_request_meta_data : meta_data;
  rd_throughput_throttled : bool
}.

(** Capacity of the coordinator's error queue. *)
Definition ERROR_QUEUE_MAXSIZE : nat := 1000.

(** [report_error] *)
Definition report_error (e : error_info) : M () :=
  modify (λ w,
    match error_queue w with
    | Some q =>
        if (length q <? ERROR_QUEUE_MAXSIZE)%nat
        then with_error_queue (Some (q ++ [e])) w
        else w
    | None => w
    end).

Definition pacer (c : pacer_call) : M () :=
  modify (λ w, with_pacer_calls (pacer_calls w ++ [c]) w).

Definition timeout_meta_data : meta_data :=
  {[ "success" := PyBool false; "error-type" := PyStr "timeout" ]}.

(** The end of [_execute_request]: the timings are read off the request
    context; when the request failed or one of them is missing, the
    missing ones fall back to [processing_start] and to the clock, and the
    failure is reported unless the meta-data says [skipped]. *)
Definition settle_timings (self : AsyncExecutor) (t : readings)
    (request_meta_data : meta_data) : M (Q * Q * Q * Q) :=
  request_start ← gets (λ w, ctx_request_start (context w));
  request_end ← gets (λ w, ctx_request_end (context w));
  client_request_start ← gets (λ w, ctx_client_request_start (context w));
  client_request_end ← gets (λ w, ctx_client_request_end (context w));
  if negb (get_truthy "success" request_meta_data) ||
     existsb (λ x : option Q, bool_decide (x = None))
             [request_start; request_end; client_request_start; client_request_end]
  then
    let request_start := default (processing_start t) request_start in
    let client_request_start := default (processing_start t) client_request_start in
    let now := fallback_now t in
    let request_end := default now request_end in
    let client_request_end := default now client_request_end in
    (if negb (get_truthy "skipped" request_meta_data)
     then report_error {| err_client_id := client_id self;
                          err_task := task self;
                          err_details := request_meta_data |}
     else ret ());;
    ret (request_start, request_end, client_request_start, client_request_end)
  else
    ret (default (processing_start t) request_start,
         default (fallback_now t) request_end,
         default (processing_start t) client_request_start,
         default (fallback_now t) client_request_end).

(** The four timings as [settle_timings] returns them. *)
Definition timings_of (t : readings) (c : request_context) : Q * Q * Q * Q :=
  (default (processing_start t) (ctx_request_start c),
   default (fallback_now t) (ctx_request_end c),
   default (processing_start t) (ctx_client_request_start c),
   default (fallback_now t) (ctx_client_request_end c)).

(** Two worlds that differ in the error queue at most. *)
Record same_but_errors (w w' : World) : Prop := {
  same_context : context w' = context w;
  same_runner_invocations : runner_invocations w' = runner_invocations w;
  same_sampler : sampler w' = sampler w;
  same_profile_sampler : profile_sampler w' = profile_sampler w;
  same_pacer_calls : pacer_calls w' = pacer_calls w;
  same_complete : complete w' = complete w
}.

(** [_execute_request]. Sleeping until the scheduled instant leaves the
    world as it is; the changes [_prepare_context_manager] makes to the
    parameters of stream and vector-search operations are left to the
    runner. *)
Definition _execute_request (self : AsyncExecutor) (runner : Runner) (t : readings)
    (params : option meta_data) (expected_scheduled_time total_start : Q)
    (client_state : bool) : M result_data :=
  let absolute_expected_schedule_time := (total_start + expected_scheduled_time)%Q in
  let throughput_throttled := Qlt_bool 0 expected_scheduled_time in
  pacer (BeforeRequest (processing_start t));;
  modify (with_context new_request_context);;
  '(total_ops, total_ops_unit, request_meta_data) ←
    catch_timeout
      (execute_single runner params (on_error self) (redline_enabled self) client_state)
      (fire on_client_request_start;;
       fire on_request_start;;
       fire on_request_end;;
       fire on_client_request_end;;
       ret (0%Q, "ops"%string, timeout_meta_data));
  '(request_start, request_end, client_request_start, client_request_end) ←
    settle_timings self t request_meta_data;
  ret {| rd_absolute_processing_start := absolute_processing_start t;
         rd_processing_start := processing_start t;
         rd_processing_end := processing_end t;
         rd_request_start := request_start;
         rd_request_end := request_end;
         rd_client_request_start := client_request_start;
         rd_client_request_end := client_request_end;
         rd_total_ops := total_ops;
         rd_total_ops_unit := total_ops_unit;
         rd_request_meta_data := request_meta_data;
         rd_throughput_throttled := throughput_throttled |}.

(** [DefaultSampler.add] and [ProfileMetricsSampler.add]: dropped when the
    queue is full. *)
Definition sampler_add (self : AsyncExecutor) (s : DefaultSample) : M () :=
  modify (λ w,
    if (length (sampler w) <? sampler_buffer_size self)%nat
    then with_sampler (sampler w ++ [s]) w else w).

Definition profile_sampler_add (self : AsyncExecutor) (s : ProfileMetricsSample) : M () :=
  modify (λ w,
    if (length (profile_sampler w) <? sampler_buffer_size self)%nat
    then with_profile_sampler (profile_sampler w ++ [s]) w else w).

Definition truthy_opt (b : option bool) : bool := default false b.

(** [_process_results]; [sample_type] and [expected_scheduled_time] are the
    attributes the loop stored on the executor for this request. *)
Definition _process_results (self : AsyncExecutor) (runner : Runner)
    (sample_type : SampleType) (expected_scheduled_time : Q)
    (rd : result_data) (total_start : Q) (client_state : bool)
    (percent_completed' : option Q) (add_profile_metric_sample : bool) : M bool :=
  if get_truthy "skipped_request" (rd_request_meta_data rd) then
    pacer (AfterRequest (rd_processing_end rd) 0 "ops"
             {[ "success" := PyBool false; "skipped" := PyBool true ]});;
    gets complete
  else
    let service_time := (rd_request_end rd - rd_request_start rd)%Q in
    let client_processing_time :=
      ((rd_client_request_end rd - rd_client_request_start rd) - service_time)%Q in
    let processing_time := (rd_processing_end rd - rd_processing_start rd)%Q in
    let time_period := (rd_request_end rd - total_start)%Q in
    pacer (AfterRequest (rd_processing_end rd) (rd_total_ops rd)
             (rd_total_ops_unit rd) (rd_request_meta_data rd));;
    let throughput := rd_request_meta_data rd !! "throughput" in
    let request_meta_data := delete "throughput" (rd_request_meta_data rd) in
    let latency :=
      if rd_throughput_throttled rd
      then (rd_request_end rd - (total_start + expected_scheduled_time))%Q
      else service_time in
    let runner_completed := truthy_opt (completed runner) in
    let runner_percent_completed := percent_completed runner in
    is_set ← gets complete;
    let completed :=
      if task_completes_parent self then runner_completed
      else is_set || runner_completed in
    let progress :=
      if completed then Some 1%Q
      else match runner_percent_completed with
           | Some p => Some p
           | None => percent_completed'
           end in
    (if client_state then
       let dependent_timing := request_meta_data !! "dependent_timing" in
       let request_meta_data := delete "dependent_timing" request_meta_data in
       if add_profile_metric_sample then
         profile_sampler_add self
           {| pm_client_id := client_id self;
              pm_absolute_time := rd_absolute_processing_start rd;
              pm_request_start := rd_request_start rd;
              pm_task_start := sampler_start_timestamp self;
              pm_task := task self;
              pm_sample_type := sample_type;
              pm_request_meta_data := request_meta_data;
              pm_time_period := time_period;
              pm_percent_completed := progress;
              pm_dependent_timing := dependent_timing |}
       else
         sampler_add self
           {| Samples.client_id := client_id self;
              absolute_time := rd_absolute_processing_start rd;
              request_start := rd_request_start rd;
              task_start := sampler_start_timestamp self;
              Samples.task := task self;
              Samples.sample_type := sample_type;
              request_meta_data := request_meta_data;
              latency := latency;
              service_time := service_time;
              client_processing_time := client_processing_time;
              processing_time := processing_time;
              throughput := throughput;
              total_ops := rd_total_ops rd;
              total_ops_unit := rd_total_ops_unit rd;
              time_period := time_period;
              Samples.percent_completed := progress;
              dependent_timing := dependent_timing |}
     else ret ());;
    ret completed.

(** One tuple of the schedule. *)
Record scheduled := {
  expected_scheduled_time : Q;
  scheduled_sample_type : SampleType;
  scheduled_percent_completed : option Q;
  scheduled_runner : Runner;
  scheduled_params : option meta_data
}.

(** [(self.shared_states or {}).get(self.client_id, True)] on the
    dictionary of this client's worker. *)
Definition client_state_of (self : AsyncExecutor)
    (shared_states : option (list (Z * bool))) : bool :=
  match shared_states with
  | Some d => default true (PyDict.get (client_id self) d)
  | None => true
  end.

(** Whether this request feeds the profile sampler. *)
Definition wants_profile_sample (params : option meta_data) (count : Z) : bool :=
  match params with
  | Some p =>
      match p !! "profile-metrics-sample-size" with
      | Some (PyInt size) => negb (size =? 0) && (count <? size)
      | _ => false
      end
  | None => false
  end.

Definition mark_profile_query (add_profile_metric_sample : bool)
    (params : option meta_data) : option meta_data :=
  match params with
  | Some p =>
      if add_profile_metric_sample then Some (<[ "profile-query" := PyBool true ]> p)
      else if bool_decide (p = ∅) then Some p
      else Some (<[ "profile-query" := PyBool false ]> p)
  | None => None
  end.

(** The body of the loop of [__call__] after the cancellation check:
    whether the loop ends here, and the profile sample count. *)
Definition request (self : AsyncExecutor) (shared_states : option (list (Z * bool)))
    (total_start : Q) (item : scheduled) (t : readings)
    (profile_metrics_sample_count : Z) : M (bool * Z) :=
  let client_state := client_state_of self shared_states in
  let add_profile_metric_sample :=
    wants_profile_sample (scheduled_params item) profile_metrics_sample_count in
  let profile_metrics_sample_count :=
    if add_profile_metric_sample then profile_metrics_sample_count + 1
    else profile_metrics_sample_count in
  let params := mark_profile_query add_profile_metric_sample (scheduled_params item) in
  rd ← _execute_request self (scheduled_runner item) t params
         (expected_scheduled_time item) total_start client_state;
  completed ← _process_results self (scheduled_runner item)
                (scheduled_sample_type item) (expected_scheduled_time item)
                rd total_start client_state
                (scheduled_percent_completed item) add_profile_metric_sample;
  ret (completed, profile_metrics_sample_count).
End executor.

#[export] Existing Instances M_ret M_bind.
(** *** A sample holder and sample requests *)

(** A context that carries its own clock: every callback stamps its timing
    with the clock and advances it by one. *)
Record stamped := {
  ticks : Z;
  stamped_request_start : option Q;
  stamped_request_end : option Q;
  stamped_client_request_start : option Q;
  stamped_client_request_end : option Q
}.

#[export] Instance stamping_holder : RequestContextHolder := {|
  request_context := stamped;
  new_request_context :=
    {| ticks := 0; stamped_request_start := None; stamped_request_end := None;
       stamped_client_request_start := None; stamped_client_request_end := None |};
  on_client_request_start := λ c,
    {| ticks := ticks c + 1;
       stamped_request_start := stamped_request_start c;
       stamped_request_end := stamped_request_end c;
       stamped_client_request_start := Some (inject_Z (ticks c));
       stamped_client_request_end := stamped_client_request_end c |};
  on_request_start := λ c,
    {| ticks := ticks c + 1;
       stamped_request_start := Some (inject_Z (ticks c));
       stamped_request_end := stamped_request_end c;
       stamped_client_request_start := stamped_client_request_start c;
       stamped_client_request_end := stamped_client_request_end c |};
  on_request_end := λ c,
    {| ticks := ticks c + 1;
       stamped_request_start := stamped_request_start c;
       stamped_request_end := Some (inject_Z (ticks c));
       stamped_client_request_start := stamped_client_request_start c;
       stamped_client_request_end := stamped_client_request_end c |};
  on_client_request_end := λ c,
    {| ticks := ticks c + 1;
       stamped_request_start := stamped_request_start c;
       stamped_request_end := stamped_request_end c;
       stamped_client_request_start := stamped_client_request_start c;
       stamped_client_request_end := Some (inject_Z (ticks c)) |};
  ctx_request_start := stamped_request_start;
  ctx_request_end := stamped_request_end;
  ctx_client_request_start := stamped_client_request_start;
  ctx_client_request_end := stamped_client_request_end
|}.

(** A runner whose transport fires the four callbacks and which returns one
    operation. *)
Definition search_runner : Runner :=
  {| run := λ _ c,
       (ReturnedTuple 1 "ops",
        on_client_request_end (on_request_end (on_request_start (on_client_request_start c))));
     completed := None;
     percent_completed := None |}.

Definition search_executor : AsyncExecutor :=
  {| client_id := 7; task := "search"; task_completes_parent := false;
     on_error := "continue"; redline_enabled := true; base_timeout := 10;
     sampler_start_timestamp := 100; sampler_buffer_size := 16 |}.

Definition search_item : scheduled :=
  {| expected_scheduled_time := 2;
     scheduled_sample_type := Normal;
     scheduled_percent_completed := Some (1 # 2);
     scheduled_runner := search_runner;
     scheduled_params := None |}.

Definition search_readings : readings :=
  {| before_sleep := 101; absolute_processing_start := 1700000000;
     processing_start := 102; fallback_now := 103; processing_end := 104 |}.

Definition idle_world : World :=
  {| context := new_request_context; runner_invocations := 0;
     error_queue := Some []; sampler := []; profile_sampler := [];
     pacer_calls := []; complete := false |}.
End Executor.

(** ** The throughput calculator *)

Module Throughput.
Import Samples.
Export Scheduling(SampleType, Warmup, Normal).

(** [max(a, b)] *)
Definition py_max (a b : Q) : Q := if Qlt_bool a b then b else a.

(** [sorted(samples, key=lambda s: s.absolute_time)], a stable sort. *)
Fixpoint insert_by_time (s : DefaultSample) (l : list DefaultSample) : list DefaultSample :=
  match l with
  | [] => [s]
  | x :: r =>
      if Qle_bool (absolute_time s) (absolute_time x) then s :: x :: r
      else x :: insert_by_time s r
  end.

Definition sorted_by_time (l : list DefaultSample) : list DefaultSample :=
  foldr insert_by_time [] l.

(** [ThroughputCalculator.TaskStats] *)
Record TaskStats := {
  unprocessed : list DefaultSample;
  total_count : Q;
  interval : Q;
  bucket_interval : Q;
  bucket : Q;
  stats_sample_type : SampleType;
  has_samples_in_sample_type : bool;
  start_time : Q
}.

Definition TaskStats_init (bucket_interval : Q) (sample_type : SampleType)
    (start_time : Q) : TaskStats :=
  {| unprocessed := []; total_count := 0; interval := 0;
     bucket_interval := bucket_interval; bucket := bucket_interval;
     stats_sample_type := sample_type; has_samples_in_sample_type := false;
     start_time := start_time |}.

Definition stats_throughput (c : TaskStats) : Q := (total_count c / interval c)%Q.

Definition maybe_update_sample_type (current_sample_type : SampleType) (c : TaskStats)
    : TaskStats :=
  if SampleType_lt (stats_sample_type c) current_sample_type then
    {| unprocessed := unprocessed c; total_count := total_count c;
       interval := interval c; bucket_interval := bucket_interval c;
       bucket := bucket c; stats_sample_type := current_sample_type;
       has_samples_in_sample_type := false; start_time := start_time c |}
  else c.

Definition update_interval (absolute_sample_time : Q) (c : TaskStats) : TaskStats :=
  {| unprocessed := unprocessed c; total_count := total_count c;
     interval := py_max (absolute_sample_time - start_time c) (interval c);
     bucket_interval := bucket_interval c; bucket := bucket c;
     stats_sample_type := stats_sample_type c;
     has_samples_in_sample_type := has_samples_in_sample_type c;
     start_time := start_time c |}.

Definition can_calculate_throughput (c : TaskStats) : bool :=
  Qlt_bool 0 (interval c) && Qle_bool (bucket c) (interval c).

Definition can_add_final_throughput_sample (c : TaskStats) : bool :=
  Qlt_bool 0 (interval c) && negb (has_samples_in_sample_type c).

Definition finish_bucket (new_total : Q) (c : TaskStats) : TaskStats :=
  {| unprocessed := []; total_count := new_total; interval := interval c;
     bucket_interval := bucket_interval c;
     bucket := (inject_Z (py_int (interval c)) + bucket_interval c)%Q;
     stats_sample_type := stats_sample_type c;
     has_samples_in_sample_type := true; start_time := start_time c |}.

Definition keep_unprocessed (s : DefaultSample) (c : TaskStats) : TaskStats :=
  {| unprocessed := unprocessed c ++ [s]; total_count := total_count c;
     interval := interval c; bucket_interval := bucket_interval c;
     bucket := bucket c; stats_sample_type := stats_sample_type c;
     has_samples_in_sample_type := has_samples_in_sample_type c;
     start_time := start_time c |}.

(** One throughput datum:
    [(absolute_time, relative_time, sample_type, throughput, unit)]. *)
Record datum := {
  d_absolute_time : Q;
  d_relative_time : Q;
  d_sample_type : SampleType;
  d_throughput : pyval;
  d_unit : string
}.

Definition computed_datum (s : DefaultSample) (c : TaskStats) : datum :=
  {| d_absolute_time := absolute_time s;
     d_relative_time := relative_time s;
     d_sample_type := stats_sample_type c;
     d_throughput := PyFloat (stats_throughput c);
     d_unit := (total_ops_unit s ++ "/s")%string |}.

(** The body of the loop of [calculate_task_throughput], on
    [(current, count, task_throughput, last_sample)]. *)
Definition throughput_step
    (acc : TaskStats * Q * list datum * option DefaultSample) (s : DefaultSample)
    : TaskStats * Q * list datum * option DefaultSample :=
  let '(current, count, task_throughput, _) := acc in
  let current := maybe_update_sample_type (sample_type s) current in
  let count := (count + total_ops s)%Q in
  let current := update_interval (absolute_time s) current in
  if can_calculate_throughput current then
    let current := finish_bucket count current in
    (current, count, task_throughput ++ [computed_datum s current], Some s)
  else
    (keep_unprocessed s current, count, task_throughput, Some s).

(** [calculate_task_throughput]; the statistics of the task are created
    from the first sample when the task is new. *)
Definition calculate_task_throughput (task_stats : gmap string TaskStats)
    (task : string) (current_samples : list DefaultSample) (bucket_interval_secs : Q)
    : gmap string TaskStats * list datum :=
  let current :=
    match task_stats !! task, current_samples with
    | Some c, _ => c
    | None, first_sample :: _ =>
        TaskStats_init bucket_interval_secs (sample_type first_sample)
          (absolute_time first_sample - time_period first_sample)
    | None, [] => TaskStats_init bucket_interval_secs Warmup 0
    end in
  let '(current, count, task_throughput, last_sample) :=
    foldl throughput_step (current, total_count current, [], None) current_samples in
  match last_sample with
  | Some last_sample =>
      if can_add_final_throughput_sample current then
        let current := finish_bucket count current in
        (<[ task := current ]> task_stats,
         task_throughput ++ [computed_datum last_sample current])
      else (<[ task := current ]> task_stats, task_throughput)
  | None => (<[ task := current ]> task_stats, task_throughput)
  end.

(** [map_task_throughput] *)
Definition map_task_throughput (current_samples : list DefaultSample) : list datum :=
  (λ s, {| d_absolute_time := absolute_time s;
           d_relative_time := relative_time s;
           d_sample_type := sample_type s;
           d_throughput := default PyNone (throughput s);
           d_unit := (total_ops_unit s ++ "/s")%string |}) <$> current_samples.

(** The first loop of [calculate]: samples grouped by task, tasks in the
    order of their first sample. *)
Definition group_by_task (samples : list DefaultSample)
    : list (string * list DefaultSample) :=
  foldl (λ samples_per_task s,
           PyDict.set (task s)
             (default [] (PyDict.get (task s) samples_per_task) ++ [s])
             samples_per_task)
        [] samples.

(** The samples a task is calculated from: the new ones, then those kept
    from earlier calls. *)
Definition chained (task_stats : gmap string TaskStats) (task : string)
    (v : list DefaultSample) : list DefaultSample :=
  match task_stats !! task with
  | Some c => v ++ unprocessed c
  | None => v
  end.

(** The body of the second loop of [calculate]. *)
Definition calculate_task (bucket_interval_secs : Q)
    (acc : gmap string TaskStats * list (string * list datum))
    (kv : string * list DefaultSample)
    : gmap string TaskStats * list (string * list datum) :=
  let '(task_stats, global_throughput) := acc in
  let '(task, v) := kv in
  let global_throughput :=
    match PyDict.get task global_throughput with
    | Some _ => global_throughput
    | None => PyDict.set task [] global_throughput
    end in
  let current_samples := sorted_by_time (chained task_stats task v) in
  let '(task_stats, task_throughput) :=
    match current_samples with
    | first_sample :: _ =>
        match throughput first_sample with
        | None => calculate_task_throughput task_stats task current_samples
                    bucket_interval_secs
        | Some _ => (task_stats, map_task_throughput current_samples)
        end
    | [] => (task_stats, [])
    end in
  (task_stats,
   PyDict.set task (default [] (PyDict.get task global_throughput) ++ task_throughput)
     global_throughput).

(** [calculate]: the statistics after the call, and the global throughput
    per task. *)
Definition calculate (task_stats : gmap string TaskStats) (samples : list DefaultSample)
    (bucket_interval_secs : Q) : gmap string TaskStats * list (string * list datum) :=
  foldl (calculate_task bucket_interval_secs) (task_stats, []) (group_by_task samples).

(** Data whose [absolute_time] never decreases along the list. *)
Definition in_time_order (data : list datum) : Prop :=
  StronglySorted Qle (d_absolute_time <$> data).

Definition time_le (a b : DefaultSample) : Prop :=
  (absolute_time a <= absolute_time b)%Q.

(** A datum carries the two times of the sample it was emitted at. *)
Definition emitted_at (d : datum) (s : DefaultSample) : Prop :=
  d_absolute_time d = absolute_time s ∧ d_relative_time d = relative_time s.
(** *** Sample batches *)

(** One operation of task [T] taking a tenth of a second, and two such
    samples of different clients: a warm-up sample stamped at second 10,
    and a normal sample stamped at second 5 that arrives in a later batch. *)
Definition sample_at (client : Z) (time : Q) (type : SampleType) (period : Q)
    : DefaultSample :=
  {| client_id := client; absolute_time := time; request_start := time;
     task_start := 0; task := "T"; sample_type := type;
     request_meta_data := ∅; latency := 1 # 10; service_time := 1 # 10;
     client_processing_time := 0; processing_time := 1 # 10;
     throughput := None; total_ops := 1; total_ops_unit := "ops";
     time_period := period; percent_completed := None;
     dependent_timing := None |}.

Definition first_batch : list DefaultSample := [sample_at 0 10 Warmup 10].
Definition second_batch : list DefaultSample := [sample_at 1 5 Normal 5].
End Throughput.

(** ** Built-in exceptions

    The helpers of the coordinator that index lists, divide and assert can
    end in one of Python's built-in exceptions. *)

Inductive builtin_error :=
| ZeroDivisionError
| IndexError
| AssertionError
| TypeError.

Inductive attempt (A : Type) :=
| Done (a : A)
| Raised (e : builtin_error).
Arguments Done {A} a.
Arguments Raised {A} e.

#[export] Instance attempt_ret : MRet attempt := @Done.
#[export] Instance attempt_bind : MBind attempt :=
  λ A B f m, match m with Done a => f a | Raised e => Raised e end.

(** A loop whose body can raise. *)
Fixpoint foldlM {A B} (f : B → A → attempt B) (b : B) (l : list A) : attempt B :=
  match l with
  | [] => Done b
  | x :: r => b' ← f b x; foldlM f b' r
  end.

(** The position [l[i]] stands for in a list of length [len]: negative
    indices count from the end, anything else out of range is an
    [IndexError]. *)
Definition py_position (len : nat) (i : Z) : option nat :=
  if (0 <=? i) && (i <? Z.of_nat len) then Some (Z.to_nat i)
  else if (i <? 0) && (- Z.of_nat len <=? i) then Some (Z.to_nat (Z.of_nat len + i))
  else None.

(** ** Assigning clients to workers *)

Module Assignment.

Record host_config := {
  host : string;
  cores : Z
}.

Record assignment := {
  assigned_host : string;
  workers : list (list Z)
}.

(** [clients_per_worker[c % workers_on_this_host] += 1] *)
Definition count_client (workers_on_this_host : Z) (clients_per_worker : list Z) (c : Z)
    : attempt (list Z) :=
  if workers_on_this_host =? 0 then Raised ZeroDivisionError
  else
    match py_position (length clients_per_worker) (c mod workers_on_this_host) with
    | Some i => Done (alter Z.succ i clients_per_worker)
    | None => Raised IndexError
    end.

(** How many clients each worker of a host simulates:
    [[0] * workers_on_this_host], then one count per client, round-robin. *)
Definition count_clients_per_worker (workers_on_this_host clients_on_this_host : Z)
    : attempt (list Z) :=
  foldlM (count_client workers_on_this_host)
         (replicate (Z.to_nat workers_on_this_host) 0)
         (seqZ 0 clients_on_this_host).

(** The body of [for client_count_for_worker in clients_per_worker]: the
    worker gets the ids [range(client_idx, client_idx + count)]. *)
Definition assign_worker (acc : list (list Z) * Z) (client_count_for_worker : Z)
    : list (list Z) * Z :=
  let '(worker_assignments, client_idx) := acc in
  (worker_assignments ++ [seqZ client_idx client_count_for_worker],
   client_idx + client_count_for_worker).

(** The body of [for host_config in host_configs], on
    [(assignments, client_idx, remaining_clients)]. *)
Definition assign_host (clients_per_host : Z) (acc : list assignment * Z * Z)
    (host_config : host_config) : attempt (list assignment * Z * Z) :=
  let '(assignments, client_idx, remaining_clients) := acc in
  let clients_on_this_host := Z.min clients_per_host remaining_clients in
  clients_per_worker ←
    count_clients_per_worker (cores host_config) clients_on_this_host;
  let '(worker_assignments, client_idx) :=
    foldl assign_worker ([], client_idx) clients_per_worker in
  Done (assignments ++ [{| assigned_host := host host_config;
                           workers := worker_assignments |}],
        client_idx,
        remaining_clients - clients_on_this_host).

(** [calculate_worker_assignments] *)
Definition calculate_worker_assignments (host_configs : list host_config)
    (client_count : Z) : attempt (list assignment) :=
  let host_count := Z.of_nat (length host_configs) in
  if host_count =? 0 then Raised ZeroDivisionError
  else
    let clients_per_host := Qceiling (inject_Z client_count / inject_Z host_count) in
    '(assignments, _, remaining_clients) ←
      foldlM (assign_host clients_per_host) ([], 0, client_count) host_configs;
    if remaining_clients =? 0 then Done assignments else Raised AssertionError.

(** The workers of all hosts in the order [start_benchmark] visits them. *)
Definition all_workers (assignments : list assignment) : list (list Z) :=
  assignments ≫= workers.

(** [k] clients dealt round-robin over [n] workers: the number each gets. *)
Definition round_robin (n k : nat) : list Z :=
  (λ r, Z.of_nat (Allocator.dealt_to n k r)) <$> seq 0 n.

(** [sum] of a list of integers. *)
Definition sumZ (l : list Z) : Z := foldr Z.add 0 l.

(** No two workers of a host differ by more than one client. *)
Definition balanced (worker_assignments : list (list Z)) : Prop :=
  ∀ w1 w2, w1 ∈ worker_assignments → w2 ∈ worker_assignments →
           (length w1 ≤ length w2 + 1)%nat.

(** What a host got: its name, one list per core, the clients dealt evenly,
    and no more than [clients_per_host] of them. *)
Definition host_served (clients_per_host : Z) (hc : host_config) (a : assignment)
    : Prop :=
  assigned_host a = host hc ∧
  length (workers a) = Z.to_nat (cores hc) ∧
  balanced (workers a) ∧
  Z.of_nat (length (concat (workers a))) ≤ clients_per_host.

(** Three hosts of two cores each. *)
Definition three_hosts : list host_config :=
  [{| host := "a"; cores := 2 |}; {| host := "b"; cores := 2 |};
   {| host := "c"; cores := 2 |}].
End Assignment.

(** ** Steps, client allocations and the task index of a worker *)

Module ClientAllocations.
Import Allocator.

(** [Allocator.join_points]: the join points of the first row. *)
Definition join_points (schedule : list Workload.ScheduleElement)
    : attempt (list JoinPoint) :=
  match allocations schedule !! 0%nat with
  | Some row =>
      Done (omap (λ allocation,
                    match allocation with Join jp => Some jp | _ => None end) row)
  | None => Raised IndexError
  end.

(** [self.number_of_steps = len(allocator.join_points) - 1] *)
Definition number_of_steps (schedule : list Workload.ScheduleElement) : attempt Z :=
  jps ← join_points schedule; Done (Z.of_nat (length jps) - 1).

(** The named tuple [ClientAllocation(client_id, task)]. *)
Record ClientAllocation := {
  client_id : Z;
  task : cell
}.

(** An element of [ClientAllocations.allocations]. *)
Record entry := {
  entry_client_id : Z;
  entry_tasks : list cell
}.

(** [ClientAllocations.add] *)
Definition add (client_id : Z) (tasks : list cell) (self : list entry) : list entry :=
  self ++ [{| entry_client_id := client_id; entry_tasks := tasks |}].

(** [ClientAllocations.tasks] *)
Definition tasks (task_index : nat) (remove_empty : bool) (self : list entry)
    : attempt (list ClientAllocation) :=
  foldlM (λ current_tasks allocation,
            match entry_tasks allocation !! task_index with
            | None => Raised IndexError
            | Some tasks_at_index =>
                if remove_empty &&
                   match tasks_at_index with NoAllocation => false | _ => true end
                then Done (current_tasks ++
                             [{| client_id := entry_client_id allocation;
                                 task := tasks_at_index |}])
                else Done current_tasks
            end)
         [] self.

Definition is_join (x : cell) : bool :=
  match x with Join _ => true | _ => false end.

(** [ClientAllocations.is_joinpoint] *)
Definition is_joinpoint (task_index : nat) (self : list entry) : attempt bool :=
  ts ← tasks task_index true self; Done (forallb (λ t, is_join (task t)) ts).

(** The client allocations [start_benchmark] hands to a worker:
    [client_allocations.add(client_id, self.allocations[client_id])] for
    each of its clients. *)
Definition client_allocations_for (allocations : list (list cell)) (clients : list Z)
    : attempt (list entry) :=
  foldlM (λ client_allocations client_id,
            match py_position (length allocations) client_id ≫= (allocations !!.) with
            | Some row => Done (add client_id row client_allocations)
            | None => Raised IndexError
            end)
         [] clients.

(** The task index of a [Worker]. *)
Record Worker := {
  client_allocations : list entry;
  current_task_index : nat;
  next_task_index : nat
}.

(** [Worker.current_tasks_and_advance] *)
Definition current_tasks_and_advance (w : Worker)
    : attempt (list ClientAllocation * Worker) :=
  let current_task_index := next_task_index w in
  current ← tasks current_task_index true (client_allocations w);
  Done (current,
        {| client_allocations := client_allocations w;
           current_task_index := current_task_index;
           next_task_index := S (next_task_index w) |}).

(** [Worker.at_joinpoint] *)
Definition at_joinpoint (w : Worker) : attempt bool :=
  is_joinpoint (current_task_index w) (client_allocations w).

(** The opening of [Worker.drive]: advance, and keep advancing while the
    worker has nothing at the index. [None] when [fuel] rounds were not
    enough. *)
Fixpoint skip_non_tasks (fuel : nat) (w : Worker)
    : attempt (option (list ClientAllocation * Worker)) :=
  match fuel with
  | O => Done None
  | S fuel =>
      '(task_allocations, w) ← current_tasks_and_advance w;
      if (length task_allocations =? 0)%nat then skip_non_tasks fuel w
      else Done (Some (task_allocations, w))
  end.

(** What the worker finds at a column when every row has one. *)
Definition column (task_index : nat) (self : list entry) : list ClientAllocation :=
  omap (λ allocation,
          x ← entry_tasks allocation !! task_index;
          match x with
          | NoAllocation => None
          | _ => Some {| client_id := entry_client_id allocation; task := x |}
          end) self.

(** Client allocations cut from a matrix whose rows all show [K]. *)
Definition cut_from (K : list (option nat)) (self : list entry) : Prop :=
  Forall (λ allocation, join_point_ids (entry_tasks allocation) = K) self.

(** The worker of the first two clients of the two parallel tasks. *)
Definition first_two_clients : list entry :=
  [{| entry_client_id := 0;
      entry_tasks := default [] (allocations two_parallel_tasks !! 0%nat) |};
   {| entry_client_id := 1;
      entry_tasks := default [] (allocations two_parallel_tasks !! 1%nat) |}].

(** A worker of one client in a matrix of width one where the first group
    has a single client: the worker has nothing to do in the group. *)
Definition idle_in_first_group : list entry :=
  [{| entry_client_id := 1;
      entry_tasks :=
        [Join {| id := 0; clients_executing_completing_task := [] |};
         NoAllocation;
         Join {| id := 1; clients_executing_completing_task := [] |}] |}].
End ClientAllocations.

(** ** Progress controls at work, and the schedule generator *)

Module Progress.
Import Scheduling.

(** *** [TimePeriodBased] *)

(** [start] and [next]; [now] is the reading of [time.perf_counter()]. *)
Definition TimePeriodBased_start (now : Q) (c : TimePeriodBased) : TimePeriodBased :=
  {| tp_warmup_time_period := tp_warmup_time_period c;
     tp_time_period := tp_time_period c;
     tp_duration := tp_duration c;
     tp_start := Some now;
     tp_now := Some now |}.

Definition TimePeriodBased_next (now : Q) (c : TimePeriodBased) : TimePeriodBased :=
  {| tp_warmup_time_period := tp_warmup_time_period c;
     tp_time_period := tp_time_period c;
     tp_duration := tp_duration c;
     tp_start := tp_start c;
     tp_now := Some now |}.

(** [_elapsed]; arithmetic on [None] is a [TypeError]. *)
Definition TimePeriodBased_elapsed (c : TimePeriodBased) : attempt Q :=
  match tp_now c, tp_start c with
  | Some now, Some start => Done (now - start)%Q
  | _, _ => Raised TypeError
  end.

Definition TimePeriodBased_sample_type (c : TimePeriodBased) : attempt SampleType :=
  elapsed ← TimePeriodBased_elapsed c;
  match tp_warmup_time_period c with
  | Some warmup => Done (if Qlt_bool elapsed warmup then Warmup else Normal)
  | None => Raised TypeError
  end.

Definition TimePeriodBased_percent_completed (c : TimePeriodBased) : attempt Q :=
  elapsed ← TimePeriodBased_elapsed c;
  match tp_duration c with
  | Some duration =>
      if Qeq_bool duration 0 then Raised ZeroDivisionError
      else Done (elapsed / duration)%Q
  | None => Raised TypeError
  end.

Definition TimePeriodBased_completed (c : TimePeriodBased) : attempt bool :=
  match tp_now c, tp_start c, tp_duration c with
  | Some now, Some start, Some duration => Done (Qle_bool (start + duration) now)
  | _, _, _ => Raised TypeError
  end.

(** *** [IterationBased] *)

Definition IterationBased_with_it (it : option Z) (c : IterationBased) : IterationBased :=
  {| ib_warmup_iterations := ib_warmup_iterations c;
     ib_iterations := ib_iterations c;
     ib_total_iterations := ib_total_iterations c;
     ib_it := it |}.

Definition IterationBased_start (c : IterationBased) : IterationBased :=
  IterationBased_with_it (Some 0) c.

Definition IterationBased_sample_type (c : IterationBased) : attempt SampleType :=
  match ib_it c, ib_warmup_iterations c with
  | Some it, Some warmup => Done (if it <? warmup then Warmup else Normal)
  | _, _ => Raised TypeError
  end.

Definition IterationBased_percent_completed (c : IterationBased) : attempt Q :=
  match ib_it c, ib_total_iterations c with
  | Some it, Some total =>
      if total =? 0 then Raised ZeroDivisionError
      else Done (inject_Z (it + 1) / inject_Z total)%Q
  | _, _ => Raised TypeError
  end.

Definition IterationBased_completed (c : IterationBased) : attempt bool :=
  match ib_it c, ib_total_iterations c with
  | Some it, Some total => Done (total <=? it)
  | _, _ => Raised TypeError
  end.

Definition IterationBased_next (c : IterationBased) : attempt IterationBased :=
  match ib_it c with
  | Some it => Done (IterationBased_with_it (Some (it + 1)) c)
  | None => Raised TypeError
  end.

(** *** Either control, as the schedule handle uses it *)

Definition start (now : Q) (c : ProgressControl) : ProgressControl :=
  match c with
  | TimeControl c => TimeControl (TimePeriodBased_start now c)
  | IterationControl c => IterationControl (IterationBased_start c)
  end.

Definition infinite (c : ProgressControl) : bool :=
  match c with
  | TimeControl c => TimePeriodBased_infinite c
  | IterationControl c => IterationBased_infinite c
  end.

Definition sample_type (c : ProgressControl) : attempt SampleType :=
  match c with
  | TimeControl c => TimePeriodBased_sample_type c
  | IterationControl c => IterationBased_sample_type c
  end.

Definition percent_completed (c : ProgressControl) : attempt Q :=
  match c with
  | TimeControl c => TimePeriodBased_percent_completed c
  | IterationControl c => IterationBased_percent_completed c
  end.

Definition completed (c : ProgressControl) : attempt bool :=
  match c with
  | TimeControl c => TimePeriodBased_completed c
  | IterationControl c => IterationBased_completed c
  end.

Definition next (now : Q) (c : ProgressControl) : attempt ProgressControl :=
  match c with
  | TimeControl c => Done (TimeControl (TimePeriodBased_next now c))
  | IterationControl c => c ← IterationBased_next c; Done (IterationControl c)
  end.

(** A control as [schedule_for] makes them: the warm-up is a number, and
    a control that ends by itself knows its length, which is not zero when
    counted in iterations. *)
Definition well_formed (c : ProgressControl) : Prop :=
  match c with
  | TimeControl c =>
      is_Some (tp_warmup_time_period c) ∧
      (is_Some (tp_time_period c) → is_Some (tp_duration c))
  | IterationControl c =>
      is_Some (ib_warmup_iterations c) ∧
      (is_Some (ib_iterations c) →
       ∃ total, ib_total_iterations c = Some total ∧ total ≠ 0)
  end.

(** *** [ScheduleHandle.ramp_up_wait_time] *)

Definition ramp_up_wait_time (ta : Allocator.TaskAllocation) : attempt Q :=
  match Workload.ramp_up_time_period (Allocator.task ta) with
  | Some ramp_up_time_period =>
      if Qeq_bool ramp_up_time_period 0 then Done 0%Q
      else if (Allocator.total_clients ta =? 0)%nat then Raised ZeroDivisionError
      else Done (ramp_up_time_period *
                 (inject_Z (Z.of_nat (Allocator.global_client_index ta)) /
                  inject_Z (Z.of_nat (Allocator.total_clients ta))))%Q
  | None => Done 0%Q
  end.

(** *** The generator of a schedule handle

    The scheduler and the parameter source are objects of modules that are
    not among the sources. They are given by what their calls return, call
    after call: [sched_next k t] is the [k]-th call [sched.next(t)],
    [params_params k] the [k]-th call [params.params()], both [None] for
    [StopIteration]; [params_percent_completed], when the source has the
    attribute, its value after [k] calls of [params()]; [clock k] the
    [k]-th reading of the clock by the progress control, [clock 0] being
    the reading of [start]. *)

Section generator.
Context {P : Type}.

Record Collaborators := {
  sched_next : nat → Q → option Q;
  params_params : nat → option P;
  params_percent_completed : option (nat → option Q);
  clock : nat → Q
}.

(** What the generator yields, without the runner, which is the same in
    every item. *)
Record item := {
  item_expected_scheduled_time : Q;
  item_sample_type : SampleType;
  item_percent_completed : option Q;
  item_params : P
}.

(** The generator between two items: the progress control, the local
    [next_scheduled], and how many items it has yielded. *)
Record generator := {
  control : ProgressControl;
  next_scheduled : Q;
  yielded : nat
}.

(** The generator object [ScheduleHandle.__call__()] returns, after
    [ScheduleHandle.start()]. *)
Definition new_generator (env : Collaborators) (c : ProgressControl) : generator :=
  {| control := start (clock env 0) c; next_scheduled := 0; yielded := 0 |}.

(** One [__anext__]: the next item and the generator after it, or [None]
    when the generator returns. After the first item the generator resumes
    behind its [yield], with [task_progress_control.next()]. *)
Definition anext (env : Collaborators) (g : generator)
    : attempt (option (item * generator)) :=
  c ← match yielded g with
      | O => Done (control g)
      | S _ => next (clock env (yielded g)) (control g)
      end;
  let k := yielded g in
  if infinite c then
    match sched_next env k (next_scheduled g) with
    | None => Done None
    | Some next_scheduled =>
        let percent_completed :=
          match params_percent_completed env with
          | Some percent_completed => percent_completed k
          | None => None
          end in
        sample_type ← sample_type c;
        match params_params env k with
        | None => Done None
        | Some params =>
            Done (Some ({| item_expected_scheduled_time := next_scheduled;
                           item_sample_type := sample_type;
                           item_percent_completed := percent_completed;
                           item_params := params |},
                        {| control := c; next_scheduled := next_scheduled;
                           yielded := S k |}))
        end
    end
  else
    done ← completed c;
    if done : bool then Done None
    else
      match sched_next env k (next_scheduled g) with
      | None => Done None
      | Some next_scheduled =>
          sample_type ← sample_type c;
          percent_completed ← percent_completed c;
          match params_params env k with
          | None => Done None
          | Some params =>
              Done (Some ({| item_expected_scheduled_time := next_scheduled;
                             item_sample_type := sample_type;
                             item_percent_completed := Some percent_completed;
                             item_params := params |},
                          {| control := c; next_scheduled := next_scheduled;
                             yielded := S k |}))
          end
      end.

(** [async for ... in schedule], taken to the end: the items, or [None]
    when the generator has not returned after [fuel] items. *)
Fixpoint drain (env : Collaborators) (fuel : nat) (g : generator)
    : attempt (option (list item)) :=
  r ← anext env g;
  match r, fuel with
  | None, _ => Done (Some [])
  | Some _, O => Done None
  | Some (x, g), S fuel =>
      rest ← drain env fuel g;
      Done (match rest with Some items => Some (x :: items) | None => None end)
  end.

(** The instants the scheduler hands out, call after call, starting from
    [next_scheduled = 0]. *)
Fixpoint expected_time (env : Collaborators) (k : nat) : option Q :=
  match k with
  | O => sched_next env 0 0%Q
  | S k' => expected_time env k' ≫= sched_next env k
  end.

(** The local [next_scheduled] after [j] items. *)
Definition scheduled_before (env : Collaborators) (j : nat) (t : Q) : Prop :=
  match j with
  | O => t = 0%Q
  | S j' => expected_time env j' = Some t
  end.

(** Neither the scheduler nor the parameter source stops before the
    [n]-th item. *)
Definition supplies (env : Collaborators) (n : nat) : Prop :=
  ∀ k, (k < n)%nat →
       (∀ t, is_Some (sched_next env k t)) ∧ is_Some (params_params env k).

(** The sample type the control gives the [k]-th item: by the number of
    items so far, or by the time since [start]. *)
Definition sample_type_at (env : Collaborators) (c : ProgressControl) (k : nat)
    : option SampleType :=
  match c with
  | TimeControl c =>
      warmup ← tp_warmup_time_period c;
      Some (if Qlt_bool (clock env k - clock env 0) warmup then Warmup else Normal)
  | IterationControl c =>
      warmup ← ib_warmup_iterations c;
      Some (if Z.of_nat k <? warmup then Warmup else Normal)
  end.

(** The progress the parameter source reports before its [k]-th call. *)
Definition source_progress (env : Collaborators) (k : nat) : option Q :=
  match params_percent_completed env with
  | Some percent_completed => percent_completed k
  | None => None
  end.

(** The control between two items: started at [clock 0] and, after [j]
    items, advanced [j - 1] times. *)
Definition control_after (env : Collaborators) (c : ProgressControl) (j : nat)
    : ProgressControl :=
  match c with
  | TimeControl c =>
      TimeControl {| tp_warmup_time_period := tp_warmup_time_period c;
                     tp_time_period := tp_time_period c;
                     tp_duration := tp_duration c;
                     tp_start := Some (clock env 0);
                     tp_now := Some (clock env (pred j)) |}
  | IterationControl c =>
      IterationControl (IterationBased_with_it (Some (Z.of_nat (pred j))) c)
  end.
End generator.

Arguments Collaborators : clear implicits.
Arguments item : clear implicits.

(** A scheduler that hands out the seconds 1, 2, 3, ..., a parameter
    source that hands out the number of the call and stops before its
    [stop]-th call, and a clock that advances by one second per reading. *)
Definition steady (stop : nat) : Collaborators nat :=
  {| sched_next := λ _ t, Some (t + 1)%Q;
     params_params := λ k, if (k <? stop)%nat then Some k else None;
     params_percent_completed := None;
     clock := λ k, inject_Z (Z.of_nat k) |}.

(** A clock that never goes back. *)
Definition monotone (clock : nat → Q) : Prop :=
  ∀ i j, (i ≤ j)%nat → (clock i <= clock j)%Q.

(** Client [i] of a task of two clients that ramps up over ten seconds. *)
Definition ramped_client (i : nat) : Allocator.TaskAllocation :=
  {| Allocator.task :=
       {| Workload.name := "T"; Workload.clients := 2;
          Workload.completes_parent := false;
          Workload.warmup_iterations := None; Workload.iterations := None;
          Workload.warmup_time_period := None; Workload.time_period := None;
          Workload.ramp_up_time_period := Some 10%Q |};
     Allocator.client_index_in_task := i;
     Allocator.global_client_index := i;
     Allocator.total_clients := 2 |}.

(** One warm-up iteration and two measured ones. *)
Definition three_iterations : IterationBased :=
  {| ib_warmup_iterations := Some 1; ib_iterations := Some 2;
     ib_total_iterations := Some 3; ib_it := None |}.

End Progress.

(** ** Runs of the feedback actor *)

Module FeedbackRuns.
Import Feedback.

(** What one [WakeupMessage] meets: the clock reading of [handle_state],
    the answer of the metrics store to the CPU query, the state of the
    random generator, the clock reading inside [scale_down] or [scale_up],
    and the errors that reached the queue since the last wakeup. *)
Record wakeup := {
  current_time : Q;
  cpu_buckets : list (string * Q);
  rng : Random;
  scaling_time : Q;
  arrived : list error_record
}.

(** [receiveMsg_WakeupMessage], after the errors reported in the meantime. *)
Definition receiveMsg_WakeupMessage (w : wakeup) (s : FeedbackActor)
    : option FeedbackActor :=
  handle_state (current_time w) (cpu_buckets w) (rng w) (scaling_time w)
    (foldl (λ s e, report_error e s) s (arrived w)).

(** A run of wakeups; [None] when one of them raises. *)
Fixpoint wakeups (ws : list wakeup) (s : FeedbackActor) : option FeedbackActor :=
  match ws with
  | [] => Some s
  | w :: ws => s ← receiveMsg_WakeupMessage w s; wakeups ws s
  end.

(** What [ConfigureFeedbackScaling] sets and no wakeup changes. *)
Definition settings (s : FeedbackActor) :=
  (total_client_count s, num_clients_to_scale_up s,
   percentage_clients_to_scale_down s, POST_SCALEDOWN_SECONDS s,
   probe_probability s, probe_interval s,
   max_cpu_threshold s, cpu_check_interval s).

(** A CPU threshold comes with a check interval, as
    [ConfigureFeedbackScaling] sets them. *)
Definition cpu_configured (s : FeedbackActor) : Prop :=
  truthy_threshold (max_cpu_threshold s) = true → is_Some (cpu_check_interval s).

(** The state a wakeup leaves a sleeping or disabled actor in. *)
Definition state_after_rest (current_time : Q) (s : FeedbackActor) : FeedbackState :=
  match state s with
  | SLEEP =>
      if Qle_bool (POST_SCALEDOWN_SECONDS s) (current_time - sleep_start_time s)
      then NEUTRAL else SLEEP
  | st => st
  end.

(** The actor over two clients of one worker, started with the defaults. *)
Definition started_actor : FeedbackActor :=
  receiveMsg_StartFeedbackActor (coordinator_shared_client_dict [[0; 1]]) []
    (init 0 0 0 0).

(** A wakeup at second [t] that meets the errors [errors]. *)
Definition wakeup_at (t : Q) (errors : list error_record) : wakeup :=
  {| current_time := t; cpu_buckets := []; rng := first_indices (1 # 2);
     scaling_time := t; arrived := errors |}.

(** A hundred clients of one worker under a controller configured to
    scale up by a hundred and down by seven percent, started and enabled;
    and the controller after its first wakeup, which activates them all. *)
Definition hundred_clients : FeedbackActor :=
  receiveMsg_EnableFeedbackScaling
    (receiveMsg_StartFeedbackActor (coordinator_shared_client_dict [seqZ 0 100]) []
       (receiveMsg_ConfigureFeedbackScaling 100 (Double.literal (7 # 100)) 30 30 None
          (init 0 0 0 0))).

Definition hundred_active : FeedbackActor :=
  default hundred_clients (receiveMsg_WakeupMessage (wakeup_at 10 []) hundred_clients).

(** A wakeup that finds ten clients active, an error threshold of ten and
    three request errors in the queue. *)
Definition three_errors : FeedbackActor :=
  report_error (RequestError 1 "search")
    (report_error (RequestError 2 "search") (all_active_actor 10 10 0)).
End FeedbackRuns.

(** ** The loop of the executor *)

Module ExecutorRuns.
Import Samples Executor.

Section runs.
Context `{RequestContextHolder}.

Definition with_complete (v : bool) (w : World) : World :=
  {| context := context w; runner_invocations := runner_invocations w;
     error_queue := error_queue w; sampler := sampler w;
     profile_sampler := profile_sampler w; pacer_calls := pacer_calls w;
     complete := v |}.

(** One turn of the loop: the tuple the schedule yields, the clock
    readings of the request, the shared dictionary as the client finds it,
    whether [cancel] is set, and whether the completion event, which the
    executor shares with its worker and with the executors of the other
    clients, is set by one of them before this turn reads it. *)
Record turn := {
  turn_item : scheduled;
  turn_readings : readings;
  turn_shared_states : option (list (Z * bool));
  turn_cancelled : bool;
  turn_completed_elsewhere : bool
}.

(** [self.complete.set()], by whoever holds the event. *)
Definition complete_set : M () := modify (with_complete true).

(** The [async for] loop of [AsyncExecutor.__call__]. The completion
    event is read once per turn, in [_process_results]; what the others do
    to it during the turn is done before. *)
Fixpoint main_loop (self : AsyncExecutor) (total_start : Q) (turns : list turn)
    (profile_metrics_sample_count : Z) : M () :=
  match turns with
  | [] => ret ()
  | t :: turns =>
      if turn_cancelled t then ret ()
      else
        (if turn_completed_elsewhere t then complete_set else ret ());;
        '(completed, profile_metrics_sample_count) ←
          request self (turn_shared_states t) total_start (turn_item t)
            (turn_readings t) profile_metrics_sample_count;
        if completed : bool then ret ()
        else main_loop self total_start turns profile_metrics_sample_count
  end.

(** How [__call__] ends: normally, or with the [BenchmarkError] that wraps
    whatever the loop raised. *)
Inductive call_outcome :=
| Finished
| BenchmarkError (cause : failure).

(** [AsyncExecutor.__call__], from the loop on: the [except] clause and the
    [finally] clause, which signals completion for a task that completes
    its parent. The message producer of stream operations is not
    modelled. *)
Definition call (self : AsyncExecutor) (total_start : Q) (turns : list turn)
    : World → call_outcome * World :=
  λ w,
    let '(o, w) := main_loop self total_start turns 0 w in
    let w := if task_completes_parent self then (complete_set w).2 else w in
    (match o with Returned _ => Finished | Failed f => BenchmarkError f end, w).

(** The record [_execute_request] reports for meta-data [m]. *)
Definition error_of (self : AsyncExecutor) (m : meta_data) : error_info :=
  {| err_client_id := client_id self; err_task := task self; err_details := m |}.

(** The error queue after [report_error]: no queue, a full queue, or one
    more record. *)
Definition reported (e : error_info) (q : option (list error_info))
    : option (list error_info) :=
  match q with
  | Some q => if (length q <? ERROR_QUEUE_MAXSIZE)%nat then Some (q ++ [e]) else Some q
  | None => None
  end.

(** Whether the request context lacks one of its four timings. *)
Definition lacks_timing (c : request_context) : bool :=
  existsb (λ x : option Q, bool_decide (x = None))
    [ctx_request_start c; ctx_request_end c;
     ctx_client_request_start c; ctx_client_request_end c].

(** A step that does not end in [asyncio.TimeoutError]. *)
Definition never_times_out {A} (m : M A) : Prop :=
  ∀ w, (m w).1 ≠ Failed TimeoutError.

(** What the pacer hears of a turn of a paused client. *)
Definition paused_calls (t : turn) : list pacer_call :=
  [BeforeRequest (processing_start (turn_readings t));
   AfterRequest (processing_end (turn_readings t)) 0 "ops" skipped_notice].
End runs.

(** A runner whose request times out. *)
Definition stalled_runner : Runner :=
  {| run := λ _ c, (TimedOut, on_client_request_start c);
     completed := None;
     percent_completed := None |}.

(** A runner that raises [ValueError], and one that misses a parameter. *)
Definition broken_runner : Runner :=
  {| run := λ _ c, (RaisedOther (PyException "ValueError"), on_client_request_start c);
     completed := None;
     percent_completed := None |}.

Definition demanding_runner : Runner :=
  {| run := λ _ c, (RaisedKeyError "'index'", on_client_request_start c);
     completed := None;
     percent_completed := None |}.

(** Two turns of client 7, paused in the dictionary of its worker. *)
Definition paused_turns : list turn :=
  [{| turn_item := search_item; turn_readings := search_readings;
      turn_shared_states := Some [(3, true); (7, false)];
      turn_cancelled := false; turn_completed_elsewhere := false |};
   {| turn_item := search_item; turn_readings := search_readings;
      turn_shared_states := Some [(7, false)];
      turn_cancelled := false; turn_completed_elsewhere := false |}].
End ExecutorRuns.

(** ** What a throughput datum measures *)

Module ThroughputViews.
Import Samples Throughput.

(** The statistics [calculate_task_throughput] works on: those kept for
    the task, or new ones made from the first sample. *)
Definition initial_stats (task_stats : gmap string TaskStats) (task : string)
    (first_sample : DefaultSample) (bucket_interval_secs : Q) : TaskStats :=
  match task_stats !! task with
  | Some c => c
  | None =>
      TaskStats_init bucket_interval_secs (sample_type first_sample)
        (absolute_time first_sample - time_period first_sample)
  end.

(** The operations counted after [samples]: those of earlier buckets and
    those of the samples. *)
Definition count_after (c : TaskStats) (samples : list DefaultSample) : Q :=
  foldl (λ count s, (count + total_ops s)%Q) (total_count c) samples.

(** The interval after [samples]: the longest time from the start of the
    task to one of them, or the interval reached earlier. *)
Definition interval_after (c : TaskStats) (samples : list DefaultSample) : Q :=
  foldl (λ i s, py_max (absolute_time s - start_time c) i) (interval c) samples.

(** A datum that reports, at sample [s] of [samples], all operations up to
    [s] over the whole interval up to [s]. *)
Definition cumulative (c : TaskStats) (samples : list DefaultSample) (d : datum)
    : Prop :=
  ∃ before s after,
    samples = before ++ s :: after ∧
    emitted_at d s ∧
    (0 < interval_after c (before ++ [s]))%Q ∧
    d_throughput d =
      PyFloat (count_after c (before ++ [s]) / interval_after c (before ++ [s])) ∧
    d_unit d = (total_ops_unit s ++ "/s")%string.

(** A datum that passes on the throughput the runner provided with
    sample [s]. *)
Definition passed_on (d : datum) (s : DefaultSample) : Prop :=
  emitted_at d s ∧
  d_sample_type d = sample_type s ∧
  d_throughput d = default PyNone (throughput s) ∧
  d_unit d = (total_ops_unit s ++ "/s")%string.

(** How the data of a task come from the samples [v] of a call: the
    samples of the call and those kept for the task, in time order, give one
    datum each when the first of them carries a throughput of the runner,
    and cumulative data otherwise. *)
Definition emitted_from (task_stats : gmap string TaskStats) (task : string)
    (v : list DefaultSample) (bucket_interval_secs : Q) (data : list datum) : Prop :=
  ∃ first_sample rest,
    sorted_by_time (chained task_stats task v) = first_sample :: rest ∧
    match throughput first_sample with
    | Some _ => Forall2 passed_on data (first_sample :: rest)
    | None =>
        Forall (cumulative
                  (initial_stats task_stats task first_sample bucket_interval_secs)
                  (first_sample :: rest)) data
    end.

(** Three samples of one operation each, at seconds 1, 2 and 3 of a task
    that started at second 0. *)
Definition three_samples : list DefaultSample :=
  [sample_at 0 1 Normal 1; sample_at 0 2 Normal 2; sample_at 0 3 Normal 3].

(** The statistics of task [T] between two buckets: one operation counted
    in the first bucket, which ends at second 11, and the sample of second
    2 kept for the next one. *)
Definition between_buckets : TaskStats :=
  {| unprocessed := [sample_at 0 2 Normal 2]; total_count := 1; interval := 2;
     bucket_interval := 10; bucket := 11; stats_sample_type := Normal;
     has_samples_in_sample_type := true; start_time := 0 |}.
End ThroughputViews.

(** ** Where the allocator places the clients *)

Module Placement.
Import Workload Allocator.

(** The [TaskAllocation] the allocator makes for [client_index] of a
    sub-task whose clients start at [start_client_index]. *)
Definition allocation_of (task : ScheduleElement) (sub_task : Task)
    (start_client_index client_index : nat) : TaskAllocation :=
  {| Allocator.task := sub_task;
     client_index_in_task := client_index - start_client_index;
     global_client_index := client_index;
     total_clients := element_clients task |}.

(** The task allocations of a schedule element in the order of their
    global client index: sub-task after sub-task, each with as many clients
    as it asks for. *)
Fixpoint group_allocations_from (task : ScheduleElement) (start_client_index : nat)
    (subs : list Task) : list TaskAllocation :=
  match subs with
  | [] => []
  | sub_task :: subs =>
      (allocation_of task sub_task start_client_index <$>
         seq start_client_index (clients sub_task)) ++
      group_allocations_from task (start_client_index + clients sub_task) subs
  end.

Definition group_allocations (task : ScheduleElement) : list TaskAllocation :=
  group_allocations_from task 0 (sub_tasks task).

Definition cell_of (a : option TaskAllocation) : cell :=
  match a with Some ta => Allocation ta | None => NoAllocation end.

(** The columns of a schedule element in row [r] of [n]: column [j] holds
    the client with global index [j * n + r], or [None] past the last. *)
Definition group_row (n : nat) (task : ScheduleElement) (r : nat) : list cell :=
  (λ j, cell_of (group_allocations task !! (j * n + r)%nat)) <$>
    seq 0 (group_width n task).

(** The rows of the clients that execute a sub-task that completes its
    parent, in the order of their global client index. *)
Definition completing_rows (n : nat) (task : ScheduleElement) : list nat :=
  omap (λ ta, if completes_parent (Allocator.task ta)
              then Some (global_client_index ta mod n)%nat else None)
       (group_allocations task).

(** Row [r] from the columns of a schedule element on: its columns and
    the join point that follows, for each element. *)
Fixpoint row_from (n r first : nat) (schedule : list ScheduleElement) : list cell :=
  match schedule with
  | [] => []
  | task :: rest =>
      group_row n task r ++
      [Join {| id := first;
               clients_executing_completing_task := completing_rows n task |}] ++
      row_from n r (S first) rest
  end.

Definition row (n r : nat) (schedule : list ScheduleElement) : list cell :=
  Join {| id := 0; clients_executing_completing_task := [] |} ::
  row_from n r 1 schedule.

(** The matrix row by row. *)
Definition described (n : nat) (F : nat → list cell) (rows : list (list cell)) : Prop :=
  length rows = n ∧ ∀ r row, rows !! r = Some row → row = F r.

(** The rows while the clients of a schedule element are dealt out: on
    top of [F], row [r] holds the clients dealt to it so far. *)
Definition dealt_cells (n : nat) (F : nat → list cell) (flat : list TaskAllocation)
    (k : nat) : nat → list cell :=
  λ r, F r ++ ((λ j, cell_of (flat !! (j * n + r)%nat)) <$> seq 0 (dealt_to n k r)).

(** *** [Allocator.tasks_per_joinpoint]

    A set of tasks is given by the tasks added to it, in the order of the
    [add] calls: the set is empty when the list is, and its elements are
    those of the list. *)

(** The body of [for client in range(0, self.clients)]. *)
Definition visit_cell (allocs : list (list cell)) (idx : nat)
    (acc : list (list Task) * list Task) (client : nat)
    : attempt (list (list Task) * list Task) :=
  let '(tasks, current_tasks) := acc in
  match allocs !! client ≫= (.!! idx) with
  | None => Raised IndexError
  | Some (Allocation ta) => Done (tasks, current_tasks ++ [Allocator.task ta])
  | Some (Join _) =>
      if (0 <? length current_tasks)%nat then Done (tasks ++ [current_tasks], [])
      else Done (tasks, current_tasks)
  | Some NoAllocation => Done (tasks, current_tasks)
  end.

(** The body of [for idx in range(0, len(allocs[0]))]. *)
Definition visit_column (clients : nat) (allocs : list (list cell))
    (acc : list (list Task) * list Task) (idx : nat)
    : attempt (list (list Task) * list Task) :=
  foldlM (visit_cell allocs idx) acc (seq 0 clients).

Definition tasks_per_joinpoint (schedule : list ScheduleElement)
    : attempt (list (list Task)) :=
  let allocs := allocations schedule in
  match allocs !! 0%nat with
  | None => Raised IndexError
  | Some first_row =>
      r ← foldlM (visit_column (max_clients schedule) allocs) ([], [])
             (seq 0 (length first_row));
      Done r.1
  end.

(** The schedule elements that have a client. *)
Definition has_clients (task : ScheduleElement) : bool :=
  (0 <? group_clients task)%nat.

(** [self.tasks_per_join_point[self.current_step]], as
    [update_progress_message] reads it. *)
Definition tasks_of_step (schedule : list ScheduleElement) (current_step : Z)
    : attempt (list Task) :=
  tasks ← tasks_per_joinpoint schedule;
  match py_position (length tasks) current_step ≫= (tasks !!.) with
  | Some current_tasks => Done current_tasks
  | None => Raised IndexError
  end.

(** A first element of three clients that leaves no client for a task,
    followed by a task of one client. *)
Definition idle_then_one : list ScheduleElement :=
  [{| element_clients := 3; sub_tasks := [leaf "T0" 0 false] |};
   {| element_clients := 1; sub_tasks := [leaf "T1" 1 false] |}].
End Placement.

(** * Properties *)

(** ** Lists picked by index *)

Section pick_facts.
Context {A : Type}.
Implicit Types (l : list A) (idx : list nat).

Lemma pick_in_range l idx :
  Forall (λ i, (i < length l)%nat) idx →
  pick l idx = Some (omap (λ i, l !! i) idx).
Proof.
  induction 1 as [|i idx Hi _ IH]; [done|].
  unfold pick in *. cbn.
  destruct (lookup_lt_is_Some_2 l i Hi) as [x Hx].
  rewrite Hx. cbn. by rewrite IH.
Qed.

Lemma omap_lookup_length l idx :
  Forall (λ i, (i < length l)%nat) idx →
  length (omap (λ i, l !! i) idx) = length idx.
Proof.
  intros H. apply pick_in_range in H.
  symmetry. by eapply length_mapM.
Qed.

Lemma omap_lookup_subseteq l idx x :
  x ∈ omap (λ i, l !! i) idx → x ∈ l.
Proof.
  rewrite list_elem_of_omap. intros (i & _ & Hx).
  by eapply list_elem_of_lookup_2.
Qed.

Lemma omap_lookup_NoDup l idx :
  NoDup l → NoDup idx → NoDup (omap (λ i, l !! i) idx).
Proof.
  intros Hl. induction 1 as [|i idx Hi Hidx IH]; cbn; [constructor|].
  destruct (l !! i) as [x|] eqn:Hx; [|done].
  constructor; [|done].
  rewrite list_elem_of_omap. intros (j & Hj & Hxj).
  assert (i = j) by eauto using NoDup_lookup. by subst.
Qed.

Lemma omap_lookup_seq l : omap (λ i, l !! i) (seq 0 (length l)) = l.
Proof.
  induction l as [|x l IH]; [done|].
  cbn [length seq omap list_omap]. cbn.
  f_equal. rewrite <- fmap_S_seq.
  rewrite <- IH at 2. clear IH.
  induction (seq 0 (length l)) as [|i r IHr]; [done|].
  cbn. by rewrite IHr.
Qed.

(** A genuine sample picks [k] distinct elements of the list. *)
Lemma pick_sample l k idx :
  is_random_sample (length l) k idx →
  ∃ sel, pick l idx = Some sel ∧ length sel = k ∧
         (∀ x, x ∈ sel → x ∈ l) ∧ (NoDup l → NoDup sel).
Proof.
  intros (Hlen & Hnd & Hrange).
  exists (omap (λ i, l !! i) idx). split_and!.
  - by apply pick_in_range.
  - by rewrite omap_lookup_length.
  - intros x. apply omap_lookup_subseteq.
  - intros. by apply omap_lookup_NoDup.
Qed.

(** A genuine shuffle returns a permutation of the list. *)
Lemma pick_shuffle l idx :
  is_shuffle (length l) idx → ∃ l', pick l idx = Some l' ∧ l' ≡ₚ l.
Proof.
  intros Hperm. exists (omap (λ i, l !! i) idx). split.
  - apply pick_in_range. unfold is_shuffle in Hperm.
    apply Forall_forall. intros i Hi. rewrite Hperm in Hi.
    apply elem_of_seq in Hi. lia.
  - unfold is_shuffle in Hperm. rewrite Hperm. by rewrite omap_lookup_seq.
Qed.
End pick_facts.

(** ** Insertion-ordered dictionaries *)

Section pydict_facts.
Context {K V : Type} `{EqDecision K}.
Implicit Types (d : list (K * V)).

Lemma pydict_keys_update k f d : PyDict.keys (PyDict.update k f d) = PyDict.keys d.
Proof.
  unfold PyDict.keys. induction d as [|[k0 v0] d IH]; [done|].
  cbn. case_decide; cbn; [done|]. by rewrite IH.
Qed.

Lemma pydict_keys_set_present k v d :
  k ∈ PyDict.keys d → PyDict.keys (PyDict.set k v d) = PyDict.keys d.
Proof.
  unfold PyDict.keys. induction d as [|[k0 v0] d IH]; cbn.
  - by intros ?%elem_of_nil.
  - intros Hk. case_decide; cbn; [by subst|].
    rewrite IH; [done|]. apply elem_of_cons in Hk as [?|?]; [congruence|done].
Qed.

Lemma pydict_keys_set_absent k v d :
  k ∉ PyDict.keys d → PyDict.keys (PyDict.set k v d) = PyDict.keys d ++ [k].
Proof.
  unfold PyDict.keys. induction d as [|[k0 v0] d IH]; cbn; [done|].
  intros Hk. apply not_elem_of_cons in Hk as [Hne Hk].
  case_decide; [congruence|]. cbn. by rewrite IH.
Qed.

Lemma pydict_wf_set k v d : PyDict.wf d → PyDict.wf (PyDict.set k v d).
Proof.
  unfold PyDict.wf. intros Hd.
  destruct (decide (k ∈ PyDict.keys d)) as [Hk|Hk].
  - by rewrite pydict_keys_set_present.
  - rewrite pydict_keys_set_absent by done.
    apply NoDup_app. split_and!; [done| |apply NoDup_singleton].
    intros x Hx ->%list_elem_of_singleton. done.
Qed.

Lemma pydict_wf_update k f d : PyDict.wf d → PyDict.wf (PyDict.update k f d).
Proof. unfold PyDict.wf. by rewrite pydict_keys_update. Qed.

Lemma pydict_length_set_present k v d :
  k ∈ PyDict.keys d → length (PyDict.set k v d) = length d.
Proof.
  intros Hk. rewrite <- (length_fmap fst (PyDict.set k v d)), <- (length_fmap fst d).
  f_equal. by apply pydict_keys_set_present.
Qed.
Lemma pydict_get_set_eq k v d : PyDict.get k (PyDict.set k v d) = Some v.
Proof.
  induction d as [|[k0 v0] d IH]; cbn.
  - by rewrite decide_True.
  - case_decide; cbn; [by rewrite decide_True|]. by rewrite decide_False.
Qed.

Lemma pydict_get_set_ne k k' v d :
  k ≠ k' → PyDict.get k' (PyDict.set k v d) = PyDict.get k' d.
Proof.
  intros Hne. induction d as [|[k0 v0] d IH]; cbn.
  - by rewrite decide_False.
  - case_decide; cbn.
    + subst k0. by rewrite !decide_False.
    + case_decide; [done|]. apply IH.
Qed.

Lemma pydict_get_Some k v d : PyDict.get k d = Some v → (k, v) ∈ d.
Proof.
  induction d as [|[k0 v0] d IH]; cbn; [done|].
  case_decide.
  - intros [= ->]. subst k0. left.
  - intros Hget. right. by apply IH.
Qed.

Lemma pydict_get_None k d : k ∉ PyDict.keys d → PyDict.get k d = None.
Proof.
  unfold PyDict.keys. induction d as [|[k0 v0] d IH]; cbn; [done|].
  intros [Hne Hk]%not_elem_of_cons. rewrite decide_False by done. by apply IH.
Qed.

Lemma pydict_elem_of_set k v d kv :
  kv ∈ PyDict.set k v d → kv = (k, v) ∨ kv ∈ d.
Proof.
  induction d as [|[k0 v0] d IH]; cbn.
  - intros ->%list_elem_of_singleton. by left.
  - case_decide.
    + intros [->|Hin]%elem_of_cons; [by left|]. right. by right.
    + intros [->|Hin]%elem_of_cons; [right; left|].
      destruct (IH Hin) as [->|?]; [by left|]. right. by right.
Qed.
End pydict_facts.

(** ** Double-precision arithmetic *)

Module DoubleFacts.
Import Double.

(** The literals [0.07] and [0.1] are the doubles next to them. *)
Example literal_7_percent : (literal (7 # 100) == 5044031582654956 # 2 ^ 56)%Q.
Proof. by vm_compute. Qed.

Example literal_10_percent : (literal (1 # 10) == 3602879701896397 # 2 ^ 55)%Q.
Proof. by vm_compute. Qed.

(** [100 * 0.07] is [7.000000000000001], one unit in the last place above
    7, and [100 * 0.1] is [10.0]. *)
Example hundred_times_7_percent :
  (int_mul 100 (literal (7 # 100)) == 7 + (1 # 2 ^ 50))%Q ∧
  Qceiling (int_mul 100 (literal (7 # 100))) = 8.
Proof. by vm_compute. Qed.

Example hundred_times_10_percent :
  (int_mul 100 (literal (1 # 10)) == 10)%Q ∧
  Qceiling (int_mul 100 (literal (1 # 10))) = 10.
Proof. by vm_compute. Qed.

(** Integers up to [2^53] are doubles; above, every other one is, and a tie
    goes to the even significand. *)
Example of_int_exact :
  (of_int 100 == 100)%Q ∧ (of_int (2 ^ 53) == inject_Z (2 ^ 53))%Q ∧
  (of_int (- 3) == - 3)%Q.
Proof. by vm_compute. Qed.

Example of_int_ties_to_even :
  (of_int (2 ^ 53 + 1) == inject_Z (2 ^ 53))%Q ∧
  (of_int (2 ^ 53 + 3) == inject_Z (2 ^ 53 + 4))%Q.
Proof. by vm_compute. Qed.
End DoubleFacts.

(** ** The shared pause map *)

Module FeedbackFacts.
Import Feedback.

Implicit Types (S : shared_states) (E : list ((Z * Z) * bool)) (s : FeedbackActor).

Lemma entries_cons w cs S :
  entries ((w, cs) :: S) = ((λ cb : Z * bool, ((w, cb.1), cb.2)) <$> cs) ++ entries S.
Proof. done. Qed.

Lemma clients_with_status_entries b S :
  clients_with_status b S = keys_with b (entries S).
Proof.
  unfold keys_with. induction S as [|[w cs] S IH]; [done|].
  rewrite entries_cons, filter_app, fmap_app, <- IH.
  change (clients_with_status b ((w, cs) :: S))
    with ((cs ≫= λ '(c, a), if bool_decide (a = b) then [(w, c)] else [])
          ++ clients_with_status b S).
  f_equal. clear IH.
  induction cs as [|[c a] cs IHcs]; [done|].
  cbn [mbind list_bind fmap list_fmap]. rewrite IHcs, filter_cons. cbn.
  case_bool_decide; case_decide; try done.
Qed.

Lemma all_active_clients_entries S :
  all_active_clients S = keys_with true (entries S).
Proof. apply clients_with_status_entries. Qed.

Lemma inactive_clients_entries S :
  inactive_clients S = keys_with false (entries S).
Proof. apply clients_with_status_entries. Qed.

Lemma entries_keys_worker S k : k ∈ (entries S).*1 → k.1 ∈ PyDict.keys S.
Proof.
  unfold PyDict.keys. induction S as [|[w cs] S IH].
  - by intros ?%elem_of_nil.
  - rewrite entries_cons, fmap_app, elem_of_app, <- list_fmap_compose.
    rewrite fmap_cons, elem_of_cons. cbn [fst].
    intros [Hk|Hk].
    + apply list_elem_of_fmap in Hk as (cb & -> & _). by left.
    + right. by apply IH.
Qed.

Lemma entries_keys_NoDup S : wf_shared S → NoDup (entries S).*1.
Proof.
  intros [Hout Hin]. unfold PyDict.wf, PyDict.keys in Hout.
  induction S as [|[w cs] S IH]; [constructor|].
  rewrite fmap_cons in Hout.
  apply NoDup_cons in Hout as [Hw Hout]. apply Forall_cons in Hin as [Hcs Hin].
  rewrite entries_cons, fmap_app, <- list_fmap_compose. apply NoDup_app. split_and!.
  - apply (NoDup_fmap_2 (λ c : Z, (w, c))) in Hcs.
    unfold PyDict.keys in Hcs. by rewrite <- list_fmap_compose in Hcs.
  - intros k Hk1 Hk2. apply entries_keys_worker in Hk2.
    apply list_elem_of_fmap in Hk1 as (cb & -> & _). done.
  - by apply IH.
Qed.

Lemma flip_entry_keys k b E : (flip_entry k b E).*1 = E.*1.
Proof.
  unfold flip_entry. rewrite <- list_fmap_compose.
  apply list_fmap_ext. intros i e _. cbn. by case_decide.
Qed.

Lemma flip_entry_length k b E : length (flip_entry k b E) = length E.
Proof. unfold flip_entry. by rewrite length_fmap. Qed.

Lemma flip_entry_absent k b E : k ∉ E.*1 → flip_entry k b E = E.
Proof.
  intros Hk. unfold flip_entry. rewrite <- (list_fmap_id E) at 2.
  apply list_fmap_ext. intros i e He. cbn. case_decide as Heq; [|done].
  destruct Hk. subst k. apply list_elem_of_fmap. exists e. split; [done|].
  by eapply list_elem_of_lookup_2.
Qed.

Lemma flip_entry_app k b E1 E2 :
  flip_entry k b (E1 ++ E2) = flip_entry k b E1 ++ flip_entry k b E2.
Proof. unfold flip_entry. by rewrite fmap_app. Qed.

(** An assignment to a present client changes exactly its entry. *)
Lemma entries_inner_set w c b (cs : client_states) :
  PyDict.wf cs → c ∈ PyDict.keys cs →
  (λ cb : Z * bool, ((w, cb.1), cb.2)) <$> PyDict.set c b cs =
  flip_entry (w, c) b ((λ cb : Z * bool, ((w, cb.1), cb.2)) <$> cs).
Proof.
  unfold PyDict.wf, PyDict.keys.
  induction cs as [|[c0 a] cs IH]; [by intros _ ?%elem_of_nil|].
  rewrite !fmap_cons. cbn [fst snd].
  intros [Hc0 Hnd]%NoDup_cons Hc. cbn [PyDict.set].
  unfold flip_entry at 1. rewrite fmap_cons. cbn [fst].
  fold (flip_entry (w, c) b ((λ cb : Z * bool, ((w, cb.1), cb.2)) <$> cs)).
  case_decide as Heq.
  - subst c0. rewrite decide_True by done. rewrite fmap_cons. cbn [fst snd].
    f_equal. symmetry. apply flip_entry_absent.
    rewrite <- list_fmap_compose. intros Hin.
    apply list_elem_of_fmap in Hin as (cb & [= ->] & Hcb).
    destruct Hc0. apply list_elem_of_fmap. by exists cb.
  - rewrite decide_False by congruence. rewrite fmap_cons. cbn [fst snd].
    f_equal. apply IH; [done|].
    apply elem_of_cons in Hc as [?|?]; [congruence|done].
Qed.

Lemma entries_set_client_state w c b S :
  wf_shared S → (w, c) ∈ (entries S).*1 →
  entries (set_client_state w c b S) = flip_entry (w, c) b (entries S).
Proof.
  unfold set_client_state. intros [Hout Hin]. unfold PyDict.wf, PyDict.keys in Hout.
  induction S as [|[w0 cs] S IH]; [by intros ?%elem_of_nil|].
  rewrite fmap_cons in Hout. cbn [fst] in Hout.
  apply NoDup_cons in Hout as [Hw0 Hout]. apply Forall_cons in Hin as [Hcs Hin].
  cbn [PyDict.update]. rewrite entries_cons, fmap_app, elem_of_app, flip_entry_app.
  intros Hk. case_decide as Heq.
  - subst w0. rewrite entries_cons. f_equal.
    + apply entries_inner_set; [done|].
      destruct Hk as [Hk|Hk].
      * rewrite <- list_fmap_compose in Hk.
        apply list_elem_of_fmap in Hk as (cb & [= ->] & Hcb).
        apply list_elem_of_fmap. by exists cb.
      * apply entries_keys_worker in Hk. done.
    + symmetry. apply flip_entry_absent.
      intros Hk'%entries_keys_worker. done.
  - rewrite entries_cons. f_equal.
    + symmetry. apply flip_entry_absent. rewrite <- list_fmap_compose.
      intros Hk'. apply list_elem_of_fmap in Hk' as (cb & [= -> ->] & _). done.
    + apply IH; [done..|].
      destruct Hk as [Hk|Hk]; [|done].
      rewrite <- list_fmap_compose in Hk.
      apply list_elem_of_fmap in Hk as (cb & [= -> ->] & _). done.
Qed.

Lemma wf_set_client_state w c b S :
  wf_shared S → wf_shared (set_client_state w c b S).
Proof.
  unfold set_client_state. intros [Hout Hin]. split.
  - by apply pydict_wf_update.
  - clear Hout. induction Hin as [|[w0 cs] S Hcs Hin IH]; [constructor|].
    cbn [PyDict.update]. case_decide; constructor; try done.
    cbn. by apply pydict_wf_set.
Qed.

(** The comprehension of the opposite status loses the assigned pair and
    nothing else. *)
Lemma keys_with_flip k b E :
  keys_with (negb b) (flip_entry k b E) = filter (.≠ k) (keys_with (negb b) E).
Proof.
  unfold keys_with, flip_entry.
  induction E as [|[k0 a] E IH]; [done|].
  rewrite fmap_cons. cbn [fst].
  destruct (decide (k0 = k)) as [->|Hne].
  - rewrite filter_cons_False by (cbn; by destruct b).
    rewrite IH. destruct (decide (a = negb b)) as [Ha|Ha].
    + rewrite (filter_cons_True _ (k, a)) by done.
      rewrite fmap_cons. cbn [fst]. by rewrite filter_cons_False by (by intros []).
    + by rewrite (filter_cons_False _ (k, a)) by done.
  - destruct (decide (a = negb b)) as [Ha|Ha].
    + rewrite !(filter_cons_True _ (k0, a)) by done.
      rewrite !fmap_cons. cbn [fst]. rewrite filter_cons_True by done.
      by rewrite IH.
    + by rewrite !(filter_cons_False _ (k0, a)) by done.
Qed.

Lemma keys_with_partition E :
  (length (keys_with true E) + length (keys_with false E))%nat = length E.
Proof.
  unfold keys_with. rewrite !length_fmap.
  induction E as [|[k [|]] E IH]; [done|..]; rewrite !filter_cons; cbn [snd];
    repeat case_decide; try done; cbn [length]; lia.
Qed.

Lemma keys_with_subseteq b E k : k ∈ keys_with b E → k ∈ E.*1.
Proof.
  unfold keys_with. intros (e & -> & He%list_elem_of_filter)%list_elem_of_fmap.
  apply list_elem_of_fmap. exists e. tauto.
Qed.

Lemma keys_with_NoDup b E : NoDup E.*1 → NoDup (keys_with b E).
Proof.
  unfold keys_with. induction E as [|[k a] E IH]; [constructor|].
  rewrite fmap_cons. intros [Hk Hnd]%NoDup_cons. rewrite filter_cons.
  case_decide; [|by apply IH].
  rewrite fmap_cons. constructor; [|by apply IH].
  intros Hin. apply Hk. by eapply (keys_with_subseteq b).
Qed.

Lemma filter_id {A} (P : A → Prop) `{∀ x, Decision (P x)} (l : list A) :
  (∀ x, x ∈ l → P x) → filter P l = l.
Proof.
  induction l as [|x l IH]; intros HP; [done|].
  rewrite filter_cons_True by (apply HP; left).
  f_equal. apply IH. intros y Hy. apply HP. by right.
Qed.

Lemma foldl_flip_keys b sel E :
  (foldl (λ E k, flip_entry k b E) E sel).*1 = E.*1.
Proof.
  revert E. induction sel as [|k sel IH]; intros E; [done|].
  cbn [foldl]. by rewrite IH, flip_entry_keys.
Qed.

Lemma foldl_flip_length b sel E :
  length (foldl (λ E k, flip_entry k b E) E sel) = length E.
Proof. by rewrite <- (length_fmap fst), foldl_flip_keys, length_fmap. Qed.

Lemma keys_with_foldl_flip b sel E :
  keys_with (negb b) (foldl (λ E k, flip_entry k b E) E sel) =
  filter (.∉ sel) (keys_with (negb b) E).
Proof.
  revert E. induction sel as [|k sel IH]; intros E; cbn [foldl].
  - symmetry. apply filter_id. intros x _. apply not_elem_of_nil.
  - rewrite IH, keys_with_flip, list_filter_filter.
    apply list_filter_iff. intros x. rewrite not_elem_of_cons. tauto.
Qed.

(** Removing [n] distinct members from a duplicate-free list shortens it by [n]. *)
Lemma length_filter_not_elem_of {A} `{EqDecision A} (l sel : list A) :
  NoDup l → NoDup sel → (∀ x, x ∈ sel → x ∈ l) →
  (length (filter (.∉ sel) l) + length sel)%nat = length l.
Proof.
  intros Hl Hsel Hsub.
  rewrite <- (filter_app_complement (.∉ sel) l) at 2.
  rewrite length_app. f_equal. apply Permutation_length.
  apply NoDup_Permutation; [done|by apply NoDup_filter|].
  intros x. rewrite list_elem_of_filter.
  split.
  - intros Hx. split; [intros Hn; by apply Hn|by apply Hsub].
  - intros [Hn _]. destruct (decide (x ∈ sel)); [done|by destruct Hn].
Qed.

(** The pausing loop of [scale_down]. *)
Lemma foldl_pause_client s sel :
  wf_shared (shared_client_states s) →
  Forall (λ k, k ∈ (entries (shared_client_states s)).*1) sel →
  let s' := foldl pause_client s sel in
  wf_shared (shared_client_states s') ∧
  entries (shared_client_states s') =
    foldl (λ E k, flip_entry k false E) (entries (shared_client_states s)) sel ∧
  total_active_client_count s' = total_active_client_count s - Z.of_nat (length sel) ∧
  total_client_count s' = total_client_count s ∧
  max_error_threshold s' = max_error_threshold s.
Proof.
  revert s. induction sel as [|[w c] sel IH]; intros s Hwf Hsel; cbn zeta.
  - cbn. split_and!; try done. lia.
  - apply Forall_cons in Hsel as [Hk Hsel]. cbn [foldl].
    destruct (IH (pause_client s (w, c))) as (Hwf' & HE & Hcnt & Htot & Hthr).
    + cbn. by apply wf_set_client_state.
    + cbn. rewrite entries_set_client_state, flip_entry_keys by done. done.
    + split_and!; [done| | | |].
      * rewrite HE. cbn. by rewrite entries_set_client_state.
      * rewrite Hcnt. cbn. lia.
      * by rewrite Htot.
      * by rewrite Hthr.
Qed.

(** The activation loop of [scale_up]: the first
    [min (max_to_add - clients_activated) (len inactive)] pairs are switched on. *)
Lemma activate_clients_spec inactive m a s :
  wf_shared (shared_client_states s) →
  Forall (λ k, k ∈ (entries (shared_client_states s)).*1) inactive →
  let n := (Z.to_nat (m - a) `min` length inactive)%nat in
  let r := activate_clients inactive m a s in
  r.2 = a + Z.of_nat n ∧
  wf_shared (shared_client_states r.1) ∧
  entries (shared_client_states r.1) =
    foldl (λ E k, flip_entry k true E) (entries (shared_client_states s))
          (take n inactive) ∧
  total_active_client_count r.1 = total_active_client_count s + Z.of_nat n ∧
  total_client_count r.1 = total_client_count s ∧
  max_error_threshold r.1 = max_error_threshold s ∧
  cycles_since_probe r.1 = cycles_since_probe s ∧
  max_stable_clients r.1 = max_stable_clients s.
Proof.
  revert a s. induction inactive as [|[w c] rest IH]; intros a s Hwf Hin; cbn zeta.
  - cbn [activate_clients length]. rewrite Nat.min_0_r. cbn.
    split_and!; try done; lia.
  - apply Forall_cons in Hin as [Hk Hin]. cbn [activate_clients].
    destruct (Z.leb_spec m a) as [Hle|Hlt].
    + replace (Z.to_nat (m - a)) with 0%nat by lia. cbn.
      split_and!; try done; lia.
    + set (s1 := with_total_active_client_count _ _).
      destruct (IH (a + 1) s1) as (Ha & Hwf' & HE & Hcnt & Htot & Hthr & Hcyc & Hstab).
      * cbn. by apply wf_set_client_state.
      * cbn. rewrite entries_set_client_state, flip_entry_keys by done. done.
      * replace (Z.to_nat (m - a) `min` length ((w, c) :: rest))%nat
          with (S (Z.to_nat (m - (a + 1)) `min` length rest)) by (cbn [length]; lia).
        cbn [take foldl]. split_and!.
        -- rewrite Ha. lia.
        -- done.
        -- rewrite HE. cbn. by rewrite entries_set_client_state.
        -- rewrite Hcnt. cbn. lia.
        -- by rewrite Htot.
        -- by rewrite Hthr.
        -- by rewrite Hcyc.
        -- by rewrite Hstab.
Qed.

Lemma elem_of_keys_with b E k : k ∈ keys_with b E ↔ (k, b) ∈ E.
Proof.
  unfold keys_with. rewrite list_elem_of_fmap. split.
  - intros ([k' a] & -> & [Ha He]%list_elem_of_filter). cbn in *. by subst.
  - intros He. exists (k, b). split; [done|]. by apply list_elem_of_filter.
Qed.

Lemma keys_with_disjoint E k :
  NoDup E.*1 → k ∈ keys_with true E → k ∈ keys_with false E → False.
Proof.
  rewrite !elem_of_keys_with. intros Hnd Ht Hf.
  apply list_elem_of_lookup in Ht as [i Hi], Hf as [j Hj].
  assert (i = j).
  { eapply (NoDup_lookup _ _ _ k Hnd); rewrite list_lookup_fmap.
    - by rewrite Hi. - by rewrite Hj. }
  subst j. congruence.
Qed.

(** The comprehension of the assigned status gains the assigned pair. *)
Lemma elem_of_keys_with_flip_same b k E x :
  x ∈ keys_with b (flip_entry k b E) ↔ x ∈ keys_with b E ∨ (x = k ∧ k ∈ E.*1).
Proof.
  rewrite !elem_of_keys_with. unfold flip_entry. rewrite list_elem_of_fmap. split.
  - intros (e & Heq & He). case_decide as Hk.
    + injection Heq as ->. right. split; [done|].
      subst k. apply list_elem_of_fmap. by exists e.
    + subst e. by left.
  - intros [He|[-> Hk]].
    + exists (x, b). split; [|done]. cbn. by case_decide; subst.
    + apply list_elem_of_fmap in Hk as (e & -> & He).
      exists e. split; [|done]. by rewrite decide_True.
Qed.

Lemma elem_of_keys_with_foldl_flip b sel E x :
  x ∈ keys_with b (foldl (λ E k, flip_entry k b E) E sel) ↔
  x ∈ keys_with b E ∨ (x ∈ sel ∧ x ∈ E.*1).
Proof.
  revert E. induction sel as [|k sel IH]; intros E; cbn [foldl].
  - split; [by left|]. by intros [?|[?%elem_of_nil _]].
  - rewrite IH, elem_of_keys_with_flip_same, flip_entry_keys, elem_of_cons.
    split; [|intros [?|[[->|?] ?]]]; try tauto.
    intros [[?|[-> ?]]|[? ?]]; tauto.
Qed.

(** Accounting after [sel], distinct pairs of status [negb b], were assigned [b]. *)
Lemma flips_accounting b sel E :
  NoDup E.*1 → NoDup sel → (∀ x, x ∈ sel → x ∈ keys_with (negb b) E) →
  let E' := foldl (λ E k, flip_entry k b E) E sel in
  (length (keys_with (negb b) E') + length sel)%nat = length (keys_with (negb b) E) ∧
  length (keys_with b E') = (length (keys_with b E) + length sel)%nat.
Proof.
  intros HE Hsel Hsub E'.
  assert (length (keys_with (negb b) E') + length sel = length (keys_with (negb b) E))%nat
    as Hneg.
  { unfold E'. rewrite keys_with_foldl_flip.
    apply length_filter_not_elem_of; [by apply keys_with_NoDup|done..]. }
  split; [done|].
  pose proof (keys_with_partition E) as HP.
  pose proof (keys_with_partition E') as HP'.
  unfold E' in HP' at 3. rewrite foldl_flip_length in HP'.
  destruct b; cbn [negb] in *; lia.
Qed.

Lemma accounted_entries_NoDup s :
  accounted s → NoDup (entries (shared_client_states s)).*1.
Proof. intros [Hwf _ _]. by apply entries_keys_NoDup. Qed.

(** Comparing the comprehensions before and after a run of assignments. *)
Lemma changed_between b sel E E' :
  NoDup E.*1 → NoDup sel → (∀ x, x ∈ sel → x ∈ keys_with (negb b) E) →
  E' = foldl (λ E k, flip_entry k b E) E sel →
  filter (λ wc, wc ∈ keys_with b E') (keys_with (negb b) E) ≡ₚ sel ∧
  filter (λ wc, wc ∈ keys_with (negb b) E') (keys_with b E) = [].
Proof.
  intros HE Hsel Hsub ->. split.
  - apply NoDup_Permutation; [by apply NoDup_filter, keys_with_NoDup|done|].
    intros x. rewrite list_elem_of_filter, elem_of_keys_with_foldl_flip. split.
    + intros [[Hb|[? _]] Hn]; [|done].
      destruct b; cbn [negb] in Hn; exfalso; eauto using keys_with_disjoint.
    + intros Hx. split; [right|by apply Hsub].
      split; [done|]. eapply keys_with_subseteq. by apply Hsub.
  - apply elem_of_nil_inv. intros x.
    rewrite list_elem_of_filter, keys_with_foldl_flip, list_elem_of_filter.
    intros [[_ Hn] Hb].
    destruct b; cbn [negb] in Hn; eauto using keys_with_disjoint.
Qed.

(** [scale_down] on an accounted state: it pauses a duplicate-free selection
    [sel] of active pairs, as many as the capped ceiling says. *)
Lemma scale_down_spec rng now s :
  genuine rng → accounted s →
  let k := total_active_client_count s in
  let n := Z.min (Z.max 0 (ceiling_of_percentage s)) k in
  ∃ s' sel,
    scale_down rng now s = Some s' ∧
    Z.of_nat (length sel) = n ∧ NoDup sel ∧
    (∀ x, x ∈ sel → x ∈ all_active_clients (shared_client_states s)) ∧
    wf_shared (shared_client_states s') ∧
    entries (shared_client_states s') =
      foldl (λ E k, flip_entry k false E) (entries (shared_client_states s)) sel ∧
    total_active_client_count s' = k - n ∧
    total_client_count s' = total_client_count s ∧
    max_error_threshold s' = Finite k ∧
    state s' = SLEEP ∧ error_queue s' = [] ∧
    sleep_start_time s' = now ∧ last_scaleup_time s' = now.
Proof.
  intros Hrng [Hwf Hact Htot] k n. unfold scale_down.
  set (s1 := with_max_error_threshold _ s).
  change (ceiling_of_percentage s1) with (ceiling_of_percentage s).
  change (shared_client_states s1) with (shared_client_states s).
  set (c := ceiling_of_percentage s) in *.
  destruct (Z.leb_spec c 0) as [Hc|Hc].
  - exists (scale_down_finally now s1), []. cbn.
    split_and!; try done; try constructor; try lia.
    intros x ?%elem_of_nil. done.
  - set (active := all_active_clients (shared_client_states s)) in *.
    assert (n = Z.min c (Z.of_nat (length active))) as Hn by (unfold n, k; lia).
    rewrite <- Hn.
    destruct (pick_sample active (Z.to_nat n)
                (random_sample rng (length active) (Z.to_nat n)))
      as (sel & Hpick & Hlen & Hsub & Hnd).
    { apply genuine_sample; [done|lia]. }
    rewrite Hpick. cbn [mbind option_bind].
    destruct (foldl_pause_client s1 sel) as (Hwf' & HE & Hcnt & Htot' & Hthr); [done|..].
    { apply Forall_forall. intros x Hx%Hsub. unfold active in Hx.
      rewrite all_active_clients_entries in Hx. by eapply keys_with_subseteq. }
    exists (scale_down_finally now (foldl pause_client s1 sel)), sel.
    split_and!; try done.
    + lia.
    + apply Hnd. unfold active. rewrite all_active_clients_entries.
      by apply keys_with_NoDup, entries_keys_NoDup.
    + cbn. rewrite Hcnt. cbn. fold k. lia.
Qed.

(** The invariant survives a run of assignments that is counted correctly. *)
Lemma accounted_after_flips b sel s s' :
  accounted s →
  NoDup sel →
  (∀ x, x ∈ sel → x ∈ keys_with (negb b) (entries (shared_client_states s))) →
  wf_shared (shared_client_states s') →
  entries (shared_client_states s') =
    foldl (λ E k, flip_entry k b E) (entries (shared_client_states s)) sel →
  total_client_count s' = total_client_count s →
  total_active_client_count s' =
    total_active_client_count s +
    (if b then Z.of_nat (length sel) else - Z.of_nat (length sel)) →
  accounted s'.
Proof.
  intros Hacc Hsel Hsub Hwf' HE Htot Hcnt.
  pose proof (accounted_entries_NoDup _ Hacc) as HndE.
  destruct Hacc as [Hwf Hact Htotal].
  destruct (flips_accounting b sel _ HndE Hsel Hsub) as [Hneg Hpos].
  rewrite <- HE in Hneg, Hpos.
  split; [done| |].
  - rewrite Hcnt, Hact, !all_active_clients_entries.
    destruct b; cbn [negb] in *; lia.
  - by rewrite Htot, Htotal, HE, foldl_flip_length.
Qed.

(** Shuffling the inactive pairs and switching on at most [t] of them. *)
Lemma activate_shuffled rng t s :
  genuine rng → accounted s →
  let inactive := inactive_clients (shared_client_states s) in
  ∃ shuffled sel,
    pick inactive (random_shuffle rng (length inactive)) = Some shuffled ∧
    let r := activate_clients shuffled t 0 s in
    r.2 = Z.of_nat (length sel) ∧
    length sel = (Z.to_nat t `min` length inactive)%nat ∧
    NoDup sel ∧ (∀ x, x ∈ sel → x ∈ inactive) ∧
    wf_shared (shared_client_states r.1) ∧
    entries (shared_client_states r.1) =
      foldl (λ E k, flip_entry k true E) (entries (shared_client_states s)) sel ∧
    total_active_client_count r.1 =
      total_active_client_count s + Z.of_nat (length sel) ∧
    total_client_count r.1 = total_client_count s ∧
    max_error_threshold r.1 = max_error_threshold s ∧
    cycles_since_probe r.1 = cycles_since_probe s ∧
    max_stable_clients r.1 = max_stable_clients s.
Proof.
  intros Hrng Hacc inactive.
  pose proof (accounted_entries_NoDup _ Hacc) as HndE.
  destruct Hacc as [Hwf _ _].
  destruct (pick_shuffle inactive (random_shuffle rng (length inactive)))
    as (shuffled & Hpick & Hperm); [by apply genuine_shuffle|].
  assert (NoDup inactive) as Hnd.
  { unfold inactive. rewrite inactive_clients_entries. by apply keys_with_NoDup. }
  set (n := (Z.to_nat t `min` length inactive)%nat).
  exists shuffled, (take n shuffled). split; [done|].
  destruct (activate_clients_spec shuffled t 0 s Hwf)
    as (Ha & Hwf' & HE & Hcnt & Htot & Hthr & Hcyc & Hstab).
  { apply Forall_forall. intros x Hx. rewrite Hperm in Hx. unfold inactive in Hx.
    rewrite inactive_clients_entries in Hx. by eapply keys_with_subseteq. }
  rewrite Z.sub_0_r, (Permutation_length Hperm) in Ha, HE, Hcnt. fold n in Ha, HE, Hcnt.
  assert (length (take n shuffled) = n) as Hlen.
  { rewrite length_take, (Permutation_length Hperm). unfold n. lia. }
  cbn zeta. rewrite Hlen. split_and!; try done.
  - rewrite <- Hperm in Hnd. rewrite <- (take_drop n shuffled) in Hnd.
    by apply NoDup_app in Hnd as [? _].
  - intros x Hx%subseteq_take. by rewrite <- Hperm.
Qed.

(** The number of clients [scale_up] sets out to activate: the capped gap,
    or one on a probe cycle, or none. *)
Lemma scale_up_spec rng now s :
  genuine rng → accounted s →
  let m := max_clients_to_add s in
  let pd := probe_decision rng s in
  let target := if m <=? 0 then (if pd.1 then 1 else 0) else m in
  ∃ s' sel,
    scale_up rng now s = Some (s', Z.of_nat (length sel)) ∧
    length sel =
      (Z.to_nat target `min` length (inactive_clients (shared_client_states s)))%nat ∧
    NoDup sel ∧
    (∀ x, x ∈ sel → x ∈ inactive_clients (shared_client_states s)) ∧
    wf_shared (shared_client_states s') ∧
    entries (shared_client_states s') =
      foldl (λ E k, flip_entry k true E) (entries (shared_client_states s)) sel ∧
    total_active_client_count s' =
      total_active_client_count s + Z.of_nat (length sel) ∧
    total_client_count s' = total_client_count s ∧
    max_error_threshold s' = max_error_threshold s ∧
    cycles_since_probe s' = (if m <=? 0 then pd.2 else cycles_since_probe s) ∧
    max_stable_clients s' = max_stable_clients s ∧
    state s' = NEUTRAL ∧ last_scaleup_time s' = now.
Proof.
  intros Hrng Hacc m pd target. unfold scale_up. fold m.
  destruct (Z.leb_spec m 0) as [Hm|Hm].
  - fold pd. destruct pd as [probe cycles] eqn:Hpd. cbn [fst snd] in *.
    set (s1 := with_cycles_since_probe cycles s).
    destruct probe.
    + assert (accounted s1) as Hacc1 by (by destruct Hacc).
      destruct (activate_shuffled rng 1 s1 Hrng Hacc1)
        as (shuffled & sel & Hpick & Hr).
      change (shared_client_states s1) with (shared_client_states s) in *.
      rewrite Hpick. cbn [mbind option_bind].
      destruct (activate_clients shuffled 1 0 s1) as [s2 a].
      cbn [fst snd] in Hr.
      destruct Hr as (-> & Hlen & Hnd & Hsub & Hwf' & HE & Hcnt & Htot & Hthr & Hcyc & Hstab).
      exists (scale_up_finally now s2), sel. by split_and!.
    + exists (scale_up_finally now s1), []. cbn.
      destruct Hacc as [Hwf _ _].
      split_and!; try done; try constructor; try lia.
      intros x ?%elem_of_nil. done.
  - destruct (activate_shuffled rng m s Hrng Hacc) as (shuffled & sel & Hpick & Hr).
    rewrite Hpick. cbn [mbind option_bind].
    destruct (activate_clients shuffled m 0 s) as [s2 a].
    cbn [fst snd] in Hr.
    destruct Hr as (-> & Hlen & Hnd & Hsub & Hwf' & HE & Hcnt & Htot & Hthr & Hcyc & Hstab).
    exists (scale_up_finally now s2), sel. by split_and!.
Qed.

Lemma scale_down_accounted rng now s :
  genuine rng → accounted s →
  ∃ s', scale_down rng now s = Some s' ∧ accounted s'.
Proof.
  intros Hrng Hacc.
  destruct (scale_down_spec rng now s Hrng Hacc)
    as (s' & sel & Hrun & Hlen & Hnd & Hsub & Hwf' & HE & Hcnt & Htot & _).
  exists s'. split; [done|].
  apply (accounted_after_flips false sel s); try done.
  - intros x Hx%Hsub. by rewrite all_active_clients_entries in Hx.
  - rewrite Hcnt. lia.
Qed.

Lemma scale_up_accounted rng now s :
  genuine rng → accounted s →
  ∃ s' a, scale_up rng now s = Some (s', a) ∧ accounted s'.
Proof.
  intros Hrng Hacc.
  destruct (scale_up_spec rng now s Hrng Hacc)
    as (s' & sel & Hrun & Hlen & Hnd & Hsub & Hwf' & HE & Hcnt & Htot & _).
  exists s', (Z.of_nat (length sel)). split; [done|].
  apply (accounted_after_flips true sel s); try done.
  intros x Hx%Hsub. by rewrite inactive_clients_entries in Hx.
Qed.

Lemma accounted_bounds s :
  accounted s → 0 ≤ total_active_client_count s ≤ total_client_count s.
Proof.
  intros [Hwf Hact Htot]. rewrite Hact, Htot, all_active_clients_entries.
  pose proof (keys_with_partition (entries (shared_client_states s))). lia.
Qed.

(** *** The map built by the coordinator *)

Lemma pydict_set_Forall {K V} `{EqDecision K} (P : K * V → Prop) k v (d : list (K * V)) :
  P (k, v) → Forall P d → Forall P (PyDict.set k v d).
Proof.
  intros Hkv. induction 1 as [|[k0 v0] d Hx Hd IH]; cbn.
  - by constructor.
  - case_decide; constructor; done.
Qed.

Lemma new_client_dict_fresh clients : fresh_dict (new_client_dict clients).
Proof.
  unfold new_client_dict.
  assert (fresh_dict []) as Hnil by (split; constructor).
  revert Hnil. generalize (@nil (Z * bool)).
  induction clients as [|c clients IH]; intros d Hd; [done|].
  cbn [foldl]. apply IH. destruct Hd as [Hwf Hall]. split.
  - by apply pydict_wf_set.
  - by apply pydict_set_Forall.
Qed.

Lemma build_shared_client_dict_fresh worker_id workers S :
  PyDict.wf S → Forall (λ ws, fresh_dict ws.2) S →
  PyDict.wf (build_shared_client_dict worker_id workers S) ∧
  Forall (λ ws, fresh_dict ws.2) (build_shared_client_dict worker_id workers S).
Proof.
  revert worker_id S.
  induction workers as [|clients rest IH]; intros worker_id S Hwf Hall; [done|].
  cbn [build_shared_client_dict]. destruct (0 <? length clients)%nat.
  - apply IH; [by apply pydict_wf_set|].
    apply pydict_set_Forall; [|done]. apply new_client_dict_fresh.
  - by apply IH.
Qed.

Lemma fresh_no_active S :
  Forall (λ ws, fresh_dict ws.2) S → all_active_clients S = [].
Proof.
  rewrite all_active_clients_entries. unfold keys_with.
  induction 1 as [|[w cs] S [_ Hcs] _ IH]; [done|].
  rewrite entries_cons, filter_app, fmap_app, IH, app_nil_r. cbn in Hcs.
  induction Hcs as [|[c a] cs Ha _ IHcs]; [done|].
  rewrite fmap_cons, filter_cons_False; [done|]. cbn in *. by subst a.
Qed.

Lemma count_clients_entries S : count_clients S = Z.of_nat (length (entries S)).
Proof.
  induction S as [|[w cs] S IH]; [done|].
  rewrite entries_cons, length_app, length_fmap. cbn [count_clients foldr snd].
  fold (count_clients S). lia.
Qed.

Lemma configured_idle s :
  configured s →
  total_active_client_count s = 0.
Proof. induction 1; done. Qed.

Lemma start_accounted workers queue s :
  configured s →
  accounted (receiveMsg_StartFeedbackActor
               (coordinator_shared_client_dict workers) queue s).
Proof.
  intros Hs.
  destruct (build_shared_client_dict_fresh 0 workers []) as [Hwf Hfresh];
    [constructor..|].
  split; cbn.
  - split; [done|]. eapply Forall_impl; [done|]. by intros ? [? _].
  - rewrite fresh_no_active by done. by apply configured_idle.
  - apply count_clients_entries.
Qed.

Lemma reachable_accounted s : reachable s → accounted s.
Proof.
  induction 1 as [workers queue s Hs|rng now s s' Hrng _ IH Hrun
                 |rng now s s' a Hrng _ IH Hrun|s s' _ IH Hsh Htot Hact].
  - by apply start_accounted.
  - destruct (scale_down_accounted rng now s Hrng IH) as (s'' & Hrun' & Hacc).
    congruence.
  - destruct (scale_up_accounted rng now s Hrng IH) as (s'' & a' & Hrun' & Hacc).
    congruence.
  - destruct IH as [Hwf Ha Ht]. split; congruence.
Qed.

Lemma genuine_first_indices r : (0 <= r)%Q → (r < 1)%Q → genuine (first_indices r).
Proof.
  intros H0 H1. split; cbn.
  - intros n k Hk. split_and!.
    + apply length_seq.
    + apply NoDup_seq.
    + apply Forall_forall. intros i Hi%elem_of_seq. lia.
  - done.
  - intros n. by unfold is_shuffle.
Qed.

(** *** Scale-down *)

Lemma paused_between_length b sel s s' :
  accounted s → NoDup sel →
  (∀ x, x ∈ sel → x ∈ keys_with (negb b) (entries (shared_client_states s))) →
  entries (shared_client_states s') =
    foldl (λ E k, flip_entry k b E) (entries (shared_client_states s)) sel →
  (if b then activated_between s s' else paused_between s s') ≡ₚ sel ∧
  (if b then paused_between s s' else activated_between s s') = [].
Proof.
  intros Hacc Hsel Hsub HE.
  pose proof (accounted_entries_NoDup _ Hacc) as HndE.
  destruct (changed_between b sel _ _ HndE Hsel Hsub HE) as [Hperm Hnil].
  unfold activated_between, paused_between.
  rewrite !all_active_clients_entries, !inactive_clients_entries.
  by destruct b.
Qed.

(** C1, as the code has it. A scale-down with [k] active clients and
    percentage [p] switches off exactly [math.ceil(k * p)] active clients,
    the product being the double-precision one, capped at [k] (and none when
    the ceiling is not positive), and switches none on; afterwards the
    counter and the number of active entries are [k] less that number,
    [max_error_threshold] is [k], the active count from before the
    decrement, the state is [SLEEP] and the error queue is empty. *)
Theorem scale_down_pauses_ceiling rng now s :
  genuine rng → accounted s →
  let k := total_active_client_count s in
  let n := Z.min (Z.max 0 (ceiling_of_percentage s)) k in
  ∃ s',
    scale_down rng now s = Some s' ∧
    Z.of_nat (length (paused_between s s')) = n ∧
    activated_between s s' = [] ∧
    total_active_client_count s' = k - n ∧
    Z.of_nat (length (all_active_clients (shared_client_states s'))) = k - n ∧
    max_error_threshold s' = Finite k ∧
    state s' = SLEEP ∧
    error_queue s' = [].
Proof.
  intros Hrng Hacc k n. subst k n.
  destruct (scale_down_spec rng now s Hrng Hacc)
    as (s' & sel & Hrun & Hlen & Hnd & Hsub & Hwf' & HE & Hcnt & Htot & Hthr & Hst & Hq & _).
  assert (∀ x, x ∈ sel → x ∈ keys_with true (entries (shared_client_states s))) as Hsub'.
  { intros x Hx%Hsub. by rewrite all_active_clients_entries in Hx. }
  destruct (paused_between_length false sel s s' Hacc Hnd Hsub' HE) as [Hperm Hnil].
  assert (accounted s') as Hacc'.
  { apply (accounted_after_flips false sel s); try done. rewrite Hcnt. lia. }
  exists s'. split_and!; try done.
  - by rewrite (Permutation_length Hperm).
  - by rewrite <- (accounted_active _ Hacc').
Qed.

Lemma all_active_actor_accounted n t c : accounted (all_active_actor n t c).
Proof.
  assert (∀ m, ((λ c : nat, (Z.of_nat c, true)) <$> seq m n).*1 = Z.of_nat <$> seq m n) as Hkeys.
  { intros m. rewrite <- list_fmap_compose. done. }
  split; cbn.
  - split.
    + unfold PyDict.wf, PyDict.keys. cbn. apply NoDup_singleton.
    + constructor; [|constructor]. cbn. unfold PyDict.wf, PyDict.keys.
      rewrite Hkeys. apply NoDup_fmap_2; [apply _|apply NoDup_seq].
  - f_equal. clear Hkeys. generalize 0%nat.
    induction n as [|n IH]; intros m; [done|].
    specialize (IH (S m)). cbn in *. rewrite bool_decide_eq_true_2 by done. rewrite !length_app in *. cbn in *. lia.
  - by rewrite app_nil_r, !length_fmap, length_seq.
Qed.

(** C1, witness: a hundred active clients, seven percent. The double
    product [100 * 0.07] is [7.000000000000001], so eight clients are
    paused. *)
Lemma scale_down_pauses_ceiling_witness :
  let s := receiveMsg_ConfigureFeedbackScaling 5 (Double.literal (7 # 100)) 30 30 None
             (all_active_actor 100 10000 0) in
  ∃ s',
    scale_down (first_indices (1 # 2)) 0 s = Some s' ∧
    Z.of_nat (length (paused_between s s')) = 8 ∧
    activated_between s s' = [] ∧
    total_active_client_count s' = 92 ∧
    Z.of_nat (length (all_active_clients (shared_client_states s'))) = 92 ∧
    max_error_threshold s' = Finite 100 ∧
    state s' = SLEEP ∧
    error_queue s' = [].
Proof.
  intros s.
  apply (scale_down_pauses_ceiling (first_indices (1 # 2)) 0 s).
  - apply genuine_first_indices; [discriminate|reflexivity].
  - destruct (all_active_actor_accounted 100 10000 0) as [Hwf Hact Htot].
    by split.
Defined.

(** C1, as stated, fails: from 100 active clients at ten percent the count
    drops to 90, but [max_error_threshold] is 100, not the decremented 90. *)
Lemma scale_down_threshold_is_count_before :
  ∃ s',
    scale_down (first_indices (1 # 2)) 0 (all_active_actor 100 10000 0) = Some s' ∧
    total_active_client_count s' = 90 ∧
    state s' = SLEEP ∧
    max_error_threshold s' = Finite 100 ∧
    max_error_threshold s' ≠ Finite (total_active_client_count s').
Proof.
  eexists. split; [vm_compute; reflexivity|].
  cbn. split_and!; try reflexivity. discriminate.
Qed.

(** *** Scale-up *)

Lemma probe_decision_fires rng s : (probe_decision rng s).1 = probe_fires rng s.
Proof.
  unfold probe_decision, probe_fires.
  destruct (probe_interval s <=? cycles_since_probe s + 1); cbn.
  - by rewrite orb_true_r.
  - by rewrite orb_false_r.
Qed.

Lemma probe_decision_cycles rng s :
  (probe_decision rng s).2 =
  if probe_interval s <=? cycles_since_probe s + 1 then 0
  else cycles_since_probe s + 1.
Proof. unfold probe_decision. by destruct (_ <=? _). Qed.

(** C2, as the code has it. [scale_up] switches no client off, and the
    number it switches on is what it returns and adds to the counter. With a
    finite threshold and [gap = max_error_threshold - total_active]: when
    [gap <= 0] and a probe fires, exactly one client is activated if an
    inactive one exists and none otherwise; in every other case at most
    [max(0, gap)] are. With an infinite threshold at most
    [max(0, num_clients_to_scale_up)], or one on a probe. A probe fires when
    the random draw is below [probe_probability] or when
    [_cycles_since_probe], incremented by this call, reaches
    [probe_interval]. The counter is incremented by every call that has
    nothing to add ([min(num_clients_to_scale_up, gap) <= 0]) and goes back
    to 0 only when it reaches [probe_interval]: a probe that the random draw
    causes does not reset it. *)
Theorem scale_up_respects_gap rng now s :
  genuine rng → accounted s →
  ∃ s' activated,
    scale_up rng now s = Some (s', activated) ∧
    activated = Z.of_nat (length (activated_between s s')) ∧
    paused_between s s' = [] ∧
    total_active_client_count s' = total_active_client_count s + activated ∧
    match max_error_threshold s with
    | Finite t =>
        let gap := t - total_active_client_count s in
        if (gap <=? 0) && probe_fires rng s
        then activated =
             (if bool_decide (inactive_clients (shared_client_states s) = [])
              then 0 else 1)
        else activated ≤ Z.max 0 gap
    | Infinite => activated ≤ Z.max 1 (num_clients_to_scale_up s)
    end ∧
    cycles_since_probe s' =
      (if max_clients_to_add s <=? 0
       then if probe_interval s <=? cycles_since_probe s + 1 then 0
            else cycles_since_probe s + 1
       else cycles_since_probe s).
Proof.
  intros Hrng Hacc.
  destruct (scale_up_spec rng now s Hrng Hacc)
    as (s' & sel & Hrun & Hlen & Hnd & Hsub & Hwf' & HE & Hcnt & _ & _ & Hcycles & _).
  rewrite probe_decision_cycles in Hcycles.
  assert (∀ x, x ∈ sel → x ∈ keys_with false (entries (shared_client_states s))) as Hsub'.
  { intros x Hx%Hsub. by rewrite inactive_clients_entries in Hx. }
  destruct (paused_between_length true sel s s' Hacc Hnd Hsub' HE) as [Hperm Hnil].
  exists s', (Z.of_nat (length sel)). split_and!; try done.
  { by rewrite (Permutation_length Hperm). }
  clear Hcycles.
  rewrite probe_decision_fires in Hlen. unfold max_clients_to_add in Hlen.
  set (inactive := inactive_clients (shared_client_states s)) in *.
  assert ((if bool_decide (inactive = []) then 0 else 1) =
          Z.of_nat (1 `min` length inactive)) as Hone.
  { destruct inactive; [done|]. rewrite bool_decide_eq_false_2 by done. cbn. lia. }
  destruct (max_error_threshold s) as [t|].
  - cbn zeta. set (gap := t - total_active_client_count s) in *.
    destruct (Z.leb_spec gap 0) as [Hgap|Hgap]; cbn [andb].
    + rewrite (proj2 (Z.leb_le _ 0)) in Hlen by lia.
      destruct (probe_fires rng s).
      * rewrite Hone, Hlen. done.
      * rewrite Hlen. cbn. lia.
    + destruct (Z.leb_spec (num_clients_to_scale_up s `min` gap) 0);
        [destruct (probe_fires rng s)|]; lia.
  - destruct (Z.leb_spec (num_clients_to_scale_up s) 0);
      [destruct (probe_fires rng s)|]; lia.
Qed.

(** C2, witness: eight of ten clients active under a threshold of ten. *)
Lemma scale_up_respects_gap_witness :
  let s := with_shared_client_states
             [(0, [(0, true); (1, true); (2, false)]); (1, [(3, false)])]
             (with_total_active_client_count 2
                (with_total_client_count 4 (all_active_actor 0 3 0))) in
  ∃ s' activated,
    scale_up (first_indices (1 # 2)) 0 s = Some (s', activated) ∧
    activated = Z.of_nat (length (activated_between s s')) ∧
    paused_between s s' = [] ∧
    total_active_client_count s' = 2 + activated ∧
    activated ≤ 1 ∧
    cycles_since_probe s' = 0.
Proof.
  intros s.
  apply (scale_up_respects_gap (first_indices (1 # 2)) 0 s).
  - apply genuine_first_indices; [discriminate|reflexivity].
  - split; [split| |]; try reflexivity.
    + apply (bool_decide_unpack _). by vm_compute.
    + apply (bool_decide_unpack _). by vm_compute.
Defined.

(** C2, as stated, fails: with every client active, the threshold reached and
    the tenth probe-less cycle due, the probe fires and activates no client. *)
Lemma probe_without_inactive_client :
  let s := all_active_actor 3 3 9 in
  max_error_threshold s = Finite 3 ∧
  total_active_client_count s = 3 ∧
  probe_fires (first_indices (1 # 2)) s = true ∧
  ∃ s', scale_up (first_indices (1 # 2)) 0 s = Some (s', 0) ∧
        total_active_client_count s' = 3 ∧
        activated_between s s' = [].
Proof.
  cbn zeta. split_and!; try reflexivity.
  eexists. split; [vm_compute; reflexivity|]. split; reflexivity.
Qed.

(** A probe that the random draw causes leaves the counter running: at
    the ceiling, with four cycles counted and a draw of 0.01, one client is
    activated and the counter goes to five, so the next interval probe is
    five cycles away. *)
Example random_probe_keeps_counter :
  let s := with_shared_client_states [(0, [(0, true); (1, true); (2, false)])]
             (with_total_active_client_count 2
                (with_total_client_count 3 (all_active_actor 0 2 4))) in
  ∃ s', scale_up (first_indices (1 # 100)) 0 s = Some (s', 1) ∧
        total_active_client_count s' = 3 ∧
        cycles_since_probe s' = 5.
Proof. cbn zeta. eexists. split; [vm_compute; reflexivity|]. by split. Qed.

(** *** The wakeup handler *)

Lemma foldl_pause_client_max_stable s sel :
  max_stable_clients (foldl pause_client s sel) = max_stable_clients s.
Proof.
  revert s. induction sel as [|k sel IH]; intros s; [done|].
  cbn [foldl]. by rewrite IH.
Qed.

Lemma scale_down_max_stable rng now s s' :
  scale_down rng now s = Some s' → max_stable_clients s' = max_stable_clients s.
Proof.
  unfold scale_down. destruct (_ <=? 0); [by intros [= <-]|].
  destruct (pick _ _) as [sel|]; [|done]. cbn. intros [= <-]. cbn.
  by rewrite foldl_pause_client_max_stable.
Qed.

Lemma activate_clients_max_stable inactive m a s :
  max_stable_clients (activate_clients inactive m a s).1 = max_stable_clients s.
Proof.
  revert a s. induction inactive as [|[w c] rest IH]; intros a s; [done|].
  cbn [activate_clients]. destruct (m <=? a); [done|]. by rewrite IH.
Qed.

Lemma scale_up_max_stable rng now s s' a :
  scale_up rng now s = Some (s', a) → max_stable_clients s' = max_stable_clients s.
Proof.
  unfold scale_up.
  assert (∀ t s0, max_stable_clients s0 = max_stable_clients s →
            (shuffled ← pick (inactive_clients (shared_client_states s0))
                           (random_shuffle rng
                              (length (inactive_clients (shared_client_states s0))));
             let '(s1, activated) := activate_clients shuffled t 0 s0 in
             Some (scale_up_finally now s1, activated)) = Some (s', a) →
            max_stable_clients s' = max_stable_clients s) as Hact.
  { intros t s0 Hs0. destruct (pick _ _) as [shuffled|]; [|done]. cbn.
    pose proof (activate_clients_max_stable shuffled t 0 s0) as Hkeep.
    destruct (activate_clients shuffled t 0 s0) as [s1 a1].
    intros [= <- <-]. cbn in *. congruence. }
  destruct (_ <=? 0); [|by apply Hact].
  destruct (probe_decision rng s) as [[|] cycles]; [by apply Hact|].
  by intros [= <- <-].
Qed.

(** [max_stable_clients] changes in the neutral state only, where it becomes
    the larger of itself and the number of active clients. *)
Lemma handle_state_max_stable current_time buckets rng now s s' :
  handle_state current_time buckets rng now s = Some s' →
  max_stable_clients s' = max_stable_clients s ∨
  (state s = NEUTRAL ∧
   max_stable_clients s' = Z.max (max_stable_clients s) (total_active_client_count s)).
Proof.
  unfold handle_state. destruct (cpu_check_due current_time s) as [due|]; [|done].
  cbn [mbind option_bind].
  set (s1 := if due then _ else s).
  assert (state s1 = state s ∧ max_stable_clients s1 = max_stable_clients s ∧
          total_active_client_count s1 = total_active_client_count s)
    as (Hst & Hms & Hac).
  { unfold s1. destruct due; [|done]. unfold check_cpu_usage.
    by destruct buckets as [|[node value] ?]. }
  unfold check_for_errors. cbn [state with_error_queue].
  rewrite Hst. destruct (state s) eqn:Hstate.
  - destruct (error_queue s1) as [|e errors].
    + cbn. case_match; intros [= <-]; right; (split; [done|]); cbn; congruence.
    + destruct (scale_down _ _ _) as [s2|] eqn:Hdown; [|done].
      cbn. intros [= <-]. left. cbn.
      apply scale_down_max_stable in Hdown. by rewrite Hdown.
  - destruct (error_queue s1) as [|e errors]; [intros [= <-]; by left|].
    destruct (scale_down _ _ _) as [s2|] eqn:Hdown; [|done].
    cbn. intros [= <-]. left. cbn.
    apply scale_down_max_stable in Hdown. by rewrite Hdown.
  - case_match; intros [= <-]; by left.
  - destruct (error_queue s1) as [|e errors].
    + destruct (scale_up _ _ _) as [[s2 a]|] eqn:Hup; [|done].
      cbn. intros [= <-]. left. cbn.
      apply scale_up_max_stable in Hup. by rewrite Hup.
    + destruct (scale_down _ _ _) as [s2|] eqn:Hdown; [|done].
      cbn. intros [= <-]. left. cbn.
      apply scale_down_max_stable in Hdown. by rewrite Hdown.
  - intros [= <-]. by left.
Qed.

(** A wakeup leads from a state of the run to a state of the run. *)
Lemma handle_state_reachable current_time buckets rng now s due :
  genuine rng → reachable s → cpu_check_due current_time s = Some due →
  ∃ s', handle_state current_time buckets rng now s = Some s' ∧ reachable s'.
Proof.
  intros Hrng Hs Hdue. unfold handle_state. rewrite Hdue. cbn [mbind option_bind].
  set (s1 := if due then _ else s).
  assert (reachable s1 ∧ state s1 = state s) as [Hs1 Hst].
  { unfold s1. destruct due; [|done]. unfold check_cpu_usage.
    destruct buckets as [|[node value] ?]; (split; [|done]);
      by apply (reach_other s). }
  unfold check_for_errors. cbn [state with_error_queue]. rewrite Hst.
  set (s2 := with_error_queue [] s1).
  assert (reachable s2) as Hs2 by (by apply (reach_other s1)).
  assert (∀ st, ∃ s', (s3 ← scale_down rng now (with_state st s2);
                       Some (with_last_error_time current_time s3)) = Some s' ∧
                      reachable s') as Hdown.
  { intros st.
    assert (reachable (with_state st s2)) as Hs3 by (by apply (reach_other s2)).
    destruct (scale_down_accounted rng now _ Hrng (reachable_accounted _ Hs3))
      as (s4 & Hrun & _).
    rewrite Hrun. eexists. split; [done|].
    apply (reach_other s4); [|done..]. by eapply reach_scale_down. }
  destruct (state s) eqn:Hstate.
  - destruct (error_queue s1) as [|e errors]; [|apply Hdown].
    case_match; eexists; (split; [done|]); by apply (reach_other s2).
  - destruct (error_queue s1) as [|e errors]; [|apply Hdown]. by exists s2.
  - case_match; eexists; (split; [done|]); [by apply (reach_other s2)|done].
  - destruct (error_queue s1) as [|e errors]; [|apply Hdown].
    destruct (scale_up_accounted rng now _ Hrng (reachable_accounted _ Hs2))
      as (s4 & a & Hrun & _).
    rewrite Hrun. eexists. split; [done|].
    apply (reach_other s4); [|done..]. by eapply reach_scale_up.
  - by exists s2.
Qed.

(** *** Shutdown *)

(** C3 fails on the code: on [ActorExitRequest] the actor prints
    [total_active_client_count] as the "maximum stable client number", not
    [max_stable_clients]. In the sample run ten clients were seen active in
    the neutral state, a scale-down left nine, and nine is reported. *)
Theorem exit_reports_active_count :
  (∀ s, (receiveMsg_ActorExitRequest s).1 = total_active_client_count s) ∧
  ∃ s, redline_run = Some s ∧
       max_stable_clients s = 10 ∧
       total_active_client_count s = 9 ∧
       (receiveMsg_ActorExitRequest s).1 = 9.
Proof.
  split; [done|].
  eexists. split; [vm_compute; reflexivity|]. by split_and!.
Qed.

(** *** The accounting invariant *)

(** C10. In every state of a redline run, from the [StartFeedbackActor] that
    hands over the coordinator's all-paused map onwards and through every
    [scale_down] and [scale_up], [total_active_client_count] is the number of
    [True] entries of the pause map; it is never negative and never exceeds
    [total_client_count]; and both scaling operations return, in a state of
    the run again. *)
Theorem active_count_accounted s :
  reachable s →
  total_active_client_count s =
    Z.of_nat (length (all_active_clients (shared_client_states s))) ∧
  0 ≤ total_active_client_count s ≤ total_client_count s ∧
  (∀ rng now, genuine rng →
     ∃ s', scale_down rng now s = Some s' ∧ reachable s') ∧
  (∀ rng now, genuine rng →
     ∃ s' activated, scale_up rng now s = Some (s', activated) ∧ reachable s').
Proof.
  intros Hs. pose proof (reachable_accounted s Hs) as Hacc.
  split_and!.
  - by destruct Hacc.
  - by apply accounted_bounds.
  - by apply accounted_bounds.
  - intros rng now Hrng.
    destruct (scale_down_accounted rng now s Hrng Hacc) as (s' & Hrun & _).
    exists s'. split; [done|]. by eapply reach_scale_down.
  - intros rng now Hrng.
    destruct (scale_up_accounted rng now s Hrng Hacc) as (s' & a & Hrun & _).
    exists s', a. split; [done|]. by eapply reach_scale_up.
Qed.

(** C10, witness: three clients on two workers, right after the start. *)
Lemma active_count_accounted_witness :
  let s := receiveMsg_StartFeedbackActor
             (coordinator_shared_client_dict [[0; 1]; []; [2]]) []
             (init 0 0 0 0) in
  shared_client_states s = [(0, [(0, false); (1, false)]); (1, [(2, false)])] ∧
  total_active_client_count s = 0 ∧
  0 ≤ 0 ≤ total_client_count s.
Proof.
  intros s.
  pose proof (active_count_accounted s
                (reach_start [[0; 1]; []; [2]] [] _ (configured_init 0 0 0 0)))
    as (Hcount & Hbounds & _).
  split; [reflexivity|]. split; [exact Hcount|exact Hbounds].
Defined.
End FeedbackFacts.


(** ** Progress control and the schedule factory *)

Module SchedulingFacts.
Import Workload Allocator Scheduling.

(** C9, as the code has it. [IterationBased(warmup_iterations,
    iterations)] raises the configuration error exactly when both arguments
    are given and add up to zero; for every other combination the
    constructor returns the controller, its counter not yet started. The
    error does not reject a task that is configured with no iterations:
    [schedule_for], which calls the constructor, passes 0 for a warm-up
    that is missing or zero and replaces an iteration count that is missing
    or zero by 1 or by none, so for a task whose iteration counts are not
    negative it returns a schedule handle and raises nothing. *)
Theorem iteration_based_rejects_zero :
  (∀ warmup_iterations iterations : option Z,
     (IterationBased_init warmup_iterations iterations =
        Raise (BenchmarkAssertionError "Operation must run at least for one iteration.")
      ↔ ∃ w i, warmup_iterations = Some w ∧ iterations = Some i ∧ w + i = 0) ∧
     ((¬ ∃ w i, warmup_iterations = Some w ∧ iterations = Some i ∧ w + i = 0) →
      ∃ c, IterationBased_init warmup_iterations iterations = Ok c ∧
           ib_warmup_iterations c = warmup_iterations ∧
           ib_iterations c = iterations ∧
           ib_it c = None)) ∧
  (∀ ta runner_for_op partition,
     (∀ w, Workload.warmup_iterations (Allocator.task ta) = Some w → 0 ≤ w) →
     (∀ i, Workload.iterations (Allocator.task ta) = Some i → 0 ≤ i) →
     ∃ handle, schedule_for ta runner_for_op partition = Ok handle).
Proof.
  split.
  - intros warmup_iterations iterations. unfold IterationBased_init.
    destruct warmup_iterations as [w|], iterations as [i|];
      try (split; [split; [done|by intros (? & ? & ? & ? & ?)]|by eauto]).
    destruct (Z.eqb_spec (w + i) 0) as [Hz|Hz].
    + split; [split; [by eauto|done]|]. intros []. eauto.
    + split; [split; [done|]|by eauto].
      intros (? & ? & [= <-] & [= <-] & ?). done.
  - intros ta runner_for_op partition Hwarmup Hiterations. unfold schedule_for.
    destruct (requires_time_period_schedule _ _ _); [by eexists|].
    assert (0 ≤ or_zero_Z (Workload.warmup_iterations (Allocator.task ta))) as Hw.
    { unfold or_zero_Z. destruct (Workload.warmup_iterations _) as [w|]; [|done].
      specialize (Hwarmup w eq_refl). destruct (w =? 0); lia. }
    unfold IterationBased_init, truthy_Z.
    destruct (Workload.iterations (Allocator.task ta)) as [i|] eqn:Hi.
    + specialize (Hiterations i eq_refl).
      destruct (Z.eqb_spec i 0) as [Hz|Hz]; cbn [negb].
      * destruct (infinite _); [|by eexists].
        rewrite (proj2 (Z.eqb_neq _ 0)) by lia. by eexists.
      * rewrite (proj2 (Z.eqb_neq _ 0)) by lia. by eexists.
    + destruct (infinite _); [|by eexists].
      rewrite (proj2 (Z.eqb_neq _ 0)) by lia. by eexists.
Qed.

(** C9, witness: the constructor rejects no warm-up with no iterations and
    accepts ten and a hundred; the task configured with no warm-up and no
    iterations gets its schedule. *)
Lemma iteration_based_rejects_zero_witness :
  IterationBased_init (Some 0) (Some 0) =
    Raise (BenchmarkAssertionError "Operation must run at least for one iteration.") ∧
  (∃ c, IterationBased_init (Some 10) (Some 100) = Ok c ∧
        ib_warmup_iterations c = Some 10 ∧ ib_iterations c = Some 100 ∧ ib_it c = None) ∧
  ∃ handle,
    schedule_for zero_iterations_allocation plain_runner (constant_source true) =
      Ok handle.
Proof.
  split; [|split].
  - apply (proj1 iteration_based_rejects_zero (Some 0) (Some 0)). by exists 0, 0.
  - apply (proj1 iteration_based_rejects_zero (Some 10) (Some 100)).
    intros (w & i & [= <-] & [= <-] & H). discriminate H.
  - apply (proj2 iteration_based_rejects_zero zero_iterations_allocation plain_runner
             (constant_source true)).
    + intros w [= <-]. lia.
    + intros i [= <-]. lia.
Defined.

(** C9, as stated, fails: a task configured with [warmup_iterations = 0]
    and [iterations = 0] is not rejected. The constructor would raise for
    [(0, 0)], but [schedule_for] calls it with one iteration when the
    parameter source is infinite and with no iteration count otherwise, and
    returns the handle. *)
Lemma zero_iterations_task_is_scheduled :
  Workload.warmup_iterations zero_iterations_task = Some 0 ∧
  Workload.iterations zero_iterations_task = Some 0 ∧
  IterationBased_init (Some 0) (Some 0) =
    Raise (BenchmarkAssertionError "Operation must run at least for one iteration.") ∧
  (∃ handle c,
     schedule_for zero_iterations_allocation plain_runner (constant_source true) =
       Ok handle ∧
     task_progress_control handle = IterationControl c ∧
     ib_warmup_iterations c = Some 0 ∧ ib_iterations c = Some 1) ∧
  (∃ handle c,
     schedule_for zero_iterations_allocation plain_runner (constant_source false) =
       Ok handle ∧
     task_progress_control handle = IterationControl c ∧
     ib_warmup_iterations c = Some 0 ∧ ib_iterations c = None).
Proof. split_and!; try reflexivity; do 2 eexists; by split_and!. Qed.

(** C4, as the code has it. For a task with no time period and no
    iterations (warm-up included) whose runner has no [completed] signal,
    the factory returns: for an infinite parameter source an iteration-based
    controller with no warm-up and exactly one iteration; for a finite one a
    time-period-based controller with no warm-up and no time period, which
    is unbounded. *)
Theorem schedule_for_default_control ta runner_for_op partition :
  let task := Allocator.task ta in
  let params_for_op := partition (client_index_in_task ta) (clients task) in
  warmup_time_period task = None → time_period task = None →
  warmup_iterations task = None → iterations task = None →
  completed runner_for_op = None →
  ∃ handle,
    schedule_for ta runner_for_op partition = Ok handle ∧
    task_progress_control handle =
      (if infinite params_for_op
       then IterationControl {| ib_warmup_iterations := Some 0;
                                ib_iterations := Some 1;
                                ib_total_iterations := Some 1;
                                ib_it := None |}
       else TimeControl (TimePeriodBased_init (Some 0%Q) None)) ∧
    match task_progress_control handle with
    | IterationControl c => IterationBased_infinite c = false
    | TimeControl c => TimePeriodBased_infinite c = true
    end.
Proof.
  intros task params_for_op Hwt Ht Hwi Hi Hc.
  unfold schedule_for, requires_time_period_schedule.
  fold task. fold params_for_op. rewrite Hwt, Ht, Hwi, Hi, Hc.
  rewrite !bool_decide_eq_false_2 by (by intros [|]).
  destruct (infinite params_for_op); eexists; (split; [reflexivity|by split]).
Qed.

(** C4, witness: the plain task over an infinite source. *)
Lemma schedule_for_default_control_witness :
  ∃ handle,
    schedule_for plain_allocation plain_runner (constant_source true) = Ok handle ∧
    task_progress_control handle =
      IterationControl {| ib_warmup_iterations := Some 0;
                          ib_iterations := Some 1;
                          ib_total_iterations := Some 1;
                          ib_it := None |} ∧
    match task_progress_control handle with
    | IterationControl c => IterationBased_infinite c = false
    | TimeControl c => TimePeriodBased_infinite c = true
    end.
Proof.
  apply (schedule_for_default_control plain_allocation plain_runner (constant_source true));
    reflexivity.
Defined.

(** C4, as stated, fails both ways: over an infinite source the controller
    is bounded to one iteration, and over a finite source it is not
    iteration-based at all but time-based and unbounded. *)
Lemma schedule_for_default_control_swapped :
  (∃ handle c,
     schedule_for plain_allocation plain_runner (constant_source true) = Ok handle ∧
     task_progress_control handle = IterationControl c ∧
     ib_iterations c = Some 1 ∧ IterationBased_infinite c = false) ∧
  (∃ handle c,
     schedule_for plain_allocation plain_runner (constant_source false) = Ok handle ∧
     task_progress_control handle = TimeControl c ∧
     tp_time_period c = None ∧ TimePeriodBased_infinite c = true).
Proof. split; do 2 eexists; by split_and!. Qed.
End SchedulingFacts.

(** ** The allocator *)

Module AllocatorFacts.
Import Workload Allocator.

Implicit Types (rows : list (list cell)) (F G : nat → list (option nat)).

Lemma join_point_ids_snoc row x :
  join_point_ids (row ++ [x]) = join_point_ids row ++ [shown x].
Proof. unfold join_point_ids. by rewrite fmap_app. Qed.

Lemma shaped_ext n F G rows :
  shaped n F rows → (∀ r, (r < n)%nat → F r = G r) → shaped n G rows.
Proof.
  intros [Hlen HF] HFG. split; [done|]. intros r row Hr.
  rewrite <- HFG; [by apply HF|]. rewrite <- Hlen. by eapply lookup_lt_Some.
Qed.

Lemma shaped_append_at n F rows i x :
  shaped n F rows →
  shaped n (λ r, if decide (r = i) then F r ++ [shown x] else F r) (append_at i x rows).
Proof.
  intros [Hlen HF]. unfold append_at. split; [by rewrite length_alter|].
  intros r row. case_decide as Hri.
  - subst r. rewrite list_lookup_alter_eq.
    destruct (rows !! i) as [row0|] eqn:Hrow; [|done].
    intros [= <-]. rewrite join_point_ids_snoc. f_equal. by apply HF.
  - rewrite list_lookup_alter_ne by done. apply HF.
Qed.

Lemma shaped_append_all n F rows a len x :
  shaped n F rows →
  shaped n (λ r, if decide (a ≤ r < a + len)%nat then F r ++ [shown x] else F r)
         (append_all (seq a len) x rows).
Proof.
  unfold append_all. revert a F rows.
  induction len as [|len IH]; intros a F rows Hs; cbn [seq foldl].
  - eapply shaped_ext; [done|]. intros r _. case_decide; [lia|done].
  - eapply shaped_ext; [apply IH, shaped_append_at, Hs|].
    intros r _. cbn beta. repeat case_decide; try done; lia.
Qed.

Lemma dealt_to_succ n k r :
  (0 < n)%nat → (r < n)%nat →
  dealt_to n (S k) r = (dealt_to n k r + (if decide (r = k mod n) then 1 else 0))%nat.
Proof.
  intros Hn Hr. unfold dealt_to.
  pose proof (Nat.div_mod_eq k n) as Hk.
  pose proof (Nat.mod_upper_bound k n ltac:(lia)) as Hm.
  destruct (decide (S (k mod n) = n)) as [Hwrap|Hwrap].
  - assert (S k = S (k / n) * n + 0)%nat as HSk by lia.
    assert (S k / n = S (k / n))%nat as ->.
    { symmetry. apply (Nat.div_unique _ _ _ 0%nat); lia. }
    assert (S k mod n = 0)%nat as ->.
    { symmetry. apply (Nat.mod_unique _ _ (S (k / n))); lia. }
    repeat case_decide; lia.
  - assert (S k / n = k / n)%nat as ->.
    { symmetry. apply (Nat.div_unique _ _ _ (S (k mod n))); lia. }
    assert (S k mod n = S (k mod n))%nat as ->.
    { symmetry. apply (Nat.mod_unique _ _ (k / n)); lia. }
    repeat case_decide; lia.
Qed.

Lemma allocate_client_shaped n F task sub_task start rows completing k :
  (0 < n)%nat →
  shaped n (dealt n F k) rows →
  shaped n (dealt n F (S k))
         (allocate_client n task sub_task start (rows, completing) k).1.
Proof.
  intros Hn Hs. cbn [allocate_client fst].
  eapply shaped_ext; [by apply shaped_append_at|].
  intros r Hr. cbn beta. unfold dealt. rewrite dealt_to_succ by done.
  case_decide.
  - rewrite Nat.add_1_r, replicate_S_end. by rewrite app_assoc.
  - by rewrite Nat.add_0_r.
Qed.

Lemma allocate_clients_shaped n F task sub_task start rows completing k m :
  (0 < n)%nat →
  shaped n (dealt n F k) rows →
  shaped n (dealt n F (k + m))
         (foldl (allocate_client n task sub_task start) (rows, completing) (seq k m)).1.
Proof.
  intros Hn. revert k rows completing.
  induction m as [|m IH]; intros k rows completing Hs; cbn [seq foldl].
  - by rewrite Nat.add_0_r.
  - replace (k + S m)%nat with (S k + m)%nat by lia.
    destruct (allocate_client n task sub_task start (rows, completing) k)
      as [rows' completing'] eqn:Hstep.
    apply IH. change rows' with (rows', completing').1. rewrite <- Hstep.
    by apply allocate_client_shaped.
Qed.

Lemma allocate_sub_tasks_shaped n F task subs rows completing k :
  (0 < n)%nat →
  shaped n (dealt n F k) rows →
  let r := foldl (allocate_sub_task n task) (rows, completing, k) subs in
  r.2 = (k + foldr (λ sub_task acc, clients sub_task + acc) 0 subs)%nat ∧
  shaped n (dealt n F r.2) r.1.1.
Proof.
  intros Hn. revert k rows completing.
  induction subs as [|sub subs IH]; intros k rows completing Hs; cbn [foldl foldr].
  - cbn. by rewrite Nat.add_0_r.
  - cbn [allocate_sub_task].
    destruct (foldl (allocate_client n task sub k) (rows, completing) (seq k (clients sub)))
      as [rows' completing'] eqn:Hdeal.
    destruct (IH (k + clients sub)%nat rows' completing') as [Hk Hs'].
    + change rows' with (rows', completing').1. rewrite <- Hdeal.
      by apply allocate_clients_shaped.
    + cbn zeta. split; [|done]. rewrite Hk. lia.
Qed.

Lemma group_width_dealt n task r :
  (0 < n)%nat → (r < n)%nat →
  let k := group_clients task in
  (if (0 <? k mod n)%nat
   then dealt_to n k r + (if decide (k mod n ≤ r < k mod n + (n - k mod n))%nat then 1 else 0)
   else dealt_to n k r)%nat
  = group_width n task.
Proof.
  intros Hn Hr k. unfold group_width, dealt_to. fold k.
  pose proof (Nat.mod_upper_bound k n ltac:(lia)) as Hm.
  destruct (Nat.ltb_spec 0 (k mod n)); repeat case_decide; lia.
Qed.

(** One group: its columns, padded to the same width in every row, and the
    next join point. *)
Lemma allocate_task_shaped n P rows j task :
  (0 < n)%nat →
  shaped n (λ _, P) rows →
  let r := allocate_task n (rows, j) task in
  r.2 = S j ∧
  shaped n (λ _, P ++ replicate (group_width n task) None ++ [Some j]) r.1.
Proof.
  intros Hn Hs. cbn [allocate_task].
  destruct (allocate_sub_tasks_shaped n (λ _, P) task (sub_tasks task) rows [] 0 Hn)
    as [Hk Hdealt].
  { eapply shaped_ext; [done|]. intros r Hr. unfold dealt, dealt_to.
    rewrite Nat.Div0.div_0_l, Nat.Div0.mod_0_l. cbn. by rewrite app_nil_r. }
  destruct (foldl (allocate_sub_task n task) (rows, [], 0%nat) (sub_tasks task))
    as [[rows' completing] k].
  cbn [fst snd] in Hk, Hdealt. rewrite Nat.add_0_l in Hk.
  fold (group_clients task) in Hk. subst k.
  cbn zeta. split; [done|]. cbn [fst].
  eapply shaped_ext.
  - apply shaped_append_all.
    instantiate (1 := λ r, P ++ replicate (group_width n task) None).
    destruct (Nat.ltb_spec 0 (group_clients task mod n)) as [Hpad|Hpad].
    + eapply shaped_ext; [by apply shaped_append_all|].
      intros r Hr. cbn beta. unfold dealt.
      rewrite <- (group_width_dealt n task r Hn Hr). cbn zeta.
      rewrite (proj2 (Nat.ltb_lt _ _) Hpad).
      case_decide.
      * by rewrite Nat.add_1_r, replicate_S_end, app_assoc.
      * by rewrite Nat.add_0_r.
    + eapply shaped_ext; [done|].
      intros r Hr. cbn beta. unfold dealt.
      rewrite <- (group_width_dealt n task r Hn Hr). cbn zeta.
      by rewrite (proj2 (Nat.ltb_ge _ _) Hpad).
  - intros r Hr. cbn beta. rewrite decide_True by lia.
    by rewrite <- app_assoc.
Qed.

Lemma allocate_tasks_shaped n P rows j schedule :
  (0 < n)%nat →
  shaped n (λ _, P) rows →
  shaped n (λ _, P ++ skeleton_from n j schedule)
         (foldl (allocate_task n) (rows, j) schedule).1.
Proof.
  intros Hn. revert P rows j.
  induction schedule as [|task rest IH]; intros P rows j Hs; cbn [foldl skeleton_from].
  - by rewrite app_nil_r.
  - destruct (allocate_task_shaped n P rows j task Hn Hs) as [Hj Hs'].
    destruct (allocate_task n (rows, j) task) as [rows' j'].
    cbn [fst snd] in Hj, Hs'. subst j'.
    eapply shaped_ext; [by apply IH|].
    intros r _. cbn beta. by rewrite <- !app_assoc.
Qed.

Lemma max_clients_positive schedule : (0 < max_clients schedule)%nat.
Proof.
  unfold max_clients.
  assert (∀ m, (0 < m)%nat →
            (0 < foldl (λ m task, m `max` element_clients task) m schedule)%nat) as H.
  { induction schedule as [|task rest IH]; intros m Hm; [done|].
    cbn [foldl]. apply IH. lia. }
  apply H. lia.
Qed.

Lemma allocations_shaped schedule :
  shaped (max_clients schedule) (λ _, skeleton schedule) (allocations schedule).
Proof.
  unfold allocations, skeleton. cbn zeta.
  pose proof (max_clients_positive schedule) as Hn.
  set (n := max_clients schedule) in *.
  apply (allocate_tasks_shaped n [Some 0%nat]); [done|].
  eapply shaped_ext.
  - apply shaped_append_all. instantiate (1 := λ _, []).
    split; [by rewrite length_replicate|].
    intros r row [-> _]%lookup_replicate. done.
  - intros r Hr. cbn beta. by rewrite decide_True by lia.
Qed.

Lemma skeleton_from_last n schedule j P :
  last (P ++ [Some j] ++ skeleton_from n (S j) schedule)
  = Some (Some (j + length schedule)%nat).
Proof.
  revert j P. induction schedule as [|task rest IH]; intros j P;
    cbn [skeleton_from length].
  - rewrite app_nil_r, last_snoc. do 2 f_equal. lia.
  - rewrite !app_assoc, <- (app_assoc _ _ (skeleton_from _ _ _)).
    rewrite IH. do 2 f_equal. lia.
Qed.

(** C5. The allocation matrix has one row per client; every row shows the
    same join-point ids at the same columns, namely the skeleton of the
    schedule: [JoinPoint(0)] first, and after the columns of each group the
    next join point. So the matrix is rectangular, every row begins with
    [JoinPoint(0)] and ends with the join point of the last group. *)
Theorem allocations_rectangular (schedule : list Workload.ScheduleElement) :
  let A := allocations schedule in
  length A = max_clients schedule ∧
  (∀ row, row ∈ A → join_point_ids row = skeleton schedule) ∧
  (∀ row1 row2, row1 ∈ A → row2 ∈ A →
     length row1 = length row2 ∧ join_point_ids row1 = join_point_ids row2) ∧
  (∀ row, row ∈ A →
     head (join_point_ids row) = Some (Some 0%nat) ∧
     last (join_point_ids row) = Some (Some (length schedule))).
Proof.
  destruct (allocations_shaped schedule) as [Hlen Hrows]. cbn zeta.
  assert (∀ row, row ∈ allocations schedule → join_point_ids row = skeleton schedule)
    as Hall.
  { intros row [r Hr]%list_elem_of_lookup. by eapply Hrows. }
  split_and!; [done|done| |].
  - intros row1 row2 H1%Hall H2%Hall. split; [|congruence].
    rewrite <- (length_fmap shown row1), <- (length_fmap shown row2).
    unfold join_point_ids in *. congruence.
  - intros row ->%Hall. split; [done|].
    apply (skeleton_from_last _ schedule 0%nat []).
Qed.

(** The matrix of the two parallel tasks: three rows of three columns. *)
Example allocations_two_parallel_tasks :
  join_point_ids <$> allocations two_parallel_tasks =
    [[Some 0; None; Some 1]; [Some 0; None; Some 1]; [Some 0; None; Some 1]]%nat ∧
  (λ row : list cell,
     (λ x, match x with
           | Allocation ta => Some (name (task ta), global_client_index ta)
           | _ => None
           end) <$> row) <$> allocations two_parallel_tasks =
    [[None; Some ("T1", 0%nat); None];
     [None; Some ("T1", 1%nat); None];
     [None; Some ("T2", 2%nat); None]].
Proof. by vm_compute. Qed.

(** C5, witness: the two parallel tasks. *)
Lemma allocations_rectangular_witness :
  length (allocations two_parallel_tasks) = 3%nat ∧
  ∀ row, row ∈ allocations two_parallel_tasks →
         join_point_ids row = [Some 0; None; Some 1]%nat.
Proof.
  pose proof (allocations_rectangular two_parallel_tasks) as (Hlen & Hrows & _).
  split; [exact Hlen|exact Hrows].
Defined.
End AllocatorFacts.

(** ** The request executor *)

Module ExecutorFacts.
Import Samples Executor.

Section facts.
Context `{RequestContextHolder}.

Implicit Types (w : World).

Lemma bind_returned {A B} (m : M A) (k : A → M B) w b w' :
  (m ≫= k) w = (Returned b, w') →
  ∃ a w1, m w = (Returned a, w1) ∧ k a w1 = (Returned b, w').
Proof.
  unfold mbind, M_bind, bind.
  destruct (m w) as [[a|f] w1]; [eauto|done].
Qed.

Lemma bind_run {A B} (m : M A) (k : A → M B) w a w1 :
  m w = (Returned a, w1) → (m ≫= k) w = k a w1.
Proof. unfold mbind, M_bind, bind. by intros ->. Qed.

Lemma skipped_meta_data_flags :
  get_truthy "skipped_request" skipped_meta_data = true ∧
  get_truthy "success" skipped_meta_data = true ∧
  get_truthy "skipped" skipped_meta_data = false.
Proof. by vm_compute. Qed.

(** A paused client: the runner is not called, the four callbacks fire. *)
Lemma execute_single_paused runner params on_error redline_enabled w :
  execute_single runner params on_error redline_enabled false w =
  (Returned (0%Q, "ops"%string, skipped_meta_data),
   with_context
     (on_client_request_end
        (on_request_end (on_request_start (on_client_request_start (context w))))) w).
Proof. by destruct w. Qed.

Lemma report_error_frame e w :
  ∃ w', report_error e w = (Returned (), w') ∧ same_but_errors w w'.
Proof.
  unfold report_error, modify. eexists. split; [reflexivity|].
  destruct (error_queue w) as [q|]; [destruct (length q <? _)%nat|]; by split.
Qed.

Lemma settle_timings_spec self t meta w :
  ∃ w', settle_timings self t meta w = (Returned (timings_of t (context w)), w') ∧
        same_but_errors w w'.
Proof.
  unfold settle_timings.
  do 4 (erewrite bind_run by reflexivity).
  destruct (negb (get_truthy "success" meta) || existsb _ _).
  - destruct (negb (get_truthy "skipped" meta)).
    + destruct (report_error_frame
                  {| err_client_id := client_id self; err_task := task self;
                     err_details := meta |} w) as (w' & Hrun & Hframe).
      exists w'. split; [|done]. by erewrite bind_run by exact Hrun.
    + exists w. split; [|by split]. by erewrite bind_run by reflexivity.
  - exists w. split; [done|by split].
Qed.

(** *** What a request leaves alone *)

Lemma keeps_ret {X A} (π : World → X) (a : A) : keeps π (ret a).
Proof. by intros w. Qed.

Lemma keeps_raise {X A} (π : World → X) e : keeps π (raise (A:=A) e).
Proof. by intros w. Qed.

Lemma keeps_time_out {X A} (π : World → X) : keeps π (time_out (A:=A)).
Proof. by intros w. Qed.

Lemma keeps_gets {X A} (π : World → X) (f : World → A) : keeps π (gets f).
Proof. by intros w. Qed.

Lemma keeps_modify {X} (π : World → X) f :
  (∀ w, π (f w) = π w) → keeps π (modify f).
Proof. intros Hf w. apply Hf. Qed.

Lemma keeps_bind {X A B} (π : World → X) (m : M A) (k : A → M B) :
  keeps π m → (∀ a, keeps π (k a)) → keeps π (m ≫= k).
Proof.
  intros Hm Hk w. unfold mbind, M_bind, bind. specialize (Hm w).
  destruct (m w) as [[a|f] w1]; cbn in *; [|done]. by rewrite Hk.
Qed.

Lemma keeps_catch_timeout {X A} (π : World → X) (m handler : M A) :
  keeps π m → keeps π handler → keeps π (catch_timeout m handler).
Proof.
  intros Hm Hh w. unfold catch_timeout. specialize (Hm w).
  destruct (m w) as [[a|[e|]] w1]; cbn in *; [done..|]. by rewrite Hh.
Qed.

Lemma keeps_report_error e : keeps sampler (report_error e).
Proof.
  apply keeps_modify. intros w.
  destruct (error_queue w) as [q|]; [destruct (length q <? _)%nat|]; done.
Qed.

(** One step of a frame proof for the sampler. *)
Ltac keeps_sampler_step :=
  lazymatch goal with
  | |- keeps _ (_ ≫= _) => apply keeps_bind; [|intros]
  | |- keeps _ (ret _) => apply keeps_ret
  | |- keeps _ (raise _) => apply keeps_raise
  | |- keeps _ time_out => apply keeps_time_out
  | |- keeps _ (gets _) => apply keeps_gets
  | |- keeps _ (report_error _) => apply keeps_report_error
  | |- keeps _ (fire _) => by apply keeps_modify
  | |- keeps _ (pacer _) => by apply keeps_modify
  | |- keeps _ (modify _) => by apply keeps_modify
  | |- keeps _ (catch_timeout _ _) => apply keeps_catch_timeout
  | |- keeps _ (if ?b then _ else _) => destruct b
  | |- keeps _ (match ?x with _ => _ end) => destruct x
  end.

Lemma execute_single_keeps_sampler runner params on_error redline_enabled enabled :
  keeps sampler (execute_single runner params on_error redline_enabled enabled).
Proof.
  unfold execute_single. destruct enabled; [|repeat keeps_sampler_step].
  apply keeps_bind.
  { intros w. by destruct (run runner params (context w)). }
  intros r. apply keeps_bind; [destruct r; repeat keeps_sampler_step|].
  intros [[[fatal_error total_ops] total_ops_unit] meta].
  repeat keeps_sampler_step.
Qed.

Lemma settle_timings_keeps_sampler self t meta :
  keeps sampler (settle_timings self t meta).
Proof. unfold settle_timings. repeat keeps_sampler_step. Qed.

(** [_execute_request] adds no sample: samples are added by
    [_process_results] alone. *)
Lemma execute_request_keeps_sampler self runner t params expected total_start
    client_state :
  keeps sampler
    (_execute_request self runner t params expected total_start client_state).
Proof.
  unfold _execute_request.
  do 2 (apply keeps_bind; [by apply keeps_modify|intros _]).
  apply keeps_bind.
  { apply keeps_catch_timeout; [apply execute_single_keeps_sampler|].
    repeat keeps_sampler_step. }
  intros [[total_ops total_ops_unit] meta].
  apply keeps_bind; [apply settle_timings_keeps_sampler|].
  intros [[[rs re] crs] cre]. apply keeps_ret.
Qed.

(** What [_execute_request] hands on, whatever the runner did. *)
Lemma execute_request_result self runner t params expected total_start client_state
    w rd w' :
  _execute_request self runner t params expected total_start client_state w
    = (Returned rd, w') →
  rd_throughput_throttled rd = Qlt_bool 0 expected ∧
  rd_absolute_processing_start rd = absolute_processing_start t ∧
  rd_processing_start rd = processing_start t ∧
  rd_processing_end rd = processing_end t ∧
  (rd_request_start rd, rd_request_end rd,
   rd_client_request_start rd, rd_client_request_end rd) = timings_of t (context w').
Proof.
  unfold _execute_request. intros Hrun.
  apply bind_returned in Hrun as ([] & w1 & _ & Hrun).
  apply bind_returned in Hrun as ([] & w2 & _ & Hrun).
  apply bind_returned in Hrun as ([[total_ops unit] meta] & w3 & _ & Hrun).
  apply bind_returned in Hrun as ([[[rs re] crs] cre] & w4 & Hsettle & Hrun).
  destruct (settle_timings_spec self t meta w3) as (w4' & Hsettle' & Hframe).
  pose proof (eq_trans (eq_sym Hsettle) Hsettle') as Heq.
  unfold timings_of in Heq. injection Heq as -> -> -> -> <-.
  injection Hrun as <- <-. cbn. unfold timings_of.
  by rewrite (same_context _ _ Hframe).
Qed.

(** [_execute_request] for a paused client. *)
Lemma execute_request_paused self runner t params expected total_start w :
  ∃ rd w',
    _execute_request self runner t params expected total_start false w
      = (Returned rd, w') ∧
    rd_request_meta_data rd = skipped_meta_data ∧
    rd_processing_end rd = processing_end t ∧
    runner_invocations w' = runner_invocations w ∧
    sampler w' = sampler w ∧
    profile_sampler w' = profile_sampler w ∧
    pacer_calls w' = pacer_calls w ++ [BeforeRequest (processing_start t)] ∧
    complete w' = complete w.
Proof.
  unfold _execute_request.
  erewrite bind_run by reflexivity.
  erewrite bind_run by reflexivity.
  erewrite bind_run
    by (unfold catch_timeout; rewrite execute_single_paused; reflexivity).
  cbv beta iota.
  match goal with
  | |- context [(settle_timings self t ?m ≫= _) ?w3] =>
      destruct (settle_timings_spec self t m w3) as (w4 & Hsettle & Hframe)
  end.
  erewrite bind_run by exact Hsettle.
  do 2 eexists. split; [reflexivity|].
  destruct Hframe as [_ Hinv Hsam Hprof Hpace Hcomp].
  cbn in *. by split_and!.
Qed.

Lemma process_results_skipped self runner sample_type expected rd total_start
    client_state pc add_profile w :
  get_truthy "skipped_request" (rd_request_meta_data rd) = true →
  _process_results self runner sample_type expected rd total_start client_state
    pc add_profile w =
  (Returned (complete w),
   with_pacer_calls
     (pacer_calls w ++ [AfterRequest (rd_processing_end rd) 0 "ops" skipped_notice]) w).
Proof. unfold _process_results. by intros ->. Qed.

(** C7, as the code has it. When the shared state of the client is
    [False], the request returns without calling the runner;
    [execute_single] yields no operations and the meta-data
    [{success: true, skipped_request: true}]; no sample reaches the sampler
    or the profile sampler; the pacer hears [before_request] and then
    [after_request] with weight 0, unit "ops" and
    [{success: false, skipped: true}]; and the loop ends only if the
    completion flag is set. *)
Theorem paused_client_skips_request self shared total_start item t count w :
  PyDict.get (client_id self) shared = Some false →
  ∃ w' count',
    request self (Some shared) total_start item t count w =
      (Returned (complete w, count'), w') ∧
    (∀ params w0,
       (execute_single (scheduled_runner item) params
          (on_error self) (redline_enabled self) false w0).1 =
       Returned (0%Q, "ops"%string, skipped_meta_data)) ∧
    runner_invocations w' = runner_invocations w ∧
    sampler w' = sampler w ∧
    profile_sampler w' = profile_sampler w ∧
    pacer_calls w' =
      pacer_calls w ++ [BeforeRequest (processing_start t);
                        AfterRequest (processing_end t) 0 "ops" skipped_notice] ∧
    complete w' = complete w.
Proof.
  intros Hpaused. unfold request, client_state_of. rewrite Hpaused. cbn [default].
  set (add := wants_profile_sample _ _).
  set (count' := if add then _ else _).
  set (params := mark_profile_query _ _).
  destruct (execute_request_paused self (scheduled_runner item) t params
              (expected_scheduled_time item) total_start w)
    as (rd & w1 & Hrun & Hmeta & Hend & Hinv & Hsam & Hprof & Hpace & Hcomp).
  erewrite bind_run by exact Hrun.
  erewrite bind_run.
  2:{ apply process_results_skipped. rewrite Hmeta.
      apply skipped_meta_data_flags. }
  do 2 eexists. split; [by rewrite Hcomp|].
  split; [intros; by rewrite execute_single_paused|].
  cbn. rewrite Hpace, Hend, <- app_assoc. by split_and!.
Qed.

(** A request that was carried out, with a client that is active and a
    request that is not a profile sample: the sample that is queued. *)
Lemma process_results_sample self runner sample_type expected rd total_start pc w :
  get_truthy "skipped_request" (rd_request_meta_data rd) = false →
  (length (sampler w) < sampler_buffer_size self)%nat →
  ∃ completed sample w',
    _process_results self runner sample_type expected rd total_start true pc false w
      = (Returned completed, w') ∧
    sampler w' = sampler w ++ [sample] ∧
    service_time sample = (rd_request_end rd - rd_request_start rd)%Q ∧
    client_processing_time sample =
      ((rd_client_request_end rd - rd_client_request_start rd)
       - service_time sample)%Q ∧
    processing_time sample = (rd_processing_end rd - rd_processing_start rd)%Q ∧
    latency sample =
      (if rd_throughput_throttled rd
       then (rd_request_end rd - (total_start + expected))%Q
       else service_time sample) ∧
    absolute_time sample = rd_absolute_processing_start rd ∧
    request_start sample = rd_request_start rd ∧
    time_period sample = (rd_request_end rd - total_start)%Q ∧
    Samples.sample_type sample = sample_type.
Proof.
  intros Hskip Hroom. unfold _process_results. rewrite Hskip.
  erewrite bind_run by reflexivity.
  erewrite bind_run by reflexivity.
  cbv beta.
  erewrite (bind_run (sampler_add _ _)).
  2:{ unfold sampler_add, modify.
      rewrite (proj2 (Nat.ltb_lt _ _)) by exact Hroom. reflexivity. }
  do 3 eexists. split; [reflexivity|]. cbn. by split_and!.
Qed.

(** C6. For a request that [_execute_request] carried out, for an active
    client, that is not a profile sample and finds room in the queue of the
    sampler: the iteration returns and queues exactly one sample, with
    [service_time = request_end - request_start],
    [client_processing_time = (client_request_end - client_request_start) - service_time],
    [processing_time = processing_end - processing_start], and
    [latency = request_end - (task_start + scheduled_offset)] when the
    scheduled offset is positive (the request was throttled), else
    [latency = service_time]; the four request timings are those of the
    result of [_execute_request]. *)
Theorem sample_timings self shared total_start item t count w rd w1 :
  client_state_of self shared = true →
  wants_profile_sample (scheduled_params item) count = false →
  _execute_request self (scheduled_runner item) t
    (mark_profile_query false (scheduled_params item))
    (expected_scheduled_time item) total_start true w = (Returned rd, w1) →
  get_truthy "skipped_request" (rd_request_meta_data rd) = false →
  (length (sampler w) < sampler_buffer_size self)%nat →
  ∃ completed sample w',
    request self shared total_start item t count w =
      (Returned (completed, count), w') ∧
    sampler w' = sampler w ++ [sample] ∧
    service_time sample = (rd_request_end rd - rd_request_start rd)%Q ∧
    client_processing_time sample =
      ((rd_client_request_end rd - rd_client_request_start rd)
       - service_time sample)%Q ∧
    processing_time sample = (processing_end t - processing_start t)%Q ∧
    latency sample =
      (if Qlt_bool 0 (expected_scheduled_time item)
       then (rd_request_end rd - (total_start + expected_scheduled_time item))%Q
       else service_time sample).
Proof.
  intros Hactive Hplain Hexec Hskip Hroom.
  unfold request. rewrite Hactive, Hplain.
  erewrite bind_run by exact Hexec.
  pose proof (execute_request_keeps_sampler self (scheduled_runner item) t
                (mark_profile_query false (scheduled_params item))
                (expected_scheduled_time item) total_start true w) as Hkept.
  rewrite Hexec in Hkept. cbn [snd] in Hkept. rewrite <- Hkept in Hroom.
  destruct (execute_request_result _ _ _ _ _ _ _ _ _ _ Hexec)
    as (Hthrottled & _ & Hstart & Hend & _).
  destruct (process_results_sample self (scheduled_runner item)
              (scheduled_sample_type item) (expected_scheduled_time item)
              rd total_start (scheduled_percent_completed item) w1 Hskip Hroom)
    as (completed & sample & w' & Hproc & Hsampler & Hst & Hcpt & Hpt & Hlat & _).
  erewrite bind_run by exact Hproc.
  exists completed, sample, w'.
  rewrite <- Hstart, <- Hend, <- Hthrottled, <- Hkept. by split_and!.
Qed.
End facts.

(** C6, witness: a throttled search request of an active client, timed by
    the stamping holder. *)
Lemma sample_timings_witness :
  ∃ rd w1,
    _execute_request search_executor search_runner search_readings None 2 100 true
      idle_world = (Returned rd, w1) ∧
    ∃ completed sample w',
      request search_executor None 100 search_item search_readings 0 idle_world =
        (Returned (completed, 0), w') ∧
      sampler w' = [sample] ∧
      service_time sample = (rd_request_end rd - rd_request_start rd)%Q ∧
      client_processing_time sample =
        ((rd_client_request_end rd - rd_client_request_start rd)
         - service_time sample)%Q ∧
      processing_time sample = (104 - 102)%Q ∧
      latency sample = (rd_request_end rd - (100 + 2))%Q.
Proof.
  eexists _, _. split; [vm_compute; reflexivity|].
  eapply (sample_timings search_executor None 100 search_item search_readings 0
            idle_world).
  - reflexivity.
  - reflexivity.
  - vm_compute. reflexivity.
  - vm_compute. reflexivity.
  - vm_compute. lia.
Defined.

(** C7, witness: client 7 is paused in the dictionary of its worker. *)
Lemma paused_client_skips_request_witness :
  ∃ w' count',
    request search_executor (Some [(3, true); (7, false)]) 100 search_item
      search_readings 0 idle_world = (Returned (false, count'), w') ∧
    (∀ params w0,
       (execute_single search_runner params "continue" true false w0).1 =
       Returned (0%Q, "ops"%string, skipped_meta_data)) ∧
    runner_invocations w' = 0%nat ∧
    sampler w' = [] ∧
    profile_sampler w' = [] ∧
    pacer_calls w' = [BeforeRequest 102; AfterRequest 104 0 "ops" skipped_notice] ∧
    complete w' = false.
Proof.
  apply (paused_client_skips_request search_executor [(3, true); (7, false)] 100
           search_item search_readings 0 idle_world).
  reflexivity.
Defined.

(** C7, as stated, fails: the request of a paused client leaves no sample,
    skipped or other, in either sampler. *)
Lemma paused_client_emits_no_sample :
  ∃ r w',
    request search_executor (Some [(3, true); (7, false)]) 100 search_item
      search_readings 0 idle_world = (Returned r, w') ∧
    sampler idle_world = [] ∧
    sampler w' = [] ∧
    profile_sampler w' = [].
Proof.
  do 2 eexists. split; [vm_compute; reflexivity|].
  cbn. by split_and!.
Qed.
End ExecutorFacts.

(** ** The throughput calculator *)

Module ThroughputFacts.
Import Samples Throughput ThroughputViews.

Implicit Types (s : DefaultSample) (l : list DefaultSample) (c : TaskStats).

(** *** Sorting *)

Lemma insert_by_time_Permutation s l : insert_by_time s l ≡ₚ s :: l.
Proof.
  induction l as [|x r IH]; [done|]. cbn.
  destruct (Qle_bool _ _); [done|]. rewrite IH. apply perm_swap.
Qed.

Lemma sorted_by_time_Permutation l : sorted_by_time l ≡ₚ l.
Proof.
  induction l as [|x r IH]; [done|]. cbn.
  by rewrite insert_by_time_Permutation, IH.
Qed.

Lemma insert_by_time_sorted s l :
  StronglySorted time_le l → StronglySorted time_le (insert_by_time s l).
Proof.
  induction 1 as [|x r Hr IH Hx]; cbn; [by repeat constructor|].
  destruct (Qle_bool (absolute_time s) (absolute_time x)) eqn:Hle.
  - apply Qle_bool_iff in Hle. constructor; [by constructor|].
    constructor; [done|]. eapply Forall_impl; [exact Hx|].
    intros y Hy. unfold time_le in *. by eapply Qle_trans.
  - constructor; [done|]. rewrite insert_by_time_Permutation.
    constructor; [|done]. unfold time_le.
    apply Qlt_le_weak, Qnot_le_lt. intros Hs%Qle_bool_iff. congruence.
Qed.

Lemma sorted_by_time_sorted l : StronglySorted time_le (sorted_by_time l).
Proof.
  induction l as [|x r IH]; cbn; [constructor|]. by apply insert_by_time_sorted.
Qed.

Lemma sorted_last_greatest l s x :
  StronglySorted time_le l → last l = Some s → x ∈ l → time_le x s.
Proof.
  induction 1 as [|y r Hr IH Hy]; [done|].
  destruct r as [|z r'].
  - cbn. intros Heq Hx%list_elem_of_singleton. injection Heq as <-. subst x.
    apply Qle_refl.
  - intros Hlast [->|Hx]%elem_of_cons.
    + change (last (y :: z :: r')) with (last (z :: r')) in Hlast.
      apply last_Some_elem_of in Hlast.
      by eapply Forall_forall in Hy.
    + by apply IH.
Qed.

Lemma last_cons_default {A} (x : A) (l : list A) (d : option A) :
  match last (x :: l) with Some y => Some y | None => d end =
  match last l with Some y => Some y | None => Some x end.
Proof.
  revert x d. induction l as [|y l IH]; intros x d; [done|].
  change (last (x :: y :: l)) with (last (y :: l)).
  by rewrite (IH y d), (IH y (Some x)).
Qed.

(** *** The loop of [calculate_task_throughput] *)

Lemma throughput_step_emits acc s :
  let r := throughput_step acc s in
  r.2 = Some s ∧
  (r.1.2 = acc.1.2 ∨ ∃ d, r.1.2 = acc.1.2 ++ [d] ∧ emitted_at d s).
Proof.
  destruct acc as [[[c count] tt] last]. unfold throughput_step. cbn zeta.
  destruct (can_calculate_throughput _); cbn; split; try done.
  - right. eexists. by split.
  - by left.
Qed.

Lemma throughput_fold_ordered l acc :
  StronglySorted time_le l →
  in_time_order acc.1.2 →
  (∀ d s, d ∈ acc.1.2 → s ∈ l → (d_absolute_time d <= absolute_time s)%Q) →
  let r := foldl throughput_step acc l in
  in_time_order r.1.2 ∧
  (∀ d, d ∈ r.1.2 → d ∈ acc.1.2 ∨ ∃ s, s ∈ l ∧ emitted_at d s) ∧
  r.2 = (match last l with Some s => Some s | None => acc.2 end).
Proof.
  intros Hl. revert acc.
  induction Hl as [|s l Hl IH Hs]; intros acc Hord Hbound; cbn zeta.
  - cbn. split_and!; [done| |done]. by left.
  - cbn [foldl].
    destruct (throughput_step_emits acc s) as [Hlast Hemit]. cbn zeta in *.
    set (acc' := throughput_step acc s) in *.
    destruct (IH acc') as (Hord' & Horigin & Hlast').
    + destruct Hemit as [->|(d & -> & Hd & _)]; [done|].
      unfold in_time_order. rewrite fmap_app.
      apply StronglySorted_app_2; [|done|by repeat constructor].
      intros x1 x2 (d1 & -> & Hd1)%list_elem_of_fmap ->%list_elem_of_singleton.
      cbn. rewrite Hd. apply Hbound; [done|left].
    + intros d s' Hd Hs'.
      destruct Hemit as [Heq|(d0 & Heq & Hd0 & _)]; rewrite Heq in Hd.
      * apply Hbound; [done|by right].
      * apply elem_of_app in Hd as [Hd|Hd].
        -- apply Hbound; [done|by right].
        -- apply list_elem_of_singleton in Hd as ->.
           rewrite Hd0. by eapply Forall_forall in Hs.
    + split_and!; [done| |].
      * intros d [Hd|(s' & Hs' & Hd)]%Horigin.
        -- destruct Hemit as [Heq|(d0 & Heq & Hd0)]; rewrite Heq in Hd.
           ++ by left.
           ++ apply elem_of_app in Hd as [Hd|Hd]; [by left|].
              apply list_elem_of_singleton in Hd as ->.
              right. exists s. split; [left|done].
        -- right. exists s'. split; [by right|done].
      * by rewrite Hlast', Hlast, last_cons_default.
Qed.

Lemma sorted_times l :
  StronglySorted time_le l → StronglySorted Qle (absolute_time <$> l).
Proof.
  induction 1 as [|x r Hr IH Hx]; cbn; constructor; [done|].
  apply Forall_fmap. by eapply Forall_impl.
Qed.

Lemma calculate_task_throughput_ordered task_stats task l bucket_interval_secs :
  StronglySorted time_le l →
  let r := calculate_task_throughput task_stats task l bucket_interval_secs in
  in_time_order r.2 ∧
  (∀ d, d ∈ r.2 → ∃ s, s ∈ l ∧ emitted_at d s) ∧
  (∀ k, k ≠ task → r.1 !! k = task_stats !! k).
Proof.
  intros Hl. unfold calculate_task_throughput.
  set (current := match task_stats !! task with Some c => c | None => _ end).
  destruct (throughput_fold_ordered l (current, total_count current, [], None) Hl)
    as (Hord & Horigin & Hlast).
  { constructor. }
  { by intros d s ?%elem_of_nil. }
  destruct (foldl throughput_step _ l) as [[[c count] tt] last_sample].
  cbn [fst snd] in *.
  assert (∀ d, d ∈ tt → ∃ s, s ∈ l ∧ emitted_at d s) as Horigin'.
  { intros d [?%elem_of_nil|?]%Horigin; done. }
  assert (∀ c' tt', in_time_order tt' → (∀ d, d ∈ tt' → ∃ s, s ∈ l ∧ emitted_at d s) →
            in_time_order (<[task:=c']> task_stats, tt').2 ∧
            (∀ d, d ∈ (<[task:=c']> task_stats, tt').2 → ∃ s, s ∈ l ∧ emitted_at d s) ∧
            (∀ k, k ≠ task → (<[task:=c']> task_stats, tt').1 !! k = task_stats !! k))
    as Hdone.
  { intros c' tt' ? ?. split_and!; [done..|].
    intros k Hk. cbn. by rewrite lookup_insert_ne. }
  destruct last_sample as [ls|]; [|by apply Hdone].
  destruct (can_add_final_throughput_sample c); [|by apply Hdone].
  assert (last l = Some ls) as Hls.
  { destruct (last l); [done|discriminate]. }
  apply Hdone.
  - unfold in_time_order. rewrite fmap_app.
    apply StronglySorted_app_2; [|done|by repeat constructor].
    intros x1 x2 (d & -> & Hd)%list_elem_of_fmap ->%list_elem_of_singleton.
    destruct (Horigin' d Hd) as (s & Hs & -> & _). cbn.
    by apply (sorted_last_greatest l).
  - intros d [Hd|Hd]%elem_of_app; [by apply Horigin'|].
    apply list_elem_of_singleton in Hd as ->.
    exists ls. split; [by apply last_Some_elem_of|done].
Qed.

Lemma map_task_throughput_ordered l :
  StronglySorted time_le l →
  in_time_order (map_task_throughput l) ∧
  (∀ d, d ∈ map_task_throughput l → ∃ s, s ∈ l ∧ emitted_at d s).
Proof.
  intros Hl. unfold map_task_throughput, in_time_order. split.
  - rewrite <- list_fmap_compose. by apply sorted_times.
  - intros d (s & -> & Hs)%list_elem_of_fmap. by exists s.
Qed.

Lemma py_max_ge a b : (a <= py_max a b)%Q ∧ (b <= py_max a b)%Q.
Proof.
  unfold py_max, Qlt_bool. destruct (Qle_bool b a) eqn:Hle; cbn.
  - apply Qle_bool_iff in Hle. split; lra.
  - assert (¬ (b <= a)%Q) by (intros Hba%Qle_bool_iff; congruence).
    split; lra.
Qed.

Lemma Qlt_bool_true x y : Qlt_bool x y = true → (x < y)%Q.
Proof.
  unfold Qlt_bool. intros Hlt%negb_true_iff.
  destruct (Qlt_le_dec x y) as [?|Hle]; [done|].
  apply Qle_bool_iff in Hle. congruence.
Qed.

Lemma Qlt_bool_lt x y : (x < y)%Q → Qlt_bool x y = true.
Proof.
  intros Hlt. unfold Qlt_bool. apply negb_true_iff.
  destruct (Qle_bool y x) eqn:Hle; [|done]. apply Qle_bool_iff in Hle. lra.
Qed.

Lemma count_after_snoc c l s :
  count_after c (l ++ [s]) = (count_after c l + total_ops s)%Q.
Proof. unfold count_after. by rewrite foldl_app. Qed.

Lemma interval_after_snoc c l s :
  interval_after c (l ++ [s]) =
  py_max (absolute_time s - start_time c) (interval_after c l).
Proof. unfold interval_after. by rewrite foldl_app. Qed.

Lemma maybe_update_frame t c :
  interval (maybe_update_sample_type t c) = interval c ∧
  start_time (maybe_update_sample_type t c) = start_time c ∧
  total_count (maybe_update_sample_type t c) = total_count c ∧
  (has_samples_in_sample_type c = false →
   has_samples_in_sample_type (maybe_update_sample_type t c) = false).
Proof. unfold maybe_update_sample_type. by case_match. Qed.

(** The loop of [calculate_task_throughput], sample by sample. *)
Lemma throughput_fold_cumulative c0 (l done todo : list DefaultSample) acc :
  l = done ++ todo →
  acc.1.1.2 = count_after c0 done →
  interval acc.1.1.1 = interval_after c0 done →
  start_time acc.1.1.1 = start_time c0 →
  Forall (cumulative c0 l) acc.1.2 →
  (acc.1.2 = [] → has_samples_in_sample_type c0 = false →
   has_samples_in_sample_type acc.1.1.1 = false) →
  let r := foldl throughput_step acc todo in
  r.1.1.2 = count_after c0 l ∧
  interval r.1.1.1 = interval_after c0 l ∧
  Forall (cumulative c0 l) r.1.2 ∧
  (r.1.2 = [] → has_samples_in_sample_type c0 = false →
   has_samples_in_sample_type r.1.1.1 = false) ∧
  r.2 = (match last todo with Some s => Some s | None => acc.2 end).
Proof.
  revert done acc.
  induction todo as [|s todo IH]; intros done acc Hl Hcount Hint Hstart Hdata Hnone.
  - cbn. rewrite app_nil_r in Hl. subst l. by split_and!.
  - cbn [foldl]. cbn zeta.
    destruct (throughput_step_emits acc s) as [Hlast _]. cbn zeta in Hlast.
    destruct acc as [[[c count] tt] last_sample]. cbn [fst snd] in *.
    destruct (maybe_update_frame (sample_type s) c) as (Hmi & Hms & _ & Hmh).
    assert (interval (update_interval (absolute_time s)
                        (maybe_update_sample_type (sample_type s) c)) =
            py_max (absolute_time s - start_time c0) (interval_after c0 done)) as Hi.
    { cbn. by rewrite Hmi, Hms, Hint, Hstart. }
    destruct (IH (done ++ [s]) (throughput_step (c, count, tt, last_sample) s))
      as (H1 & H2 & H3 & H4 & H5).
    + by rewrite <- app_assoc.
    + unfold throughput_step. rewrite count_after_snoc, <- Hcount.
      by destruct (can_calculate_throughput _).
    + unfold throughput_step. rewrite interval_after_snoc, <- Hi.
      by destruct (can_calculate_throughput _).
    + unfold throughput_step. destruct (can_calculate_throughput _); cbn; congruence.
    + unfold throughput_step.
      destruct (can_calculate_throughput _) eqn:Hcan; cbn [fst snd]; [|done].
      apply Forall_app. split; [done|]. constructor; [|constructor].
      exists done, s, todo. split; [done|]. split; [done|].
      rewrite count_after_snoc, interval_after_snoc, <- Hcount, <- Hi.
      apply andb_true_iff in Hcan as [Hpos%Qlt_bool_true _].
      split_and!; done.
    + unfold throughput_step.
      destruct (can_calculate_throughput _) eqn:Hcan; cbn [fst snd].
      * intros Hnil. by destruct tt.
      * intros -> Hc0. cbn. apply Hmh. by apply Hnone.
    + split_and!; try done.
      by rewrite H5, Hlast, last_cons_default.
Qed.

(** What [calculate_task_throughput] emits for samples that are not
    empty, and the statistics it leaves alone. *)
Lemma calculate_task_throughput_cumulative task_stats k first_sample rest
    bucket_interval_secs :
  let r := calculate_task_throughput task_stats k (first_sample :: rest)
             bucket_interval_secs in
  Forall (cumulative (initial_stats task_stats k first_sample bucket_interval_secs)
            (first_sample :: rest)) r.2.
Proof.
  cbn zeta. unfold calculate_task_throughput. cbv beta iota.
  fold (initial_stats task_stats k first_sample bucket_interval_secs).
  set (c0 := initial_stats _ _ _ _).
  set (current_samples := first_sample :: rest).
  destruct (throughput_fold_cumulative c0 current_samples [] current_samples
              (c0, total_count c0, [], None) eq_refl eq_refl eq_refl eq_refl
              (Forall_nil_2 _) (λ _ Hc, Hc)) as (Hcount & Hint & Hdata & _ & Hlast).
  destruct (foldl throughput_step _ current_samples) as [[[c count] tt] last_sample].
  cbn [fst snd] in *.
  destruct last_sample as [ls|]; [|done].
  destruct (can_add_final_throughput_sample c) eqn:Hfinal; [|done].
  cbn [snd]. apply Forall_app. split; [done|]. constructor; [|constructor].
  assert (last current_samples = Some ls) as Hls.
  { destruct (last current_samples); [done|discriminate]. }
  apply last_Some in Hls as [before Hbefore].
  exists before, ls, []. split; [done|]. split; [done|].
  apply andb_true_iff in Hfinal as [Hpos%Qlt_bool_true _].
  rewrite <- Hbefore, <- Hcount, <- Hint. split_and!; done.
Qed.

Lemma map_task_throughput_passed_on l : Forall2 passed_on (map_task_throughput l) l.
Proof.
  unfold map_task_throughput. apply Forall2_fmap_l, Forall_Forall2_diag, Forall_forall.
  intros s _. by split_and!.
Qed.

Lemma emitted_from_ext task_stats task_stats' k v bucket_interval_secs data :
  task_stats' !! k = task_stats !! k →
  emitted_from task_stats' k v bucket_interval_secs data →
  emitted_from task_stats k v bucket_interval_secs data.
Proof.
  unfold emitted_from, chained, initial_stats. by intros ->.
Qed.

(** One task of one call: its data are in time order, and they come from
    the samples the task is calculated from as [emitted_from] says. *)
Lemma calculate_task_spec bucket_interval_secs task_stats global k v :
  PyDict.get k global = None →
  v ≠ [] →
  let r := calculate_task bucket_interval_secs (task_stats, global) (k, v) in
  (∃ data, PyDict.get k r.2 = Some data ∧
           in_time_order data ∧
           emitted_from task_stats k v bucket_interval_secs data) ∧
  (∀ k', k' ≠ k →
     PyDict.get k' r.2 = PyDict.get k' global ∧ r.1 !! k' = task_stats !! k').
Proof.
  intros Hfresh Hv. unfold calculate_task. rewrite Hfresh, pydict_get_set_eq.
  cbn [default app]. unfold emitted_from.
  pose proof (sorted_by_time_sorted (chained task_stats k v)) as Hsorted.
  pose proof (sorted_by_time_Permutation (chained task_stats k v)) as Hperm.
  set (current_samples := sorted_by_time _) in *.
  destruct current_samples as [|first_sample rest] eqn:Hcs.
  { apply Permutation_nil_l in Hperm. unfold chained in Hperm.
    destruct (task_stats !! k); by destruct v. }
  rewrite <- Hcs in *.
  assert (∃ stats' tt,
    match throughput first_sample with
    | Some _ => (task_stats, map_task_throughput current_samples)
    | None => calculate_task_throughput task_stats k current_samples
                bucket_interval_secs
    end = (stats', tt) ∧
    in_time_order tt ∧
    match throughput first_sample with
    | Some _ => Forall2 passed_on tt current_samples
    | None =>
        Forall (cumulative (initial_stats task_stats k first_sample bucket_interval_secs)
                  current_samples) tt
    end ∧
    (∀ k', k' ≠ k → stats' !! k' = task_stats !! k'))
    as (stats' & tt & -> & Hord & Horigin & Hother).
  { destruct (throughput first_sample).
    - destruct (map_task_throughput_ordered current_samples Hsorted) as [? ?].
      eexists _, _. split_and!; [done|done| |done].
      apply map_task_throughput_passed_on.
    - destruct (calculate_task_throughput_ordered task_stats k current_samples
                  bucket_interval_secs Hsorted) as (? & ? & ?).
      pose proof (calculate_task_throughput_cumulative task_stats k first_sample rest
                    bucket_interval_secs) as Hcum.
      cbn zeta in Hcum. rewrite <- Hcs in Hcum.
      destruct (calculate_task_throughput _ _ _ _) as [stats' tt].
      by exists stats', tt. }
  cbn zeta. cbn [fst snd]. split.
  - exists tt. rewrite pydict_get_set_eq. split_and!; [done..|].
    exists first_sample, rest. split; [done|]. by rewrite <- Hcs.
  - intros k' Hk. split; [|by apply Hother].
    by rewrite !pydict_get_set_ne.
Qed.

(** *** The two loops of [calculate] *)

Lemma group_by_task_snoc samples x :
  group_by_task (samples ++ [x]) =
  PyDict.set (task x)
    (default [] (PyDict.get (task x) (group_by_task samples)) ++ [x])
    (group_by_task samples).
Proof. unfold group_by_task. by rewrite foldl_app. Qed.

Lemma group_by_task_wf samples : PyDict.wf (group_by_task samples).
Proof.
  induction samples as [|x samples IH] using rev_ind; [constructor|].
  rewrite group_by_task_snoc. by apply pydict_wf_set.
Qed.

(** The group of a task: its samples, in the order of the call. *)
Lemma group_by_task_get samples k :
  PyDict.get k (group_by_task samples) =
  match filter (λ s, task s = k) samples with [] => None | v => Some v end.
Proof.
  induction samples as [|x samples IH] using rev_ind; [done|].
  rewrite group_by_task_snoc, filter_app.
  destruct (decide (task x = k)) as [Hk|Hk].
  - rewrite filter_cons_True by done. rewrite filter_nil.
    rewrite Hk, pydict_get_set_eq, IH.
    by destruct (filter _ samples).
  - rewrite filter_cons_False by done. rewrite filter_nil, app_nil_r.
    by rewrite pydict_get_set_ne.
Qed.

Lemma pydict_elem_of_get {V} (k : string) (v : V) (d : list (string * V)) :
  PyDict.wf d → (k, v) ∈ d → PyDict.get k d = Some v.
Proof.
  unfold PyDict.wf, PyDict.keys.
  induction d as [|[k0 v0] d IH]; [by intros _ ?%elem_of_nil|].
  rewrite fmap_cons. intros [Hk0 Hnd]%NoDup_cons [[= -> ->]|Hin]%elem_of_cons; cbn.
  - by rewrite decide_True.
  - rewrite decide_False; [by apply IH|].
    intros ->. apply Hk0. apply list_elem_of_fmap. by exists (k, v).
Qed.

Lemma group_by_task_elem_of samples k v :
  (k, v) ∈ group_by_task samples →
  v = filter (λ s, task s = k) samples ∧ v ≠ [].
Proof.
  intros Hin%pydict_elem_of_get; [|apply group_by_task_wf].
  rewrite group_by_task_get in Hin.
  destruct (filter _ samples) as [|s0 v0]; [done|]. by injection Hin as <-.
Qed.

Lemma calculate_fold bucket_interval_secs groups task_stats global :
  NoDup groups.*1 →
  (∀ k, k ∈ groups.*1 → PyDict.get k global = None) →
  (∀ k v, (k, v) ∈ groups → v ≠ []) →
  let r := foldl (calculate_task bucket_interval_secs) (task_stats, global) groups in
  ∀ k data,
    PyDict.get k r.2 = Some data →
    PyDict.get k global = Some data ∨
    ∃ v, (k, v) ∈ groups ∧
         in_time_order data ∧
         emitted_from task_stats k v bucket_interval_secs data.
Proof.
  revert task_stats global.
  induction groups as [|[k0 v0] groups IH]; intros task_stats global Hnd Hfresh Hne;
    cbn zeta; [by left|].
  rewrite fmap_cons in Hnd. apply NoDup_cons in Hnd as [Hk Hnd]. cbn [fst] in Hk.
  cbn [foldl]. intros k data Hget.
  destruct (calculate_task_spec bucket_interval_secs task_stats global k0 v0)
    as [(data_k & Hget_k & Hord_k & Horigin_k) Hother].
  { apply Hfresh. left. }
  { apply (Hne k0). left. }
  destruct (calculate_task bucket_interval_secs (task_stats, global) (k0, v0))
    as [stats1 global1]. cbn [fst snd] in *.
  destruct (IH stats1 global1 Hnd) with (k := k) (data := data)
    as [Hold|(v' & Hin & Hord & Horigin)]; [| |done|..].
  - intros k' Hk'. destruct (Hother k') as [-> _]; [by intros ->|].
    apply Hfresh. by right.
  - intros k' v' Hin. apply (Hne k'). by right.
  - destruct (decide (k = k0)) as [->|Hne0].
    + right. exists v0. split; [left|]. by replace data with data_k by congruence.
    + left. destruct (Hother k Hne0) as [<- _]. done.
  - right. exists v'. split; [by right|]. split; [done|].
    assert (k ≠ k0) as Hne0.
    { intros ->. apply Hk. apply list_elem_of_fmap. by exists (k0, v'). }
    destruct (Hother k Hne0) as [_ Hstats]. by eapply emitted_from_ext.
Qed.

(** C8, as the code has it. The data that one call of [calculate] returns
    for a task never decrease in [absolute_time], and each datum is
    identified with the sample it was emitted at. The samples of the task
    are those of the call that belong to it, followed by those kept for it
    by earlier calls, sorted by time. If the first of them carries a
    throughput of the runner, there is one datum per sample, in order, with
    the sample's [absolute_time], [relative_time], sample type and
    throughput. Otherwise every datum carries the [absolute_time] and the
    [relative_time] of the sample at whose position the operations counted
    up to there, over the interval reached there, give the datum's
    throughput. *)
Theorem calculate_in_time_order task_stats samples bucket_interval_secs k data :
  PyDict.get k (calculate task_stats samples bucket_interval_secs).2 = Some data →
  in_time_order data ∧
  ∃ first_sample rest,
    sorted_by_time (chained task_stats k (filter (λ s, task s = k) samples)) =
      first_sample :: rest ∧
    match throughput first_sample with
    | Some _ => Forall2 passed_on data (first_sample :: rest)
    | None =>
        Forall (cumulative (initial_stats task_stats k first_sample bucket_interval_secs)
                  (first_sample :: rest)) data
    end.
Proof.
  intros Hget. unfold calculate in Hget.
  destruct (calculate_fold bucket_interval_secs (group_by_task samples)
              task_stats [] (group_by_task_wf samples)) with (k := k) (data := data)
    as [Hnil|(v & Hin & Hord & Horigin)]; [done| |done|done|].
  { intros k' v' [_ Hne]%group_by_task_elem_of. done. }
  split; [done|].
  apply group_by_task_elem_of in Hin as [-> _]. exact Horigin.
Qed.

(** C8, witness: the five samples of one second and a bit. *)
Lemma calculate_in_time_order_witness :
  let samples := [sample_at 0 (1 # 10) Normal (1 # 10);
                  sample_at 0 (21 # 10) Normal (1 # 10);
                  sample_at 1 (5 # 10) Normal (1 # 10);
                  sample_at 0 (11 # 10) Normal (1 # 10);
                  sample_at 1 (19 # 10) Normal (1 # 10)] in
  ∃ data,
    PyDict.get "T" (calculate ∅ samples 1).2 = Some data ∧
    d_absolute_time <$> data = [11 # 10; 21 # 10] ∧
    in_time_order data ∧
    ∃ first_sample rest,
      sorted_by_time (chained ∅ "T" (filter (λ s, task s = "T") samples)) =
        first_sample :: rest ∧
      match throughput first_sample with
      | Some _ => Forall2 passed_on data (first_sample :: rest)
      | None =>
          Forall (cumulative (initial_stats ∅ "T" first_sample 1)
                    (first_sample :: rest)) data
      end.
Proof.
  intros samples. eexists. split; [vm_compute; reflexivity|].
  split; [reflexivity|].
  apply (calculate_in_time_order ∅ samples 1 "T").
  vm_compute. reflexivity.
Defined.

(** C8, as stated, fails across calls: a warm-up sample stamped at second
    10 yields a datum at 10; the normal sample stamped at second 5 that
    comes with the next batch promotes the sample type and yields the final
    datum of its call at 5, after the datum at 10. *)
Lemma calculate_out_of_order_across_calls :
  let r1 := calculate ∅ first_batch 1 in
  let r2 := calculate r1.1 second_batch 1 in
  ∃ data1 data2,
    PyDict.get "T" r1.2 = Some data1 ∧
    PyDict.get "T" r2.2 = Some data2 ∧
    d_absolute_time <$> data1 = [10%Q] ∧
    d_absolute_time <$> data2 = [5%Q] ∧
    ¬ in_time_order (data1 ++ data2).
Proof.
  cbn zeta. do 2 eexists.
  split; [vm_compute; reflexivity|]. split; [vm_compute; reflexivity|].
  split; [reflexivity|]. split; [reflexivity|].
  unfold in_time_order. cbn. intros Hsorted.
  apply StronglySorted_inv in Hsorted as [_ Hle].
  apply Forall_cons in Hle as [Hle _]. by vm_compute in Hle.
Qed.
End ThroughputFacts.

(** ** Assigning clients to workers *)

Module AssignmentFacts.
Import Assignment.

Lemma foldlM_app {A B} (f : B → A → attempt B) b l1 l2 :
  foldlM f b (l1 ++ l2) = (foldlM f b l1 ≫= λ b', foldlM f b' l2).
Proof.
  revert b. induction l1 as [|x l1 IH]; intros b; [done|].
  cbn. destruct (f b x) as [b'|e]; cbn; [apply IH|done].
Qed.

Lemma py_position_nat len (i : nat) :
  (i < len)%nat → py_position len (Z.of_nat i) = Some i.
Proof.
  intros Hi. unfold py_position.
  rewrite (proj2 (Z.leb_le _ _)), (proj2 (Z.ltb_lt _ _)) by lia.
  cbn. by rewrite Nat2Z.id.
Qed.

(** *** Counting clients per worker *)

Lemma round_robin_length n k : length (round_robin n k) = n.
Proof. unfold round_robin. by rewrite length_fmap, length_seq. Qed.

Lemma round_robin_lookup n k r :
  (r < n)%nat → round_robin n k !! r = Some (Z.of_nat (Allocator.dealt_to n k r)).
Proof.
  intros Hr. unfold round_robin. rewrite list_lookup_fmap, lookup_seq_lt by done.
  done.
Qed.

Lemma round_robin_zero n : round_robin n 0 = replicate n 0.
Proof.
  apply list_eq. intros r. destruct (decide (r < n)%nat) as [Hr|Hr].
  - rewrite round_robin_lookup, lookup_replicate_2 by done.
    unfold Allocator.dealt_to. rewrite Nat.Div0.div_0_l, Nat.Div0.mod_0_l.
    by rewrite decide_False by lia.
  - rewrite !lookup_ge_None_2; [done|rewrite length_replicate; lia|].
    rewrite round_robin_length. lia.
Qed.

Lemma round_robin_succ n k :
  (0 < n)%nat →
  alter Z.succ (k mod n)%nat (round_robin n k) = round_robin n (S k).
Proof.
  intros Hn. apply list_eq. intros r.
  destruct (decide (r < n)%nat) as [Hr|Hr].
  - rewrite (round_robin_lookup n (S k)) by done.
    rewrite AllocatorFacts.dealt_to_succ by done.
    destruct (decide (r = k mod n)%nat) as [->|Hne].
    + rewrite list_lookup_alter, decide_True, round_robin_lookup by done.
      cbn [fmap option_fmap option_map]. f_equal. lia.
    + rewrite list_lookup_alter, decide_False, round_robin_lookup by done.
      f_equal. lia.
  - rewrite !lookup_ge_None_2; [done|rewrite round_robin_length; lia|].
    rewrite length_alter, round_robin_length. lia.
Qed.

Lemma sumZ_replicate_zero n : sumZ (replicate n 0) = 0.
Proof. unfold sumZ. induction n as [|n IH]; [done|]. cbn. by rewrite IH. Qed.

Lemma sumZ_cons x l : sumZ (x :: l) = x + sumZ l.
Proof. done. Qed.

Lemma round_robin_sum n k : (0 < n)%nat → sumZ (round_robin n k) = Z.of_nat k.
Proof.
  intros Hn. induction k as [|k IH].
  - by rewrite round_robin_zero, sumZ_replicate_zero.
  - rewrite <- round_robin_succ by done.
    assert (∀ l i x, l !! i = Some x → sumZ (alter Z.succ i l) = sumZ l + 1) as Hsum.
    { clear. induction l as [|y l IHl]; intros [|i] x; cbn [alter list_alter lookup list_lookup];
        try done.
      - intros _. rewrite !sumZ_cons. lia.
      - intros Hx. rewrite !sumZ_cons, (IHl i x Hx). lia. }
    erewrite Hsum; [lia|].
    apply round_robin_lookup, Nat.mod_upper_bound. lia.
Qed.

Lemma round_robin_bounds n k c :
  c ∈ round_robin n k → Z.of_nat (k / n) ≤ c ≤ Z.of_nat (k / n) + 1.
Proof.
  unfold round_robin. intros (r & -> & _)%list_elem_of_fmap.
  unfold Allocator.dealt_to. case_decide; lia.
Qed.

(** With workers and clients in positive number the counts are those of a
    round-robin deal. *)
Lemma count_clients_per_worker_spec (w k : nat) :
  (0 < w)%nat →
  count_clients_per_worker (Z.of_nat w) (Z.of_nat k) = Done (round_robin w k).
Proof.
  intros Hw. unfold count_clients_per_worker. rewrite Nat2Z.id.
  induction k as [|k IH].
  - by rewrite round_robin_zero.
  - rewrite Nat2Z.inj_succ, <- Z.add_1_r, seqZ_app by lia.
    rewrite foldlM_app, IH. cbn [mbind attempt_bind].
    rewrite (seqZ_cons _ 1), seqZ_nil by lia. cbn [foldlM].
    unfold count_client. rewrite (proj2 (Z.eqb_neq _ _)) by lia.
    rewrite Z.add_0_l, <- Nat2Z.inj_mod, round_robin_length.
    rewrite py_position_nat by (apply Nat.mod_upper_bound; lia).
    cbn [mbind attempt_bind]. by rewrite round_robin_succ.
Qed.

(** A host without workers cannot take a client. *)
Lemma count_clients_per_worker_fails w k :
  w ≤ 0 → 0 < k → ∃ e, count_clients_per_worker w k = Raised e.
Proof.
  intros Hw Hk. unfold count_clients_per_worker.
  rewrite (seqZ_cons 0 k) by lia. cbn. unfold count_client.
  destruct (w =? 0) eqn:Hz; [by eexists|].
  apply Z.eqb_neq in Hz.
  rewrite Z.mod_0_l by done.
  replace (Z.to_nat w) with 0%nat by lia. cbn. by eexists.
Qed.

Lemma count_clients_per_worker_done w k cpw :
  count_clients_per_worker w k = Done cpw →
  (k ≤ 0 ∧ cpw = replicate (Z.to_nat w) 0) ∨
  (0 < k ∧ 0 < w ∧ cpw = round_robin (Z.to_nat w) (Z.to_nat k)).
Proof.
  intros Hrun. destruct (decide (k ≤ 0)) as [Hk|Hk].
  - left. split; [done|]. unfold count_clients_per_worker in Hrun.
    rewrite seqZ_nil in Hrun by lia. by injection Hrun as <-.
  - right. destruct (decide (w ≤ 0)) as [Hw|Hw].
    + destruct (count_clients_per_worker_fails w k) as [e He]; [lia..|congruence].
    + split_and!; [lia..|].
      rewrite <- (Z2Nat.id w), <- (Z2Nat.id k) in Hrun by lia.
      rewrite count_clients_per_worker_spec in Hrun by lia. by injection Hrun as <-.
Qed.

(** *** Handing out the ids *)

Lemma assign_workers_spec cpw ws idx :
  Forall (λ c, 0 ≤ c) cpw →
  let r := foldl assign_worker (ws, idx) cpw in
  r.2 = idx + sumZ cpw ∧
  concat r.1 = concat ws ++ seqZ idx (sumZ cpw) ∧
  length <$> r.1 = (length <$> ws) ++ (Z.to_nat <$> cpw).
Proof.
  intros Hcpw. revert ws idx.
  induction Hcpw as [|c cpw Hc Hcpw IH]; intros ws idx; cbn zeta; cbn [foldl].
  - cbn. rewrite !app_nil_r. split_and!; [lia|done..].
  - change (assign_worker (ws, idx) c) with (ws ++ [seqZ idx c], idx + c).
    rewrite sumZ_cons.
    destruct (IH (ws ++ [seqZ idx c]) (idx + c)) as (Hidx & Hcat & Hlen).
    assert (0 ≤ sumZ cpw) as Hsum.
    { clear -Hcpw. induction Hcpw; [done|]. rewrite sumZ_cons. lia. }
    split_and!.
    + rewrite Hidx. lia.
    + rewrite Hcat, concat_app. cbn. rewrite app_nil_r, <- app_assoc.
      by rewrite <- seqZ_app by lia.
    + rewrite Hlen, fmap_app, <- app_assoc. cbn. by rewrite length_seqZ.
Qed.

(** What a host that was assigned without an exception got. *)
Lemma assign_host_done cph A idx rem hc A' idx' rem' :
  assign_host cph (A, idx, rem) hc = Done (A', idx', rem') →
  let k := Z.min cph rem in
  ∃ ws, A' = A ++ [{| assigned_host := host hc; workers := ws |}] ∧
        idx' = idx + Z.max 0 k ∧
        rem' = rem - k ∧
        concat ws = seqZ idx k ∧
        length ws = Z.to_nat (cores hc) ∧
        balanced ws ∧
        (0 < k → 0 < cores hc).
Proof.
  unfold assign_host. cbn zeta.
  destruct (count_clients_per_worker _ _) as [cpw|e] eqn:Hcount; [|done].
  cbn. destruct (foldl assign_worker ([], idx) cpw) as [ws idx''] eqn:Hfold.
  intros [= <- <- <-]. exists ws.
  assert (Forall (λ c, 0 ≤ c) cpw ∧ sumZ cpw = Z.max 0 (Z.min cph rem) ∧
          length cpw = Z.to_nat (cores hc) ∧
          (∀ c1 c2, c1 ∈ cpw → c2 ∈ cpw → c1 ≤ c2 + 1) ∧
          (0 < Z.min cph rem → 0 < cores hc)) as (Hpos & Hsum & Hlen & Hbal & Hcores).
  { apply count_clients_per_worker_done in Hcount as [[Hk ->]|(Hk & Hw & ->)].
    - split_and!.
      + apply Forall_replicate. lia.
      + rewrite sumZ_replicate_zero. lia.
      + by rewrite length_replicate.
      + intros c1 c2 [-> _]%elem_of_replicate [-> _]%elem_of_replicate. lia.
      + lia.
    - split_and!.
      + apply Forall_forall. intros c Hc%round_robin_bounds. lia.
      + rewrite round_robin_sum by lia. lia.
      + apply round_robin_length.
      + intros c1 c2 H1%round_robin_bounds H2%round_robin_bounds. lia.
      + done. }
  pose proof (assign_workers_spec cpw [] idx Hpos) as Hspec.
  cbn zeta in Hspec. rewrite Hfold in Hspec. cbn in Hspec.
  destruct Hspec as (Hidx & Hcat & Hlens).
  split_and!; try done.
  - by rewrite Hidx, Hsum.
  - rewrite Hcat, Hsum. destruct (decide (0 ≤ Z.min cph rem)).
    + by rewrite Z.max_r.
    + by rewrite !seqZ_nil by lia.
  - rewrite <- (length_fmap length ws), Hlens, length_fmap. done.
  - intros w1 w2 H1 H2.
    apply (list_elem_of_fmap_2 length) in H1, H2. rewrite Hlens in H1, H2.
    apply list_elem_of_fmap in H1 as (c1 & -> & H1).
    apply list_elem_of_fmap in H2 as (c2 & -> & H2).
    pose proof (Hbal c1 c2 H1 H2).
    pose proof (proj1 (Forall_forall _ _) Hpos c1 H1).
    pose proof (proj1 (Forall_forall _ _) Hpos c2 H2). cbn in *. lia.
Qed.


(** *** The loop over the hosts *)

Lemma assign_hosts_done cph hosts A idx rem A' idx' rem' :
  0 ≤ cph → 0 ≤ rem →
  foldlM (assign_host cph) (A, idx, rem) hosts = Done (A', idx', rem') →
  ∃ B, A' = A ++ B ∧
       Forall2 (host_served cph) hosts B ∧
       concat (all_workers B) = seqZ idx (rem - rem') ∧
       idx' = idx + (rem - rem') ∧
       rem' = Z.max 0 (rem - cph * Z.of_nat (length hosts)) ∧
       (0 < cph →
        ∀ i hc, hosts !! i = Some hc → Z.of_nat i * cph < rem → 0 < cores hc).
Proof.
  intros Hcph. revert A idx rem.
  induction hosts as [|hc hosts IH]; intros A idx rem Hrem.
  - intros [= <- <- <-]. exists []. rewrite app_nil_r, Z.sub_diag.
    split_and!; [done|constructor|done|lia|cbn; lia|done].
  - cbn [foldlM].
    destruct (assign_host cph (A, idx, rem) hc) as [[[A1 idx1] rem1]|e] eqn:Hhost;
      [|done].
    cbn [mbind attempt_bind]. intros Hrest.
    apply assign_host_done in Hhost
      as (ws & -> & -> & -> & Hcat & Hlen & Hbal & Hcores).
    set (k := Z.min cph rem) in *.
    apply IH in Hrest as (B & -> & Hserved & Hcat' & -> & -> & Hpos); [|lia].
    exists ({| assigned_host := host hc; workers := ws |} :: B).
    assert (0 ≤ cph * Z.of_nat (length hosts)) as Hprod by lia.
    split_and!.
    + by rewrite <- app_assoc.
    + constructor; [|done]. split_and!; try done. cbn.
      rewrite Hcat, length_seqZ. lia.
    + unfold all_workers in *. cbn [mbind list_bind]. cbn [workers].
      rewrite concat_app, Hcat, Hcat', Z.max_r by lia.
      rewrite <- seqZ_app by lia. f_equal. lia.
    + lia.
    + cbn [length]. rewrite Nat2Z.inj_succ, Z.mul_succ_r. lia.
    + intros Hcph' [|i] hc' Hhc Hdue; cbn in Hhc.
      * injection Hhc as <-. apply Hcores. lia.
      * apply (Hpos Hcph' i hc' Hhc). lia.
Qed.

Lemma assign_hosts_ok cph hosts A idx rem :
  0 ≤ cph → 0 ≤ rem →
  (∀ i hc, hosts !! i = Some hc → Z.of_nat i * cph < rem → 0 < cores hc) →
  ∃ r, foldlM (assign_host cph) (A, idx, rem) hosts = Done r.
Proof.
  intros Hcph. revert A idx rem.
  induction hosts as [|hc hosts IH]; intros A idx rem Hrem Hcores; [by eexists|].
  cbn [foldlM]. unfold assign_host at 2.
  set (k := Z.min cph rem).
  assert (∃ cpw, count_clients_per_worker (cores hc) k = Done cpw) as [cpw ->].
  { destruct (decide (0 < k)) as [Hk|Hk].
    - assert (0 < cores hc) as Hc by (apply (Hcores 0%nat); [done|lia]).
      rewrite <- (Z2Nat.id (cores hc)), <- (Z2Nat.id k) by lia.
      rewrite count_clients_per_worker_spec by lia. by eexists.
    - unfold count_clients_per_worker. rewrite seqZ_nil by lia. by eexists. }
  cbn [mbind attempt_bind].
  destruct (foldl assign_worker ([], idx) cpw) as [ws idx1].
  cbn [mbind attempt_bind]. apply IH; [lia|].
  intros i hc' Hhc Hdue. apply (Hcores (S i) hc' Hhc). lia.
Qed.

(** *** Rounding up *)

Lemma ceiling_covers n h :
  0 < h → n ≤ Qceiling (inject_Z n / inject_Z h) * h.
Proof.
  intros Hh. rewrite Zle_Qle, inject_Z_mult.
  assert (¬ inject_Z h == 0)%Q as Hne.
  { intros H0. apply (inject_Z_injective h 0) in H0. lia. }
  rewrite <- (Qmult_div_r (inject_Z n) (inject_Z h)) at 1 by done.
  rewrite Qmult_comm. apply Qmult_le_compat_r; [apply Qle_ceiling|].
  change 0%Q with (inject_Z 0). rewrite <- Zle_Qle. lia.
Qed.

Lemma ceiling_nonneg n h :
  0 ≤ n → 0 < h → 0 ≤ Qceiling (inject_Z n / inject_Z h).
Proof.
  intros Hn Hh. change 0 with (Qceiling 0). apply Qceiling_resp_le.
  apply Qle_shift_div_l.
  - change 0%Q with (inject_Z 0). rewrite <- Zlt_Qlt. lia.
  - rewrite Qmult_0_l. change 0%Q with (inject_Z 0). rewrite <- Zle_Qle. lia.
Qed.

Lemma ceiling_positive n h :
  0 < n → 0 < h → 0 < Qceiling (inject_Z n / inject_Z h).
Proof.
  intros Hn Hh. pose proof (ceiling_covers n h Hh) as Hc.
  destruct (decide (0 < Qceiling (inject_Z n / inject_Z h))); [done|nia].
Qed.

(** *** The whole call *)

(** Everything a successful call guarantees. *)
Lemma calculate_worker_assignments_done hosts n A :
  0 ≤ n →
  calculate_worker_assignments hosts n = Done A →
  let cph := Qceiling (inject_Z n / inject_Z (Z.of_nat (length hosts))) in
  Forall2 (host_served cph) hosts A ∧
  concat (all_workers A) = seqZ 0 n ∧
  (∀ i hc, hosts !! i = Some hc → Z.of_nat i * cph < n → 0 < cores hc).
Proof.
  intros Hn. unfold calculate_worker_assignments. cbn zeta.
  destruct (Z.of_nat (length hosts) =? 0) eqn:Hh; [done|].
  apply Z.eqb_neq in Hh.
  set (cph := Qceiling _).
  assert (0 ≤ cph) as Hcph by (apply ceiling_nonneg; lia).
  destruct (foldlM _ _ hosts) as [[[A' idx'] rem']|e] eqn:Hfold; [|done].
  cbn [mbind attempt_bind].
  destruct (rem' =? 0) eqn:Hrem; [|done]. apply Z.eqb_eq in Hrem. subst rem'.
  intros [= <-].
  apply assign_hosts_done in Hfold as (B & -> & Hserved & Hcat & _ & _ & Hcores);
    [|done..].
  rewrite Z.sub_0_r in Hcat. split_and!; [done..|].
  intros i hc Hhc Hdue. refine (Hcores _ i hc Hhc Hdue).
  apply ceiling_positive; [nia|lia].
Qed.

Lemma foldlM_raised {A B} (P : builtin_error → Prop) (f : B → A → attempt B) b l e :
  (∀ b x e, f b x = Raised e → P e) → foldlM f b l = Raised e → P e.
Proof.
  intros Hf. revert b. induction l as [|x l IH]; intros b; [done|].
  cbn. destruct (f b x) as [b'|e'] eqn:Hx; cbn.
  - apply IH.
  - intros [= <-]. by eapply Hf.
Qed.

Lemma worker_assignments_cover_lemma hosts n A :
  0 ≤ n →
  calculate_worker_assignments hosts n = Done A →
  concat (all_workers A) = seqZ 0 n.
Proof.
  intros Hn Hrun.
  by destruct (calculate_worker_assignments_done hosts n A Hn Hrun) as (_ & ? & _).
Qed.

(** X1. After a successful call the client ids [0 .. client_count - 1] are
    handed out exactly once and in ascending order: the lists of the
    workers, host after host, chain up to [range(client_count)]. *)
Theorem worker_assignments_cover hosts n A :
  0 ≤ n →
  calculate_worker_assignments hosts n = Done A →
  concat (all_workers A) = seqZ 0 n.
Proof.
  intros Hn Hrun. by destruct (calculate_worker_assignments_done hosts n A Hn Hrun) as (_ & ? & _).
Qed.

Lemma worker_assignments_cover_witness :
  ∃ A, calculate_worker_assignments three_hosts 5 = Done A ∧
       concat (all_workers A) = [0; 1; 2; 3; 4].
Proof.
  eexists. split; [vm_compute; reflexivity|].
  apply (worker_assignments_cover three_hosts 5); [lia|vm_compute; reflexivity].
Defined.

(** X2. After a successful call there is one entry per host, in the order
    of the hosts and under the host's name, with one list per core; the
    clients of a host are spread so that no two of its workers differ by
    more than one client, and no host simulates more than
    [ceil(client_count / host_count)] clients. *)
Theorem worker_assignments_served hosts n A :
  0 ≤ n →
  calculate_worker_assignments hosts n = Done A →
  Forall2 (host_served (Qceiling (inject_Z n / inject_Z (Z.of_nat (length hosts)))))
          hosts A.
Proof.
  intros Hn Hrun. by destruct (calculate_worker_assignments_done hosts n A Hn Hrun) as (? & _).
Qed.

Lemma worker_assignments_served_witness :
  ∃ A, calculate_worker_assignments three_hosts 5 = Done A ∧
       Forall2 (host_served 2) three_hosts A.
Proof.
  eexists. split; [vm_compute; reflexivity|].
  apply (worker_assignments_served three_hosts 5); [lia|vm_compute; reflexivity].
Defined.

(** X3. With at least one host and a client count that is not negative,
    the call succeeds exactly when every host that is due clients has a
    positive number of cores: host [i] is due clients when
    [i * ceil(client_count / host_count) < client_count]. Hosts past the
    last client may have no cores. *)
Theorem worker_assignments_succeed_iff hosts n :
  hosts ≠ [] → 0 ≤ n →
  let cph := Qceiling (inject_Z n / inject_Z (Z.of_nat (length hosts))) in
  (∃ A, calculate_worker_assignments hosts n = Done A) ↔
  (∀ i hc, hosts !! i = Some hc → Z.of_nat i * cph < n → 0 < cores hc).
Proof.
  intros Hhosts Hn cph. split.
  - intros [A Hrun].
    by destruct (calculate_worker_assignments_done hosts n A Hn Hrun) as (_ & _ & ?).
  - intros Hcores.
    assert (0 < Z.of_nat (length hosts)) as Hh by (destruct hosts; [done|cbn; lia]).
    assert (0 ≤ cph) as Hcph by (apply ceiling_nonneg; lia).
    destruct (assign_hosts_ok cph hosts [] 0 n Hcph Hn Hcores)
      as [[[A idx] rem] Hfold].
    exists A. unfold calculate_worker_assignments. cbn zeta.
    rewrite (proj2 (Z.eqb_neq _ _)) by lia. fold cph. rewrite Hfold.
    cbn [mbind attempt_bind].
    apply assign_hosts_done in Hfold as (B & _ & _ & _ & _ & -> & _); [|done..].
    pose proof (ceiling_covers n (Z.of_nat (length hosts)) Hh) as Hcover.
    fold cph in Hcover. rewrite Z.max_l by lia. done.
Qed.

Lemma worker_assignments_succeed_iff_witness :
  (∃ A, calculate_worker_assignments three_hosts 5 = Done A) ↔
  (∀ i hc, three_hosts !! i = Some hc → Z.of_nat i * 2 < 5 → 0 < cores hc).
Proof.
  apply (worker_assignments_succeed_iff three_hosts 5); [done|lia].
Defined.

(** X4. The assertion that closes the function,
    [assert remaining_clients == 0], cannot fail for a client count that
    is not negative: whatever the hosts, what the call can raise is
    [ZeroDivisionError] (no hosts, or a host without cores that is due a
    client) or [IndexError] (a negative number of cores). *)
Theorem worker_assignments_never_assert hosts n e :
  0 ≤ n →
  calculate_worker_assignments hosts n = Raised e →
  e = ZeroDivisionError ∨ e = IndexError.
Proof.
  intros Hn. unfold calculate_worker_assignments. cbn zeta.
  destruct (Z.of_nat (length hosts) =? 0) eqn:Hh; [intros [= <-]; by left|].
  apply Z.eqb_neq in Hh.
  set (cph := Qceiling _).
  assert (0 ≤ cph) as Hcph by (apply ceiling_nonneg; lia).
  destruct (foldlM _ _ hosts) as [[[A' idx'] rem']|e'] eqn:Hfold;
    cbn [mbind attempt_bind].
  - apply assign_hosts_done in Hfold as (B & _ & _ & _ & _ & -> & _); [|done..].
    pose proof (ceiling_covers n (Z.of_nat (length hosts)) ltac:(lia)) as Hcover.
    fold cph in Hcover. rewrite Z.max_l by lia. done.
  - intros [= <-]. revert Hfold.
    apply (foldlM_raised (λ e, e = ZeroDivisionError ∨ e = IndexError)).
    clear. intros [[A idx] rem] hc e. unfold assign_host.
    destruct (count_clients_per_worker _ _) as [cpw|e'] eqn:Hcount;
      cbn [mbind attempt_bind].
    + by destruct (foldl assign_worker _ _).
    + intros [= <-]. revert Hcount.
      apply (foldlM_raised (λ e, e = ZeroDivisionError ∨ e = IndexError)).
      clear. intros cpw c e. unfold count_client.
      destruct (_ =? 0); [intros [= <-]; by left|].
      destruct (py_position _ _); [done|]. intros [= <-]. by right.
Qed.

Lemma worker_assignments_never_assert_witness :
  IndexError = ZeroDivisionError ∨ IndexError = IndexError.
Proof.
  apply (worker_assignments_never_assert [{| host := "a"; cores := -1 |}] 1);
    [lia|vm_compute; reflexivity].
Defined.

(** *** The shared pause map of the assigned clients *)

Lemma pydict_set_absent {K V} `{EqDecision K} (k : K) (v : V) d :
  k ∉ PyDict.keys d → PyDict.set k v d = d ++ [(k, v)].
Proof.
  unfold PyDict.keys. induction d as [|[k0 v0] d IH]; cbn; [done|].
  intros [Hne Hk]%not_elem_of_cons. rewrite decide_False by done.
  by rewrite IH.
Qed.

Lemma new_client_dict_NoDup clients :
  NoDup clients →
  Feedback.new_client_dict clients = (λ c, (c, false)) <$> clients.
Proof.
  unfold Feedback.new_client_dict.
  enough (∀ d : list (Z * bool),
            NoDup clients → (∀ c, c ∈ clients → c ∉ PyDict.keys d) →
            foldl (λ d c, PyDict.set c false d) d clients =
            d ++ ((λ c, (c, false)) <$> clients)) as Hgen.
  { intros Hnd. apply (Hgen []); [done|]. intros c _. apply not_elem_of_nil. }
  induction clients as [|c clients IH]; intros d Hnd Hfresh; cbn.
  - by rewrite app_nil_r.
  - apply NoDup_cons in Hnd as [Hc Hnd].
    rewrite pydict_set_absent by (apply Hfresh; left).
    rewrite IH, <- app_assoc; [done|done|].
    intros c' Hc'. unfold PyDict.keys. rewrite fmap_app, elem_of_app.
    intros [Hin|Hin%list_elem_of_singleton].
    + by apply (Hfresh c'); [right|].
    + cbn in Hin. congruence.
Qed.

(** The client and the flag of an entry of the pause map. *)
Lemma build_shared_client_dict_flags wid ws S :
  Forall NoDup ws →
  (∀ k, k ∈ PyDict.keys S → k < wid) →
  (λ e : Z * Z * bool, (e.1.2, e.2)) <$>
    Feedback.entries (Feedback.build_shared_client_dict wid ws S) =
  ((λ e : Z * Z * bool, (e.1.2, e.2)) <$> Feedback.entries S) ++
  ((λ c, (c, false)) <$> concat ws).
Proof.
  intros Hws. revert wid S.
  induction Hws as [|clients ws Hnd Hws IH]; intros wid S Hkeys;
    cbn [Feedback.build_shared_client_dict concat].
  - by rewrite fmap_nil, app_nil_r.
  - destruct clients as [|c clients]; [by apply IH|].
    cbn [length Nat.ltb Nat.leb].
    rewrite IH.
    + rewrite pydict_set_absent.
      2:{ intros Hin%Hkeys. lia. }
      unfold Feedback.entries at 1. rewrite bind_app, fmap_app, <- app_assoc.
      f_equal. cbn [mbind list_bind]. rewrite app_nil_r.
      rewrite new_client_dict_NoDup by done.
      rewrite fmap_app, <- !list_fmap_compose. done.
    + intros k Hk. destruct (decide (k ∈ PyDict.keys S)) as [Hin|Hin].
      * apply Hkeys in Hin. lia.
      * rewrite pydict_keys_set_absent in Hk by (intros Hin'%Hkeys; lia).
        apply elem_of_app in Hk as [?|Hk]; [done|].
        apply list_elem_of_singleton in Hk as ->. lia.
Qed.

Lemma NoDup_concat_Forall {A} (L : list (list A)) :
  NoDup (concat L) → Forall NoDup L.
Proof.
  induction L as [|l L IH]; cbn; [constructor|].
  intros (Hl & _ & HL)%NoDup_app. constructor; [done|by apply IH].
Qed.

(** X5. The pause map [start_benchmark] builds from a successful
    assignment holds one flag for each of the clients
    [0 .. client_count - 1], in ascending order and each [False], and the
    feedback actor started on it counts [client_count] clients. *)
Theorem assigned_clients_start_paused hosts n A queue s :
  0 ≤ n →
  calculate_worker_assignments hosts n = Done A →
  let shared := Feedback.coordinator_shared_client_dict (all_workers A) in
  (λ e : Z * Z * bool, (e.1.2, e.2)) <$> Feedback.entries shared =
    (λ c, (c, false)) <$> seqZ 0 n ∧
  Feedback.total_client_count
    (Feedback.receiveMsg_StartFeedbackActor shared queue s) = n.
Proof.
  intros Hn Hrun shared.
  pose proof (worker_assignments_cover_lemma hosts n A Hn Hrun) as Hcover.
  assert ((λ e : Z * Z * bool, (e.1.2, e.2)) <$> Feedback.entries shared =
          (λ c, (c, false)) <$> seqZ 0 n) as Hflags.
  { unfold shared, Feedback.coordinator_shared_client_dict.
    rewrite build_shared_client_dict_flags, Hcover; [done| |].
    - apply NoDup_concat_Forall. rewrite Hcover. apply NoDup_seqZ.
    - intros k Hk. by apply elem_of_nil in Hk. }
  split; [done|]. cbn.
  rewrite FeedbackFacts.count_clients_entries.
  rewrite <- (length_fmap (λ e : Z * Z * bool, (e.1.2, e.2))), Hflags.
  rewrite length_fmap, length_seqZ. lia.
Qed.

Lemma assigned_clients_start_paused_witness :
  ∃ A, calculate_worker_assignments three_hosts 5 = Done A ∧
       (λ e : Z * Z * bool, (e.1.2, e.2)) <$>
         Feedback.entries (Feedback.coordinator_shared_client_dict (all_workers A)) =
         [(0, false); (1, false); (2, false); (3, false); (4, false)] ∧
       Feedback.total_client_count
         (Feedback.receiveMsg_StartFeedbackActor
            (Feedback.coordinator_shared_client_dict (all_workers A)) []
            (Feedback.init 0 0 0 0)) = 5.
Proof.
  eexists. split; [vm_compute; reflexivity|].
  apply (assigned_clients_start_paused three_hosts 5); [lia|vm_compute; reflexivity].
Defined.
End AssignmentFacts.

(** ** Steps, client allocations and the task index of a worker *)

Module ClientAllocationsFacts.
Import Allocator ClientAllocations.

(** *** Join points and steps *)

Lemma join_points_shown row :
  id <$> omap (λ allocation,
                 match allocation with Join jp => Some jp | _ => None end) row =
  omap (λ x, x) (join_point_ids row).
Proof.
  unfold join_point_ids. induction row as [|[|jp|ta] row IH]; cbn; [done..| |done].
  by rewrite IH.
Qed.

Lemma skeleton_from_join_points n first schedule :
  omap (λ x, x) (skeleton_from n first schedule) = seq first (length schedule).
Proof.
  revert first. induction schedule as [|task rest IH]; intros first; [done|].
  cbn [skeleton_from length seq]. rewrite !omap_app, IH.
  assert (∀ k, omap (λ x : option nat, x) (replicate k None) = []) as ->.
  { intros k. by induction k. }
  done.
Qed.

(** X6. The join points of a schedule are numbered [0, 1, ..., len(schedule)],
    one more than the schedule has elements, so the number of steps of the
    benchmark, [len(join_points) - 1], is the number of elements of the
    schedule; reading the first row of the matrix never fails. *)
Theorem join_points_count schedule :
  ∃ jps, join_points schedule = Done jps ∧
         id <$> jps = seq 0 (S (length schedule)) ∧
         number_of_steps schedule = Done (Z.of_nat (length schedule)).
Proof.
  destruct (AllocatorFacts.allocations_shaped schedule) as [Hlen Hrows].
  pose proof (AllocatorFacts.max_clients_positive schedule) as Hpos.
  destruct (allocations schedule !! 0%nat) as [row|] eqn:Hrow.
  2:{ apply lookup_ge_None in Hrow. lia. }
  assert (id <$> omap (λ allocation,
                         match allocation with Join jp => Some jp | _ => None end) row
          = seq 0 (S (length schedule))) as Hids.
  { rewrite join_points_shown, (Hrows _ _ Hrow). unfold skeleton.
    cbn [omap list_omap]. by rewrite skeleton_from_join_points. }
  unfold number_of_steps, join_points. rewrite Hrow.
  eexists. split_and!; [done|done|].
  cbn [mbind attempt_bind]. f_equal.
  rewrite <- (length_fmap id), Hids, length_seq. lia.
Qed.

(** *** The columns of a worker *)

Lemma tasks_column i self :
  Forall (λ allocation, (i < length (entry_tasks allocation))%nat) self →
  tasks i true self = Done (column i self).
Proof.
  unfold tasks.
  enough (∀ acc, Forall (λ allocation, (i < length (entry_tasks allocation))%nat) self →
            foldlM (λ current_tasks allocation,
                      match entry_tasks allocation !! i with
                      | None => Raised IndexError
                      | Some tasks_at_index =>
                          if true &&
                             match tasks_at_index with NoAllocation => false | _ => true end
                          then Done (current_tasks ++
                                       [{| client_id := entry_client_id allocation;
                                           task := tasks_at_index |}])
                          else Done current_tasks
                      end) acc self = Done (acc ++ column i self)) as Hgen.
  { intros Hall. by rewrite (Hgen [] Hall). }
  intros acc Hall. revert acc.
  induction Hall as [|allocation self Hi Hall IH]; intros acc; cbn [foldlM].
  - by rewrite app_nil_r.
  - apply lookup_lt_is_Some_2 in Hi as [x Hx]. rewrite Hx.
    unfold column. cbn [omap list_omap]. rewrite Hx. cbn [mbind option_bind].
    destruct x; cbn [andb mbind attempt_bind]; rewrite IH; [done|..];
      by rewrite <- app_assoc.
Qed.

Lemma tasks_past_the_end i remove_empty self :
  self ≠ [] →
  Forall (λ allocation, (length (entry_tasks allocation) ≤ i)%nat) self →
  tasks i remove_empty self = Raised IndexError.
Proof.
  intros Hne Hall. destruct Hall as [|allocation self Hi _]; [done|].
  unfold tasks. cbn [foldlM]. by rewrite lookup_ge_None_2.
Qed.

Lemma cut_from_length K self :
  cut_from K self → Forall (λ allocation, length (entry_tasks allocation) = length K) self.
Proof.
  intros Hcut. eapply Forall_impl; [exact Hcut|].
  intros allocation <-. unfold join_point_ids. by rewrite length_fmap.
Qed.

Lemma cut_from_lookup K self allocation i :
  cut_from K self → allocation ∈ self →
  shown <$> entry_tasks allocation !! i = K !! i.
Proof.
  intros Hcut Hin. eapply Forall_forall in Hcut; [|done].
  rewrite <- Hcut. unfold join_point_ids. by rewrite list_lookup_fmap.
Qed.

Lemma column_join K self i j :
  cut_from K self → K !! i = Some (Some j) →
  length (column i self) = length self ∧
  Forall (λ t, ∃ jp, task t = Join jp ∧ id jp = j) (column i self).
Proof.
  intros Hcut HK. unfold column.
  induction Hcut as [|allocation self Hrow Hcut IH]; [by split|].
  cbn [omap list_omap].
  assert (shown <$> entry_tasks allocation !! i = Some (Some j)) as Hx.
  { rewrite <- HK, <- Hrow. unfold join_point_ids. by rewrite list_lookup_fmap. }
  destruct (entry_tasks allocation !! i) as [[|jp|ta]|]; try done.
  injection Hx as Hx. cbn [mbind option_bind]. destruct IH as [IHlen IHall].
  split; [cbn; by rewrite IHlen|]. constructor; [by exists jp|done].
Qed.

Lemma column_no_join K self i :
  cut_from K self → K !! i = Some None →
  Forall (λ t, is_join (task t) = false) (column i self).
Proof.
  intros Hcut HK. unfold column.
  induction Hcut as [|allocation self Hrow Hcut IH]; [constructor|].
  cbn [omap list_omap].
  assert (shown <$> entry_tasks allocation !! i = Some None) as Hx.
  { rewrite <- HK, <- Hrow. unfold join_point_ids. by rewrite list_lookup_fmap. }
  destruct (entry_tasks allocation !! i) as [[|jp|ta]|]; try done.
  cbn [mbind option_bind]. by constructor.
Qed.

Lemma forallb_is_join_false ts :
  Forall (λ t, is_join (task t) = false) ts →
  forallb (λ t, is_join (task t)) ts = bool_decide (ts = []).
Proof. destruct 1 as [|t ts Ht _]; [done|]. cbn. by rewrite Ht. Qed.

Lemma forallb_is_join_true j ts :
  Forall (λ t, ∃ jp, task t = Join jp ∧ id jp = j) ts →
  forallb (λ t, is_join (task t)) ts = true.
Proof.
  induction 1 as [|t ts (jp & Ht & _) _ IH]; [done|]. cbn. by rewrite Ht.
Qed.

(** X7. A worker whose client allocations are rows of a matrix with
    skeleton [K], at task index [i]:
    - at a join-point column every client of the worker is listed with
      that join point, and [is_joinpoint] holds;
    - at any other column of the matrix the worker's tasks are task
      allocations, and [is_joinpoint] holds only if the worker has
      nothing there (padding);
    - past the last column [tasks] and [is_joinpoint] raise [IndexError]. *)
Theorem worker_at_joinpoint K self i :
  cut_from K self → self ≠ [] →
  match K !! i with
  | Some (Some j) =>
      tasks i true self = Done (column i self) ∧
      length (column i self) = length self ∧
      Forall (λ t, ∃ jp, task t = Join jp ∧ id jp = j) (column i self) ∧
      is_joinpoint i self = Done true
  | Some None =>
      tasks i true self = Done (column i self) ∧
      Forall (λ t, is_join (task t) = false) (column i self) ∧
      is_joinpoint i self = Done (bool_decide (column i self = []))
  | None =>
      tasks i true self = Raised IndexError ∧
      is_joinpoint i self = Raised IndexError
  end.
Proof.
  intros Hcut Hne. pose proof (cut_from_length K self Hcut) as Hlen.
  destruct (K !! i) as [[j|]|] eqn:HK.
  - assert (tasks i true self = Done (column i self)) as Htasks.
    { apply tasks_column. eapply Forall_impl; [exact Hlen|].
      intros allocation ->. by eapply lookup_lt_Some. }
    destruct (column_join K self i j Hcut HK) as [Hcol Hall].
    split_and!; [done..|]. unfold is_joinpoint. rewrite Htasks.
    cbn [mbind attempt_bind]. by erewrite forallb_is_join_true.
  - assert (tasks i true self = Done (column i self)) as Htasks.
    { apply tasks_column. eapply Forall_impl; [exact Hlen|].
      intros allocation ->. by eapply lookup_lt_Some. }
    pose proof (column_no_join K self i Hcut HK) as Hall.
    split_and!; [done..|]. unfold is_joinpoint. rewrite Htasks.
    cbn [mbind attempt_bind]. by rewrite forallb_is_join_false.
  - assert (tasks i true self = Raised IndexError) as Htasks.
    { apply tasks_past_the_end; [done|]. eapply Forall_impl; [exact Hlen|].
      intros allocation ->. by apply lookup_ge_None. }
    split; [done|]. unfold is_joinpoint. by rewrite Htasks.
Qed.

Lemma worker_at_joinpoint_witness :
  tasks 2 true first_two_clients = Done (column 2 first_two_clients) ∧
  length (column 2 first_two_clients) = 2%nat ∧
  Forall (λ t, ∃ jp, task t = Join jp ∧ id jp = 1%nat) (column 2 first_two_clients) ∧
  is_joinpoint 2 first_two_clients = Done true.
Proof.
  apply (worker_at_joinpoint [Some 0; None; Some 1]%nat first_two_clients 2).
  - repeat constructor.
  - discriminate.
Defined.

(** *** Advancing to the next tasks *)

Lemma column_last_nonempty K self j :
  cut_from K self → self ≠ [] → last K = Some (Some j) →
  column (pred (length K)) self ≠ [].
Proof.
  intros Hcut Hne Hlast.
  assert (K !! pred (length K) = Some (Some j)) as HK.
  { by rewrite <- last_lookup. }
  destruct (column_join K self _ j Hcut HK) as [Hlen _].
  intros Hnil. rewrite Hnil in Hlen. by destruct self.
Qed.

(** X8. A worker with clients whose rows end in a join point finds its
    next tasks: from any column of the matrix, the opening loop of [drive]
    stops, without an [IndexError], at the first column at or after it
    where the worker has something, having skipped only columns where it
    has nothing; the worker's index is left at that column. *)
Theorem drive_finds_tasks K j w :
  cut_from K (client_allocations w) → client_allocations w ≠ [] →
  last K = Some (Some j) →
  (next_task_index w < length K)%nat →
  ∃ k w',
    skip_non_tasks (length K - next_task_index w) w =
      Done (Some (column k (client_allocations w), w')) ∧
    column k (client_allocations w) ≠ [] ∧
    (next_task_index w ≤ k < length K)%nat ∧
    (∀ i, (next_task_index w ≤ i < k)%nat → column i (client_allocations w) = []) ∧
    client_allocations w' = client_allocations w ∧
    current_task_index w' = k ∧ next_task_index w' = S k.
Proof.
  intros Hcut Hne Hlast.
  remember (length K - next_task_index w)%nat as fuel eqn:Hfuel.
  revert w Hcut Hne Hfuel.
  induction fuel as [|fuel IH]; intros w Hcut Hne Hfuel Hi; [lia|].
  cbn [skip_non_tasks]. unfold current_tasks_and_advance.
  rewrite tasks_column.
  2:{ eapply Forall_impl; [exact (cut_from_length _ _ Hcut)|].
      intros allocation ->. done. }
  cbn [mbind attempt_bind].
  destruct (column (next_task_index w) (client_allocations w)) as [|t ts] eqn:Hcol.
  - cbn [length Nat.eqb].
    assert (next_task_index w ≠ pred (length K)) as Hnotlast.
    { intros Heq. rewrite Heq in Hcol.
      by apply (column_last_nonempty K _ j Hcut Hne Hlast). }
    set (w1 := {| client_allocations := client_allocations w;
                  current_task_index := next_task_index w;
                  next_task_index := S (next_task_index w) |}).
    destruct (IH w1) as (k & w' & Hrun & Hk & Hrange & Hskipped & Hca & Hcur & Hnext);
      [done|done|cbn; lia|cbn; lia|].
    exists k, w'. cbn in *. split_and!; try done; try lia.
    intros i Hik. destruct (decide (i = next_task_index w)) as [->|Hne'];
      [done|apply Hskipped; lia].
  - cbn [length Nat.eqb]. eexists _, _. split; [by rewrite Hcol|].
    rewrite Hcol. cbn. split_and!; try done; try lia.
Qed.

Lemma drive_finds_tasks_witness :
  ∃ k w',
    skip_non_tasks 2
      {| client_allocations := idle_in_first_group;
         current_task_index := 0; next_task_index := 1 |} =
      Done (Some (column k idle_in_first_group, w')) ∧
    column k idle_in_first_group ≠ [] ∧
    (1 ≤ k < 3)%nat ∧
    (∀ i, (1 ≤ i < k)%nat → column i idle_in_first_group = []) ∧
    client_allocations w' = idle_in_first_group ∧
    current_task_index w' = k ∧ next_task_index w' = S k.
Proof.
  apply (drive_finds_tasks [Some 0; None; Some 1]%nat 1
           {| client_allocations := idle_in_first_group;
              current_task_index := 0; next_task_index := 1 |}).
  - repeat constructor.
  - discriminate.
  - reflexivity.
  - simpl. lia.
Defined.

(** *** The rows of the assigned clients *)

Lemma client_allocations_for_rows rows clients :
  Forall (λ c, 0 ≤ c < Z.of_nat (length rows)) clients →
  ∃ self, client_allocations_for rows clients = Done self ∧
          entry_client_id <$> self = clients ∧
          Forall (λ allocation,
                    rows !! Z.to_nat (entry_client_id allocation) =
                    Some (entry_tasks allocation)) self.
Proof.
  unfold client_allocations_for.
  enough (∀ acc, Forall (λ c, 0 ≤ c < Z.of_nat (length rows)) clients →
            ∃ new,
              foldlM (λ client_allocations client_id,
                        match py_position (length rows) client_id ≫= (rows !!.) with
                        | Some row => Done (add client_id row client_allocations)
                        | None => Raised IndexError
                        end) acc clients = Done (acc ++ new) ∧
              entry_client_id <$> new = clients ∧
              Forall (λ allocation,
                        rows !! Z.to_nat (entry_client_id allocation) =
                        Some (entry_tasks allocation)) new) as Hgen.
  { intros Hall. destruct (Hgen [] Hall) as (new & Hrun & Hids & Hrows). by exists new. }
  intros acc Hall. revert acc.
  induction Hall as [|c clients Hc Hall IH]; intros acc; cbn [foldlM].
  - exists []. by rewrite app_nil_r.
  - assert (py_position (length rows) c = Some (Z.to_nat c)) as ->.
    { rewrite <- (AssignmentFacts.py_position_nat (length rows) (Z.to_nat c)) by lia.
      f_equal. lia. }
    cbn [mbind option_bind].
    destruct (rows !! Z.to_nat c) as [row|] eqn:Hrow.
    2:{ apply lookup_ge_None in Hrow. lia. }
    cbn [mbind attempt_bind].
    change (add c row acc) with (acc ++ [{| entry_client_id := c; entry_tasks := row |}]).
    destruct (IH (acc ++ [{| entry_client_id := c; entry_tasks := row |}]))
      as (new & Hrun & Hids & Hrows).
    exists ({| entry_client_id := c; entry_tasks := row |} :: new).
    split_and!.
    + by rewrite Hrun, <- app_assoc.
    + cbn. by rewrite Hids.
    + by constructor.
Qed.

(** X9. The clients that [calculate_worker_assignments] gives to a worker
    index rows of the allocation matrix of the schedule: with
    [allocator.clients] as the client count, [start_benchmark] builds the
    client allocations of every worker without an [IndexError], one entry
    per client of the worker in the worker's order, each holding the row of
    its client, and all of them showing the join points of the schedule at
    the same columns. *)
Theorem assigned_clients_have_rows hosts schedule A worker :
  Assignment.calculate_worker_assignments hosts (Z.of_nat (max_clients schedule)) =
    Done A →
  worker ∈ Assignment.all_workers A →
  ∃ self, client_allocations_for (allocations schedule) worker = Done self ∧
          entry_client_id <$> self = worker ∧
          Forall (λ allocation,
                    allocations schedule !! Z.to_nat (entry_client_id allocation) =
                    Some (entry_tasks allocation)) self ∧
          cut_from (skeleton schedule) self.
Proof.
  intros Hrun Hworker.
  destruct (AllocatorFacts.allocations_shaped schedule) as [Hlen Hrows].
  pose proof (AssignmentFacts.worker_assignments_cover_lemma hosts
                (Z.of_nat (max_clients schedule)) A (Nat2Z.is_nonneg _) Hrun)
    as Hcover.
  assert (Forall (λ c, 0 ≤ c < Z.of_nat (length (allocations schedule))) worker)
    as Hrange.
  { apply Forall_forall. intros c Hc.
    assert (c ∈ concat (Assignment.all_workers A)) as Hin.
    { apply list_elem_of_In, in_concat. exists worker.
      split; by apply list_elem_of_In. }
    rewrite Hcover in Hin. apply elem_of_seqZ in Hin. lia. }
  destruct (client_allocations_for_rows _ _ Hrange) as (self & Hself & Hids & Hlookup).
  exists self. split_and!; try done.
  eapply Forall_impl; [exact Hlookup|]. intros allocation Hrow.
  exact (Hrows _ _ Hrow).
Qed.

Lemma assigned_clients_have_rows_witness :
  ∃ self, client_allocations_for (allocations two_parallel_tasks) [0; 1] = Done self ∧
          entry_client_id <$> self = [0; 1] ∧
          Forall (λ allocation,
                    allocations two_parallel_tasks !! Z.to_nat (entry_client_id allocation) =
                    Some (entry_tasks allocation)) self ∧
          cut_from (skeleton two_parallel_tasks) self.
Proof.
  eapply (assigned_clients_have_rows
            [{| Assignment.host := "a"; Assignment.cores := 2 |}] two_parallel_tasks).
  - vm_compute. reflexivity.
  - vm_compute. left.
Defined.
End ClientAllocationsFacts.

(** ** Progress controls at work, and the schedule generator *)

Module ProgressFacts.
Import Scheduling Progress.

Section generator_facts.
Context {P : Type}.
Implicit Types (env : Collaborators P) (g : generator).

Lemma supplied env n k :
  supplies env n → (k < n)%nat →
  ∃ t p, expected_time env k = Some t ∧ params_params env k = Some p.
Proof.
  intros Hsup. induction k as [|k IH]; intros Hk.
  - destruct (Hsup 0%nat Hk) as [Hs [p Hp]]. destruct (Hs 0%Q) as [t Ht].
    by exists t, p.
  - destruct IH as (t' & _ & Ht' & _); [lia|].
    destruct (Hsup (S k) Hk) as [Hs [p Hp]]. destruct (Hs t') as [t Ht].
    exists t, p. cbn. rewrite Ht'. by split.
Qed.

(** *** The generator between two items *)

Lemma scheduled_next env j t :
  scheduled_before env j t → sched_next env j t = expected_time env j.
Proof. destruct j as [|j]; cbn; [by intros ->|by intros ->]. Qed.

Lemma resume env c j :
  (match j with
   | O => Done (control_after env c j)
   | S _ => next (clock env j) (control_after env c j)
   end) = Done (control_after env c (S j)).
Proof.
  destruct c as [c|c], j as [|j]; cbn; try done.
  unfold IterationBased_with_it. cbn. do 4 f_equal. lia.
Qed.

Lemma infinite_after env c j : infinite (control_after env c j) = infinite c.
Proof. by destruct c. Qed.

Lemma sample_type_after env c j st :
  sample_type_at env c j = Some st →
  sample_type (control_after env c (S j)) = Done st.
Proof.
  destruct c as [c|c]; cbn.
  - unfold TimePeriodBased_sample_type, TimePeriodBased_elapsed. cbn.
    destruct (tp_warmup_time_period c); cbn; [|done]. by intros [= <-].
  - unfold IterationBased_sample_type. cbn.
    destruct (ib_warmup_iterations c); cbn; [|done]. by intros [= <-].
Qed.

(** One [__anext__] of an endless control. *)
Lemma anext_infinite env c j t st :
  infinite c = true →
  sample_type_at env c j = Some st →
  scheduled_before env j t →
  anext env {| control := control_after env c j; next_scheduled := t; yielded := j |} =
  match expected_time env j, params_params env j with
  | Some t', Some p =>
      Done (Some ({| item_expected_scheduled_time := t';
                     item_sample_type := st;
                     item_percent_completed := source_progress env j;
                     item_params := p |},
                  {| control := control_after env c (S j);
                     next_scheduled := t'; yielded := S j |}))
  | _, _ => Done None
  end.
Proof.
  intros Hinf Hst Ht. unfold anext. cbn [yielded control next_scheduled].
  rewrite resume. cbn [mbind attempt_bind].
  rewrite infinite_after, Hinf, (scheduled_next env j t Ht).
  destruct (expected_time env j) as [t'|]; [|done].
  rewrite (sample_type_after env c j st Hst). cbn [mbind attempt_bind].
  by destruct (params_params env j).
Qed.

(** One [__anext__] of a control that ends by itself. *)
Lemma anext_finite env c j t :
  infinite c = false →
  scheduled_before env j t →
  anext env {| control := control_after env c j; next_scheduled := t; yielded := j |} =
  (done ← completed (control_after env c (S j));
   if done : bool then Done None
   else
     match expected_time env j with
     | None => Done None
     | Some t' =>
         st ← sample_type (control_after env c (S j));
         pc ← percent_completed (control_after env c (S j));
         match params_params env j with
         | None => Done None
         | Some p =>
             Done (Some ({| item_expected_scheduled_time := t';
                            item_sample_type := st;
                            item_percent_completed := Some pc;
                            item_params := p |},
                         {| control := control_after env c (S j);
                            next_scheduled := t'; yielded := S j |}))
         end
     end).
Proof.
  intros Hinf Ht. unfold anext. cbn [yielded control next_scheduled].
  rewrite resume. cbn [mbind attempt_bind].
  by rewrite infinite_after, Hinf, (scheduled_next env j t Ht).
Qed.

(** Draining a generator whose first [m] items are known. *)
Lemma drain_items env c m (Φ : nat → item P → Prop) :
  (∀ j t, (j < m)%nat → scheduled_before env j t →
     ∃ x t',
       anext env {| control := control_after env c j;
                    next_scheduled := t; yielded := j |} =
         Done (Some (x, {| control := control_after env c (S j);
                           next_scheduled := t'; yielded := S j |})) ∧
       expected_time env j = Some t' ∧ Φ j x) →
  (∀ t, scheduled_before env m t →
     anext env {| control := control_after env c m;
                  next_scheduled := t; yielded := m |} = Done None) →
  ∃ items,
    drain env m {| control := control_after env c 0;
                   next_scheduled := 0; yielded := 0 |} = Done (Some items) ∧
    length items = m ∧
    ∀ k x, items !! k = Some x → Φ k x.
Proof.
  intros Hitems Hend.
  enough (∀ fuel j t,
            (j + fuel = m)%nat → scheduled_before env j t →
            ∃ items,
              drain env fuel {| control := control_after env c j;
                                next_scheduled := t; yielded := j |} =
                Done (Some items) ∧
              length items = fuel ∧
              ∀ k x, items !! k = Some x → Φ (j + k)%nat x) as Hgen.
  { apply (Hgen m 0%nat 0%Q); [lia|done]. }
  induction fuel as [|fuel IH]; intros j t Hj Ht.
  - exists []. assert (j = m) as -> by lia.
    cbn [drain]. rewrite (Hend t Ht). by split_and!.
  - destruct (Hitems j t ltac:(lia) Ht) as (x & t' & Hnext & Ht' & Hx).
    destruct (IH (S j) t' ltac:(lia) Ht') as (items & Hrun & Hlen & Hrest).
    exists (x :: items). cbn [drain]. rewrite Hnext. cbn [mbind attempt_bind].
    rewrite Hrun. cbn [mbind attempt_bind].
    split_and!; [done|by cbn; rewrite Hlen|].
    intros [|k] y Hy; cbn in Hy.
    + injection Hy as <-. by rewrite Nat.add_0_r.
    + replace (j + S k)%nat with (S j + k)%nat by lia. by apply Hrest.
Qed.

(** *** A schedule counted in iterations *)

(** X10. A control that counts [w] warm-up and [n] measured iterations,
    with [w + n > 0], behind a scheduler and a parameter source that do not
    stop earlier: the generator yields exactly [w + n] items and returns;
    item [k] (from 0) is a warm-up sample exactly when [k < w], reports
    [(k + 1) / (w + n)] as its progress, so the last item reports 1, and
    carries the [k]-th parameters and the [k]-th instant of the
    scheduler. *)
Theorem iteration_schedule env w n c :
  IterationBased_init (Some w) (Some n) = Ok c →
  0 < w + n →
  supplies env (Z.to_nat (w + n)) →
  ∃ items,
    drain env (Z.to_nat (w + n)) (new_generator env (IterationControl c)) =
      Done (Some items) ∧
    length items = Z.to_nat (w + n) ∧
    ∀ k x, items !! k = Some x →
      item_sample_type x = (if Z.of_nat k <? w then Warmup else Normal) ∧
      item_percent_completed x = Some (inject_Z (Z.of_nat k + 1) / inject_Z (w + n))%Q ∧
      Some (item_expected_scheduled_time x) = expected_time env k ∧
      Some (item_params x) = params_params env k.
Proof.
  intros Hinit Htotal Hsup. unfold IterationBased_init in Hinit.
  rewrite (proj2 (Z.eqb_neq _ _)) in Hinit by lia. injection Hinit as <-.
  set (c := {| ib_warmup_iterations := Some w; ib_iterations := Some n;
               ib_total_iterations := Some (w + n); ib_it := None |}).
  apply (drain_items env (IterationControl c)).
  - intros j t Hj Ht.
    destruct (supplied env _ j Hsup Hj) as (t' & p & Ht' & Hp).
    rewrite anext_finite by done. cbn.
    rewrite (proj2 (Z.leb_gt _ _)) by lia. cbn.
    rewrite Ht'. unfold IterationBased_sample_type, IterationBased_percent_completed.
    cbn. rewrite (proj2 (Z.eqb_neq _ _)) by lia. cbn. rewrite Hp.
    eexists _, _. split; [done|]. cbn. by split_and!.
  - intros t Ht. rewrite anext_finite by done. cbn.
    by rewrite (proj2 (Z.leb_le _ _)) by lia.
Qed.

(** *** A schedule counted in seconds *)

Lemma Qle_bool_lt x y : (y < x)%Q → Qle_bool x y = false.
Proof.
  intros Hlt. destruct (Qle_bool x y) eqn:Hle; [|done].
  apply Qle_bool_iff in Hle. lra.
Qed.

Lemma Qle_bool_le x y : (x <= y)%Q → Qle_bool x y = true.
Proof. apply Qle_bool_iff. Qed.

Lemma Qeq_bool_lt x : (0 < x)%Q → Qeq_bool x 0 = false.
Proof.
  intros Hlt. destruct (Qeq_bool x 0) eqn:Heq; [|done].
  apply Qeq_bool_iff in Heq. lra.
Qed.

Lemma Qlt_bool_false x y : Qlt_bool x y = false → (y <= x)%Q.
Proof.
  unfold Qlt_bool. intros Hle%negb_false_iff. by apply Qle_bool_iff.
Qed.

Lemma Qlt_bool_ge x y : (y <= x)%Q → Qlt_bool x y = false.
Proof. intros Hle. unfold Qlt_bool. by rewrite Qle_bool_le. Qed.

(** X11. A control that runs for [w] seconds of warm-up and [tp] seconds
    of measurement, on a clock that never goes back, behind a scheduler
    and a parameter source that do not stop earlier: the generator yields
    an item for every reading of the clock before [start + w + tp] and
    returns at the first reading at or after it. Item [k] is a warm-up
    sample exactly when fewer than [w] seconds have passed since [start],
    and reports the elapsed time over [w + tp] as its progress, a number
    from 0 up to but below 1; once an item is a measurement sample, all
    later ones are. *)
Theorem time_period_schedule env w tp m :
  monotone (clock env) →
  (∀ k, (k < m)%nat → (clock env k < clock env 0 + (w + tp))%Q) →
  (clock env 0 + (w + tp) <= clock env m)%Q →
  supplies env m →
  ∃ items,
    drain env m
      (new_generator env (TimeControl (TimePeriodBased_init (Some w) (Some tp)))) =
      Done (Some items) ∧
    length items = m ∧
    (∀ k x, items !! k = Some x →
       item_sample_type x =
         (if Qlt_bool (clock env k - clock env 0) w then Warmup else Normal) ∧
       item_percent_completed x = Some ((clock env k - clock env 0) / (w + tp))%Q ∧
       (0 <= (clock env k - clock env 0) / (w + tp))%Q ∧
       ((clock env k - clock env 0) / (w + tp) < 1)%Q ∧
       Some (item_expected_scheduled_time x) = expected_time env k ∧
       Some (item_params x) = params_params env k) ∧
    (∀ k1 k2 x1 x2, (k1 ≤ k2)%nat →
       items !! k1 = Some x1 → items !! k2 = Some x2 →
       item_sample_type x1 = Normal → item_sample_type x2 = Normal).
Proof.
  intros Hmono Hbefore Hafter Hsup.
  set (c := TimeControl (TimePeriodBased_init (Some w) (Some tp))).
  destruct (drain_items env c m
              (λ k x,
                 item_sample_type x =
                   (if Qlt_bool (clock env k - clock env 0) w then Warmup else Normal) ∧
                 item_percent_completed x =
                   Some ((clock env k - clock env 0) / (w + tp))%Q ∧
                 (0 <= (clock env k - clock env 0) / (w + tp))%Q ∧
                 ((clock env k - clock env 0) / (w + tp) < 1)%Q ∧
                 Some (item_expected_scheduled_time x) = expected_time env k ∧
                 Some (item_params x) = params_params env k))
    as (items & Hrun & Hlen & Hitems).
  - intros j t Hj Ht.
    destruct (supplied env _ j Hsup Hj) as (t' & p & Ht' & Hp).
    pose proof (Hbefore j Hj) as Hnow.
    assert (0 < w + tp)%Q as Hd.
    { pose proof (Hbefore 0%nat ltac:(lia)). lra. }
    pose proof (Hmono 0%nat j ltac:(lia)) as Hstart.
    rewrite anext_finite by done. cbn.
    unfold TimePeriodBased_completed, TimePeriodBased_sample_type,
      TimePeriodBased_percent_completed, TimePeriodBased_elapsed. cbn.
    rewrite Qle_bool_lt by done. rewrite Ht'. cbn.
    rewrite Qeq_bool_lt by done. cbn. rewrite Hp.
    eexists _, _. split; [done|]. cbn. split_and!; try done.
    + apply Qle_shift_div_l; [done|]. lra.
    + apply Qlt_shift_div_r; [done|]. lra.
  - intros t Ht. rewrite anext_finite by done. cbn.
    unfold TimePeriodBased_completed. cbn. by rewrite Qle_bool_le.
  - exists items. split_and!; [done..| |].
    + intros k x Hx. by apply Hitems.
    + intros k1 k2 x1 x2 Hk Hx1 Hx2.
      destruct (Hitems k1 x1 Hx1) as (-> & _).
      destruct (Hitems k2 x2 Hx2) as (-> & _).
      destruct (Qlt_bool (clock env k1 - clock env 0) w) eqn:H1; [done|].
      intros _. apply Qlt_bool_false in H1.
      pose proof (Hmono k1 k2 Hk). rewrite Qlt_bool_ge; [done|lra].
Qed.

(** *** A schedule that the parameter source ends *)

(** X12. A control without an end of its own (no time period, or no
    iteration count) whose warm-up is a number: the generator returns
    exactly when the scheduler or the parameter source stops. If they
    supply [m] items and one of them stops at the next call, the generator
    yields [m] items; item [k] has the sample type of the control, the
    progress the parameter source reports (none if it reports none), and
    the [k]-th parameters and instant. *)
Theorem source_ends_schedule env c m :
  infinite c = true →
  well_formed c →
  supplies env m →
  expected_time env m = None ∨ params_params env m = None →
  ∃ items,
    drain env m (new_generator env c) = Done (Some items) ∧
    length items = m ∧
    ∀ k x, items !! k = Some x →
      Some (item_sample_type x) = sample_type_at env c k ∧
      item_percent_completed x = source_progress env k ∧
      Some (item_expected_scheduled_time x) = expected_time env k ∧
      Some (item_params x) = params_params env k.
Proof.
  intros Hinf Hwf Hsup Hstop.
  assert (∀ k, ∃ st, sample_type_at env c k = Some st) as Hst.
  { intros k. destruct c as [c|c], Hwf as [[w Hw] _]; cbn; rewrite Hw; by eexists. }
  assert (new_generator env c =
          {| control := control_after env c 0; next_scheduled := 0; yielded := 0 |})
    as -> by (by destruct c).
  apply (drain_items env c).
  - intros j t Hj Ht.
    destruct (supplied env _ j Hsup Hj) as (t' & p & Ht' & Hp).
    destruct (Hst j) as [st Hj'].
    rewrite (anext_infinite env c j t st) by done. rewrite Ht', Hp.
    eexists _, _. split; [done|]. cbn. by split_and!.
  - intros t Ht. destruct (Hst m) as [st Hm].
    rewrite (anext_infinite env c m t st) by done.
    destruct Hstop as [->| ->]; [done|]. by destruct (expected_time env m).
Qed.

(** *** Schedules that [schedule_for] makes *)

Lemma schedule_for_well_formed ta runner_for_op partition h :
  schedule_for ta runner_for_op partition = Ok h →
  well_formed (task_progress_control h).
Proof.
  unfold schedule_for. cbn zeta.
  destruct (requires_time_period_schedule _ _ _).
  - intros [= <-]. cbn. split; [by eexists|].
    intros [tp ->]. by eexists.
  - destruct (IterationBased_init _ _) as [c|e] eqn:Hinit; [|done].
    intros [= <-]. cbn. unfold IterationBased_init in Hinit.
    destruct (if truthy_Z _ then _ else _) as [n|].
    + destruct (_ =? 0) eqn:Hz; [done|]. injection Hinit as <-. cbn.
      split; [by eexists|]. intros _. eexists. split; [done|].
      by apply Z.eqb_neq.
    + injection Hinit as <-. cbn. split; [by eexists|]. by intros [? ?].
Qed.

(** The generator between two items either returns or yields. *)
Lemma anext_well_formed env c j t :
  well_formed c → monotone (clock env) → scheduled_before env j t →
  anext env {| control := control_after env c j; next_scheduled := t; yielded := j |} =
    Done None ∨
  ∃ x t',
    anext env {| control := control_after env c j; next_scheduled := t; yielded := j |} =
      Done (Some (x, {| control := control_after env c (S j);
                        next_scheduled := t'; yielded := S j |})) ∧
    scheduled_before env (S j) t'.
Proof.
  intros Hwf Hmono Ht.
  assert (∃ st, sample_type_at env c j = Some st) as [st Hst].
  { destruct c as [c|c], Hwf as [[w Hw] _]; cbn; rewrite Hw; by eexists. }
  destruct (infinite c) eqn:Hinf.
  - rewrite (anext_infinite env c j t st) by done.
    destruct (expected_time env j) as [t'|] eqn:Ht'; [|by left].
    destruct (params_params env j) as [p|]; [|by left].
    right. by eexists _, _.
  - rewrite anext_finite by done.
    rewrite (sample_type_after env c j st Hst).
    destruct c as [c|c]; cbn in *.
    + destruct Hwf as [_ Hd]. unfold TimePeriodBased_infinite in Hinf.
      apply bool_decide_eq_false in Hinf.
      destruct Hd as [d Hd]; [by destruct (tp_time_period c); [eexists|]|].
      unfold TimePeriodBased_completed, TimePeriodBased_percent_completed,
        TimePeriodBased_elapsed. cbn. rewrite Hd. cbn.
      destruct (Qle_bool (clock env 0 + d) (clock env j)) eqn:Hdone; [by left|].
      destruct (expected_time env j) as [t'|] eqn:Ht'; [|by left]. cbn.
      assert (Qeq_bool d 0 = false) as ->.
      { destruct (Qeq_bool d 0) eqn:Hz; [|done]. apply Qeq_bool_iff in Hz.
        pose proof (Hmono 0%nat j ltac:(lia)).
        rewrite Qle_bool_le in Hdone; [done|]. rewrite Hz. lra. }
      cbn. destruct (params_params env j) as [p|]; [|by left].
      right. by eexists _, _.
    + destruct Hwf as [_ Htotal]. unfold IterationBased_infinite in Hinf.
      apply bool_decide_eq_false in Hinf.
      destruct Htotal as (total & Htotal & Hne);
        [by destruct (ib_iterations c); [eexists|]|].
      unfold IterationBased_completed, IterationBased_percent_completed. cbn.
      rewrite Htotal. cbn.
      destruct (total <=? Z.of_nat j); [by left|].
      destruct (expected_time env j) as [t'|] eqn:Ht'; [|by left]. cbn.
      rewrite (proj2 (Z.eqb_neq _ _)) by done. cbn.
      destruct (params_params env j) as [p|]; [|by left].
      right. by eexists _, _.
Qed.

(** X13. The generator of a handle that [schedule_for] returns never
    raises, whatever the scheduler and the parameter source supply, on a
    clock that never goes back: no comparison or division meets [None]
    ([TypeError]) and no progress is divided by a zero length
    ([ZeroDivisionError]). Every run of it, cut after any number of items,
    ends normally. *)
Theorem schedule_never_raises env ta runner_for_op partition h fuel :
  schedule_for ta runner_for_op partition = Ok h →
  monotone (clock env) →
  ∃ r, drain env fuel (new_generator env (task_progress_control h)) = Done r.
Proof.
  intros Hh%schedule_for_well_formed Hmono.
  set (c := task_progress_control h) in *.
  assert (new_generator env c =
          {| control := control_after env c 0; next_scheduled := 0; yielded := 0 |})
    as -> by (by destruct c).
  enough (∀ j t, scheduled_before env j t →
            ∃ r, drain env fuel {| control := control_after env c j;
                                   next_scheduled := t; yielded := j |} = Done r)
    as Hgen by (by apply Hgen).
  induction fuel as [|fuel IH]; intros j t Ht; cbn [drain];
    destruct (anext_well_formed env c j t Hh Hmono Ht)
      as [->|(x & t' & -> & Ht')]; cbn [mbind attempt_bind]; try by eexists.
  destruct (IH (S j) t' Ht') as [r ->]. by eexists.
Qed.
End generator_facts.

Lemma iteration_schedule_witness :
  ∃ items,
    drain (steady 5) 3 (new_generator (steady 5) (IterationControl three_iterations)) =
      Done (Some items) ∧
    length items = 3%nat ∧
    ∀ k x, items !! k = Some x →
      item_sample_type x = (if Z.of_nat k <? 1 then Warmup else Normal) ∧
      item_percent_completed x = Some (inject_Z (Z.of_nat k + 1) / inject_Z 3)%Q ∧
      Some (item_expected_scheduled_time x) = expected_time (steady 5) k ∧
      Some (item_params x) = params_params (steady 5) k.
Proof.
  apply (iteration_schedule (steady 5) 1 2 three_iterations).
  - reflexivity.
  - lia.
  - intros k Hk. split; [by eexists|].
    change (params_params (steady 5) k) with (if (k <? 5)%nat then Some k else None).
    rewrite (proj2 (Nat.ltb_lt k 5)) by (simpl in Hk; lia). by eexists.
Defined.

Lemma time_period_schedule_witness :
  ∃ items,
    drain (steady 5) 3
      (new_generator (steady 5) (TimeControl (TimePeriodBased_init (Some 1%Q) (Some 2%Q)))) =
      Done (Some items) ∧
    length items = 3%nat ∧
    (∀ k x, items !! k = Some x →
       item_sample_type x =
         (if Qlt_bool (clock (steady 5) k - clock (steady 5) 0) 1%Q
          then Warmup else Normal) ∧
       item_percent_completed x =
         Some ((clock (steady 5) k - clock (steady 5) 0) / (1 + 2))%Q ∧
       (0 <= (clock (steady 5) k - clock (steady 5) 0) / (1 + 2))%Q ∧
       ((clock (steady 5) k - clock (steady 5) 0) / (1 + 2) < 1)%Q ∧
       Some (item_expected_scheduled_time x) = expected_time (steady 5) k ∧
       Some (item_params x) = params_params (steady 5) k) ∧
    (∀ k1 k2 x1 x2, (k1 ≤ k2)%nat →
       items !! k1 = Some x1 → items !! k2 = Some x2 →
       item_sample_type x1 = Normal → item_sample_type x2 = Normal).
Proof.
  apply (time_period_schedule (steady 5) 1%Q 2%Q 3).
  - intros i j Hij. cbn. rewrite <- Zle_Qle. lia.
  - intros k Hk. cbn [clock steady]. change (inject_Z (Z.of_nat 0)) with 0%Q.
    change (0 + (1 + 2))%Q with (inject_Z 3). rewrite <- Zlt_Qlt. lia.
  - vm_compute. discriminate.
  - intros k Hk. split; [by eexists|].
    change (params_params (steady 5) k) with (if (k <? 5)%nat then Some k else None).
    rewrite (proj2 (Nat.ltb_lt k 5)) by lia. by eexists.
Defined.

Lemma source_ends_schedule_witness :
  ∃ items,
    drain (steady 2) 2
      (new_generator (steady 2)
         (TimeControl (TimePeriodBased_init (Some 0%Q) None))) = Done (Some items) ∧
    length items = 2%nat ∧
    ∀ k x, items !! k = Some x →
      Some (item_sample_type x) =
        sample_type_at (steady 2) (TimeControl (TimePeriodBased_init (Some 0%Q) None)) k ∧
      item_percent_completed x = source_progress (steady 2) k ∧
      Some (item_expected_scheduled_time x) = expected_time (steady 2) k ∧
      Some (item_params x) = params_params (steady 2) k.
Proof.
  apply (source_ends_schedule (steady 2)
           (TimeControl (TimePeriodBased_init (Some 0%Q) None)) 2).
  - reflexivity.
  - split; [by eexists|]. by intros [? ?].
  - intros k Hk. split; [by eexists|].
    change (params_params (steady 2) k) with (if (k <? 2)%nat then Some k else None).
    rewrite (proj2 (Nat.ltb_lt k 2)) by lia. by eexists.
  - right. reflexivity.
Defined.

Lemma schedule_never_raises_witness :
  ∃ r, drain (steady 5) 4
         (new_generator (steady 5)
            (TimeControl (TimePeriodBased_init (Some 0%Q) None))) = Done r.
Proof.
  apply (schedule_never_raises (steady 5) plain_allocation plain_runner
           (constant_source false)
           {| task_allocation := plain_allocation;
              task_progress_control :=
                TimeControl (TimePeriodBased_init (Some 0%Q) None);
              runner := plain_runner;
              params := {| Scheduling.infinite := false |} |} 4).
  - reflexivity.
  - intros i j Hij. cbn. rewrite <- Zle_Qle. lia.
Defined.

(** *** Ramp-up *)

(** X14. With a ramp-up period [ramp > 0], the clients of a task start
    staggered: client [i] of [n] waits [ramp * (i / n)] seconds, so the
    first client does not wait, a client with a higher index waits
    strictly longer, and every client has started before the period is
    over. Without a ramp-up period (or with a period of 0) nobody waits. *)
Theorem ramp_up_staggers ta1 ta2 ramp :
  Allocator.task ta1 = Allocator.task ta2 →
  Allocator.total_clients ta1 = Allocator.total_clients ta2 →
  Workload.ramp_up_time_period (Allocator.task ta1) = Some ramp →
  (0 < ramp)%Q →
  (Allocator.global_client_index ta1 < Allocator.global_client_index ta2
   < Allocator.total_clients ta2)%nat →
  ∃ w1 w2,
    ramp_up_wait_time ta1 = Done w1 ∧ ramp_up_wait_time ta2 = Done w2 ∧
    (0 <= w1)%Q ∧ (w1 < w2)%Q ∧ (w2 < ramp)%Q ∧
    (Allocator.global_client_index ta1 = 0%nat → w1 == 0)%Q.
Proof.
  intros Htask Htotal Hramp Hpos [Hlt Hlast].
  unfold ramp_up_wait_time. rewrite <- Htask, Htotal, Hramp.
  rewrite Qeq_bool_lt by done.
  rewrite (proj2 (Nat.eqb_neq _ _)) by lia.
  eexists _, _. split; [done|]. split; [done|].
  set (n := inject_Z (Z.of_nat (Allocator.total_clients ta2))).
  set (i1 := inject_Z (Z.of_nat (Allocator.global_client_index ta1))).
  set (i2 := inject_Z (Z.of_nat (Allocator.global_client_index ta2))).
  assert (0 <= i1)%Q as H1.
  { unfold i1. change 0%Q with (inject_Z 0). rewrite <- Zle_Qle. lia. }
  assert (i1 < i2)%Q as H12 by (unfold i1, i2; rewrite <- Zlt_Qlt; lia).
  assert (i2 < n)%Q as H2n by (unfold i2, n; rewrite <- Zlt_Qlt; lia).
  assert (0 < / n)%Q as Hinv by (apply Qinv_lt_0_compat; lra).
  assert (n * / n == 1)%Q as Hone by (apply Qmult_inv_r; lra).
  unfold Qdiv. split_and!.
  - apply Qmult_le_0_compat; [lra|]. apply Qmult_le_0_compat; lra.
  - apply Qmult_lt_l; [done|]. apply Qmult_lt_r; done.
  - rewrite <- (Qmult_1_r ramp) at 2. apply Qmult_lt_l; [done|].
    rewrite <- Hone. apply Qmult_lt_r; done.
  - intros H0. unfold i1. rewrite H0. cbn. ring.
Qed.

Lemma ramp_up_staggers_witness :
  ∃ w1 w2,
    ramp_up_wait_time (ramped_client 0) = Done w1 ∧
    ramp_up_wait_time (ramped_client 1) = Done w2 ∧
    (0 <= w1)%Q ∧ (w1 < w2)%Q ∧ (w2 < 10)%Q ∧ (0%nat = 0%nat → w1 == 0)%Q.
Proof.
  apply (ramp_up_staggers (ramped_client 0) (ramped_client 1) 10%Q).
  - reflexivity.
  - reflexivity.
  - reflexivity.
  - reflexivity.
  - simpl. lia.
Defined.
End ProgressFacts.

(** ** Runs of the feedback actor *)

Module FeedbackRunsFacts.
Import Feedback FeedbackRuns FeedbackFacts.

(** *** What no wakeup changes *)

Lemma foldl_pause_client_settings s sel :
  settings (foldl pause_client s sel) = settings s.
Proof.
  revert s. induction sel as [|k sel IH]; intros s; [done|].
  cbn [foldl]. by rewrite IH.
Qed.

Lemma scale_down_settings rng now s s' :
  scale_down rng now s = Some s' → settings s' = settings s.
Proof.
  unfold scale_down. destruct (_ <=? 0); [by intros [= <-]|].
  destruct (pick _ _) as [sel|]; [|done]. cbn. intros [= <-].
  unfold scale_down_finally, settings. cbn.
  pose proof (foldl_pause_client_settings
                (with_max_error_threshold (Finite (total_active_client_count s)) s) sel)
    as Hkeep.
  unfold settings in Hkeep. cbn in Hkeep. by injection Hkeep as -> -> -> -> -> -> -> ->.
Qed.

Lemma activate_clients_settings inactive m a s :
  settings (activate_clients inactive m a s).1 = settings s.
Proof.
  revert a s. induction inactive as [|[w c] rest IH]; intros a s; [done|].
  cbn [activate_clients]. destruct (m <=? a); [done|]. by rewrite IH.
Qed.

Lemma scale_up_settings rng now s s' a :
  scale_up rng now s = Some (s', a) → settings s' = settings s.
Proof.
  unfold scale_up.
  assert (∀ t s0, settings s0 = settings s →
            (shuffled ← pick (inactive_clients (shared_client_states s0))
                           (random_shuffle rng
                              (length (inactive_clients (shared_client_states s0))));
             let '(s1, activated) := activate_clients shuffled t 0 s0 in
             Some (scale_up_finally now s1, activated)) = Some (s', a) →
            settings s' = settings s) as Hact.
  { intros t s0 Hs0. destruct (pick _ _) as [shuffled|]; [|done]. cbn.
    pose proof (activate_clients_settings shuffled t 0 s0) as Hkeep.
    destruct (activate_clients shuffled t 0 s0) as [s1 a1].
    intros [= <- <-]. cbn in Hkeep. by rewrite <- Hs0, <- Hkeep. }
  destruct (_ <=? 0); [|by apply Hact].
  destruct (probe_decision rng s) as [[|] cycles]; [by apply Hact|].
  by intros [= <- <-].
Qed.

Lemma handle_state_settings current_time buckets rng now s s' :
  handle_state current_time buckets rng now s = Some s' → settings s' = settings s.
Proof.
  unfold handle_state. destruct (cpu_check_due current_time s) as [due|]; [|done].
  cbn [mbind option_bind].
  set (s1 := if due then _ else s).
  assert (settings s1 = settings s ∧ state s1 = state s) as [Hs1 Hst].
  { unfold s1. destruct due; [|done]. unfold check_cpu_usage.
    by destruct buckets as [|[node value] ?]. }
  unfold check_for_errors. cbn [state with_error_queue]. rewrite Hst.
  assert (∀ st s2,
            (s3 ← scale_down rng now (with_state st (with_error_queue [] s1));
             Some (with_last_error_time current_time s3)) = Some s2 →
            settings s2 = settings s) as Hdown.
  { intros st s2. destruct (scale_down _ _ _) as [s3|] eqn:Hrun; [|done].
    cbn. intros [= <-]. apply scale_down_settings in Hrun.
    exact (eq_trans Hrun Hs1). }
  destruct (state s).
  - destruct (error_queue s1); [|apply Hdown].
    case_match; intros [= <-]; exact Hs1.
  - destruct (error_queue s1); [|apply Hdown]. intros [= <-]. exact Hs1.
  - case_match; intros [= <-]; exact Hs1.
  - destruct (error_queue s1); [|apply Hdown].
    destruct (scale_up _ _ _) as [[s3 a]|] eqn:Hrun; [|done].
    cbn. intros [= <-]. apply scale_up_settings in Hrun.
    exact (eq_trans Hrun Hs1).
  - intros [= <-]. exact Hs1.
Qed.

Lemma report_errors_nonempty s errors :
  error_queue s ≠ [] →
  error_queue (foldl (λ s e, report_error e s) s errors) ≠ [].
Proof.
  revert s. induction errors as [|e errors IH]; intros s Hne; [done|].
  cbn [foldl]. apply IH. cbn. unfold put_nowait.
  destruct (_ <? _)%nat; [|done]. by destruct (error_queue s).
Qed.

Lemma report_errors_frame s errors :
  let s' := foldl (λ s e, report_error e s) s errors in
  settings s' = settings s ∧ state s' = state s ∧
  shared_client_states s' = shared_client_states s ∧
  total_client_count s' = total_client_count s ∧
  total_active_client_count s' = total_active_client_count s ∧
  max_stable_clients s' = max_stable_clients s ∧
  max_error_threshold s' = max_error_threshold s ∧
  sleep_start_time s' = sleep_start_time s ∧
  (errors ≠ [] → (length (error_queue s) < ERROR_QUEUE_MAXSIZE)%nat →
   error_queue s' ≠ []).
Proof.
  revert s. induction errors as [|e errors IH]; intros s; cbn zeta; [by split_and!|].
  cbn [foldl]. destruct (IH (report_error e s))
    as (H1 & H2 & H3 & H4 & H5 & H6 & H7 & H8 & H9).
  split_and!; try done. intros _ Hroom.
  apply report_errors_nonempty.
  cbn. unfold put_nowait. rewrite (proj2 (Nat.ltb_lt _ _)) by done.
  by destruct (error_queue s).
Qed.

Lemma cpu_configured_due current_time s :
  cpu_configured s → ∃ due, cpu_check_due current_time s = Some due.
Proof.
  unfold cpu_configured, cpu_check_due.
  destruct (truthy_threshold _); [|by eexists].
  intros [i ->]; [done|]. by eexists.
Qed.

(** *** A run of wakeups *)

(** One wakeup, from a state of the run. *)
Lemma wakeup_step w s :
  genuine (rng w) → reachable s → cpu_configured s →
  ∃ s', receiveMsg_WakeupMessage w s = Some s' ∧
        reachable s' ∧ settings s' = settings s ∧
        max_stable_clients s ≤ max_stable_clients s' ∧
        max_stable_clients s' ≤
          Z.max (max_stable_clients s) (total_client_count s).
Proof.
  intros Hrng Hs Hcpu. unfold receiveMsg_WakeupMessage.
  set (s0 := foldl _ s (arrived w)).
  destruct (report_errors_frame s (arrived w))
    as (Hset & Hst & Hmap & Htot & Hact & Hstab & _). fold s0 in Hset, Hst, Hmap, Htot, Hact, Hstab.
  assert (reachable s0) as Hs0 by (by apply (reach_other s)).
  assert (cpu_configured s0) as Hcpu0.
  { unfold cpu_configured in *. unfold settings in Hset.
    by injection Hset as _ _ _ _ _ _ -> ->. }
  destruct (cpu_configured_due (current_time w) s0 Hcpu0) as [due Hdue].
  destruct (handle_state_reachable (current_time w) (cpu_buckets w) (rng w)
              (scaling_time w) s0 due Hrng Hs0 Hdue) as (s' & Hrun & Hs').
  exists s'. split_and!; [done|done|..].
  - rewrite <- Hset. by eapply handle_state_settings.
  - destruct (handle_state_max_stable _ _ _ _ _ _ Hrun) as [->|[_ ->]]; lia.
  - pose proof (accounted_bounds s0 (reachable_accounted s0 Hs0)) as Hbound.
    destruct (handle_state_max_stable _ _ _ _ _ _ Hrun) as [->|[_ ->]]; lia.
Qed.

(** X15. A redline run never fails and never loses count. From any state
    reached after [StartFeedbackActor], with a CPU check interval
    configured whenever a CPU threshold is, any number of wakeups, with
    any errors arriving in between, returns without an exception in a
    state of the run; the configuration and the total client count are
    unchanged; [max_stable_clients] never decreases, and it never exceeds
    the total client count if it did not before. *)
Theorem redline_run_safe ws s :
  reachable s → cpu_configured s →
  Forall (λ w, genuine (rng w)) ws →
  ∃ s', wakeups ws s = Some s' ∧
        reachable s' ∧ settings s' = settings s ∧
        max_stable_clients s ≤ max_stable_clients s' ∧
        (max_stable_clients s ≤ total_client_count s →
         max_stable_clients s' ≤ total_client_count s').
Proof.
  intros Hs Hcpu Hws. revert s Hs Hcpu.
  induction Hws as [|w ws Hw Hws IH]; intros s Hs Hcpu; cbn [wakeups].
  - exists s. by split_and!.
  - destruct (wakeup_step w s Hw Hs Hcpu) as (s1 & -> & Hs1 & Hset1 & Hlow1 & Hhigh1).
    cbn [mbind option_bind].
    assert (cpu_configured s1) as Hcpu1.
    { unfold cpu_configured in *. unfold settings in Hset1.
      by injection Hset1 as _ _ _ _ _ _ -> ->. }
    destruct (IH s1 Hs1 Hcpu1) as (s' & -> & Hs' & Hset' & Hlow' & Hhigh').
    assert (total_client_count s1 = total_client_count s) as Htot.
    { unfold settings in Hset1. by injection Hset1 as -> _ _ _ _ _ _ _. }
    exists s'. split_and!; [done|done|congruence|lia|].
    intros Hbound. rewrite Htot in Hhigh'. apply Hhigh'. lia.
Qed.

Lemma redline_run_safe_witness :
  ∃ s', wakeups [wakeup_at 100 []; wakeup_at 101 [RequestError 0 "search"]]
          (receiveMsg_EnableFeedbackScaling started_actor) = Some s' ∧
        reachable s' ∧
        settings s' = settings (receiveMsg_EnableFeedbackScaling started_actor) ∧
        max_stable_clients (receiveMsg_EnableFeedbackScaling started_actor) ≤
          max_stable_clients s' ∧
        (max_stable_clients (receiveMsg_EnableFeedbackScaling started_actor) ≤
           total_client_count (receiveMsg_EnableFeedbackScaling started_actor) →
         max_stable_clients s' ≤ total_client_count s').
Proof.
  apply (redline_run_safe
           [wakeup_at 100 []; wakeup_at 101 [RequestError 0 "search"]]
           (receiveMsg_EnableFeedbackScaling started_actor)).
  - apply (reach_other started_actor); [|reflexivity..].
    apply reach_start. constructor.
  - intros Hcpu. discriminate Hcpu.
  - apply Forall_cons. split; [apply genuine_first_indices; lra|].
    apply Forall_cons. split; [apply genuine_first_indices; lra|].
    apply Forall_nil_2.
Defined.

(** *** Rest *)

(** X16. While the actor sleeps after a scale-down, or is disabled, a
    wakeup changes no client: the pause map, the active count and the error
    threshold stay as they are, and the errors that arrived are taken from
    the queue and dropped, so they cause no scale-down then or later. The
    state changes only from [SLEEP] to [NEUTRAL], once
    [POST_SCALEDOWN_SECONDS] have passed since the sleep began. *)
Theorem resting_actor_drops_errors w s :
  state s = SLEEP ∨ state s = DISABLED →
  cpu_configured s →
  ∃ s', receiveMsg_WakeupMessage w s = Some s' ∧
        shared_client_states s' = shared_client_states s ∧
        total_active_client_count s' = total_active_client_count s ∧
        max_error_threshold s' = max_error_threshold s ∧
        max_stable_clients s' = max_stable_clients s ∧
        error_queue s' = [] ∧
        state s' = state_after_rest (current_time w) s.
Proof.
  intros Hrest Hcpu. unfold receiveMsg_WakeupMessage.
  set (s0 := foldl _ s (arrived w)).
  destruct (report_errors_frame s (arrived w))
    as (Hset & Hst & Hmap & Htot & Hact & Hstab & Hthr & Hsleep & _).
  fold s0 in Hset, Hst, Hmap, Htot, Hact, Hstab, Hthr, Hsleep.
  assert (cpu_configured s0) as Hcpu0.
  { unfold cpu_configured in *. unfold settings in Hset.
    by injection Hset as _ _ _ _ _ _ -> ->. }
  assert (POST_SCALEDOWN_SECONDS s0 = POST_SCALEDOWN_SECONDS s) as Hpost.
  { unfold settings in Hset. by injection Hset as _ _ _ -> _ _ _ _. }
  destruct (cpu_configured_due (current_time w) s0 Hcpu0) as [due Hdue].
  unfold handle_state. rewrite Hdue. cbn [mbind option_bind].
  set (s1 := if due then _ else s0).
  assert (state s1 = state s ∧ shared_client_states s1 = shared_client_states s ∧
          total_active_client_count s1 = total_active_client_count s ∧
          max_error_threshold s1 = max_error_threshold s ∧
          max_stable_clients s1 = max_stable_clients s ∧
          POST_SCALEDOWN_SECONDS s1 = POST_SCALEDOWN_SECONDS s ∧
          sleep_start_time s1 = sleep_start_time s)
    as (Hst1 & Hmap1 & Hact1 & Hthr1 & Hstab1 & Hpost1 & Hsleep1).
  { unfold s1. destruct due; [|by split_and!]. unfold check_cpu_usage.
    destruct (cpu_buckets w) as [|[node value] ?]; by split_and!. }
  unfold check_for_errors, state_after_rest. cbn [state with_error_queue].
  rewrite Hst1.
  destruct Hrest as [Hr|Hr]; rewrite Hr.
  - cbn [POST_SCALEDOWN_SECONDS sleep_start_time with_error_queue].
    rewrite Hpost1, Hsleep1.
    destruct (Qle_bool _ _); eexists; (split; [done|]);
      split_and!; try done; exact (eq_trans Hst1 Hr).
  - eexists. split; [done|]. split_and!; try done; exact (eq_trans Hst1 Hr).
Qed.

Lemma resting_actor_drops_errors_witness :
  ∃ s', receiveMsg_WakeupMessage (wakeup_at 5 [RequestError 0 "search"]) started_actor =
          Some s' ∧
        shared_client_states s' = shared_client_states started_actor ∧
        total_active_client_count s' = total_active_client_count started_actor ∧
        max_error_threshold s' = max_error_threshold started_actor ∧
        max_stable_clients s' = max_stable_clients started_actor ∧
        error_queue s' = [] ∧
        state s' = state_after_rest 5 started_actor.
Proof.
  apply (resting_actor_drops_errors (wakeup_at 5 [RequestError 0 "search"]) started_actor).
  - right. reflexivity.
  - intros Hcpu. discriminate Hcpu.
Defined.

(** *** Errors *)

(** X17. A wakeup that finds errors, of an actor that is neither asleep
    nor disabled, scales down once, however many errors there are: with [k]
    clients active it pauses [math.ceil(k * percentage)] of them, the
    product being the double-precision one (at most [k], none if the
    ceiling is not positive), sets the error threshold to [k],
    empties the queue, notes the time of the wakeup as the time of the last
    error and goes to sleep. *)
Theorem errors_scale_down_once w s :
  reachable s → genuine (rng w) → cpu_configured s →
  state s ≠ SLEEP → state s ≠ DISABLED →
  error_queue s ≠ [] ∨ arrived w ≠ [] →
  let k := total_active_client_count s in
  let n := Z.min (Z.max 0 (ceiling_of_percentage s)) k in
  ∃ s', receiveMsg_WakeupMessage w s = Some s' ∧
        total_active_client_count s' = k - n ∧
        max_error_threshold s' = Finite k ∧
        error_queue s' = [] ∧
        state s' = SLEEP ∧
        last_error_time s' = current_time w ∧
        sleep_start_time s' = scaling_time w.
Proof.
  intros Hs Hrng Hcpu Hawake Henabled Herrors. cbn zeta.
  unfold receiveMsg_WakeupMessage.
  set (s0 := foldl _ s (arrived w)).
  destruct (report_errors_frame s (arrived w))
    as (Hset & Hst & Hmap & Htot & Hact & Hstab & Hthr & Hsleep & Hqueue).
  fold s0 in Hset, Hst, Hmap, Htot, Hact, Hstab, Hthr, Hsleep, Hqueue.
  assert (error_queue s0 ≠ []) as Hq0.
  { destruct (error_queue s) as [|e q] eqn:Hq.
    - destruct Herrors as [?|Harrived]; [done|].
      apply Hqueue; [done|]. cbn. unfold ERROR_QUEUE_MAXSIZE. lia.
    - apply report_errors_nonempty. by rewrite Hq. }
  assert (reachable s0) as Hs0 by (by apply (reach_other s)).
  assert (cpu_configured s0) as Hcpu0.
  { unfold cpu_configured in *. unfold settings in Hset.
    by injection Hset as _ _ _ _ _ _ -> ->. }
  assert (percentage_clients_to_scale_down s0 = percentage_clients_to_scale_down s)
    as Hpct.
  { unfold settings in Hset. by injection Hset as _ _ -> _ _ _ _ _. }
  destruct (cpu_configured_due (current_time w) s0 Hcpu0) as [due Hdue].
  unfold handle_state. rewrite Hdue. cbn [mbind option_bind].
  set (s1 := if due then _ else s0).
  assert (reachable s1 ∧ state s1 = state s ∧ error_queue s1 ≠ [] ∧
          total_active_client_count s1 = total_active_client_count s ∧
          percentage_clients_to_scale_down s1 = percentage_clients_to_scale_down s)
    as (Hs1 & Hst1 & Hq1 & Hact1 & Hpct1).
  { unfold s1. destruct due; [|by split_and!]. unfold check_cpu_usage.
    destruct (cpu_buckets w) as [|[node value] ?].
    - split_and!; try done. by apply (reach_other s0).
    - split_and!; try done; [by apply (reach_other s0)|].
      cbn. unfold put_nowait. destruct (_ <? _)%nat; [|done].
      by destruct (error_queue s0). }
  unfold check_for_errors. cbn [state with_error_queue]. rewrite Hst1.
  destruct (error_queue s1) as [|e q] eqn:Hqueue1; [done|].
  set (s2 := with_state SCALING_DOWN (with_error_queue [] s1)).
  assert (reachable s2) as Hs2 by (by apply (reach_other s1)).
  destruct (scale_down_spec (rng w) (scaling_time w) s2 Hrng (reachable_accounted _ Hs2))
    as (s3 & sel & Hrun & _ & _ & _ & _ & _ & Hcount & _ & Hthr3 & Hst3 & Hq3 & Hsl3 & _).
  assert ((s3' ← scale_down (rng w) (scaling_time w) s2;
           Some (with_last_error_time (current_time w) s3')) =
          Some (with_last_error_time (current_time w) s3)) as Hdown
    by (by rewrite Hrun).
  assert (ceiling_of_percentage s2 = ceiling_of_percentage s) as Hceil.
  { unfold ceiling_of_percentage.
    change (total_active_client_count s2) with (total_active_client_count s1).
    change (percentage_clients_to_scale_down s2)
      with (percentage_clients_to_scale_down s1).
    by rewrite Hact1, Hpct1. }
  cbv zeta in Hcount, Hthr3.
  change (total_active_client_count s2) with (total_active_client_count s1)
    in Hcount, Hthr3.
  rewrite Hceil, Hact1 in Hcount. rewrite Hact1 in Hthr3.
  destruct (state s) eqn:Hstate; try done;
    (eexists; split; [exact Hdown|]; by split_and!).
Qed.

Lemma hundred_clients_reachable : reachable hundred_clients.
Proof.
  apply (reach_other
           (receiveMsg_StartFeedbackActor (coordinator_shared_client_dict [seqZ 0 100]) []
              (receiveMsg_ConfigureFeedbackScaling 100 (Double.literal (7 # 100))
                 30 30 None (init 0 0 0 0)))); [|reflexivity..].
  apply reach_start. apply configured_msg, configured_init.
Qed.

Lemma hundred_active_reachable : reachable hundred_active.
Proof.
  eapply reach_other;
    [eapply (reach_scale_up (first_indices (1 # 2)) 10 hundred_clients);
       [apply genuine_first_indices; lra
       |apply hundred_clients_reachable
       |vm_compute; reflexivity]
    |vm_compute; reflexivity..].
Qed.

(** A hundred active clients at seven percent: eight are paused. *)
Lemma errors_scale_down_once_witness :
  ∃ s', receiveMsg_WakeupMessage (wakeup_at 50 [RequestError 1 "search"])
          hundred_active = Some s' ∧
        total_active_client_count s' = 100 - 8 ∧
        max_error_threshold s' = Finite 100 ∧
        error_queue s' = [] ∧
        state s' = SLEEP ∧
        last_error_time s' = 50%Q ∧
        sleep_start_time s' = 50%Q.
Proof.
  apply (errors_scale_down_once (wakeup_at 50 [RequestError 1 "search"]) hundred_active).
  - apply hundred_active_reachable.
  - apply genuine_first_indices; lra.
  - intros Hcpu. vm_compute in Hcpu. discriminate Hcpu.
  - by vm_compute.
  - by vm_compute.
  - right. discriminate.
Defined.
End FeedbackRunsFacts.

(** ** The loop of the executor *)

Module ExecutorRunsFacts.
Import Samples Executor ExecutorRuns ExecutorFacts.

Section facts.
Context `{RequestContextHolder}.
Implicit Types (w : World).

(** *** What the executor leaves alone *)

(** One step of a frame proof for a part of the world that the error queue
    and the samplers are not part of. *)
Ltac frame_step :=
  lazymatch goal with
  | |- keeps _ (_ ≫= _) => apply keeps_bind; [|intros]
  | |- keeps _ (ret _) => apply keeps_ret
  | |- keeps _ (raise _) => apply keeps_raise
  | |- keeps _ time_out => apply keeps_time_out
  | |- keeps _ (gets _) => apply keeps_gets
  | |- keeps _ (report_error _) =>
      apply keeps_modify;
      let w0 := fresh "w" in
      intros w0; destruct (error_queue w0) as [?|]; [case_match|]; done
  | |- keeps _ (sampler_add _ _) =>
      apply keeps_modify; intros ?; by case_match
  | |- keeps _ (profile_sampler_add _ _) =>
      apply keeps_modify; intros ?; by case_match
  | |- keeps _ (fire _) => by apply keeps_modify
  | |- keeps _ (pacer _) => by apply keeps_modify
  | |- keeps _ (modify _) => by apply keeps_modify
  | |- keeps _ (catch_timeout _ _) => apply keeps_catch_timeout
  | |- keeps _ (if ?b then _ else _) => destruct b
  | |- keeps _ (match ?x with _ => _ end) => destruct x
  end.

Lemma execute_single_keeps_complete runner params on_error redline_enabled enabled :
  keeps complete (execute_single runner params on_error redline_enabled enabled).
Proof.
  unfold execute_single. destruct enabled; [|repeat frame_step].
  apply keeps_bind.
  { intros w. by destruct (run runner params (context w)). }
  intros r. apply keeps_bind; [destruct r; repeat frame_step|].
  intros [[[fatal_error total_ops] total_ops_unit] meta].
  repeat frame_step.
Qed.

Lemma request_keeps_complete self shared total_start item t count :
  keeps complete (request self shared total_start item t count).
Proof.
  unfold request. apply keeps_bind.
  - unfold _execute_request.
    do 2 (apply keeps_bind; [by apply keeps_modify|intros _]).
    apply keeps_bind.
    { apply keeps_catch_timeout; [apply execute_single_keeps_complete|].
      repeat frame_step. }
    intros [[total_ops total_ops_unit] meta].
    apply keeps_bind; [unfold settle_timings; repeat frame_step|].
    intros [[[rs re] crs] cre]. apply keeps_ret.
  - intros rd. apply keeps_bind; [|intros; apply keeps_ret].
    unfold _process_results. repeat frame_step.
Qed.

(** The loop never clears the completion event, and sets it only where
    somebody else does. *)
Lemma main_loop_complete self total_start turns count w :
  let w' := (main_loop self total_start turns count w).2 in
  (complete w = true → complete w' = true) ∧
  (Forall (λ t, turn_completed_elsewhere t = false) turns → complete w' = complete w).
Proof.
  revert count w. induction turns as [|t turns IH]; intros count w; cbn [main_loop].
  - done.
  - destruct (turn_cancelled t); [done|].
    set (w0 := if turn_completed_elsewhere t then with_complete true w else w).
    assert ((complete w = true → complete w0 = true) ∧
            (turn_completed_elsewhere t = false → complete w0 = complete w))
      as [Hset0 Hkeep0].
    { unfold w0. by destruct (turn_completed_elsewhere t). }
    pose proof (request_keeps_complete self (turn_shared_states t) total_start
                  (turn_item t) (turn_readings t) count w0) as Hkeep.
    assert (∀ k : bool * Z → M (),
              (((if turn_completed_elsewhere t then complete_set else ret ());;
                request self (turn_shared_states t) total_start (turn_item t)
                  (turn_readings t) count ≫= k) w) =
              ((request self (turn_shared_states t) total_start (turn_item t)
                  (turn_readings t) count ≫= k) w0)) as ->.
    { intros k. unfold w0. by destruct (turn_completed_elsewhere t). }
    unfold mbind, M_bind, bind.
    destruct (request self (turn_shared_states t) total_start (turn_item t)
                (turn_readings t) count w0) as [[[completed count']|f] w1];
      cbn [snd] in Hkeep |- *.
    + destruct completed.
      * cbn. split; [intros Hw; rewrite Hkeep; by apply Hset0|].
        intros [Hflag _]%Forall_cons. rewrite Hkeep. by apply Hkeep0.
      * destruct (IH count' w1) as [Hset Hsame]. cbn zeta in Hset, Hsame. split.
        -- intros Hw. apply Hset. rewrite Hkeep. by apply Hset0.
        -- intros [Hflag Hrest]%Forall_cons. rewrite Hsame by done.
           rewrite Hkeep. by apply Hkeep0.
    + cbn. split; [intros Hw; rewrite Hkeep; by apply Hset0|].
      intros [Hflag _]%Forall_cons. rewrite Hkeep. by apply Hkeep0.
Qed.

(** X18. However the loop of the executor ends, with the schedule
    exhausted, a cancellation, a completed task or an exception, a task
    that completes its parent has set the completion event when
    [__call__] is over. The executor never clears the event: set before
    the call, it is still set afterwards. And the loop itself never sets
    it: for a task that does not complete its parent, with neither the
    worker nor another executor setting the event during the loop, it is
    afterwards as it was before. *)
Theorem completing_task_signals self total_start turns w :
  let w' := (call self total_start turns w).2 in
  (task_completes_parent self = true → complete w' = true) ∧
  (complete w = true → complete w' = true) ∧
  (task_completes_parent self = false →
   Forall (λ t, turn_completed_elsewhere t = false) turns →
   complete w' = complete w).
Proof.
  cbn zeta. unfold call.
  destruct (main_loop_complete self total_start turns 0 w) as [Hset Hsame].
  cbn zeta in Hset, Hsame.
  destruct (main_loop self total_start turns 0 w) as [o w1]. cbn [snd] in *.
  destruct (task_completes_parent self); cbn [snd]; by split_and!.
Qed.

(** *** Paused clients *)

Lemma request_paused self shared total_start item t count w :
  PyDict.get (client_id self) shared = Some false →
  ∃ w' count',
    request self (Some shared) total_start item t count w =
      (Returned (complete w, count'), w') ∧
    runner_invocations w' = runner_invocations w ∧
    sampler w' = sampler w ∧
    profile_sampler w' = profile_sampler w ∧
    pacer_calls w' =
      pacer_calls w ++ [BeforeRequest (processing_start t);
                        AfterRequest (processing_end t) 0 "ops" skipped_notice] ∧
    complete w' = complete w.
Proof.
  intros Hpaused. unfold request, client_state_of. rewrite Hpaused. cbn [default].
  set (add := wants_profile_sample _ _).
  set (count' := if add then _ else _).
  set (params := mark_profile_query _ _).
  destruct (execute_request_paused self (scheduled_runner item) t params
              (expected_scheduled_time item) total_start w)
    as (rd & w1 & Hrun & Hmeta & Hend & Hinv & Hsam & Hprof & Hpace & Hcomp).
  erewrite bind_run by exact Hrun.
  erewrite bind_run.
  2:{ apply process_results_skipped. rewrite Hmeta.
      apply skipped_meta_data_flags. }
  do 2 eexists. split; [by rewrite Hcomp|].
  cbn. rewrite Hpace, Hend, <- app_assoc. by split_and!.
Qed.

(** X19. A client that is paused at every turn goes through its whole
    schedule without contacting the cluster: the loop ends normally after
    the last turn, the runner is never invoked, neither sampler receives a
    sample, and the pacer hears, for every turn in order, [before_request]
    and [after_request] with weight 0 and [{success: false, skipped:
    true}]. This is so as long as nobody else sets the completion signal
    or cancels. *)
Theorem paused_client_idles self total_start turns w :
  Forall (λ t, turn_cancelled t = false ∧ turn_completed_elsewhere t = false ∧
               ∃ shared, turn_shared_states t = Some shared ∧
                         PyDict.get (client_id self) shared = Some false) turns →
  complete w = false →
  ∃ w',
    call self total_start turns w = (Finished, w') ∧
    runner_invocations w' = runner_invocations w ∧
    sampler w' = sampler w ∧
    profile_sampler w' = profile_sampler w ∧
    pacer_calls w' = pacer_calls w ++ (turns ≫= paused_calls) ∧
    complete w' = task_completes_parent self.
Proof.
  intros Hturns Hcomplete.
  enough (∀ count w,
            complete w = false →
            ∃ w', main_loop self total_start turns count w = (Returned (), w') ∧
                  runner_invocations w' = runner_invocations w ∧
                  sampler w' = sampler w ∧
                  profile_sampler w' = profile_sampler w ∧
                  pacer_calls w' = pacer_calls w ++ (turns ≫= paused_calls) ∧
                  complete w' = false) as Hloop.
  { destruct (Hloop 0 w Hcomplete) as (w' & Hrun & Hinv & Hsam & Hprof & Hpace & Hcomp).
    unfold call. rewrite Hrun.
    destruct (task_completes_parent self); eexists; (split; [done|]);
      by split_and!. }
  clear w Hcomplete.
  induction Hturns as [|t turns (Hcancel & Hquiet & shared & Hshared & Hpaused) _ IH];
    intros count w Hcomplete; cbn [main_loop].
  - exists w. cbn. rewrite app_nil_r. by split_and!.
  - rewrite Hcancel, Hquiet, Hshared.
    erewrite bind_run by reflexivity.
    destruct (request_paused self shared total_start (turn_item t) (turn_readings t)
                count w Hpaused)
      as (w1 & count' & Hrun & Hinv & Hsam & Hprof & Hpace & Hcomp).
    erewrite bind_run by exact Hrun. rewrite Hcomplete.
    destruct (IH count' w1) as (w' & Hrun' & Hinv' & Hsam' & Hprof' & Hpace' & Hcomp');
      [congruence|].
    exists w'. split; [done|].
    cbn [mbind list_bind]. unfold paused_calls at 2.
    rewrite Hpace', Hpace, <- app_assoc. by split_and!; try congruence.
Qed.

(** *** Errors, time-outs and the error queue *)

Lemma settle_timings_world self t meta w :
  (settle_timings self t meta w).2 =
  if (negb (get_truthy "success" meta) || lacks_timing (context w)) &&
     negb (get_truthy "skipped" meta)
  then with_error_queue (reported (error_of self meta) (error_queue w)) w
  else w.
Proof.
  unfold settle_timings, lacks_timing.
  do 4 (erewrite bind_run by reflexivity).
  destruct (negb (get_truthy "success" meta) || existsb _ _); cbn [andb].
  - destruct (negb (get_truthy "skipped" meta)); [|done].
    unfold report_error, modify, mbind, M_bind, bind, reported, error_of.
    destruct w as [c n q sam prof calls comp]. cbn.
    destruct q as [q|]; [case_match|]; done.
  - done.
Qed.

Lemma execute_single_keeps_queue runner params on_error redline_enabled enabled :
  keeps error_queue (execute_single runner params on_error redline_enabled enabled).
Proof.
  unfold execute_single. destruct enabled; [|repeat frame_step].
  apply keeps_bind.
  { intros w. by destruct (run runner params (context w)). }
  intros r. apply keeps_bind; [destruct r; repeat frame_step|].
  intros [[[fatal_error total_ops] total_ops_unit] meta].
  repeat frame_step.
Qed.

Lemma guarded_execute_keeps_queue runner params on_error redline_enabled enabled :
  keeps error_queue
    (catch_timeout
       (execute_single runner params on_error redline_enabled enabled)
       (fire on_client_request_start;;
        fire on_request_start;;
        fire on_request_end;;
        fire on_client_request_end;;
        ret (0%Q, "ops"%string, timeout_meta_data))).
Proof.
  apply keeps_catch_timeout; [apply execute_single_keeps_queue|].
  repeat frame_step.
Qed.

(** X20. Which requests reach the error queue that feeds the redline
    controller. When [_execute_request] returns, the queue holds one more
    record, naming the client, the task and the request meta-data, if the
    request was not successful or the request context lacks a timing,
    unless the meta-data are marked [skipped]; otherwise the queue is as
    before. Without a queue, or with a full one, the record is dropped. *)
Theorem failed_request_reported self runner t params expected total_start client_state
    w rd w' :
  _execute_request self runner t params expected total_start client_state w =
    (Returned rd, w') →
  error_queue w' =
    if (negb (get_truthy "success" (rd_request_meta_data rd)) ||
        lacks_timing (context w')) &&
       negb (get_truthy "skipped" (rd_request_meta_data rd))
    then reported (error_of self (rd_request_meta_data rd)) (error_queue w)
    else error_queue w.
Proof.
  unfold _execute_request. intros Hrun.
  apply bind_returned in Hrun as ([] & w1 & Hpacer & Hrun).
  apply bind_returned in Hrun as ([] & w2 & Hctx & Hrun).
  apply bind_returned in Hrun as ([[total_ops unit] meta] & w3 & Hexec & Hrun).
  apply bind_returned in Hrun as ([[[rs re] crs] cre] & w4 & Hsettle & Hrun).
  injection Hrun as <- <-. cbn [rd_request_meta_data].
  assert (error_queue w3 = error_queue w) as Hqueue.
  { injection Hpacer as <-. injection Hctx as <-.
    pose proof (guarded_execute_keeps_queue runner params (on_error self)
                  (redline_enabled self) client_state
                  (with_context new_request_context
                     (with_pacer_calls
                        (pacer_calls w ++ [BeforeRequest (processing_start t)]) w)))
      as Hkeep.
    rewrite Hexec in Hkeep. exact Hkeep. }
  pose proof (settle_timings_world self t meta w3) as Hworld.
  rewrite Hsettle in Hworld. cbn [snd] in Hworld. subst w4.
  destruct ((negb (get_truthy "success" meta) || lacks_timing (context w3)) &&
            negb (get_truthy "skipped" meta)) eqn:Hcond.
  - cbn [context with_error_queue]. rewrite Hcond. cbn. by rewrite Hqueue.
  - by rewrite Hcond.
Qed.

(** *** Time-outs *)

Lemma never_times_out_bind {A B} (m : M A) (k : A → M B) :
  never_times_out m → (∀ a, never_times_out (k a)) → never_times_out (m ≫= k).
Proof.
  intros Hm Hk w. unfold mbind, M_bind, bind. specialize (Hm w).
  destruct (m w) as [[a|f] w1]; cbn in *; [apply Hk|].
  intros [= ->]. by apply Hm.
Qed.

Lemma never_times_out_modify f : never_times_out (modify f).
Proof. by intros w. Qed.

Lemma never_times_out_gets {A} (f : World → A) : never_times_out (gets f).
Proof. by intros w. Qed.

Lemma never_times_out_ret {A} (a : A) : never_times_out (ret a).
Proof. by intros w. Qed.

Lemma never_times_out_catch {A} (m handler : M A) :
  never_times_out handler → never_times_out (catch_timeout m handler).
Proof.
  intros Hh w. unfold catch_timeout.
  destruct (m w) as [[a|[e|]] w1]; cbn; [done..|apply Hh].
Qed.

(** X21. [_execute_request] never ends in [asyncio.TimeoutError], whatever
    the runner does: a request that times out is caught and returned as a
    failed request. *)
Theorem execute_request_never_times_out self runner t params expected total_start
    client_state :
  never_times_out
    (_execute_request self runner t params expected total_start client_state).
Proof.
  unfold _execute_request.
  do 2 (apply never_times_out_bind; [apply never_times_out_modify|intros _]).
  apply never_times_out_bind.
  { apply never_times_out_catch.
    repeat (apply never_times_out_bind; [apply never_times_out_modify|intros _]).
    apply never_times_out_ret. }
  intros [[total_ops total_ops_unit] meta].
  apply never_times_out_bind; [|intros [[[rs re] crs] cre]; apply never_times_out_ret].
  unfold settle_timings.
  do 4 (apply never_times_out_bind; [apply never_times_out_gets|intros ?]).
  case_match; [|apply never_times_out_ret].
  apply never_times_out_bind; [|intros; apply never_times_out_ret].
  case_match; [apply never_times_out_modify|apply never_times_out_ret].
Qed.

(** X22. A request of an active client whose runner times out: the request
    returns with zero operations and the meta-data
    [{success: False, error-type: timeout}], the runner was invoked once,
    the four callbacks of the timing lifecycle have fired on the context
    the runner left, and the failure is reported to the error queue. *)
Theorem timed_out_request self runner t params expected total_start w c :
  run runner params new_request_context = (TimedOut, c) →
  ∃ rd w',
    _execute_request self runner t params expected total_start true w =
      (Returned rd, w') ∧
    rd_request_meta_data rd = timeout_meta_data ∧
    rd_total_ops rd = 0%Q ∧ rd_total_ops_unit rd = "ops"%string ∧
    runner_invocations w' = S (runner_invocations w) ∧
    context w' =
      on_client_request_end
        (on_request_end (on_request_start (on_client_request_start c))) ∧
    error_queue w' = reported (error_of self timeout_meta_data) (error_queue w).
Proof.
  intros Hrunner. unfold _execute_request.
  erewrite bind_run by reflexivity.
  erewrite bind_run by reflexivity.
  erewrite bind_run.
  2:{ unfold catch_timeout, execute_single.
      unfold mbind at 1, M_bind at 1, bind at 1. cbn [context with_context].
      rewrite Hrunner. cbn. reflexivity. }
  cbv beta iota.
  match goal with
  | |- context [(settle_timings self t ?m ≫= _) ?w3] =>
      pose proof (settle_timings_world self t m w3) as Hworld;
      destruct (settle_timings_spec self t m w3) as (w4 & Hsettle & _)
  end.
  rewrite Hsettle in Hworld. cbn [snd] in Hworld.
  erewrite bind_run by exact Hsettle. subst w4.
  do 2 eexists. split; [reflexivity|].
  cbn. by split_and!.
Qed.

(** *** Redline mode *)

(** X23. In redline mode [execute_single] does not abort the benchmark
    over a failed request: of its own it raises neither
    [BenchmarkAssertionError] nor [SystemSetupError], whatever [on_error]
    says and even on a connection error. A transport error of the runner
    is returned as zero operations with the meta-data of the error,
    [success] being [False]. What escapes is the time-out of the runner,
    an exception of the runner that is neither a transport error nor a
    [KeyError], as the runner raised it, and, after a [KeyError] of the
    runner, the [AttributeError] of listing the keys of parameters that
    are [None] or else the [UnboundLocalError] of reading the meta-data
    that were never assigned. *)
Theorem redline_never_aborts runner params on_error client_enabled w :
  match (execute_single runner params on_error true client_enabled w).1 with
  | Returned (total_ops, total_ops_unit, meta) =>
      ∀ e, client_enabled = true →
           (run runner params (context w)).1 = RaisedTransportError e →
           total_ops = 0%Q ∧ total_ops_unit = "ops"%string ∧
           meta = transport_meta_data e ∧ get_truthy "success" meta = false
  | Failed TimeoutError =>
      client_enabled = true ∧ (run runner params (context w)).1 = TimedOut
  | Failed (Exception e) =>
      client_enabled = true ∧
      ((run runner params (context w)).1 = RaisedOther e ∨
       ∃ msg, (run runner params (context w)).1 = RaisedKeyError msg ∧
              e = match params with
                  | None => NoneType_has_no_keys
                  | Some _ => UnboundLocalError "request_meta_data"
                  end)
  end.
Proof.
  assert (∀ e, get_truthy "success" (transport_meta_data e) = false) as Hfailed.
  { intros e. unfold transport_meta_data, get_truthy.
    destruct (status_code e), (is_connection_timeout e), (info e) as [i|];
      try destruct (String.eqb i ""); by vm_compute. }
  unfold execute_single. destruct client_enabled; [|done].
  unfold mbind at 1, M_bind at 1, bind at 1.
  destruct (run runner params (context w)) as [[weight unit|d| |e|msg|e|] c] eqn:Hrun;
    cbn [fst snd]; unfold mbind, M_bind, bind, ret, raise, time_out, fire, modify;
    cbn; rewrite ?andb_false_r; cbn; try done.
  - intros e' _ [= <-]. by split_and!.
  - destruct params; cbn; (split; [done|]); right; by exists msg.
  - split; [done|]. by left.
Qed.
End facts.

Lemma completing_task_signals_witness :
  complete (call search_executor 100 paused_turns idle_world).2 = complete idle_world.
Proof.
  apply (proj2 (proj2 (completing_task_signals search_executor 100 paused_turns
                         idle_world))).
  - reflexivity.
  - apply Forall_cons. split; [reflexivity|].
    apply Forall_cons. split; [reflexivity|]. apply Forall_nil_2.
Defined.

(** The event that another executor sets during the loop ends the loop of
    this one and stays set, though its task does not complete the parent. *)
Example completed_by_sibling :
  let turns :=
    [{| turn_item := search_item; turn_readings := search_readings;
        turn_shared_states := Some [(7, false)]; turn_cancelled := false;
        turn_completed_elsewhere := true |};
     {| turn_item := search_item; turn_readings := search_readings;
        turn_shared_states := Some [(7, false)]; turn_cancelled := false;
        turn_completed_elsewhere := false |}] in
  let r := call search_executor 100 turns idle_world in
  task_completes_parent search_executor = false ∧
  complete idle_world = false ∧
  r.1 = Finished ∧
  complete r.2 = true ∧
  pacer_calls r.2 = take 1 turns ≫= paused_calls.
Proof. by vm_compute. Qed.

(** What redline mode lets through: the exception of the runner, and after
    a [KeyError] the failure of the handler itself. *)
Example redline_lets_through :
  (execute_single broken_runner None "continue" true true idle_world).1 =
    Failed (Exception (PyException "ValueError")) ∧
  (execute_single demanding_runner None "continue" true true idle_world).1 =
    Failed (Exception NoneType_has_no_keys) ∧
  (execute_single demanding_runner None "continue" false true idle_world).1 =
    Failed (Exception NoneType_has_no_keys) ∧
  (execute_single demanding_runner (Some ∅) "continue" true true idle_world).1 =
    Failed (Exception (UnboundLocalError "request_meta_data")) ∧
  (execute_single demanding_runner (Some ∅) "continue" false true idle_world).1 =
    Failed (Exception (SystemSetupError "'index'")).
Proof. by split_and!. Qed.

Lemma paused_client_idles_witness :
  ∃ w',
    call search_executor 100 paused_turns idle_world = (Finished, w') ∧
    runner_invocations w' = 0%nat ∧
    sampler w' = [] ∧
    profile_sampler w' = [] ∧
    pacer_calls w' = [] ++ (paused_turns ≫= paused_calls) ∧
    complete w' = false.
Proof.
  apply (paused_client_idles search_executor 100 paused_turns idle_world).
  - apply Forall_cons. split; [split_and!; [reflexivity..|by eexists]|].
    apply Forall_cons. split; [split_and!; [reflexivity..|by eexists]|].
    apply Forall_nil_2.
  - reflexivity.
Defined.

Lemma failed_request_reported_witness :
  ∃ rd w',
    _execute_request search_executor stalled_runner search_readings None 2 100 true
      idle_world = (Returned rd, w') ∧
    error_queue w' =
      if (negb (get_truthy "success" (rd_request_meta_data rd)) ||
          lacks_timing (context w')) &&
         negb (get_truthy "skipped" (rd_request_meta_data rd))
      then reported (error_of search_executor (rd_request_meta_data rd))
             (error_queue idle_world)
      else error_queue idle_world.
Proof.
  eexists _, _. split; [vm_compute; reflexivity|].
  eapply (failed_request_reported search_executor stalled_runner search_readings None
            2 100 true idle_world).
  vm_compute. reflexivity.
Defined.

Lemma timed_out_request_witness :
  ∃ rd w',
    _execute_request search_executor stalled_runner search_readings None 2 100 true
      idle_world = (Returned rd, w') ∧
    rd_request_meta_data rd = timeout_meta_data ∧
    rd_total_ops rd = 0%Q ∧ rd_total_ops_unit rd = "ops"%string ∧
    runner_invocations w' = 1%nat ∧
    context w' =
      on_client_request_end
        (on_request_end
           (on_request_start
              (on_client_request_start (on_client_request_start new_request_context)))) ∧
    error_queue w' = Some [error_of search_executor timeout_meta_data].
Proof.
  apply (timed_out_request search_executor stalled_runner search_readings None 2 100
           idle_world (on_client_request_start new_request_context)).
  reflexivity.
Defined.
End ExecutorRunsFacts.

(** ** What a throughput datum measures *)

Module ThroughputViewsFacts.
Import Samples Throughput ThroughputViews ThroughputFacts.

(** X24. What the throughput of a task measures. Every datum that
    [calculate_task_throughput] emits for a list of samples that is not
    empty is emitted at one of them and reports a cumulative mean: the operations of all samples
    up to that one, added to the count of earlier calls, over the
    interval from the start of the task to the latest of those samples,
    which is positive; the unit is the sample's unit per second. *)
Theorem throughput_is_cumulative task_stats task first_sample rest bucket_interval_secs :
  Forall (cumulative (initial_stats task_stats task first_sample bucket_interval_secs)
            (first_sample :: rest))
    (calculate_task_throughput task_stats task (first_sample :: rest)
       bucket_interval_secs).2.
Proof.
  unfold calculate_task_throughput. cbv beta iota.
  fold (initial_stats task_stats task first_sample bucket_interval_secs).
  set (c0 := initial_stats _ _ _ _).
  set (current_samples := first_sample :: rest).
  destruct (throughput_fold_cumulative c0 current_samples [] current_samples
              (c0, total_count c0, [], None) eq_refl eq_refl eq_refl eq_refl
              (Forall_nil_2 _) (λ _ Hc, Hc)) as (Hcount & Hint & Hdata & _ & Hlast).
  destruct (foldl throughput_step _ current_samples) as [[[c count] tt] last_sample].
  cbn [fst snd] in *.
  destruct last_sample as [ls|]; [|done].
  destruct (can_add_final_throughput_sample c) eqn:Hfinal; [|done].
  cbn [snd]. apply Forall_app. split; [done|]. constructor; [|constructor].
  assert (last current_samples = Some ls) as Hls.
  { destruct (last current_samples); [done|discriminate]. }
  apply last_Some in Hls as [before Hbefore].
  exists before, ls, []. split; [done|]. split; [done|].
  apply andb_true_iff in Hfinal as [Hpos%Qlt_bool_true _].
  rewrite <- Hbefore, <- Hcount, <- Hint. split_and!; done.
Qed.

(** X25. The first call for a task always yields throughput. For a task
    the calculator has not seen, if the first of the samples took a
    positive time ([time_period > 0]), the call emits at least one datum,
    however short the samples are of the bucket interval: the last sample
    is reported when no bucket was completed. *)
Theorem first_call_yields_throughput task_stats task first_sample rest
    bucket_interval_secs :
  task_stats !! task = None →
  (0 < time_period first_sample)%Q →
  (calculate_task_throughput task_stats task (first_sample :: rest)
     bucket_interval_secs).2 ≠ [].
Proof.
  intros Hnew Hperiod. unfold calculate_task_throughput.
  cbv beta iota.
  fold (initial_stats task_stats task first_sample bucket_interval_secs).
  set (c0 := initial_stats _ _ _ _).
  assert (has_samples_in_sample_type c0 = false ∧ interval c0 = 0%Q ∧
          start_time c0 = (absolute_time first_sample - time_period first_sample)%Q)
    as (Hfresh & Hi0 & Hstart0).
  { unfold c0, initial_stats. by rewrite Hnew. }
  destruct (throughput_fold_cumulative c0 (first_sample :: rest) []
              (first_sample :: rest)
              (c0, total_count c0, [], None) eq_refl eq_refl eq_refl eq_refl
              (Forall_nil_2 _) (λ _ Hc, Hc)) as (_ & Hint & _ & Hnone & Hlast).
  destruct (foldl throughput_step _ (first_sample :: rest))
    as [[[c count] tt] last_sample].
  cbn [fst snd] in *.
  assert (0 < interval c)%Q as Hpos.
  { rewrite Hint. unfold interval_after. cbn [foldl].
    assert (0 < py_max (absolute_time first_sample - start_time c0) (interval c0))%Q
      as Hfirst.
    { destruct (py_max_ge (absolute_time first_sample - start_time c0) (interval c0))
        as [Hge _]. rewrite Hstart0 in *. lra. }
    revert Hfirst. generalize (py_max (absolute_time first_sample - start_time c0)
                                 (interval c0)).
    clear. induction rest as [|s rest IH]; intros i Hi; [done|].
    cbn [foldl]. apply IH.
    destruct (py_max_ge (absolute_time s - start_time c0) i) as [_ Hge]. lra. }
  destruct last_sample as [ls|].
  2:{ by rewrite ThroughputFacts.last_cons_default in Hlast;
        destruct (last rest). }
  unfold can_add_final_throughput_sample. rewrite (Qlt_bool_lt _ _ Hpos).
  destruct tt as [|d tt].
  - rewrite Hnone by done. cbn. discriminate.
  - destruct (has_samples_in_sample_type c); cbn; [discriminate|].
    intros Heq. by destruct tt.
Qed.

Lemma first_call_yields_throughput_witness :
  (calculate_task_throughput ∅ "T" three_samples 10).2 ≠ [].
Proof.
  apply (first_call_yields_throughput ∅ "T" (sample_at 0 1 Normal 1)
           [sample_at 0 2 Normal 2; sample_at 0 3 Normal 3] 10).
  - reflexivity.
  - reflexivity.
Defined.

(** A loop that emits nothing keeps every sample and leaves the count of
    the task as it was. *)
Lemma throughput_fold_keeps c count last_sample samples :
  let r := foldl throughput_step (c, count, [], last_sample) samples in
  r.1.2 = [] →
  unprocessed r.1.1.1 = unprocessed c ++ samples ∧
  total_count r.1.1.1 = total_count c.
Proof.
  induction samples as [|s samples IH] using rev_ind; cbn zeta.
  - cbn. by rewrite app_nil_r.
  - rewrite foldl_app. cbn [foldl]. cbn zeta in IH.
    destruct (foldl throughput_step (c, count, [], last_sample) samples)
      as [[[c1 count1] tt1] last1].
    cbn [fst snd] in IH. unfold throughput_step.
    destruct (can_calculate_throughput _); cbn [fst snd].
    + intros Hnil. by destruct tt1.
    + intros ->. destruct IH as [Hkept Hcount]; [done|].
      unfold maybe_update_sample_type.
      destruct (SampleType_lt _ _); cbn; by rewrite Hkept, Hcount, <- ?app_assoc.
Qed.

(** Two calls of [calculate] lead to the statistics [between_buckets]: the
    first reports the sample of second 1, the second keeps the sample of
    second 2. *)
Example between_buckets_reached :
  (calculate (calculate ∅ [sample_at 0 1 Normal 1] 10).1
             [sample_at 0 2 Normal 2] 10).1 !! "T" = Some between_buckets.
Proof. by vm_compute. Qed.

(** X30. Samples kept between two buckets are kept twice. When
    [calculate] works on a task it has statistics for, and the call emits
    no throughput for the task, the samples kept for the next call are
    those kept before followed by all samples of this call in time order,
    which include those kept before once more: every sample carried over
    is in the list twice, and the next call adds its operations twice to
    the count. The count of the task itself is unchanged. *)
Theorem kept_samples_are_doubled bucket_interval_secs task_stats global task v c :
  task_stats !! task = Some c →
  v ≠ [] →
  Forall (λ s, throughput s = None) (v ++ unprocessed c) →
  let r := calculate_task bucket_interval_secs (task_stats, global) (task, v) in
  PyDict.get task r.2 = Some [] →
  ∃ c', r.1 !! task = Some c' ∧
        total_count c' = total_count c ∧
        unprocessed c' = unprocessed c ++ sorted_by_time (v ++ unprocessed c) ∧
        unprocessed c' ≡ₚ v ++ unprocessed c ++ unprocessed c.
Proof.
  intros Hc Hv Hnone. unfold calculate_task, chained. rewrite Hc.
  pose proof (ThroughputFacts.sorted_by_time_Permutation (v ++ unprocessed c)) as Hperm.
  set (current_samples := sorted_by_time _) in *.
  destruct current_samples as [|first_sample rest] eqn:Hcs.
  { apply Permutation_nil_l in Hperm. by destruct v. }
  rewrite <- Hcs in *.
  assert (throughput first_sample = None) as ->.
  { eapply (proj1 (Forall_forall _ _) Hnone). rewrite <- Hperm, Hcs. by left. }
  unfold calculate_task_throughput. rewrite Hc.
  pose proof (throughput_fold_keeps c (total_count c) None current_samples) as Hkeeps.
  cbn zeta in Hkeeps.
  destruct (foldl throughput_step (c, total_count c, [], None) current_samples)
    as [[[c1 count1] tt1] last1].
  cbn [fst snd] in Hkeeps.
  assert (∀ (stats : gmap string TaskStats) tt,
            PyDict.get task
              (PyDict.set task
                 (default [] (PyDict.get task
                    match PyDict.get task global with
                    | Some _ => global
                    | None => PyDict.set task [] global
                    end) ++ tt)
                 match PyDict.get task global with
                 | Some _ => global
                 | None => PyDict.set task [] global
                 end) = Some [] → tt = []) as Hempty.
  { intros _ tt. rewrite pydict_get_set_eq. intros [= Happ].
    by apply app_eq_nil in Happ as [_ ->]. }
  destruct last1 as [ls|].
  - destruct (can_add_final_throughput_sample c1); cbn zeta; cbn [fst snd].
    + intros Hget%(Hempty ∅). by destruct tt1.
    + intros ->%(Hempty ∅). destruct Hkeeps as [Hkept Hcount]; [done|].
      exists c1. rewrite lookup_insert_eq. split_and!; [done..|].
      rewrite Hkept, Hperm. rewrite (Permutation_app_comm (unprocessed c)).
      by rewrite <- app_assoc.
  - cbn zeta; cbn [fst snd]. intros ->%(Hempty ∅).
    destruct Hkeeps as [Hkept Hcount]; [done|].
    exists c1. rewrite lookup_insert_eq. split_and!; [done..|].
    rewrite Hkept, Hperm. rewrite (Permutation_app_comm (unprocessed c)).
    by rewrite <- app_assoc.
Qed.

Lemma kept_samples_are_doubled_witness :
  ∃ c', (calculate_task 10 ({[ "T" := between_buckets ]}, [])
           ("T", [sample_at 0 3 Normal 3])).1 !! "T" = Some c' ∧
        total_count c' = 1%Q ∧
        unprocessed c' =
          [sample_at 0 2 Normal 2] ++
          sorted_by_time ([sample_at 0 3 Normal 3] ++ [sample_at 0 2 Normal 2]) ∧
        unprocessed c' ≡ₚ
          [sample_at 0 3 Normal 3] ++ [sample_at 0 2 Normal 2] ++
          [sample_at 0 2 Normal 2].
Proof.
  apply (kept_samples_are_doubled 10 {[ "T" := between_buckets ]} [] "T"
           [sample_at 0 3 Normal 3] between_buckets).
  - reflexivity.
  - discriminate.
  - repeat constructor.
  - reflexivity.
Defined.
End ThroughputViewsFacts.

(** ** Where the allocator places the clients *)

Module PlacementFacts.
Import Workload Allocator Placement.
Local Open Scope nat_scope.

Implicit Types (rows : list (list cell)) (F G : nat → list cell).
Implicit Types (n k r m j start : nat) (flat pre : list TaskAllocation).

Lemma described_ext n F G rows :
  described n F rows → (∀ r, (r < n)%nat → F r = G r) → described n G rows.
Proof.
  intros [Hlen HF] HFG. split; [done|]. intros r row Hr.
  rewrite <- HFG; [by apply HF|]. rewrite <- Hlen. by eapply lookup_lt_Some.
Qed.

Lemma described_eq n F rows : described n F rows → rows = F <$> seq 0 n.
Proof.
  intros [Hlen HF]. apply list_eq. intros r.
  rewrite list_lookup_fmap.
  destruct (rows !! r) as [row|] eqn:Hrow.
  - rewrite (lookup_seq_lt 0 n r); [cbn; f_equal; by apply HF|].
    rewrite <- Hlen. by eapply lookup_lt_Some.
  - rewrite lookup_seq_ge; [done|]. rewrite <- Hlen. by apply lookup_ge_None.
Qed.

Lemma described_append_at n F rows i x :
  described n F rows →
  described n (λ r, if decide (r = i) then F r ++ [x] else F r) (append_at i x rows).
Proof.
  intros [Hlen HF]. unfold append_at. split; [by rewrite length_alter|].
  intros r row. case_decide as Hri.
  - subst r. rewrite list_lookup_alter_eq.
    destruct (rows !! i) as [row0|] eqn:Hrow; [|done].
    intros [= <-]. f_equal. by apply HF.
  - rewrite list_lookup_alter_ne by done. apply HF.
Qed.

Lemma described_append_all n F rows a len x :
  described n F rows →
  described n (λ r, if decide (a ≤ r < a + len)%nat then F r ++ [x] else F r)
            (append_all (seq a len) x rows).
Proof.
  unfold append_all. revert a F rows.
  induction len as [|len IH]; intros a F rows Hs; cbn [seq foldl].
  - eapply described_ext; [done|]. intros r _. case_decide; [lia|done].
  - eapply described_ext; [apply IH, described_append_at, Hs|].
    intros r _. cbn beta. repeat case_decide; try done; lia.
Qed.

Lemma dealt_to_own n k : (0 < n)%nat → (dealt_to n k (k mod n) * n + k mod n = k)%nat.
Proof.
  intros Hn. unfold dealt_to. rewrite decide_False by lia.
  pose proof (Nat.div_mod_eq k n). lia.
Qed.

Lemma dealt_cells_succ n F flat k r ta :
  (0 < n)%nat → (r < n)%nat → flat !! k = Some ta →
  dealt_cells n F flat (S k) r =
    if decide (r = k mod n) then dealt_cells n F flat k r ++ [Allocation ta]
    else dealt_cells n F flat k r.
Proof.
  intros Hn Hr Hk. unfold dealt_cells. rewrite AllocatorFacts.dealt_to_succ by done.
  case_decide as Hown.
  - rewrite Nat.add_1_r, seq_S, fmap_app, app_assoc. cbn [fmap list_fmap].
    do 2 f_equal. cbn. subst r. by rewrite dealt_to_own, Hk.
  - by rewrite Nat.add_0_r.
Qed.

Lemma allocate_client_described n F flat task sub_task start rows completing k :
  (0 < n)%nat →
  flat !! k = Some (allocation_of task sub_task start k) →
  described n (dealt_cells n F flat k) rows →
  let r := allocate_client n task sub_task start (rows, completing) k in
  described n (dealt_cells n F flat (S k)) r.1 ∧
  r.2 = completing ++ (if completes_parent sub_task then [k mod n]%nat else []).
Proof.
  intros Hn Hk Hs. cbn [allocate_client fst snd]. split.
  - eapply described_ext; [by apply described_append_at|].
    intros r Hr. cbn beta. by rewrite (dealt_cells_succ _ _ _ _ _ _ Hn Hr Hk).
  - destruct (completes_parent sub_task); [done|by rewrite app_nil_r].
Qed.

Lemma allocate_clients_described n F flat task sub_task start rows completing k m :
  (0 < n)%nat →
  (∀ i, (i < m)%nat →
        flat !! (k + i)%nat = Some (allocation_of task sub_task start (k + i))) →
  described n (dealt_cells n F flat k) rows →
  let r := foldl (allocate_client n task sub_task start) (rows, completing) (seq k m) in
  described n (dealt_cells n F flat (k + m)) r.1 ∧
  r.2 = completing ++
        (if completes_parent sub_task then (λ c, c mod n)%nat <$> seq k m else []).
Proof.
  intros Hn. revert k rows completing.
  induction m as [|m IH]; intros k rows completing Hflat Hs; cbn [seq foldl].
  - rewrite Nat.add_0_r. split; [done|]. cbn.
    destruct (completes_parent sub_task); by rewrite app_nil_r.
  - destruct (allocate_client_described n F flat task sub_task start rows completing k Hn)
      as [Hs' Hc']; [|done|].
    { specialize (Hflat 0%nat). rewrite Nat.add_0_r in Hflat. apply Hflat. lia. }
    destruct (allocate_client n task sub_task start (rows, completing) k)
      as [rows' completing'].
    cbn [fst snd] in Hs', Hc'.
    destruct (IH (S k) rows' completing') as [Hs'' Hc'']; [|done|].
    { intros i Hi. replace (S k + i)%nat with (k + S i)%nat by lia. apply Hflat. lia. }
    cbn zeta. replace (k + S m)%nat with (S k + m)%nat by lia.
    split; [done|]. rewrite Hc'', Hc'.
    destruct (completes_parent sub_task); cbn; by rewrite <- app_assoc.
Qed.

Lemma omap_allocation_of n task sub_task start k m :
  omap (λ ta, if completes_parent (Allocator.task ta)
              then Some (global_client_index ta mod n)%nat else None)
       (allocation_of task sub_task start <$> seq k m) =
  if completes_parent sub_task then (λ c, c mod n)%nat <$> seq k m else [].
Proof.
  revert k. induction m as [|m IH]; intros k; cbn [seq fmap list_fmap omap list_omap].
  - by destruct (completes_parent sub_task).
  - cbn. rewrite IH. by destruct (completes_parent sub_task).
Qed.

Lemma group_allocations_from_length task k subs :
  length (group_allocations_from task k subs) =
  foldr (λ sub_task acc, clients sub_task + acc)%nat 0%nat subs.
Proof.
  revert k. induction subs as [|sub subs IH]; intros k; [done|].
  cbn [group_allocations_from foldr].
  by rewrite length_app, length_fmap, length_seq, IH.
Qed.

Lemma group_allocations_length task :
  length (group_allocations task) = group_clients task.
Proof. apply group_allocations_from_length. Qed.

Lemma allocate_sub_tasks_described n F flat task subs rows completing k pre :
  (0 < n)%nat →
  flat = pre ++ group_allocations_from task k subs →
  length pre = k →
  described n (dealt_cells n F flat k) rows →
  let r := foldl (allocate_sub_task n task) (rows, completing, k) subs in
  r.2 = (k + length (group_allocations_from task k subs))%nat ∧
  described n (dealt_cells n F flat r.2) r.1.1 ∧
  r.1.2 = completing ++
          omap (λ ta, if completes_parent (Allocator.task ta)
                      then Some (global_client_index ta mod n)%nat else None)
               (group_allocations_from task k subs).
Proof.
  intros Hn. revert k rows completing pre.
  induction subs as [|sub subs IH]; intros k rows completing pre Hflat Hpre Hs;
    cbn [foldl group_allocations_from] in Hflat |- *.
  - cbn. rewrite Nat.add_0_r, app_nil_r. by split_and!.
  - cbn [allocate_sub_task].
    destruct (allocate_clients_described n F flat task sub k rows completing k
                (clients sub) Hn) as [Hs' Hc']; [|done|].
    { intros i Hi. rewrite Hflat.
      rewrite lookup_app_r by lia. rewrite Hpre.
      replace (k + i - k)%nat with i by lia.
      rewrite lookup_app_l by (by rewrite length_fmap, length_seq).
      rewrite list_lookup_fmap, lookup_seq_lt by done. done. }
    destruct (foldl (allocate_client n task sub k) (rows, completing) (seq k (clients sub)))
      as [rows' completing'].
    cbn [fst snd] in Hs', Hc'.
    destruct (IH (k + clients sub)%nat rows' completing'
                (pre ++ (allocation_of task sub k <$> seq k (clients sub))))
      as (Hk & Hs'' & Hc''); [| |done|].
    { by rewrite <- app_assoc. }
    { rewrite length_app, length_fmap, length_seq. lia. }
    cbn zeta. split_and!; [|done|].
    + rewrite Hk, length_app, length_fmap, length_seq. lia.
    + rewrite Hc'', Hc', omap_app, omap_allocation_of. by rewrite <- app_assoc.
Qed.

(** The columns of a group once all its clients are dealt and the last
    column is padded. *)
Lemma group_row_dealt n task r P :
  (0 < n)%nat → (r < n)%nat →
  let k := group_clients task in
  (if (0 <? k mod n)%nat
   then if decide (k mod n ≤ r < k mod n + (n - k mod n))%nat
        then dealt_cells n P (group_allocations task) k r ++ [NoAllocation]
        else dealt_cells n P (group_allocations task) k r
   else dealt_cells n P (group_allocations task) k r) =
  P r ++ group_row n task r.
Proof.
  intros Hn Hr k. unfold dealt_cells, group_row.
  rewrite <- (AllocatorFacts.group_width_dealt n task r Hn Hr). cbn zeta. fold k.
  destruct (0 <? k mod n)%nat eqn:Hpad; [|done].
  case_decide as Hin; [|by rewrite Nat.add_0_r].
  rewrite Nat.add_1_r, seq_S, fmap_app, <- app_assoc. cbn [fmap list_fmap].
  do 3 f_equal. cbn.
  rewrite (lookup_ge_None_2 (group_allocations task)); [done|].
  rewrite group_allocations_length. fold k.
  unfold dealt_to. rewrite decide_False by lia.
  pose proof (Nat.div_mod_eq k n). lia.
Qed.

Lemma allocate_task_described n F rows j task :
  (0 < n)%nat →
  described n F rows →
  let r := allocate_task n (rows, j) task in
  r.2 = S j ∧
  described n (λ r, F r ++ group_row n task r ++
                    [Join {| id := j;
                             clients_executing_completing_task :=
                               completing_rows n task |}]) r.1.
Proof.
  intros Hn Hs. cbn [allocate_task].
  destruct (allocate_sub_tasks_described n F (group_allocations task) task
              (sub_tasks task) rows [] 0 [] Hn eq_refl eq_refl)
    as (Hk & Hdealt & Hc).
  { eapply described_ext; [done|]. intros r Hr. unfold dealt_cells, dealt_to.
    rewrite Nat.Div0.div_0_l, Nat.Div0.mod_0_l. cbn. by rewrite app_nil_r. }
  destruct (foldl (allocate_sub_task n task) (rows, [], 0%nat) (sub_tasks task))
    as [[rows' completing] k].
  cbn [fst snd] in Hk, Hdealt, Hc. rewrite Nat.add_0_l in Hk.
  fold (group_allocations task) in Hk, Hc. rewrite group_allocations_length in Hk.
  subst k. cbn [app] in Hc. fold (completing_rows n task) in Hc. subst completing.
  cbn zeta. split; [done|]. cbn [fst].
  eapply described_ext.
  - apply described_append_all.
    instantiate (1 := λ r, F r ++ group_row n task r).
    destruct (0 <? group_clients task mod n)%nat eqn:Hpad.
    + eapply described_ext; [by apply described_append_all|].
      intros r Hr. cbn beta.
      rewrite <- (group_row_dealt n task r F Hn Hr). cbn zeta. by rewrite Hpad.
    + eapply described_ext; [done|].
      intros r Hr. cbn beta.
      rewrite <- (group_row_dealt n task r F Hn Hr). cbn zeta. by rewrite Hpad.
  - intros r Hr. cbn beta. rewrite decide_True by lia.
    by rewrite <- app_assoc.
Qed.

Lemma allocate_tasks_described n F rows j schedule :
  (0 < n)%nat →
  described n F rows →
  described n (λ r, F r ++ row_from n r j schedule)
            (foldl (allocate_task n) (rows, j) schedule).1.
Proof.
  intros Hn. revert F rows j.
  induction schedule as [|task rest IH]; intros F rows j Hs; cbn [foldl row_from].
  - eapply described_ext; [done|]. intros r _. by rewrite app_nil_r.
  - destruct (allocate_task_described n F rows j task Hn Hs) as [Hj Hs'].
    destruct (allocate_task n (rows, j) task) as [rows' j'].
    cbn [fst snd] in Hj, Hs'. subst j'.
    eapply described_ext; [by apply IH|].
    intros r _. cbn beta. by rewrite <- !app_assoc.
Qed.

Lemma allocations_described schedule :
  described (max_clients schedule) (λ r, row (max_clients schedule) r schedule)
            (allocations schedule).
Proof.
  unfold allocations, row. cbn zeta.
  pose proof (AllocatorFacts.max_clients_positive schedule) as Hn.
  set (n := max_clients schedule) in *.
  eapply described_ext.
  - apply (allocate_tasks_described n
             (λ _, [Join {| id := 0; clients_executing_completing_task := [] |}]));
      [done|].
    eapply described_ext.
    + apply described_append_all. instantiate (1 := λ _, []).
      split; [by rewrite length_replicate|].
      intros r row [-> _]%lookup_replicate. done.
    + intros r Hr. cbn beta. by rewrite decide_True by lia.
  - done.
Qed.

Lemma group_allocations_from_index task k subs i ta :
  group_allocations_from task k subs !! i = Some ta →
  global_client_index ta = k + i.
Proof.
  revert k i. induction subs as [|sub subs IH]; intros k i; [done|].
  cbn [group_allocations_from]. intros Hi.
  apply lookup_app_Some in Hi as [Hi|[Hlen Hi]].
  - apply list_lookup_fmap_Some in Hi as (c & -> & Hc).
    apply lookup_seq in Hc as [-> _]. done.
  - rewrite length_fmap, length_seq in Hlen, Hi.
    apply IH in Hi. lia.
Qed.

Lemma row_from_client n r first schedule ta :
  0 < n → r < n →
  Allocation ta ∈ row_from n r first schedule →
  global_client_index ta mod n = r.
Proof.
  intros Hn Hr. revert first.
  induction schedule as [|task rest IH]; intros first; cbn [row_from].
  - by intros ?%elem_of_nil.
  - rewrite !elem_of_app. intros [Hin|[Hin|Hin]].
    + unfold group_row in Hin.
      apply list_elem_of_fmap in Hin as (j & Hcell & _).
      destruct (group_allocations task !! (j * n + r)) as [ta'|] eqn:Hta; [|done].
      injection Hcell as ->.
      apply group_allocations_from_index in Hta. rewrite Hta. cbn.
      rewrite Nat.add_comm, Nat.Div0.mod_add. by apply Nat.mod_small.
    + by apply list_elem_of_singleton in Hin.
    + by eapply IH.
Qed.

(** X26. The allocation matrix in closed form. With [n] the maximum
    number of clients, row [r] is [JoinPoint(0)] and then, for each element
    of the schedule, its columns and the next join point. In column [j] of
    an element, row [r] holds the task allocation of the client with global
    index [j * n + r], the sub-tasks getting consecutive global indices in
    their order, or [None] when the element has no such client. The join
    point after an element lists the rows of the clients whose sub-task
    completes the parent. So the client with global index [c] is always
    placed in row [c mod n]. *)
Theorem allocations_place_clients schedule :
  let n := max_clients schedule in
  allocations schedule = (λ r, row n r schedule) <$> seq 0 n ∧
  ∀ r cells ta,
    allocations schedule !! r = Some cells →
    Allocation ta ∈ cells →
    global_client_index ta mod n = r.
Proof.
  cbn zeta.
  pose proof (AllocatorFacts.max_clients_positive schedule) as Hn.
  destruct (allocations_described schedule) as [Hlen Hrows].
  split; [by apply described_eq|].
  intros r cells ta Hr Hin.
  assert (r < max_clients schedule) as Hlt.
  { rewrite <- Hlen. by eapply lookup_lt_Some. }
  rewrite (Hrows r cells Hr) in Hin. unfold row in Hin.
  apply elem_of_cons in Hin as [?|Hin]; [done|].
  by eapply row_from_client.
Qed.

(** *** The tasks between two join points *)

Lemma take_plus {A} (l : list A) a b : take (a + b) l = take a l ++ take b (drop a l).
Proof.
  revert l. induction a as [|a IH]; intros [|x l]; cbn; try done.
  - by rewrite take_nil.
  - by rewrite IH.
Qed.

Section columns.
Variables (n : nat) (allocs : list (list cell)) (R : nat → list cell).
Hypothesis Hn : 0 < n.
Hypothesis Hrows : ∀ r, r < n → allocs !! r = Some (R r).

Lemma visit_cell_lookup idx tasks current r x :
  r < n → R r !! idx = Some x →
  visit_cell allocs idx (tasks, current) r =
    match x with
    | Allocation ta => Done (tasks, current ++ [Allocator.task ta])
    | Join _ =>
        if 0 <? length current then Done (tasks ++ [current], [])
        else Done (tasks, current)
    | NoAllocation => Done (tasks, current)
    end.
Proof.
  intros Hr Hx. unfold visit_cell. rewrite Hrows by done. cbn. by rewrite Hx.
Qed.

Lemma visit_cells_join idx tasks current a len :
  a + len ≤ n →
  (∀ r, r < n → ∃ jp, R r !! idx = Some (Join jp)) →
  foldlM (visit_cell allocs idx) (tasks, current) (seq a len) =
    Done (if (0 <? len) && (0 <? length current)
          then (tasks ++ [current], []) else (tasks, current)).
Proof.
  intros Hlen Hjoin. revert a tasks current Hlen.
  induction len as [|len IH]; intros a tasks current Hlen; [done|].
  cbn [seq foldlM].
  destruct (Hjoin a) as [jp Hjp]; [lia|].
  rewrite (visit_cell_lookup idx tasks current a _ ltac:(lia) Hjp).
  destruct current as [|t current]; cbn [length Nat.ltb Nat.leb andb mbind attempt_bind].
  - rewrite IH by lia. cbn. by rewrite andb_false_r.
  - rewrite IH by lia. cbn. by rewrite andb_false_r.
Qed.

Lemma visit_column_join idx tasks current :
  (∀ r, r < n → ∃ jp, R r !! idx = Some (Join jp)) →
  visit_column n allocs (tasks, current) idx =
    Done (if 0 <? length current then (tasks ++ [current], []) else (tasks, current)).
Proof.
  intros Hjoin. unfold visit_column.
  rewrite visit_cells_join by (done || lia).
  by rewrite (proj2 (Nat.ltb_lt 0 n) Hn).
Qed.

Lemma visit_cells_group idx flat j tasks current a len :
  a + len ≤ n →
  (∀ r, r < n → R r !! idx = Some (cell_of (flat !! (j * n + r)))) →
  foldlM (visit_cell allocs idx) (tasks, current) (seq a len) =
    Done (tasks, current ++ (Allocator.task <$> take len (drop (j * n + a) flat))).
Proof.
  intros Hlen Hcell. revert a current Hlen.
  induction len as [|len IH]; intros a current Hlen.
  - cbn. by rewrite app_nil_r.
  - cbn [seq foldlM].
    rewrite (visit_cell_lookup idx tasks current a _ ltac:(lia) (Hcell a ltac:(lia))).
    destruct (flat !! (j * n + a)) as [ta|] eqn:Hta; cbn [cell_of mbind attempt_bind].
    + rewrite IH by lia. rewrite (drop_S _ _ _ Hta). cbn [take fmap list_fmap].
      rewrite <- app_assoc. cbn. by rewrite Nat.add_succ_r.
    + rewrite IH by lia. apply lookup_ge_None in Hta.
      by rewrite !drop_ge, !take_nil by lia.
Qed.

Lemma visit_column_group idx flat j tasks current :
  (∀ r, r < n → R r !! idx = Some (cell_of (flat !! (j * n + r)))) →
  visit_column n allocs (tasks, current) idx =
    Done (tasks, current ++ (Allocator.task <$> take n (drop (j * n) flat))).
Proof.
  intros Hcell. unfold visit_column.
  rewrite (visit_cells_group idx flat j) by (done || lia).
  by rewrite Nat.add_0_r.
Qed.

Lemma visit_columns_group off flat w tasks current j0 len :
  j0 + len ≤ w →
  (∀ j r, j < w → r < n → R r !! (off + j) = Some (cell_of (flat !! (j * n + r)))) →
  foldlM (visit_column n allocs) (tasks, current) (seq (off + j0) len) =
    Done (tasks, current ++ (Allocator.task <$> take (len * n) (drop (j0 * n) flat))).
Proof.
  intros Hlen Hcell. revert j0 current Hlen.
  induction len as [|len IH]; intros j0 current Hlen.
  - cbn. by rewrite app_nil_r.
  - cbn [seq foldlM].
    rewrite (visit_column_group (off + j0) flat j0) by (intros; apply Hcell; lia).
    cbn [mbind attempt_bind].
    replace (S (off + j0)) with (off + S j0) by lia.
    rewrite IH by lia. rewrite <- app_assoc, <- fmap_app.
    do 3 f_equal.
    replace (S j0 * n) with (j0 * n + n) by lia.
    replace (S len * n) with (n + len * n) by lia.
    by rewrite take_plus, drop_drop.
Qed.
End columns.

Lemma group_width_covers n task :
  0 < n → group_clients task ≤ group_width n task * n.
Proof.
  intros Hn. unfold group_width.
  pose proof (Nat.div_mod_eq (group_clients task) n) as Hk.
  pose proof (Nat.mod_upper_bound (group_clients task) n ltac:(lia)) as Hm.
  destruct (Nat.ltb_spec 0 (group_clients task mod n)); lia.
Qed.

Lemma group_row_length n task r : length (group_row n task r) = group_width n task.
Proof. unfold group_row. by rewrite length_fmap, length_seq. Qed.

Lemma row_from_length n r first schedule :
  length (row_from n r first schedule) = length (row_from n 0 first schedule).
Proof.
  revert first. induction schedule as [|task rest IH]; intros first; [done|].
  cbn [row_from]. rewrite !length_app, !group_row_length. cbn [length].
  by rewrite IH.
Qed.

(** The entries of [tasks_per_joinpoint]: for every schedule element that
    has a client, the tasks of its clients in the order of their global
    index. *)
Lemma visit_columns_schedule n allocs R schedule first off tasks :
  0 < n →
  (∀ r, r < n → allocs !! r = Some (R r)) →
  (∀ r, r < n → ∃ P, R r = P ++ row_from n r first schedule ∧ length P = off) →
  foldlM (visit_column n allocs) (tasks, [])
         (seq off (length (row_from n 0 first schedule))) =
    Done (tasks ++ ((λ task, Allocator.task <$> group_allocations task) <$>
                      filter (λ task, has_clients task) schedule), []).
Proof.
  intros Hn Hrows. revert first off tasks.
  induction schedule as [|task rest IH]; intros first off tasks HR.
  - cbn. by rewrite app_nil_r.
  - cbn [row_from]. rewrite !length_app, group_row_length. cbn [length].
    rewrite seq_app. cbn [seq]. rewrite AssignmentFacts.foldlM_app.
    pose proof (visit_columns_group n allocs R Hn Hrows off (group_allocations task)
                  (group_width n task) tasks [] 0 (group_width n task)) as Hgroup.
    rewrite Nat.add_0_r in Hgroup. rewrite Hgroup; clear Hgroup; [|lia|].
    2:{ intros j r Hj Hr. destruct (HR r Hr) as (P & -> & HP).
        cbn [row_from]. rewrite lookup_app_r by lia.
        replace (off + j - length P) with j by lia.
        rewrite lookup_app_l by (rewrite group_row_length; lia).
        unfold group_row. by rewrite list_lookup_fmap, lookup_seq_lt. }
    cbn [mbind attempt_bind app]. rewrite drop_0.
    rewrite take_ge by (rewrite group_allocations_length; by apply group_width_covers).
    change (1 + ?x) with (S x). cbn [seq foldlM].
    rewrite (visit_column_join n allocs R Hn Hrows).
    2:{ intros r Hr. destruct (HR r Hr) as (P & -> & HP).
        cbn [row_from]. rewrite lookup_app_r by lia.
        rewrite lookup_app_r by (rewrite group_row_length; lia).
        rewrite group_row_length.
        replace (off + group_width n task - length P - group_width n task) with 0 by lia.
        by eexists. }
    cbn [mbind attempt_bind].
    rewrite length_fmap, group_allocations_length.
    fold (has_clients task).
    replace (S (off + group_width n task)) with (off + group_width n task + 1) by lia.
    destruct (has_clients task) eqn:Hhas.
    + rewrite (IH (S first) (off + group_width n task + 1)).
      * rewrite filter_cons_True by (by rewrite Hhas).
        cbn [fmap list_fmap]. by rewrite <- app_assoc.
      * intros r Hr. destruct (HR r Hr) as (P & -> & HP).
        eexists (P ++ group_row n task r ++ [_]). split.
        -- cbn [row_from]. by rewrite <- !app_assoc.
        -- rewrite !length_app, group_row_length. cbn. lia.
    + assert (group_allocations task = []) as ->.
      { apply length_zero_iff_nil. rewrite group_allocations_length.
        unfold has_clients in Hhas. apply Nat.ltb_ge in Hhas. lia. }
      cbn [fmap list_fmap].
      rewrite (IH (S first) (off + group_width n task + 1)).
      * rewrite filter_cons_False by (rewrite Hhas; exact (λ H, H)). done.
      * intros r Hr. destruct (HR r Hr) as (P & -> & HP).
        eexists (P ++ group_row n task r ++ [_]). split.
        -- cbn [row_from]. by rewrite <- !app_assoc.
        -- rewrite !length_app, group_row_length. cbn. lia.
Qed.

Lemma tasks_per_joinpoint_closed schedule :
  tasks_per_joinpoint schedule =
    Done ((λ task, Allocator.task <$> group_allocations task) <$>
            filter (λ task, has_clients task) schedule).
Proof.
  unfold tasks_per_joinpoint. cbn zeta.
  pose proof (AllocatorFacts.max_clients_positive schedule) as Hn.
  rewrite (described_eq _ _ _ (allocations_described schedule)).
  set (n := max_clients schedule) in *.
  set (R := λ r, row n r schedule).
  assert (∀ r, r < n → (R <$> seq 0 n) !! r = Some (R r)) as Hrows.
  { intros r Hr. by rewrite list_lookup_fmap, lookup_seq_lt. }
  rewrite (Hrows 0 Hn). unfold R at 2, row. cbn [length seq foldlM].
  rewrite (visit_column_join n _ R Hn Hrows).
  2:{ intros r Hr. unfold R, row. by eexists. }
  cbn [length Nat.ltb Nat.leb mbind attempt_bind].
  rewrite (visit_columns_schedule n _ R schedule 1 1 [] Hn Hrows).
  - done.
  - intros r Hr. unfold R, row. by eexists [_].
Qed.

(** The tasks of the clients of an element are its sub-tasks that have a
    client. *)
Lemma group_tasks_from task k subs t :
  t ∈ Allocator.task <$> group_allocations_from task k subs ↔
  t ∈ subs ∧ 0 < clients t.
Proof.
  revert k. induction subs as [|sub subs IH]; intros k; cbn [group_allocations_from].
  - cbn. split; [by intros ?%elem_of_nil|by intros [?%elem_of_nil _]].
  - rewrite fmap_app, elem_of_app, IH, elem_of_cons, <- list_fmap_compose.
    assert (t ∈ (Allocator.task ∘ allocation_of task sub k) <$> seq k (clients sub) ↔
            t = sub ∧ 0 < clients sub) as ->.
    { rewrite list_elem_of_fmap. split.
      - intros (c & -> & Hc%elem_of_seq). cbn. split; [done|lia].
      - intros [-> Hc]. exists k. split; [done|]. apply elem_of_seq. lia. }
    split.
    + intros [[-> Hc]|[Ht Hc]]; split; auto.
    + intros [[->|Ht] Hc]; auto.
Qed.

Lemma group_tasks task t :
  t ∈ Allocator.task <$> group_allocations task ↔ t ∈ sub_tasks task ∧ 0 < clients t.
Proof. apply group_tasks_from. Qed.

Lemma filter_has_clients schedule :
  Forall (λ task, has_clients task = true) schedule →
  filter (λ task, has_clients task) schedule = schedule.
Proof.
  induction 1 as [|task rest Hhas _ IH]; [done|].
  rewrite filter_cons_True by (by rewrite Hhas). by rewrite IH.
Qed.

Lemma filter_has_clients_length schedule :
  ¬ Forall (λ task, has_clients task = true) schedule →
  length (filter (λ task, has_clients task) schedule) < length schedule.
Proof.
  induction schedule as [|task rest IH]; intros Hnot.
  - destruct Hnot. constructor.
  - pose proof (length_filter (λ task, has_clients task) rest) as Hle.
    destruct (has_clients task) eqn:Hhas.
    + rewrite filter_cons_True by (by rewrite Hhas). cbn [length].
      assert (¬ Forall (λ task, has_clients task = true) rest) as Hrest.
      { intros Hall. apply Hnot. by constructor. }
      specialize (IH Hrest). lia.
    + rewrite filter_cons_False by (rewrite Hhas; exact (λ H, H)). cbn [length]. lia.
Qed.

(** X27. [Allocator.tasks_per_joinpoint] never raises, and has one entry
    for every element of the schedule that has at least one client, in the
    order of the schedule; an element without clients has no entry. The
    entry of an element is not empty and holds exactly its sub-tasks that
    have a client. *)
Theorem tasks_per_joinpoint_entries schedule :
  ∃ entries,
    tasks_per_joinpoint schedule = Done entries ∧
    Forall2 (λ entry task,
               entry ≠ [] ∧ ∀ t, t ∈ entry ↔ t ∈ sub_tasks task ∧ 0 < clients t)
            entries (filter (λ task, has_clients task) schedule).
Proof.
  eexists. split; [apply tasks_per_joinpoint_closed|].
  apply Forall2_fmap_l, Forall_Forall2_diag, Forall_forall.
  intros task [Hhas _]%list_elem_of_filter. split; [|apply group_tasks].
  intros Hnil%(f_equal length). rewrite length_fmap, group_allocations_length in Hnil.
  unfold has_clients in Hhas. apply Is_true_true, Nat.ltb_lt in Hhas. cbn in Hnil. lia.
Qed.

(** X28. When every element of the schedule has at least one client, the
    tasks of a step are those of the element of the schedule at that step:
    [tasks_per_join_point[current_step]] is defined for every step from 0
    to [number_of_steps - 1] and holds the sub-tasks of that element that
    have a client. *)
Theorem step_shows_its_tasks schedule step task :
  Forall (λ task, has_clients task = true) schedule →
  schedule !! step = Some task →
  ∃ current_tasks,
    tasks_of_step schedule (Z.of_nat step) = Done current_tasks ∧
    ∀ t, t ∈ current_tasks ↔ t ∈ sub_tasks task ∧ 0 < clients t.
Proof.
  intros Hall Hstep. unfold tasks_of_step.
  rewrite tasks_per_joinpoint_closed, (filter_has_clients _ Hall).
  cbn [mbind attempt_bind].
  rewrite AssignmentFacts.py_position_nat
    by (rewrite length_fmap; by eapply lookup_lt_Some).
  cbn [mbind option_bind]. rewrite list_lookup_fmap, Hstep. cbn.
  eexists. split; [done|]. apply group_tasks.
Qed.

Lemma step_shows_its_tasks_witness :
  ∃ current_tasks,
    tasks_of_step two_parallel_tasks 0 = Done current_tasks ∧
    ∀ t, t ∈ current_tasks ↔
         t ∈ [leaf "T1" 2 false; leaf "T2" 1 false] ∧ 0 < clients t.
Proof.
  apply (step_shows_its_tasks two_parallel_tasks 0
           {| element_clients := 3;
              sub_tasks := [leaf "T1" 2 false; leaf "T2" 1 false] |}).
  - repeat constructor.
  - reflexivity.
Defined.

(** X29. When some element of the schedule has no client, the list of
    tasks per join point is shorter than the schedule, and reading the
    tasks of the last step, as the progress message of the last join point
    does, raises [IndexError]. *)
Theorem last_step_without_tasks schedule :
  ¬ Forall (λ task, has_clients task = true) schedule →
  tasks_of_step schedule (Z.of_nat (length schedule) - 1) = Raised IndexError.
Proof.
  intros Hnot. unfold tasks_of_step.
  rewrite tasks_per_joinpoint_closed. cbn [mbind attempt_bind].
  pose proof (filter_has_clients_length schedule Hnot) as Hlt.
  rewrite length_fmap. unfold py_position.
  destruct schedule as [|task rest]; [destruct Hnot; constructor|].
  cbn [length] in *.
  rewrite (proj2 (Z.leb_le _ _)), (proj2 (Z.ltb_ge _ _)) by lia.
  cbn [andb]. by rewrite (proj2 (Z.ltb_ge _ _)) by lia.
Qed.

Lemma last_step_without_tasks_witness :
  tasks_of_step idle_then_one 1 = Raised IndexError.
Proof.
  apply (last_step_without_tasks idle_then_one).
  intros Hall. apply Forall_cons in Hall as [Hhas _]. vm_compute in Hhas. discriminate.
Defined.

End PlacementFacts.
